(* ===== verification/_CoqProject ===== *)
-Q . S2P
Prelude.v
Order.v
Core.v
Store.v
Node.v
NodeFacts.v
Mvcc.v
Txn.v
Engine.v
EngineInv.v
EngineOps.v
EngineUndo.v
EnginePurge.v
EngineCommit.v
EngineSys.v
EngineTables.v
EngineThm.v
Tree.v
TreeInv.v
TreeRead.v
TreeChain.v
TreeSplit.v
TreeWrite.v
TreeOps.v
TreePages.v
TreeThm.v
FormatThm.v
Codec.v
Catalog.v
WalRecord.v
WalOps.v
WalOpsFacts.v
WalLog.v
WalLogFacts.v
GroupCommit.v
WalThm.v
Index.v
Sequence.v
Replay.v
Recovery.v
RecoveryInv.v
RecoverySys.v
RecoveryCrash.v
RecoveryThm.v
Numeric.v
NumericFacts.v
NumericThm.v
Float.v
FloatFacts.v
Interval.v
IntervalThm.v
Inet.v
Values.v
IndexKey.v
IndexKeyFacts.v
IndexKeyThm.v
InetFacts.v
InetThm.v
ValuesFacts.v
SetOpsFacts.v
SetOpsThm.v
Range.v
RangeFacts.v
RangeThm.v
RangeCodec.v
Bit.v
BitThm.v
Row.v
RowFacts.v
RowThm.v
Temporal.v
Extract.v
TemporalFacts.v
TemporalThm.v
TemporalText.v
Binary.v
BinaryThm.v
Wire.v
WireThm.v
