(* ===== verification/Prelude.v ===== *)
(** * NusaDB: a verification development

    NusaDB is an SQL database in Rust. A session's statements reach a row engine
    (crate [nusadb-btree]) that keeps versions of rows in clustered trees of
    pages, under a transaction table, a lock table and an undo arena. Changes are
    appended to a log (crate [nusadb-wal]) whose fsyncs are shared by concurrent
    commits; reopening replays the log into a fresh catalog. Above them the SQL
    layer (crate [nusadb-sql]) turns values into stored tuples, index keys, text
    and binary fields, and the wire protocol (crate [nusadb-wire]) carries them.

    ** Conventions

    A fallible call is a [res]: a value, an error, a panic, or fuel run out. A
    method that also mutates runs in the monad [M] of this file. The program is
    built with overflow checks, so unchecked integer arithmetic that overflows
    is a panic; wrapping casts are written out. Bytes are [byte]s, machine
    integers are [Z] kept within predicates such as [i64] and [u32], strings are
    their UTF-8 bytes, doubles are their 64 bits.

    ** Pages and trees

    [Core.v] has the error type and identifiers of [nusadb-core]. [Store.v] has
    the page port as a program type, its laws as the class [StoreLaws], and
    [MemPageStore] as an instance. [Node.v] is [node.rs] byte for byte and
    [Tree.v] is [tree.rs] as page programs. [NodeFacts.v], [TreeInv.v],
    [TreeRead.v], [TreeChain.v], [TreeSplit.v], [TreeWrite.v], [TreeOps.v] and
    [TreePages.v] lead to [TreeThm.v]: on every lawful store the tree refines a
    finite map. [FormatThm.v] has the round trips of the page and row formats.

    ** Rows and transactions

    [Mvcc.v] is [mvcc.rs], [Txn.v] the transaction domain and [Engine.v] the row
    operations of [engine.rs], with a table's tree as the map [TreeThm.v]
    justifies. Sessions and the purger are interleaved as steps in [EngineSys.v];
    [EngineInv.v], [EngineOps.v], [EngineUndo.v], [EnginePurge.v],
    [EngineCommit.v] and [EngineTables.v] keep the invariant, and [EngineThm.v]
    concludes: stable snapshots, atomic commit and rollback, no lost update,
    exclusive locks, exact scans, and a phantom the serializable check misses.
    [Index.v] and [Sequence.v] model [IndexData] and [SeqDomain].

    ** Log and recovery

    [Codec.v] and [Catalog.v] are shared by the codecs. [WalRecord.v], [WalLog.v]
    and [WalLogFacts.v] are the log's records, writer, reader and recovery;
    [WalOps.v] and [WalOpsFacts.v] the engine's logged operations; [WalThm.v] has
    their theorems. [GroupCommit.v] interleaves the critical sections of
    concurrent commits. [Replay.v] rebuilds the catalog, [Recovery.v] is the
    engine with its log, and [RecoveryInv.v], [RecoverySys.v] and
    [RecoveryCrash.v] lead to [RecoveryThm.v]: after a crash anywhere past the
    synced bytes, exactly the transactions whose commit marker survived are
    there, every acknowledged one among them, and the engine runs on.

    ** SQL values

    [Order.v] has the comparators. [Numeric.v], [Float.v], [Interval.v],
    [Inet.v], [Range.v], [Bit.v], [Temporal.v] and [Extract.v] model the types of
    the files they are named after; the [Facts] and [Thm] files beside them,
    [RangeCodec.v] and [TemporalText.v] prove arithmetic, calendar, set and text
    properties. [Values.v] is the value type and its comparison. [IndexKey.v] has
    the order-preserving keys and the set operations; [IndexKeyThm.v] and
    [SetOpsThm.v] (with [IndexKeyFacts.v], [ValuesFacts.v], [SetOpsFacts.v]) show
    that byte order is value order and that every row is counted as SQL says.
    [Row.v], [RowFacts.v] and [RowThm.v] are the tuple codec.

    ** The wire

    [Binary.v] and [BinaryThm.v] are binary fields; [Wire.v] and [WireThm.v] are
    frames, messages, column tags and the framed connection.

    ** Fuel

    Loops that are not structural run on fuel. The tree's loops take it as an
    argument, and its theorems say how much is enough in terms of height and
    number of leaves. The walks along a version chain (visibility, the
    serializable check, freeing) get one unit per arena slot and one more, since
    a chain visits a slot once; the log's loops get one per byte and one more,
    since each record has bytes. The loops on digits, bits and text get the
    length or bound of what they consume. The totality theorem
    of [EngineThm.v] excludes running out in the engine, and the log's theorems
    give its loops' results.

    ** Parameters

    The checksum, compressor and cipher of the log ([LibsOk] states what is
    relied on), the engine's accounting of resident bytes, the readers of text
    literals ([TextForms] of [Row.v]) and five printers ([Printers] of
    [Binary.v]). Text of error messages is left out throughout.

    ** Not modelled

    Concurrency below a method's latches; streaming scans; batch insert;
    approximate counters; catalog changes and uncommitted DDL in the running
    engine; live index maintenance; PREPARE TRANSACTION; the standby's apply; the
    pages of the secondary-index tree, which [Index.v] takes as maps; the paged
    store's cache and files; truncation and rollback of a log file. Of the
    values: square root and logarithm of decimals, float scaling and text of
    intervals, text of network addresses and ranges, TO_CHAR, the float form of
    EXTRACT, session time zones, array text. Of the wire: socket failures, the
    session loop, TLS and authentication. The SQL parser, analyzer, planner and
    executor, the legacy storage crate, the server process and clients, and the
    simulator are outside it: they are large, or I/O, or test doubles. *)

From stdpp Require Import base gmap list sets strings.
From Stdlib Require Import ZArith Lia Strings.Byte.

Create HintDb nusa.

#[global] Arguments N.to_nat : simpl never.
#[global] Arguments bool_decide _ {_} : simpl never.

(** ** Results

    A Rust call returns a value, returns an error ([?] propagates it), panics
    (an index or slice out of range), or, for a loop run on fuel, does not
    finish within the fuel. *)

Inductive res (E A : Type) : Type :=
| Ok (a : A)
| Err (e : E)
| Panic
| Diverge.
Arguments Ok {E A} a.
Arguments Err {E A} e.
Arguments Panic {E A}.
Arguments Diverge {E A}.

Definition rbind {E A B} (m : res E A) (k : A -> res E B) : res E B :=
  match m with
  | Ok a => k a
  | Err e => Err e
  | Panic => Panic
  | Diverge => Diverge
  end.

Definition rmap {E A B} (f : A -> B) (m : res E A) : res E B :=
  rbind m (fun a => Ok (f a)).

(** Calls on shared mutable state: the state survives an error, as the Rust
    object does when [?] returns early. *)
Definition M (E S A : Type) : Type := S -> res E A * S.

Definition sret {E S A} (a : A) : M E S A := fun s => (Ok a, s).
Definition sfail {E S A} (e : E) : M E S A := fun s => (Err e, s).
Definition slift {E S A} (r : res E A) : M E S A := fun s => (r, s).

Definition sbind {E S A B} (m : M E S A) (k : A -> M E S B) : M E S B :=
  fun s =>
    match m s with
    | (Ok a, s') => k a s'
    | (Err e, s') => (Err e, s')
    | (Panic, s') => (Panic, s')
    | (Diverge, s') => (Diverge, s')
    end.

Declare Scope nusa_scope.
Delimit Scope nusa_scope with nusa.
Open Scope nusa_scope.

Notation "'let?' x := m 'in' k" := (rbind m (fun x => k))
  (at level 10, x name, m at level 100, k at level 200) : nusa_scope.
Notation "'let?' ' pat := m 'in' k" := (rbind m (fun 'pat => k))
  (at level 10, pat pattern, m at level 100, k at level 200) : nusa_scope.
Notation "'let*' x := m 'in' k" := (sbind m (fun x => k))
  (at level 10, x name, m at level 100, k at level 200) : nusa_scope.
Notation "'let*' ' pat := m 'in' k" := (sbind m (fun 'pat => k))
  (at level 10, pat pattern, m at level 100, k at level 200) : nusa_scope.
Notation "m1 '>>' m2" := (sbind m1 (fun _ => m2))
  (at level 100, right associativity) : nusa_scope.

(** A fold whose body may fail: the Rust [for] loop with [?] in its body. *)
Fixpoint sfold {E S A B} (f : B -> A -> M E S B) (b : B) (l : list A) : M E S B :=
  match l with
  | [] => sret b
  | x :: l => let* b' := f b x in sfold f b' l
  end.

Lemma sbind_ok {E S A B} (m : M E S A) (k : A -> M E S B) s s' a :
  m s = (Ok a, s') -> sbind m k s = k a s'.
Proof. intros H. unfold sbind. by rewrite H. Qed.

Lemma sbind_err {E S A B} (m : M E S A) (k : A -> M E S B) s s' e :
  m s = (Err e, s') -> sbind m k s = (Err e, s').
Proof. intros H. unfold sbind. by rewrite H. Qed.

Lemma slift_ok {E S A B} (r : res E A) (k : A -> M E S B) s a :
  r = Ok a -> sbind (slift r) k s = k a s.
Proof. by intros ->. Qed.

(** Inversion of a successful bind. *)
Lemma sbind_inv {E S A B} (m : M E S A) (k : A -> M E S B) s s' b :
  sbind m k s = (Ok b, s') -> exists a s1, m s = (Ok a, s1) /\ k a s1 = (Ok b, s').
Proof.
  unfold sbind. destruct (m s) as [[] s1]; intros; simplify_eq; eauto.
Qed.

Lemma rbind_inv {E A B} (m : res E A) (k : A -> res E B) b :
  rbind m k = Ok b -> exists a, m = Ok a /\ k a = Ok b.
Proof. destruct m; simpl; intros; simplify_eq; eauto. Qed.

(** ** Bytes and little-endian integers *)

#[global] Instance byte_eq_dec' : EqDecision byte := Byte.byte_eq_dec.
#[global] Instance byte_countable : Countable byte := inj_countable Byte.to_N Byte.of_N Byte.of_to_N.

Abbreviation bytes := (list byte).

Definition b2z (b : byte) : Z := Z.of_N (Byte.to_N b).
Definition z2b (z : Z) : byte :=
  match Byte.of_N (Z.to_N (z mod 256)) with Some b => b | None => "000"%byte end.

Lemma b2z_range b : (0 <= b2z b < 256)%Z.
Proof. unfold b2z. pose proof (Byte.to_N_bounded b). lia. Qed.

Lemma b2z_z2b z : b2z (z2b z) = (z mod 256)%Z.
Proof.
  unfold b2z, z2b. pose proof (Z.mod_pos_bound z 256 ltac:(lia)).
  destruct (Byte.of_N (Z.to_N (z mod 256))) as [b|] eqn:Hb.
  - apply Byte.to_of_N in Hb. rewrite Hb. lia.
  - apply Byte.of_N_None_iff in Hb. lia.
Qed.

Lemma z2b_b2z b : z2b (b2z b) = b.
Proof.
  unfold z2b. rewrite Z.mod_small by apply b2z_range.
  unfold b2z. rewrite N2Z.id. by rewrite Byte.of_to_N.
Qed.

(** [u64::to_le_bytes] and its siblings at [n] bytes; [from_le_bytes]. *)
Fixpoint le_bytes (n : nat) (z : Z) : bytes :=
  match n with
  | O => []
  | S n => z2b z :: le_bytes n (z / 256)
  end.

Fixpoint le_val (bs : bytes) : Z :=
  match bs with
  | [] => 0
  | b :: bs => b2z b + 256 * le_val bs
  end%Z.

(** Unsigned machine widths. *)
Definition u16 (z : Z) : Prop := (0 <= z < 65536)%Z.
Definition u32 (z : Z) : Prop := (0 <= z < 4294967296)%Z.
Definition u64 (z : Z) : Prop := (0 <= z < 18446744073709551616)%Z.
Definition U16_MAX : Z := 65535.
Definition U64_MAX : Z := 18446744073709551615.

Lemma le_bytes_length n z : length (le_bytes n z) = n.
Proof. revert z. induction n; intros; simpl; auto. Qed.

Lemma le_val_range bs : (0 <= le_val bs < 256 ^ Z.of_nat (length bs))%Z.
Proof.
  induction bs as [|b bs IH]; simpl; [lia|].
  pose proof (b2z_range b).
  rewrite Nat2Z.inj_succ, Z.pow_succ_r by lia. lia.
Qed.

Lemma le_val_bytes n z : (0 <= z < 256 ^ Z.of_nat n)%Z -> le_val (le_bytes n z) = z.
Proof.
  revert z. induction n as [|n IH]; intros z Hz; simpl in *; [lia|].
  rewrite Nat2Z.inj_succ, Z.pow_succ_r in Hz by lia.
  rewrite b2z_z2b, IH.
  - pose proof (Z.div_mod z 256). lia.
  - split; [apply Z.div_pos; lia|]. apply Z.div_lt_upper_bound; lia.
Qed.

Lemma le_bytes_val bs : le_bytes (length bs) (le_val bs) = bs.
Proof.
  induction bs as [|b bs IH]; simpl; [done|].
  assert (z2b (b2z b + 256 * le_val bs) = b) as ->.
  { rewrite <- (z2b_b2z b) at 2. unfold z2b.
    by rewrite Z.mul_comm, Z_mod_plus_full. }
  rewrite Z.add_comm, Z.mul_comm, Z.div_add_l by lia.
  rewrite (Z.div_small (b2z b)) by apply b2z_range.
  by rewrite Z.add_0_r, IH.
Qed.

Lemma le_val_bytes_u16 z : u16 z -> le_val (le_bytes 2 z) = z.
Proof. intros H. apply le_val_bytes. unfold u16 in H. simpl. lia. Qed.
Lemma le_val_bytes_u32 z : u32 z -> le_val (le_bytes 4 z) = z.
Proof. intros H. apply le_val_bytes. unfold u32 in H. simpl. lia. Qed.
Lemma le_val_bytes_u64 z : u64 z -> le_val (le_bytes 8 z) = z.
Proof. intros H. apply le_val_bytes. unfold u64 in H. simpl. lia. Qed.

Lemma le_val_u16 bs : length bs = 2 -> u16 (le_val bs).
Proof. intros H. pose proof (le_val_range bs). rewrite H in *. done. Qed.
Lemma le_val_u64 bs : length bs = 8 -> u64 (le_val bs).
Proof. intros H. pose proof (le_val_range bs). rewrite H in *. done. Qed.

#[global] Opaque le_bytes le_val.

(** ** Slices of byte arrays

    [slice l a b] is [&l[a..b]] and [store_at l at bs] is
    [l[at..at + bs.len()].copy_from_slice(bs)]: both panic out of range. *)

Definition slice {E A} (l : list A) (a b : nat) : res E (list A) :=
  if decide (a <= b /\ b <= length l) then Ok (take (b - a) (drop a l)) else Panic.

Definition splice {A} (l : list A) (at_ : nat) (bs : list A) : list A :=
  take at_ l ++ bs ++ drop (at_ + length bs) l.

Definition store_at {E A} (l : list A) (at_ : nat) (bs : list A) : res E (list A) :=
  if decide (at_ + length bs <= length l) then Ok (splice l at_ bs) else Panic.

(** [l.get(a..b)]: the checked form, [None] out of range. *)
Definition get_range {A} (l : list A) (a b : nat) : option (list A) :=
  if decide (a <= b /\ b <= length l) then Some (take (b - a) (drop a l)) else None.

Lemma list_split {A} (l : list A) n :
  n <= length l -> exists l1 l2, l = l1 ++ l2 /\ length l1 = n.
Proof.
  intros H. exists (take n l), (drop n l). rewrite take_drop, length_take. split; [done|lia].
Qed.

Lemma length_splice {A} (l : list A) at_ bs :
  at_ + length bs <= length l -> length (splice l at_ bs) = length l.
Proof. intros H. unfold splice. rewrite !length_app, length_take, length_drop. lia. Qed.

Lemma store_at_ok {E A} (l : list A) at_ bs :
  at_ + length bs <= length l -> store_at (E:=E) l at_ bs = Ok (splice l at_ bs).
Proof. intros H. unfold store_at. by rewrite decide_True. Qed.

Lemma slice_ok {E A} (l : list A) a b :
  a <= b -> b <= length l -> slice (E:=E) l a b = Ok (take (b - a) (drop a l)).
Proof. intros. unfold slice. by rewrite decide_True. Qed.

(** Reading at an offset where a known prefix starts. *)
Lemma slice_prefix {E A} (l : list A) a b x r :
  drop a l = x ++ r -> b = a + length x -> a <= length l -> slice (E:=E) l a b = Ok x.
Proof.
  intros Hd -> Ha.
  assert (length (drop a l) = length (x ++ r)) as Hl by by rewrite Hd.
  rewrite length_drop, length_app in Hl.
  rewrite slice_ok by lia. rewrite Hd.
  by rewrite take_app_length' by lia.
Qed.

Lemma get_range_prefix {A} (l : list A) a b x r :
  drop a l = x ++ r -> b = a + length x -> a <= length l -> get_range l a b = Some x.
Proof.
  intros Hd -> Ha.
  assert (length (drop a l) = length (x ++ r)) as Hl by by rewrite Hd.
  rewrite length_drop, length_app in Hl.
  unfold get_range. rewrite decide_True by lia. rewrite Hd.
  by rewrite take_app_length' by lia.
Qed.

Lemma drop_prefix {A} (l : list A) a n x r :
  drop a l = x ++ r -> n = length x -> drop (a + n) l = r.
Proof. intros Hd ->. by rewrite <- drop_drop, Hd, drop_app_length. Qed.

(** What a splice leaves where it did not write. *)
Lemma drop_splice_after {A} (l : list A) at_ bs n :
  at_ + length bs <= n -> n <= length l -> drop n (splice l at_ bs) = drop n l.
Proof.
  intros H Hn. unfold splice.
  rewrite !drop_app, length_take.
  rewrite (drop_ge (take _ _)) by (rewrite length_take; lia).
  rewrite (drop_ge bs) by lia. simpl. rewrite drop_drop. f_equal. lia.
Qed.

Lemma take_splice_before {A} (l : list A) at_ bs n :
  n <= at_ -> at_ <= length l -> take n (splice l at_ bs) = take n l.
Proof.
  intros H Hl. unfold splice.
  rewrite take_app_le by (rewrite length_take; lia).
  rewrite take_take. f_equal. lia.
Qed.

Lemma drop_splice_at {A} (l : list A) at_ bs :
  at_ <= length l -> drop at_ (splice l at_ bs) = bs ++ drop (at_ + length bs) l.
Proof.
  intros H. unfold splice. rewrite drop_app_length'; [done|]. rewrite length_take. lia.
Qed.

Lemma slice_splice_same {E A} (l : list A) at_ bs b :
  at_ + length bs <= length l -> b = at_ + length bs ->
  slice (E:=E) (splice l at_ bs) at_ b = Ok bs.
Proof.
  intros H ->. eapply slice_prefix; [apply drop_splice_at; lia|done|].
  rewrite length_splice; lia.
Qed.

Lemma slice_splice_other {E A} (l : list A) at_ bs a b :
  at_ + length bs <= length l -> b <= at_ \/ at_ + length bs <= a ->
  slice (E:=E) (splice l at_ bs) a b = slice l a b.
Proof.
  intros H Hd. unfold slice. rewrite length_splice by done.
  case_decide as Hr; [|done]. f_equal.
  destruct Hd as [Hd|Hd].
  - rewrite !take_drop_commute.
    by rewrite take_splice_before by lia.
  - by rewrite drop_splice_after by lia.
Qed.

(** Reading and writing the middle of a three-part layout. *)
Lemma slice_mid {E A} (x m y : list A) a b :
  a = length x -> b = a + length m -> slice (E:=E) (x ++ m ++ y) a b = Ok m.
Proof.
  intros -> ->. apply (slice_prefix _ _ _ m y); [|done|rewrite length_app; lia].
  by rewrite drop_app_length.
Qed.

Lemma store_at_mid {E A} (x old y new : list A) at_ :
  at_ = length x -> length old = length new ->
  store_at (E:=E) (x ++ old ++ y) at_ new = Ok (x ++ new ++ y).
Proof.
  intros -> Hl. rewrite store_at_ok by (rewrite !length_app; lia).
  unfold splice. rewrite take_app_length, <- drop_drop, drop_app_length.
  by rewrite <- Hl, drop_app_length.
Qed.

Lemma lookup_mid {A} (x : list A) (m : A) y i : i = length x -> (x ++ m :: y) !! i = Some m.
Proof. intros ->. by rewrite list_lookup_middle. Qed.

(** Arithmetic on lengths, with the development's length lemmas. *)
Create HintDb len.
#[export] Hint Rewrite @length_app @length_replicate @le_bytes_length @length_take
  @length_drop @length_cons @length_nil : len.
Create HintDb consts.
Ltac len := autounfold with consts in *; autorewrite with len in *; simpl in *; lia.
