(* ===== verification/Order.v ===== *)
(** * Orderings

    The comparators of the code, as functions to [comparison] ([Ordering]): the
    lexicographic order of slices and byte strings, [Ordering::then], and big
    endian integers, whose byte order is their numeric order. [TotalCmp] is what a
    sort asks of a comparator on the values it sorts. *)

From S2P Require Import Prelude.
From stdpp Require Import base list.
From Stdlib Require Import ZArith Lia Strings.Byte.
#[local] Open Scope Z_scope.

(** [Ordering::then] *)
Definition then_cmp (c d : comparison) : comparison := match c with Eq => d | _ => c end.

(** [Ord for [T]]: the first difference decides, then the length. *)
Fixpoint cmp_list {A B} (cmp : A -> B -> comparison) (a : list A) (b : list B) : comparison :=
  match a, b with
  | [], [] => Eq
  | [], _ :: _ => Lt
  | _ :: _, [] => Gt
  | x :: a, y :: b => then_cmp (cmp x y) (cmp_list cmp a b)
  end.

Definition cmp_byte (x y : byte) : comparison := b2z x ?= b2z y.

(** [Ord for [u8]] slices, also the order of Rust strings. *)
Definition cmp_bytes : bytes -> bytes -> comparison := cmp_list cmp_byte.

(** [Ord for bool]: [false] first. *)
Definition cmp_bool (a b : bool) : comparison := Z.b2z a ?= Z.b2z b.

(** [std::ops::Bound] *)
Inductive Bound (A : Type) : Type :=
| Included (a : A)
| Excluded (a : A)
| Unbounded.
Arguments Included {A} a.
Arguments Excluded {A} a.
Arguments Unbounded {A}.

(** ** TotalCmp preorders on the values of a kind *)

Class TotalCmp {A} (P : A -> Prop) (cmp : A -> A -> comparison) : Prop := {
  total_opp a b : P a -> P b -> cmp b a = CompOpp (cmp a b);
  total_trans a b c : P a -> P b -> P c -> cmp a b <> Gt -> cmp b c <> Gt -> cmp a c <> Gt }.

Section total.
Context {A} (P : A -> Prop) (cmp : A -> A -> comparison) `{!TotalCmp P cmp}.

Lemma total_refl a : P a -> cmp a a = Eq.
Proof. intros H. pose proof (total_opp a a H H) as E. destruct (cmp a a); done. Qed.

Lemma total_eq_trans a b c d : P a -> P b -> P c -> cmp a b = Eq -> cmp b c = d -> cmp a c = d.
Proof.
  intros Ha Hb Hc E1 E2. subst d.
  pose proof (total_opp a b Ha Hb) as O1. pose proof (total_opp b c Hb Hc) as O2.
  pose proof (total_opp a c Ha Hc) as O3.
  pose proof (total_trans a b c Ha Hb Hc) as T1. pose proof (total_trans b a c Hb Ha Hc) as T2.
  pose proof (total_trans c a b Hc Ha Hb) as T3. pose proof (total_trans c b a Hc Hb Ha) as T4.
  rewrite E1 in *. cbn in *. rewrite O1 in *.
  destruct (cmp a c) eqn:E3, (cmp b c) eqn:E4; cbn in *; try done; rewrite ?O2, ?O3 in *; naive_solver.
Qed.

Lemma total_lt_trans a b c : P a -> P b -> P c -> cmp a b = Lt -> cmp b c = Lt -> cmp a c = Lt.
Proof.
  intros Ha Hb Hc E1 E2.
  assert (cmp a c <> Gt) as Hn by (eapply (total_trans a b c); try done; congruence).
  destruct (cmp a c) eqn:E3; [|done|done].
  pose proof (total_opp a c Ha Hc) as O. rewrite E3 in O. cbn in O.
  pose proof (total_eq_trans c a b _ Hc Ha Hb O E1) as E4.
  pose proof (total_opp b c Hb Hc) as O2. rewrite E2 in O2. cbn in O2. congruence.
Qed.

Lemma total_eq_lt x y z : P x -> P y -> P z -> cmp x y = Lt -> cmp y z = Eq -> cmp x z = Lt.
Proof.
  intros Hx Hy Hz E1 E2. pose proof (total_opp y z Hy Hz) as O1. pose proof (total_opp x y Hx Hy) as O2.
  pose proof (total_opp z x Hz Hx) as O3. rewrite E1, E2 in *. cbn in *.
  by rewrite (total_eq_trans z y x Gt Hz Hy Hx O1 O2) in O3.
Qed.

Lemma total_map {B} (Q : B -> Prop) (f : B -> A) :
  (forall b, Q b -> P (f b)) -> TotalCmp Q (fun x y => cmp (f x) (f y)).
Proof.
  intros H. split; intros; [by apply total_opp; apply H|].
  by apply (total_trans (f a) (f b) (f c)); try apply H.
Qed.

Lemma total_list : TotalCmp (Forall P) (cmp_list cmp).
Proof.
  split.
  - intros a. induction a as [|x a IH]; intros [|y b]; try done.
    intros [Hx Ha]%Forall_cons [Hy Hb]%Forall_cons. cbn.
    rewrite (total_opp x y), IH by done. by destruct (cmp x y).
  - intros a. induction a as [|x a IH]; intros [|y b] [|z c]; try done.
    intros [Hx Ha]%Forall_cons [Hy Hb]%Forall_cons [Hz Hc]%Forall_cons. cbn. intros H1 H2.
    destruct (cmp x y) eqn:E1, (cmp y z) eqn:E2; cbn in *; try done.
    + rewrite (total_eq_trans x y z Eq) by done. cbn. by apply (IH b c).
    + by rewrite (total_eq_trans x y z Lt).
    + by rewrite (total_eq_lt x y z).
    + by rewrite (total_lt_trans x y z).
Qed.

(** Ties of a first comparator broken by a second. *)
Lemma total_then (cmp' : A -> A -> comparison) :
  TotalCmp P cmp' -> TotalCmp P (fun a b => then_cmp (cmp a b) (cmp' a b)).
Proof.
  intros T'. split.
  - intros a b Ha Hb. rewrite (total_opp a b Ha Hb), (@total_opp _ _ _ T' a b Ha Hb). by destruct (cmp a b).
  - intros x y z Hx Hy Hz H1 H2.
    destruct (cmp x y) eqn:E1, (cmp y z) eqn:E2; cbn in *; try done.
    + rewrite (total_eq_trans x y z Eq) by done. cbn. by apply (@total_trans _ _ _ T' x y z).
    + by rewrite (total_eq_trans x y z Lt).
    + by rewrite (total_eq_lt x y z).
    + by rewrite (total_lt_trans x y z).
Qed.
End total.

#[global] Instance total_Z : TotalCmp (fun _ : Z => True) Z.compare.
Proof.
  split.
  - intros a b _ _. apply Z.compare_antisym.
  - intros a b c _ _ _. rewrite !Z.compare_le_iff. lia.
Qed.

Lemma total_weaken {A} (P Q : A -> Prop) cmp : (forall a, Q a -> P a) -> TotalCmp P cmp -> TotalCmp Q cmp.
Proof.
  intros H T. split; intros; [apply T; auto|].
  by apply (@total_trans _ _ _ T a b c); auto.
Qed.

Lemma total_ext {A} (P : A -> Prop) cmp cmp' :
  (forall a b, P a -> P b -> cmp' a b = cmp a b) -> TotalCmp P cmp -> TotalCmp P cmp'.
Proof.
  intros H T. split; intros a b *; intros; rewrite !H in * by done; [by apply T|].
  by eapply (@total_trans _ _ _ T a b).
Qed.

#[global] Instance total_byte : TotalCmp (fun _ => True) cmp_byte.
Proof. apply (total_map (fun _ => True) Z.compare (fun _ => True) b2z). done. Qed.
#[global] Instance total_bool : TotalCmp (fun _ => True) cmp_bool.
Proof. apply (total_map (fun _ => True) Z.compare (fun _ => True) Z.b2z). done. Qed.
#[global] Instance total_bytes : TotalCmp (fun _ => True) cmp_bytes.
Proof.
  apply (total_weaken (Forall (fun _ => True))); [|apply total_list, _].
  intros a _. by apply Forall_true.
Qed.

(** ** Byte strings *)

Lemma cmp_list_eq {A} (cmp : A -> A -> comparison) a b :
  (forall x y, cmp x y = Eq -> x = y) -> cmp_list cmp a b = Eq -> a = b.
Proof.
  intros H. revert b. induction a as [|x a IH]; intros [|y b]; try done. cbn.
  destruct (cmp x y) eqn:E; try done. intros. f_equal; auto.
Qed.

Lemma cmp_byte_eq x y : cmp_byte x y = Eq -> x = y.
Proof. intros E%Z.compare_eq. by rewrite <- (z2b_b2z x), E, z2b_b2z. Qed.

Lemma cmp_bytes_eq a b : cmp_bytes a b = Eq <-> a = b.
Proof.
  split; [apply cmp_list_eq, cmp_byte_eq|intros ->]. by apply (total_refl (fun _ => True) cmp_bytes).
Qed.

(** The first of two equally long parts decides. *)
Lemma cmp_list_app {A} (cmp : A -> A -> comparison) a a' b b' :
  length a = length b ->
  cmp_list cmp (a ++ a') (b ++ b') = then_cmp (cmp_list cmp a b) (cmp_list cmp a' b').
Proof.
  revert b. induction a as [|x a IH]; intros [|y b] H; try done. cbn in *.
  rewrite IH by lia. by destruct (cmp x y).
Qed.

Lemma cmp_list_prefix {A} (cmp : A -> A -> comparison) p a b :
  (forall x, cmp x x = Eq) -> cmp_list cmp (p ++ a) (p ++ b) = cmp_list cmp a b.
Proof. intros H. induction p as [|x p IH]; [done|]. cbn. by rewrite H, IH. Qed.

(** ** Big-endian integers ([to_be_bytes]) *)

Definition be_bytes (n : nat) (z : Z) : bytes := reverse (le_bytes n z).

Lemma be_bytes_length n z : length (be_bytes n z) = n.
Proof. unfold be_bytes. by rewrite length_reverse, le_bytes_length. Qed.

Lemma be_bytes_S n z : be_bytes (S n) z = be_bytes n (z / 256) ++ [z2b z].
Proof. unfold be_bytes. Transparent le_bytes. cbn [le_bytes]. by rewrite reverse_cons. Opaque le_bytes. Qed.

(** Byte order is numeric order. *)
Lemma cmp_be_bytes n a b :
  0 <= a < 256 ^ Z.of_nat n -> 0 <= b < 256 ^ Z.of_nat n ->
  cmp_bytes (be_bytes n a) (be_bytes n b) = (a ?= b).
Proof.
  revert a b. induction n as [|n IH]; intros a b Ha Hb.
  - cbn in *. replace a with 0 by lia. by replace b with 0 by lia.
  - rewrite Nat2Z.inj_succ, Z.pow_succ_r in Ha, Hb by lia.
    rewrite !be_bytes_S. unfold cmp_bytes. rewrite cmp_list_app by (by rewrite !be_bytes_length).
    fold cmp_bytes. rewrite IH by (split; [apply Z.div_pos|apply Z.div_lt_upper_bound]; lia).
    cbn. unfold cmp_byte. rewrite !b2z_z2b.
    pose proof (Z.div_mod a 256). pose proof (Z.div_mod b 256).
    pose proof (Z.mod_pos_bound a 256). pose proof (Z.mod_pos_bound b 256).
    destruct (Z.compare_spec (a / 256) (b / 256)); cbn; symmetry.
    + destruct (Z.compare_spec (a mod 256) (b mod 256)); cbn; rewrite ?Z.compare_eq_iff, ?Z.compare_lt_iff, ?Z.compare_gt_iff; lia.
    + apply Z.compare_lt_iff. lia.
    + apply Z.compare_gt_iff. lia.
Qed.

(** ** Building total comparators *)

(** Two classes of values, one below the other. *)
Lemma total_sum {A} (P Q : A -> Prop) cmp :
  TotalCmp P cmp -> TotalCmp Q cmp -> (forall a b, P a -> Q b -> cmp a b = Lt /\ cmp b a = Gt) ->
  TotalCmp (fun a => P a \/ Q a) cmp.
Proof.
  intros TP TQ H. split.
  - intros a b [Ha|Ha] [Hb|Hb]; [by apply TP| | |by apply TQ].
    + by destruct (H a b Ha Hb) as [-> ->].
    + by destruct (H b a Hb Ha) as [-> ->].
  - intros a b c [Ha|Ha] [Hb|Hb] [Hc|Hc].
    + by apply (@total_trans _ _ _ TP a b c).
    + by destruct (H a c Ha Hc) as [-> _].
    + by destruct (H c b Hc Hb) as [_ ->].
    + by destruct (H a c Ha Hc) as [-> _].
    + by destruct (H b a Hb Ha) as [_ ->].
    + by destruct (H b a Hb Ha) as [_ ->].
    + by destruct (H c b Hc Hb) as [_ ->].
    + by apply (@total_trans _ _ _ TQ a b c).
Qed.

(** Options, [None] below every [Some] or above it. *)
Definition cmp_none_first {A} (cmp : A -> A -> comparison) (a b : option A) : comparison :=
  match a, b with
  | None, None => Eq
  | None, Some _ => Lt
  | Some _, None => Gt
  | Some x, Some y => cmp x y
  end.
Definition cmp_none_last {A} (cmp : A -> A -> comparison) (a b : option A) : comparison :=
  match a, b with
  | None, None => Eq
  | None, Some _ => Gt
  | Some _, None => Lt
  | Some x, Some y => cmp x y
  end.

Lemma total_none {A} (P : A -> Prop) cmp :
  TotalCmp P cmp ->
  TotalCmp (fun o => from_option P True o) (cmp_none_first cmp) /\ TotalCmp (fun o => from_option P True o) (cmp_none_last cmp).
Proof.
  intros T. split; split; intros [a|] [b|]; cbn; try done; try (by intros; apply T);
    intros [c|]; cbn; try done; intros; by apply (@total_trans _ _ _ T a b c).
Qed.

(** Reversed. *)
Lemma total_flip {A} (P : A -> Prop) cmp : TotalCmp P cmp -> TotalCmp P (fun a b => cmp b a).
Proof.
  intros T. split; intros; [by apply T|]. by apply (@total_trans _ _ _ T c b a).
Qed.
