(* ===== verification/Core.v ===== *)
(** * Shared types of [nusadb-core]

    The error enum of [error.rs] with its SQLSTATE classification, the
    identifiers of [ids.rs] (all of them 64-bit newtypes, so [Z] here), and the
    page size every other component is built on. *)

From S2P Require Import Prelude.
From stdpp Require Import base list strings.
From Stdlib Require Import ZArith Lia Strings.Byte.

(** [PageId], [Lsn], [TxnId], [TableId]: transparent wrappers of [u64]. *)
Abbreviation PageId := Z (only parsing).
Abbreviation Lsn := Z (only parsing).
Abbreviation TxnId := Z (only parsing).
Abbreviation TableId := Z (only parsing).

Definition PAGE_SIZE : nat := N.to_nat 8192.

#[export] Hint Unfold PAGE_SIZE : consts.

(** [traits::Page], an array of [PAGE_SIZE] bytes. *)
Abbreviation Page := bytes (only parsing).

Definition zero_page : Page := replicate PAGE_SIZE "000"%byte.

Lemma length_zero_page : length zero_page = PAGE_SIZE.
Proof. apply length_replicate. Qed.

(** ** Errors *)

(** The [std::io::ErrorKind]s the engine constructs. *)
Inductive ErrorKind : Set :=
| NotFound | InvalidData | InvalidInput | StorageFull | AlreadyExists | Other.

Inductive Error : Set :=
| Io (kind : ErrorKind) (msg : string)
| ChecksumMismatch (page_id : Z) (expected actual : Z)
| InvalidMagic (page_id : Z)
| FsyncFailed (msg : string)
| TornWrite (page_id : Z)
| TableNotFound (name : string)
| TableExists (name : string)
| UnknownTransaction (txn : Z)
| SerializationConflict (txn : Z)
| ConstraintViolation (msg : string)
| IndexExists (name : string)
| IndexNotFound (name : string)
| SequenceExhausted (name : string)
| SchemaNotFound (name : string)
| Deadlock (txn : Z)
| OutOfMemory (msg : string)
| DependentObjectsExist (msg : string)
| ReadOnly (msg : string)
| ObjectInUse (msg : string).

#[global] Instance ErrorKind_eq_dec : EqDecision ErrorKind.
Proof. solve_decision. Defined.
#[global] Instance Error_eq_dec : EqDecision Error.
Proof. solve_decision. Defined.

Abbreviation result := (res Error).

(** [str::contains]. *)
Fixpoint contains (s pat : string) : bool :=
  String.prefix pat s ||
  match s with
  | EmptyString => false
  | String _ s => contains s pat
  end.

Definition constraint_sqlstate (message : string) : string :=
  if contains message "already exists" || contains message "cannot drop" then "23000"
  else if contains message "duplicate key" then "23505"
  else if contains message "foreign key" then "23503"
  else if contains message "check constraint" then "23514"
  else if contains message "NULL" then "23502"
  else if contains message "unique constraint" || contains message "primary key constraint"
  then "23505"
  else "23000".

Definition sqlstate (e : Error) : string :=
  match e with
  | SerializationConflict _ => "40001"
  | Deadlock _ => "40P01"
  | DependentObjectsExist _ => "2BP01"
  | ReadOnly _ => "25006"
  | ObjectInUse _ => "55006"
  | ConstraintViolation message => constraint_sqlstate message
  | _ => "XX000"
  end.
