(* ===== verification/Store.v ===== *)
(** * Page stores

    The [PageStore] port of [nusadb-core] as the operations of a small program
    type, the in-memory adapter [MemPageStore] of [store.rs], and a
    weakest-precondition calculus over page programs that every adapter meeting
    the port's contract validates. *)

From S2P Require Import Prelude Core.
From stdpp Require Import base gmap list sets strings pretty.
From Stdlib Require Import ZArith Lia Strings.Byte.

(** ** Page programs

    A computation over a [&dyn PageStore] and the root cell of one tree: it
    finishes with a result, or performs one operation of the port and
    continues with that operation's answer. An operation that fails hands its
    error to the continuation, so error paths keep running (the tree cleans up
    after itself). *)

Inductive prog (A : Type) : Type :=
| Done (r : result A)
| Read (id : Z) (k : Error + Page -> prog A)
| Write (id : Z) (page : Page) (k : Error + unit -> prog A)
| Alloc (k : Error + Z -> prog A)
| Dealloc (id : Z) (k : Error + unit -> prog A)
| GetRoot (k : Z -> prog A)
| SetRoot (root : Z) (k : prog A).
Arguments Done {A} r.
Arguments Read {A} id k.
Arguments Write {A} id page k.
Arguments Alloc {A} k.
Arguments Dealloc {A} id k.
Arguments GetRoot {A} k.
Arguments SetRoot {A} root k.

Fixpoint pbind {A B} (m : prog A) (f : A -> prog B) : prog B :=
  match m with
  | Done (Ok a) => f a
  | Done (Err e) => Done (Err e)
  | Done Panic => Done Panic
  | Done Diverge => Done Diverge
  | Read id k => Read id (fun r => pbind (k r) f)
  | Write id page k => Write id page (fun r => pbind (k r) f)
  | Alloc k => Alloc (fun r => pbind (k r) f)
  | Dealloc id k => Dealloc id (fun r => pbind (k r) f)
  | GetRoot k => GetRoot (fun r => pbind (k r) f)
  | SetRoot root k => SetRoot root (pbind k f)
  end.

(** Run [h] when [m] fails with an error, then do what [h] says: the shape of
    [match m { Err(e) => .. }] and of [inspect_err]. *)
Fixpoint pcatch {A} (m : prog A) (h : Error -> prog A) : prog A :=
  match m with
  | Done (Err e) => h e
  | Done r => Done r
  | Read id k => Read id (fun r => pcatch (k r) h)
  | Write id page k => Write id page (fun r => pcatch (k r) h)
  | Alloc k => Alloc (fun r => pcatch (k r) h)
  | Dealloc id k => Dealloc id (fun r => pcatch (k r) h)
  | GetRoot k => GetRoot (fun r => pcatch (k r) h)
  | SetRoot root k => SetRoot root (pcatch k h)
  end.

Definition pret {A} (a : A) : prog A := Done (Ok a).
Definition pfail {A} (e : Error) : prog A := Done (Err e).
Definition plift {A} (r : result A) : prog A := Done r.

(** The answer of a port operation under [?]. *)
Definition answer {A} (r : Error + A) : prog A :=
  match r with inl e => pfail e | inr a => pret a end.

Definition read_page (id : Z) : prog Page := Read id answer.
Definition write_page (id : Z) (page : Page) : prog unit := Write id page answer.
Definition allocate_page : prog Z := Alloc answer.
Definition deallocate_page (id : Z) : prog unit := Dealloc id answer.
Definition get_root : prog Z := GetRoot pret.
Definition set_root (root : Z) : prog unit := SetRoot root (pret tt).

Notation "'let!' x := m 'in' k" := (pbind m (fun x => k))
  (at level 10, x name, m at level 100, k at level 200) : nusa_scope.
Notation "'let!' ' pat := m 'in' k" := (pbind m (fun 'pat => k))
  (at level 10, pat pattern, m at level 100, k at level 200) : nusa_scope.

(** ** Adapters *)

(** What an adapter of the port implements. [fsync] is not used by the page
    programs below. *)
Class PageStore (S : Type) := {
  st_read : Z -> S -> (Error + Page) * S;
  st_write : Z -> Page -> S -> (Error + unit) * S;
  st_alloc : S -> (Error + Z) * S;
  st_dealloc : Z -> S -> (Error + unit) * S;
}.

(** The state a page program runs in: the store and the tree's root cell. *)
Record world (S : Type) := World { w_store : S; w_root : Z }.
Arguments World {S} _ _.
Arguments w_store {S} _.
Arguments w_root {S} _.

Fixpoint run {S A} `{PageStore S} (m : prog A) (w : world S) : result A * world S :=
  match m with
  | Done r => (r, w)
  | Read id k =>
      let '(r, s) := st_read id (w_store w) in run (k r) (World s (w_root w))
  | Write id page k =>
      let '(r, s) := st_write id page (w_store w) in run (k r) (World s (w_root w))
  | Alloc k =>
      let '(r, s) := st_alloc (w_store w) in run (k r) (World s (w_root w))
  | Dealloc id k =>
      let '(r, s) := st_dealloc id (w_store w) in run (k r) (World s (w_root w))
  | GetRoot k => run (k (w_root w)) w
  | SetRoot root k => run k (World (w_store w) root)
  end.

Module MemPageStore.

(** [pages] is the directory; [free] is the free list, its top first. *)
Record t := Mk { pages : list Page; free : list Z }.

Definition default : t := Mk [] [].

Definition bad_page (id : Z) : Error :=
  Io NotFound ("nusadb-btree: page PageId(" +:+ pretty id +:+
               ") does not exist in the in-memory store").

(** [usize::try_from] never fails on the 64-bit targets the engine runs on. *)
Definition slot (s : t) (id : Z) : option Page :=
  if (id <? 0)%Z then None else pages s !! Z.to_nat id.

Definition read (id : Z) (s : t) : (Error + Page) * t :=
  match slot s id with
  | Some page => (inr page, s)
  | None => (inl (bad_page id), s)
  end.

Definition write (id : Z) (page : Page) (s : t) : (Error + unit) * t :=
  match slot s id with
  | Some _ => (inr tt, Mk (<[Z.to_nat id := page]> (pages s)) (free s))
  | None => (inl (bad_page id), s)
  end.

Definition alloc (s : t) : (Error + Z) * t :=
  match free s with
  | id :: rest => (inr id, Mk (pages s) rest)
  | [] =>
      let n := Z.of_nat (length (pages s)) in
      (inr (if (n <=? U64_MAX)%Z then n else U64_MAX), Mk (pages s ++ [zero_page]) [])
  end.

Definition dealloc (id : Z) (s : t) : (Error + unit) * t :=
  match slot s id with
  | Some _ => (inr tt, Mk (<[Z.to_nat id := zero_page]> (pages s)) (id :: free s))
  | None => (inl (bad_page id), s)
  end.

Definition live_pages (s : t) : nat := length (pages s) - length (free s).

#[global] Instance store : PageStore t :=
  {| st_read := read; st_write := write; st_alloc := alloc; st_dealloc := dealloc |}.

End MemPageStore.

(** ** A weakest-precondition calculus

    The abstract machine keeps the live pages as a finite map. [wp m a I Q]
    says: from [a], every operation [m] performs is admissible for the port
    (it reads, writes and frees live pages only), every state between two
    operations satisfies [I], and [m] finishes with a result and a state in
    [Q]. Allocation may answer any identifier that is not live. *)

Record ast := Ast { a_pages : gmap Z Page; a_root : Z }.

Definition a_put (a : ast) (id : Z) (page : Page) : ast :=
  Ast (<[id := page]> (a_pages a)) (a_root a).
Definition a_free (a : ast) (id : Z) : ast :=
  Ast (delete id (a_pages a)) (a_root a).

Fixpoint wp {A} (m : prog A) (a : ast) (I : ast -> Prop) (Q : result A -> ast -> Prop) : Prop :=
  match m with
  | Done r => Q r a
  | Read id k => exists page, a_pages a !! id = Some page /\ wp (k (inr page)) a I Q
  | Write id page k =>
      is_Some (a_pages a !! id) /\ length page = PAGE_SIZE /\
      I (a_put a id page) /\ wp (k (inr tt)) (a_put a id page) I Q
  | Alloc k =>
      forall id page, a_pages a !! id = None -> (0 <= id < U64_MAX)%Z ->
      length page = PAGE_SIZE ->
      I (a_put a id page) /\ wp (k (inr id)) (a_put a id page) I Q
  | Dealloc id k =>
      is_Some (a_pages a !! id) /\ I (a_free a id) /\ wp (k (inr tt)) (a_free a id) I Q
  | GetRoot k => wp (k (a_root a)) a I Q
  | SetRoot root k => I (Ast (a_pages a) root) /\ wp k (Ast (a_pages a) root) I Q
  end.

(** A postcondition that asks for success. *)
Definition okq {A} (Q : A -> ast -> Prop) : result A -> ast -> Prop :=
  fun r a => match r with Ok x => Q x a | _ => False end.

Lemma wp_mono {A} (m : prog A) a I (Q Q' : result A -> ast -> Prop) :
  wp m a I Q -> (forall r a', Q r a' -> Q' r a') -> wp m a I Q'.
Proof.
  intros H HQ. revert a H.
  induction m as [r|id k IH|id page k IH|k IH|id k IH|k IH|root k IH]; simpl; intros a H.
  - auto.
  - destruct H as (page & Hp & H). eauto.
  - destruct H as (? & ? & ? & H). auto.
  - intros id page ? ? ?. destruct (H id page) as [? H']; auto.
  - destruct H as (? & ? & H). auto.
  - auto.
  - destruct H. auto.
Qed.

Lemma wp_bind {A B} (m : prog A) (f : A -> prog B) a I (Q : result B -> ast -> Prop) :
  wp m a I (okq (fun x a' => wp (f x) a' I Q)) -> wp (pbind m f) a I Q.
Proof.
  revert a.
  induction m as [r|id k IH|id page k IH|k IH|id k IH|k IH|root k IH]; simpl; intros a H.
  - destruct r; simpl in H; done.
  - destruct H as (page & Hp & H). eauto.
  - destruct H as (? & ? & ? & H). auto.
  - intros id page ? ? ?. destruct (H id page) as [? H']; auto.
  - destruct H as (? & ? & H). auto.
  - auto.
  - destruct H. auto.
Qed.

Lemma wp_catch {A} (m : prog A) h a I (Q : A -> ast -> Prop) :
  wp m a I (okq Q) -> wp (pcatch m h) a I (okq Q).
Proof.
  revert a.
  induction m as [r|id k IH|id page k IH|k IH|id k IH|k IH|root k IH]; simpl; intros a H.
  - destruct r; simpl in *; done.
  - destruct H as (page & Hp & H). eauto.
  - destruct H as (? & ? & ? & H). auto.
  - intros id page ? ? ?. destruct (H id page) as [? H']; auto.
  - destruct H as (? & ? & H). auto.
  - auto.
  - destruct H. auto.
Qed.

Lemma wp_ret {A} (x : A) a I (Q : A -> ast -> Prop) : Q x a -> wp (pret x) a I (okq Q).
Proof. done. Qed.

Lemma wp_lift {A} (r : result A) x a I (Q : A -> ast -> Prop) :
  r = Ok x -> Q x a -> wp (plift r) a I (okq Q).
Proof. by intros ->. Qed.

Lemma wp_read id page a I (Q : Page -> ast -> Prop) :
  a_pages a !! id = Some page -> Q page a -> wp (read_page id) a I (okq Q).
Proof. simpl. eauto. Qed.

Lemma wp_write id page a I (Q : unit -> ast -> Prop) :
  is_Some (a_pages a !! id) -> length page = PAGE_SIZE -> I (a_put a id page) ->
  Q tt (a_put a id page) -> wp (write_page id page) a I (okq Q).
Proof. simpl. auto. Qed.

Lemma wp_alloc a I (Q : Z -> ast -> Prop) :
  (forall id page, a_pages a !! id = None -> (0 <= id < U64_MAX)%Z ->
   length page = PAGE_SIZE -> I (a_put a id page) /\ Q id (a_put a id page)) ->
  wp allocate_page a I (okq Q).
Proof. simpl. intros H id page ? ? ?. destruct (H id page); auto. Qed.

Lemma wp_get_root a I (Q : Z -> ast -> Prop) : Q (a_root a) a -> wp get_root a I (okq Q).
Proof. done. Qed.

Lemma wp_set_root root a I (Q : unit -> ast -> Prop) :
  I (Ast (a_pages a) root) -> Q tt (Ast (a_pages a) root) -> wp (set_root root) a I (okq Q).
Proof. simpl. auto. Qed.

(** ** The contract of the port

    [rep s g]: the store [s] holds exactly the live pages [g]. A store may run
    out of page identifiers ([exhausted], which then lasts); short of that its
    operations on live pages succeed. *)
Class StoreLaws (S : Type) `{PageStore S} := {
  rep : S -> gmap Z Page -> Prop;
  exhausted : S -> Prop;
  law_read s g id page : rep s g -> g !! id = Some page ->
    exists s', st_read id s = (inr page, s') /\ rep s' g;
  law_write s g id page : rep s g -> is_Some (g !! id) -> length page = PAGE_SIZE ->
    exists s', st_write id page s = (inr tt, s') /\ rep s' (<[id := page]> g);
  law_alloc s g : rep s g -> ~ exhausted s ->
    exists id page s', st_alloc s = (inr id, s') /\ g !! id = None /\
      (0 <= id < U64_MAX)%Z /\ length page = PAGE_SIZE /\ rep s' (<[id := page]> g);
  law_dealloc s g id : rep s g -> is_Some (g !! id) ->
    exists s', st_dealloc id s = (inr tt, s') /\ rep s' (delete id g);
  law_exhausted_dec s : exhausted s \/ ~ exhausted s;
  law_exhausted_read s id : exhausted s -> exhausted (snd (st_read id s));
  law_exhausted_write s id page : exhausted s -> exhausted (snd (st_write id page s));
  law_exhausted_alloc s : exhausted s -> exhausted (snd (st_alloc s));
  law_exhausted_dealloc s id : exhausted s -> exhausted (snd (st_dealloc id s));
}.

Section Soundness.
Context {S : Type} `{StoreLaws S}.

Lemma run_exhausted {A} (m : prog A) w :
  exhausted (w_store w) -> exhausted (w_store (snd (run m w))).
Proof.
  revert w. induction m as [r|id k IH|id page k IH|k IH|id k IH|k IH|root k IH];
    simpl; intros w He.
  - done.
  - pose proof (law_exhausted_read _ id He). destruct (st_read id (w_store w)). by apply IH.
  - pose proof (law_exhausted_write _ id page He).
    destruct (st_write id page (w_store w)). by apply IH.
  - pose proof (law_exhausted_alloc _ He). destruct (st_alloc (w_store w)). by apply IH.
  - pose proof (law_exhausted_dealloc _ id He).
    destruct (st_dealloc id (w_store w)). by apply IH.
  - by apply IH.
  - by apply IH.
Qed.

(** What [wp] establishes about the abstract machine holds of the program
    run on any store that meets the contract, unless the store has run out
    of page identifiers. *)
Lemma run_sound {A} (m : prog A) I (Q : result A -> ast -> Prop) s g root :
  rep s g -> wp m (Ast g root) I Q ->
  exhausted (w_store (snd (run m (World s root)))) \/
  exists r s' g' root', run m (World s root) = (r, World s' root') /\
    rep s' g' /\ Q r (Ast g' root').
Proof.
  revert s g root. induction m as [r|id k IH|id page k IH|k IH|id k IH|k IH|root0 k IH];
    simpl; intros s g root Hrep Hwp.
  - right. eauto 10.
  - destruct Hwp as (page & Hp & Hwp).
    destruct (law_read s g id page) as (s' & -> & ?); auto. simpl. eapply IH; eauto.
  - destruct Hwp as (? & ? & _ & Hwp).
    destruct (law_write s g id page) as (s' & -> & ?); auto. simpl. eapply IH; eauto.
  - destruct (law_exhausted_dec s) as [He|Hne].
    + left. pose proof (law_exhausted_alloc _ He).
      destruct (st_alloc s). by apply run_exhausted.
    + destruct (law_alloc s g) as (id & page & s' & -> & ? & ? & ? & ?); auto.
      destruct (Hwp id page) as [_ Hwp']; auto. simpl. eapply IH; eauto.
  - destruct Hwp as (? & _ & Hwp).
    destruct (law_dealloc s g id) as (s' & -> & ?); auto. simpl. eapply IH; eauto.
  - eauto.
  - destruct Hwp. simpl. eapply IH; eauto.
Qed.
End Soundness.

(** ** [MemPageStore] meets the contract *)

Module MemLaws.
Import MemPageStore.

(** The live pages are the directory's slots that are not on the free list. *)
Record mem_rep (s : t) (g : gmap Z Page) : Prop := {
  mr_live : forall id page,
    g !! id = Some page <-> slot s id = Some page /\ id ∉ free s;
  mr_free : forall id, id ∈ free s -> is_Some (slot s id);
  mr_nodup : NoDup (free s);
  mr_size : forall id page, slot s id = Some page -> length page = PAGE_SIZE;
}.

Definition mem_exhausted (s : t) : Prop := (U64_MAX <= Z.of_nat (length (pages s)))%Z.

Lemma slot_lt s id page : slot s id = Some page -> (0 <= id < Z.of_nat (length (pages s)))%Z.
Proof.
  unfold slot. case_match eqn:E; [done|]. intros Hl%lookup_lt_Some.
  apply Z.ltb_ge in E. lia.
Qed.

Lemma slot_put s id page fr id' :
  is_Some (slot s id) ->
  slot (Mk (<[Z.to_nat id := page]> (pages s)) fr) id' =
  if decide (id' = id) then Some page else slot s id'.
Proof.
  intros [p Hs]. pose proof (slot_lt _ _ _ Hs) as Hlt.
  unfold slot. simpl. case_decide as Hd.
  - subst. rewrite (proj2 (Z.ltb_ge _ _)) by lia.
    apply list_lookup_insert_eq. lia.
  - case_match eqn:E; [done|]. apply Z.ltb_ge in E.
    apply list_lookup_insert_ne. lia.
Qed.

Lemma slot_push s page fr id :
  (0 <= id)%Z -> slot (Mk (pages s ++ [page]) fr) id =
  if decide (id = Z.of_nat (length (pages s))) then Some page else slot s id.
Proof.
  intros H. unfold slot. simpl. rewrite (proj2 (Z.ltb_ge id 0)) by lia.
  case_decide as Hd.
  - subst. rewrite Nat2Z.id. by rewrite list_lookup_middle.
  - destruct (decide (Z.to_nat id < length (pages s))) as [Hl|Hl].
    + by rewrite lookup_app_l.
    + rewrite lookup_app_r by lia. rewrite (lookup_ge_None_2 (pages s)) by lia.
      apply lookup_ge_None_2. simpl. lia.
Qed.

Lemma mem_rep_write s g id page :
  mem_rep s g -> is_Some (g !! id) -> length page = PAGE_SIZE ->
  mem_rep (Mk (<[Z.to_nat id := page]> (pages s)) (free s)) (<[id := page]> g).
Proof.
  intros [Hl Hf Hn Hsz] [p Hg] Hp. apply Hl in Hg as [Hs Hnf].
  assert (is_Some (slot s id)) as Hss by eauto.
  split; simpl.
  - intros i q. rewrite slot_put by done. destruct (decide (i = id)) as [->|Hne].
    + rewrite lookup_insert_eq. naive_solver.
    + rewrite lookup_insert_ne by done. apply Hl.
  - intros i Hi. rewrite slot_put by done. case_decide; eauto.
  - done.
  - intros i q. rewrite slot_put by done. case_decide; naive_solver.
Qed.

Lemma mem_rep_dealloc s g id :
  mem_rep s g -> is_Some (g !! id) ->
  mem_rep (Mk (<[Z.to_nat id := zero_page]> (pages s)) (id :: free s)) (delete id g).
Proof.
  intros [Hl Hf Hn Hsz] [p Hg]. apply Hl in Hg as [Hs Hnf].
  assert (is_Some (slot s id)) as Hss by eauto.
  split; simpl.
  - intros i q. rewrite slot_put by done. destruct (decide (i = id)) as [->|Hne].
    + rewrite lookup_delete_eq. set_solver.
    + rewrite lookup_delete_ne by done. rewrite Hl. set_solver.
  - intros i Hi. rewrite slot_put by done. case_decide; [eauto|].
    apply Hf. set_solver.
  - constructor; done.
  - intros i q. rewrite slot_put by done. case_decide; [|eauto].
    intros; simplify_eq. apply length_zero_page.
Qed.

Lemma mem_rep_alloc_free s g id rest :
  mem_rep s g -> free s = id :: rest ->
  exists page, g !! id = None /\ length page = PAGE_SIZE /\ slot s id = Some page /\
  mem_rep (Mk (pages s) rest) (<[id := page]> g).
Proof.
  intros [Hl Hf Hn Hsz] Hfr. rewrite Hfr in *.
  destruct (Hf id) as [page Hs]; [set_solver|].
  apply NoDup_cons in Hn as [Hni Hn].
  exists page. split; [|split; [by eapply Hsz|split; [done|split; simpl]]].
  - apply eq_None_not_Some. intros [q Hq]. apply Hl in Hq as [_ Hq]. set_solver.
  - intros i q. change (slot (Mk (pages s) rest) i) with (slot s i).
    destruct (decide (i = id)) as [->|Hne].
    + rewrite lookup_insert_eq. naive_solver.
    + rewrite lookup_insert_ne by done. rewrite Hl. set_solver.
  - intros i Hi. apply Hf. set_solver.
  - done.
  - intros i q Hq. by eapply Hsz.
Qed.

Lemma mem_rep_alloc_grow s g :
  mem_rep s g -> free s = [] ->
  g !! Z.of_nat (length (pages s)) = None /\
  mem_rep (Mk (pages s ++ [zero_page]) []) (<[Z.of_nat (length (pages s)) := zero_page]> g).
Proof.
  intros [Hl Hf Hn Hsz] Hfr. rewrite Hfr in *.
  assert (forall i q, slot s i = Some q -> (0 <= i)%Z) as Hpos.
  { intros i q Hq. apply slot_lt in Hq. lia. }
  assert (slot s (Z.of_nat (length (pages s))) = None) as Hnone.
  { apply eq_None_not_Some. intros [q Hq]. apply slot_lt in Hq. lia. }
  assert (g !! Z.of_nat (length (pages s)) = None) as Hgn.
  { apply eq_None_not_Some. intros [q Hq]. apply Hl in Hq as [Hq _]. congruence. }
  split; [done|]. split; simpl.
  - intros i q. destruct (decide (i = Z.of_nat (length (pages s)))) as [->|Hne].
    + rewrite lookup_insert_eq, slot_push, decide_True by (auto || lia). set_solver.
    + rewrite lookup_insert_ne by done. rewrite Hl.
      destruct (decide (0 <= i)%Z).
      * by rewrite slot_push, decide_False.
      * unfold slot. rewrite (proj2 (Z.ltb_lt i 0)) by lia. naive_solver.
  - set_solver.
  - constructor.
  - intros i q Hs. destruct (decide (0 <= i)%Z).
    + rewrite slot_push in Hs by done. case_decide; [|eauto].
      simplify_eq. apply length_zero_page.
    + unfold slot in Hs. rewrite (proj2 (Z.ltb_lt i 0)) in Hs by lia. done.
Qed.

#[global] Instance laws : StoreLaws t.
Proof.
  refine {| rep := mem_rep; exhausted := mem_exhausted |}; simpl; unfold mem_exhausted.
  - intros s g id page Hr Hg. exists s. apply (mr_live _ _ Hr) in Hg as [Hs _].
    unfold read. by rewrite Hs.
  - intros s g id page Hr [q Hg] Hp. pose proof Hg as Hg'.
    apply (mr_live _ _ Hr) in Hg' as [Hs _].
    unfold write. rewrite Hs. eexists. split; [done|]. eapply mem_rep_write; eauto.
  - intros s g Hr Hne. unfold alloc. destruct (free s) as [|id rest] eqn:Hf.
    + destruct (mem_rep_alloc_grow s g Hr Hf) as [Hn Hr'].
      rewrite (proj2 (Z.leb_le _ _)) by lia.
      do 3 eexists. split_and!; [done|done|lia|lia|apply length_zero_page|exact Hr'].
    + destruct (mem_rep_alloc_free s g id rest Hr Hf) as (page & ? & ? & Hs & Hr').
      apply slot_lt in Hs. do 3 eexists.
      split_and!; [done|done|lia|lia|done|exact Hr'].
  - intros s g id Hr [q Hg]. pose proof Hg as Hg'.
    apply (mr_live _ _ Hr) in Hg' as [Hs _].
    unfold dealloc. rewrite Hs. eexists. split; [done|]. eapply mem_rep_dealloc; eauto.
  - intros s. lia.
  - intros s id He. unfold read. by destruct (slot s id).
  - intros s id page He. unfold write. destruct (slot s id); [|done].
    simpl. by rewrite length_insert.
  - intros s He. unfold alloc. destruct (free s); [|done]. simpl. rewrite length_app. lia.
  - intros s id He. unfold dealloc. destruct (slot s id); [|done].
    simpl. by rewrite length_insert.
Defined.

Lemma mem_rep_default : mem_rep default ∅.
Proof.
  split; simpl.
  - intros id page. rewrite lookup_empty. split; [done|].
    unfold slot. case_match; naive_solver.
  - set_solver.
  - constructor.
  - intros id page. unfold slot. by case_match.
Qed.

End MemLaws.
