(* ===== verification/Node.v ===== *)
(** * The B-link node codec ([nusadb-btree/src/node.rs])

    Leaf, interior and overflow nodes over a raw page: the accessors and
    writers of the source, byte offsets included, and what they guarantee.
    Offsets are [nat]; a slice out of range is [Panic], as in the source. *)

From S2P Require Import Prelude Core.
From stdpp Require Import base list strings.
From Stdlib Require Import ZArith Lia Strings.Byte.

Definition NO_LINK : Z := U64_MAX.
Definition INF_KEY : Z := U64_MAX.

Definition KIND_LEAF : byte := "000"%byte.
Definition KIND_INTERIOR : byte := "001"%byte.
Definition KIND_OVERFLOW : byte := "002"%byte.

Definition OFF_KIND : nat := 0.
Definition OFF_RIGHT_LINK : nat := 1.
Definition OFF_HIGH_KEY : nat := 9.
Definition OFF_COUNT : nat := 17.
Definition LEAF_ENTRIES : nat := 19.
Definition OFF_RIGHTMOST : nat := 19.
Definition INTERIOR_ENTRIES : nat := 27.
Definition INTERIOR_ENTRY : nat := 16.
Definition LEAF_ENTRY_HEADER : nat := 10.
Definition OVERFLOW_FLAG : Z := 32768.

Definition MAX_TUPLE : nat := PAGE_SIZE - LEAF_ENTRIES - LEAF_ENTRY_HEADER.
Definition OVERFLOW_INLINE_PREFIX : nat := 24.
Definition OVERFLOW_STUB : nat := OVERFLOW_INLINE_PREFIX + 4 + 8.
Definition OFF_OVERFLOW_NEXT : nat := 1.
Definition OFF_OVERFLOW_USED : nat := 9.
Definition OVERFLOW_ENTRIES : nat := 11.
Definition OVERFLOW_PAYLOAD : nat := PAGE_SIZE - OVERFLOW_ENTRIES.
Definition LEAF_CAPACITY : nat := PAGE_SIZE - LEAF_ENTRIES.

#[export] Hint Unfold OFF_KIND OFF_RIGHT_LINK OFF_HIGH_KEY OFF_COUNT LEAF_ENTRIES OFF_RIGHTMOST
  INTERIOR_ENTRIES INTERIOR_ENTRY LEAF_ENTRY_HEADER MAX_TUPLE OVERFLOW_INLINE_PREFIX
  OVERFLOW_STUB OFF_OVERFLOW_NEXT OFF_OVERFLOW_USED OVERFLOW_ENTRIES OVERFLOW_PAYLOAD
  LEAF_CAPACITY : consts.

Definition leaf_entry_size (tuple : bytes) : nat := LEAF_ENTRY_HEADER + length tuple.

Record Entry := MkEntry { key : Z; stored : bytes; overflow : bool }.

(** ** Helpers *)

Definition read_u64 (page : Page) (at_ : nat) : result Z :=
  let? b := slice page at_ (at_ + 8) in Ok (le_val b).

Definition write_u64 (page : Page) (at_ : nat) (value : Z) : result Page :=
  store_at page at_ (le_bytes 8 value).

(** [page[i]] on an array: panics past the end. *)
Definition byte_at (page : Page) (i : nat) : result byte :=
  match page !! i with Some b => Ok b | None => Panic end.

(** [page[i] = b]. *)
Definition set_byte (page : Page) (i : nat) (b : byte) : result Page :=
  store_at page i [b].

(** [u16::try_from(n).unwrap_or(u16::MAX)]. *)
Definition u16_sat (n : nat) : Z := Z.min (Z.of_nat n) U16_MAX.

(** [link.map_or(NO_LINK, |p| p.0)]. *)
Definition link_val (link : option Z) : Z :=
  match link with Some id => id | None => NO_LINK end.

(** ** Shared header *)

Definition is_leaf (page : Page) : result bool :=
  let? k := byte_at page OFF_KIND in Ok (bool_decide (k = KIND_LEAF)).

Definition right_link (page : Page) : result (option Z) :=
  let? raw := read_u64 page OFF_RIGHT_LINK in
  Ok (if bool_decide (raw = NO_LINK) then None else Some raw).

Definition set_right_link (page : Page) (link : option Z) : result Page :=
  write_u64 page OFF_RIGHT_LINK (link_val link).

Definition high_key (page : Page) : result Z := read_u64 page OFF_HIGH_KEY.

Definition set_high_key (page : Page) (k : Z) : result Page := write_u64 page OFF_HIGH_KEY k.

Definition count (page : Page) : result nat :=
  let? b0 := byte_at page OFF_COUNT in
  let? b1 := byte_at page (OFF_COUNT + 1) in
  Ok (Z.to_nat (le_val [b0; b1])).

Definition set_count (page : Page) (n : nat) : result Page :=
  store_at page OFF_COUNT (le_bytes 2 (u16_sat n)).

(** ** Leaf *)

(** [page.fill(0)], then the header of an empty leaf. *)
Definition init_leaf (page : Page) : result Page :=
  let page := replicate (length page) "000"%byte in
  let? page := set_byte page OFF_KIND KIND_LEAF in
  let? page := set_right_link page None in
  let? page := set_high_key page INF_KEY in
  set_count page 0.

Definition entry_len (page : Page) (at_ : nat) : result (nat * bool) :=
  let? b0 := byte_at page (at_ + 8) in
  let? b1 := byte_at page (at_ + 9) in
  let raw := le_val [b0; b1] in
  Ok (Z.to_nat (Z.land raw (U16_MAX - OVERFLOW_FLAG)),
      negb (bool_decide (Z.land raw OVERFLOW_FLAG = 0%Z))).

(** The [for _ in 0..count(page)] walk: [f] is the [FnMut] visitor, its
    captured state threaded through. *)
Fixpoint leaf_walk {A} (page : Page) (f : A -> Z -> bytes -> bool -> A)
    (n : nat) (at_ : nat) (acc : A) : result A :=
  match n with
  | O => Ok acc
  | S n =>
      let? row_id := read_u64 page at_ in
      let? '(len, ovf) := entry_len page at_ in
      let start := at_ + LEAF_ENTRY_HEADER in
      let? body := slice page start (start + len) in
      leaf_walk page f n (start + len) (f acc row_id body ovf)
  end.

Definition for_each_leaf_entry {A} (page : Page) (f : A -> Z -> bytes -> bool -> A)
    (acc : A) : result A :=
  let? n := count page in leaf_walk page f n LEAF_ENTRIES acc.

Definition leaf_entries (page : Page) : result (list Entry) :=
  for_each_leaf_entry page (fun out k body ovf => out ++ [MkEntry k body ovf]) [].

(** [clear_undo_links]: the third header word of every stored row becomes
    [NO_UNDO] ([u64::MAX]). *)
Fixpoint clear_links (page : Page) (n : nat) (at_ : nat) : result Page :=
  match n with
  | O => Ok page
  | S n =>
      let? '(len, ovf) := entry_len page at_ in
      let start := at_ + LEAF_ENTRY_HEADER in
      let page' :=
        if decide (24 <= len) then
          match get_range page (start + 16) (start + 24) with
          | Some _ => splice page (start + 16) (le_bytes 8 U64_MAX)
          | None => page
          end
        else page in
      clear_links page' n (start + len)
  end.

Definition clear_undo_links (page : Page) : result Page :=
  let? leaf := is_leaf page in
  if leaf then let? n := count page in clear_links page n LEAF_ENTRIES else Ok page.

Fixpoint find_walk (page : Page) (k : Z) (n : nat) (at_ : nat) : result (option (bytes * bool)) :=
  match n with
  | O => Ok None
  | S n =>
      let? row_id := read_u64 page at_ in
      let? '(len, ovf) := entry_len page at_ in
      let start := at_ + LEAF_ENTRY_HEADER in
      match (row_id ?= k)%Z with
      | Eq => let? body := slice page start (start + len) in Ok (Some (body, ovf))
      | Gt => Ok None
      | Lt => find_walk page k n (start + len)
      end
  end.

Definition leaf_find (page : Page) (k : Z) : result (option (bytes * bool)) :=
  let? n := count page in find_walk page k n LEAF_ENTRIES.

(** The bytes one entry takes in a leaf: row id, length with the overflow bit,
    stored bytes. *)
Definition entry_len_field (e : Entry) : Z :=
  let len := u16_sat (length (stored e)) in
  if overflow e then Z.lor len OVERFLOW_FLAG else len.

Fixpoint write_entries (page : Page) (entries : list Entry) (at_ : nat) : result Page :=
  match entries with
  | [] => Ok page
  | e :: rest =>
      let? page := write_u64 page at_ (key e) in
      let? page := store_at page (at_ + 8) (le_bytes 2 (entry_len_field e)) in
      let? page := store_at page (at_ + LEAF_ENTRY_HEADER) (stored e) in
      write_entries page rest (at_ + (LEAF_ENTRY_HEADER + length (stored e)))
  end.

Definition entries_size (entries : list Entry) : nat :=
  sum_list_with (fun e => LEAF_ENTRY_HEADER + length (stored e)) entries.

(** [page[from..].fill(0)]. *)
Definition zero_from (page : Page) (from : nat) : Page :=
  take from page ++ replicate (length page - from) "000"%byte.

(** The page and whether the entries fitted; the page is untouched if not. *)
Definition write_leaf_entries (page : Page) (entries : list Entry) : result (Page * bool) :=
  let needed := entries_size entries in
  if decide (PAGE_SIZE < LEAF_ENTRIES + needed \/ Z.to_nat U16_MAX < length entries)
  then Ok (page, false)
  else
    let page := zero_from page LEAF_ENTRIES in
    let? page := write_entries page entries LEAF_ENTRIES in
    let? page := set_count page (length entries) in
    Ok (page, true).

(** ** Overflow chain *)

Definition encode_stub (prefix : bytes) (total_len : Z) (first : Z) : bytes :=
  prefix ++ le_bytes 4 total_len ++ le_bytes 8 first.

Definition decode_stub (stub : bytes) : option (bytes * nat * Z) :=
  if decide (length stub = OVERFLOW_STUB) then
    match get_range stub 0 OVERFLOW_INLINE_PREFIX,
          get_range stub OVERFLOW_INLINE_PREFIX (OVERFLOW_INLINE_PREFIX + 4),
          get_range stub (OVERFLOW_INLINE_PREFIX + 4) (length stub) with
    | Some prefix, Some total, Some first => Some (prefix, Z.to_nat (le_val total), le_val first)
    | _, _, _ => None
    end
  else None.

Definition init_overflow (page : Page) (payload : bytes) (next : option Z) : result Page :=
  let page := replicate (length page) "000"%byte in
  let? page := set_byte page OFF_KIND KIND_OVERFLOW in
  let? page := write_u64 page OFF_OVERFLOW_NEXT (link_val next) in
  let? page := store_at page OFF_OVERFLOW_USED (le_bytes 2 (u16_sat (length payload))) in
  store_at page OVERFLOW_ENTRIES payload.

Definition is_overflow (page : Page) : result bool :=
  let? k := byte_at page OFF_KIND in Ok (bool_decide (k = KIND_OVERFLOW)).

Definition overflow_next (page : Page) : result (option Z) :=
  let? raw := read_u64 page OFF_OVERFLOW_NEXT in
  Ok (if bool_decide (raw = NO_LINK) then None else Some raw).

Definition overflow_payload (page : Page) : result bytes :=
  let? b0 := byte_at page OFF_OVERFLOW_USED in
  let? b1 := byte_at page (OFF_OVERFLOW_USED + 1) in
  let used := Nat.min (Z.to_nat (le_val [b0; b1])) OVERFLOW_PAYLOAD in
  slice page OVERFLOW_ENTRIES (OVERFLOW_ENTRIES + used).

(** ** Interior *)

Definition init_interior (page : Page) (rightmost : Z) : result Page :=
  let page := replicate (length page) "000"%byte in
  let? page := set_byte page OFF_KIND KIND_INTERIOR in
  let? page := set_right_link page None in
  let? page := set_high_key page INF_KEY in
  let? page := set_count page 0 in
  write_u64 page OFF_RIGHTMOST rightmost.

Definition rightmost_child (page : Page) : result Z := read_u64 page OFF_RIGHTMOST.

Definition set_rightmost_child (page : Page) (child : Z) : result Page :=
  write_u64 page OFF_RIGHTMOST child.

Fixpoint interior_walk (page : Page) (n i : nat) : result (list (Z * Z)) :=
  match n with
  | O => Ok []
  | S n =>
      let at_ := INTERIOR_ENTRIES + i * INTERIOR_ENTRY in
      let? sep := read_u64 page at_ in
      let? child := read_u64 page (at_ + 8) in
      let? rest := interior_walk page n (S i) in
      Ok ((sep, child) :: rest)
  end.

Definition interior_entries (page : Page) : result (list (Z * Z)) :=
  let? n := count page in interior_walk page n 0.

Fixpoint write_separators (page : Page) (entries : list (Z * Z)) (i : nat) : result Page :=
  match entries with
  | [] => Ok page
  | (sep, child) :: rest =>
      let at_ := INTERIOR_ENTRIES + i * INTERIOR_ENTRY in
      let? page := write_u64 page at_ sep in
      let? page := write_u64 page (at_ + 8) child in
      write_separators page rest (S i)
  end.

Definition write_interior_entries (page : Page) (entries : list (Z * Z)) : result (Page * bool) :=
  if decide (PAGE_SIZE < INTERIOR_ENTRIES + length entries * INTERIOR_ENTRY \/
             Z.to_nat U16_MAX < length entries)
  then Ok (page, false)
  else
    let page := zero_from page INTERIOR_ENTRIES in
    let? page := write_separators page entries 0 in
    let? page := set_count page (length entries) in
    Ok (page, true).

Fixpoint route_walk (page : Page) (k : Z) (n i : nat) : result Z :=
  match n with
  | O => rightmost_child page
  | S n =>
      let at_ := INTERIOR_ENTRIES + i * INTERIOR_ENTRY in
      let? sep := read_u64 page at_ in
      if (k <? sep)%Z then read_u64 page (at_ + 8) else route_walk page k n (S i)
  end.

Definition route (page : Page) (k : Z) : result Z :=
  let? n := count page in route_walk page k n 0.
