(* ===== verification/NodeFacts.v ===== *)
(** * The node codec: canonical pages and round trips

    Every page the tree writes has a canonical form determined by its header
    and contents. The lemmas here say what each accessor and writer of
    [Node.v] does on canonical pages. *)

From S2P Require Import Prelude Core Node.
From stdpp Require Import base list strings sorting.
From Stdlib Require Import ZArith Lia Strings.Byte.

Definition zeros (n : nat) : bytes := replicate n "000"%byte.

(** The shared header: kind, right link, high key, entry count. *)
Definition hdr (kind : byte) (link high : Z) (n : nat) : bytes :=
  [kind] ++ le_bytes 8 link ++ le_bytes 8 high ++ le_bytes 2 (Z.of_nat n).

(** A right link that a page can hold: a page id other than the sentinel. *)
Definition link_ok (link : option Z) : Prop :=
  match link with None => True | Some id => (0 <= id < U64_MAX)%Z end.

Lemma link_val_u64 link : link_ok link -> u64 (link_val link).
Proof. destruct link; unfold link_val, NO_LINK, U64_MAX, u64; simpl; unfold U64_MAX; lia. Qed.

Lemma link_val_decode link :
  link_ok link -> (if bool_decide (link_val link = NO_LINK) then None else Some (link_val link)) = link.
Proof.
  destruct link as [id|]; intros H; cbn [link_val].
  - simpl in H. case_bool_decide; [unfold NO_LINK in *; lia|done].
  - by case_bool_decide.
Qed.

(** Two consecutive bytes read as a little-endian [u16]. *)
Lemma byte_at_drop page a b r : drop a page = b :: r -> byte_at page a = Ok b.
Proof.
  intros H. unfold byte_at. rewrite <- (Nat.add_0_r a), <- lookup_drop, H. done.
Qed.

Lemma read16 page a v r :
  drop a page = le_bytes 2 v ++ r -> u16 v ->
  exists b0 b1, byte_at page a = Ok b0 /\ byte_at page (a + 1) = Ok b1 /\ le_val [b0; b1] = v.
Proof.
  intros Hd Hv. pose proof (le_bytes_length 2 v) as H. pose proof (le_val_bytes_u16 v Hv) as Hl.
  destruct (le_bytes 2 v) as [|b0 [|b1 [|]]]; try discriminate.
  exists b0, b1. split; [by eapply byte_at_drop|split; [|done]].
  eapply (byte_at_drop _ _ _ r). by rewrite <- drop_drop, Hd.
Qed.

Section Header.
Context (kind : byte) (link : option Z) (high : Z) (n : nat) (body : bytes).
Context (Hlink : link_ok link) (Hhigh : u64 high) (Hn : u16 (Z.of_nat n)).

Let page := hdr kind (link_val link) high n ++ body.

Lemma length_hdr : length (hdr kind (link_val link) high n) = 19.
Proof using. clear. unfold hdr. len. Qed.

Lemma hdr_is_leaf : is_leaf page = Ok (bool_decide (kind = KIND_LEAF)).
Proof using. done. Qed.

Lemma hdr_is_overflow : is_overflow page = Ok (bool_decide (kind = KIND_OVERFLOW)).
Proof using. done. Qed.

Lemma hdr_right_link : right_link page = Ok link.
Proof using Hlink.
  unfold right_link, read_u64, page, hdr. rewrite <- !app_assoc.
  rewrite slice_mid by len. simpl.
  rewrite le_val_bytes_u64 by by apply link_val_u64.
  by rewrite link_val_decode.
Qed.

Lemma hdr_high_key : high_key page = Ok high.
Proof using Hhigh.
  unfold high_key, read_u64, page, hdr. rewrite <- !app_assoc, (app_assoc [kind]).
  rewrite slice_mid by len. simpl. by rewrite le_val_bytes_u64.
Qed.

Lemma hdr_count : count page = Ok n.
Proof using Hn.
  destruct (read16 page OFF_COUNT (Z.of_nat n) body) as (b0 & b1 & H0 & H1 & Hv); [|done|].
  { unfold page, hdr. rewrite <- !app_assoc, !(app_assoc [kind]), !(app_assoc (_ ++ _)).
    rewrite <- (app_assoc _ (le_bytes 2 _)). apply drop_app_length'. len. }
  unfold count. rewrite H0. cbn [rbind]. rewrite H1. cbn [rbind]. rewrite Hv. f_equal. lia.
Qed.

Lemma hdr_set_right_link link' :
  set_right_link page link' = Ok (hdr kind (link_val link') high n ++ body).
Proof using.
  clear. unfold set_right_link, write_u64, page, hdr. rewrite <- !app_assoc.
  by rewrite store_at_mid by len.
Qed.

Lemma hdr_set_high_key high' :
  set_high_key page high' = Ok (hdr kind (link_val link) high' n ++ body).
Proof using.
  clear. unfold set_high_key, write_u64, page, hdr.
  rewrite <- !app_assoc, !(app_assoc [kind]).
  by rewrite store_at_mid by len.
Qed.

Lemma hdr_set_count n' :
  u16 (Z.of_nat n') -> set_count page n' = Ok (hdr kind (link_val link) high n' ++ body).
Proof using.
  clear. intros Hn'. unfold set_count, u16_sat, U16_MAX, page, hdr.
  rewrite Z.min_l by (unfold u16 in Hn'; lia).
  rewrite <- !app_assoc, !(app_assoc [kind]), !(app_assoc (_ ++ _) (le_bytes 8 high)).
  by rewrite store_at_mid by len.
Qed.
End Header.

(** A page zero-filled and given a kind, before its links are set. *)
Lemma init_header kind n :
  19 <= n ->
  (let? page := set_byte (replicate n "000"%byte) OFF_KIND kind in
   let? page := set_right_link page None in
   let? page := set_high_key page INF_KEY in
   set_count page 0) = Ok (hdr kind NO_LINK INF_KEY 0 ++ zeros (n - 19)).
Proof.
  intros Hn.
  assert (replicate n "000"%byte = [] ++ ["000"%byte] ++ zeros (n - 1)) as ->.
  { simpl. unfold zeros. rewrite <- replicate_S. f_equal. lia. }
  unfold set_byte. rewrite store_at_mid by len. cbn [rbind]. rewrite app_nil_l.
  assert (zeros (n - 1) = le_bytes 8 0 ++ zeros (n - 9)) as ->.
  { change (le_bytes 8 0) with (zeros 8). unfold zeros. rewrite <- replicate_add. f_equal. lia. }
  unfold set_right_link, write_u64.
  rewrite store_at_mid by len. cbn [rbind].
  assert (zeros (n - 9) = le_bytes 8 0 ++ zeros (n - 17)) as ->.
  { change (le_bytes 8 0) with (zeros 8). unfold zeros. rewrite <- replicate_add. f_equal. lia. }
  unfold set_high_key, write_u64. rewrite (app_assoc [kind]).
  rewrite store_at_mid by len. cbn [rbind].
  assert (zeros (n - 17) = le_bytes 2 0 ++ zeros (n - 19)) as ->.
  { change (le_bytes 2 0) with (zeros 2). unfold zeros. rewrite <- replicate_add. f_equal. lia. }
  unfold set_count. rewrite (app_assoc _ (le_bytes 8 INF_KEY)).
  rewrite store_at_mid by len. simpl. unfold hdr. by rewrite <- !app_assoc.
Qed.

(** ** Leaves *)

Definition enc_entry (e : Entry) : bytes :=
  le_bytes 8 (key e) ++ le_bytes 2 (entry_len_field e) ++ stored e.

Definition enc_entries (es : list Entry) : bytes := concat (enc_entry <$> es).

(** An entry the format can hold: a 64-bit key, and a stored length that
    leaves the overflow bit free. *)
Definition entry_ok (e : Entry) : Prop := u64 (key e) /\ length (stored e) <= MAX_TUPLE.

Lemma entry_ok_short e : entry_ok e -> (Z.of_nat (length (stored e)) < 32768)%Z.
Proof. intros [_ H]. len. Qed.

Definition leaf_fits (es : list Entry) : Prop := entries_size es <= LEAF_CAPACITY.

Definition leaf_bytes (link : option Z) (high : Z) (es : list Entry) : Page :=
  hdr KIND_LEAF (link_val link) high (length es) ++
  enc_entries es ++ zeros (LEAF_CAPACITY - entries_size es).

Lemma length_enc_entry e : length (enc_entry e) = LEAF_ENTRY_HEADER + length (stored e).
Proof. unfold enc_entry. len. Qed.

Lemma length_enc_entries es : length (enc_entries es) = entries_size es.
Proof.
  induction es as [|e es IH]; [done|].
  change (length (enc_entry e ++ enc_entries es) = entries_size (e :: es)).
  rewrite length_app, IH, length_enc_entry. done.
Qed.

Lemma entries_size_cons e es :
  entries_size (e :: es) = LEAF_ENTRY_HEADER + length (stored e) + entries_size es.
Proof. done. Qed.

Lemma entries_size_app es1 es2 :
  entries_size (es1 ++ es2) = entries_size es1 + entries_size es2.
Proof.
  induction es1 as [|e es1 IH]; [done|].
  rewrite <- app_comm_cons, !entries_size_cons, IH. lia.
Qed.

Lemma entries_size_length es : 10 * length es <= entries_size es.
Proof.
  induction es as [|e es IH]; [done|]. rewrite entries_size_cons, length_cons. len.
Qed.

Lemma leaf_fits_length es : leaf_fits es -> u16 (Z.of_nat (length es)).
Proof.
  unfold leaf_fits. pose proof (entries_size_length es). unfold u16. len.
Qed.

Lemma leaf_fits_ok es : leaf_fits es -> Forall (fun e => u64 (key e)) es -> Forall entry_ok es.
Proof.
  unfold leaf_fits. induction es as [|e es IH]; intros Hf Hk; [constructor|].
  rewrite entries_size_cons in Hf. apply Forall_cons in Hk as [Hk Hks].
  constructor; [split; [done|len]|apply IH; [lia|done]].
Qed.

(** The length field: the flag bit sits above every stored length, so setting
    it adds it and masking splits the two again. *)
Lemma land_flag z c :
  (0 <= z < 32768)%Z ->
  Z.land (z + if c : bool then OVERFLOW_FLAG else 0) OVERFLOW_FLAG =
  if c then OVERFLOW_FLAG else 0%Z.
Proof.
  intros Hz.
  assert (forall w, Z.land w (2 ^ 15) = if Z.testbit w 15 then 2 ^ 15 else 0)%Z as Hland.
  { intros w. apply Z.bits_inj'. intros i Hi. rewrite Z.land_spec.
    destruct (decide (i = 15)%Z) as [->|Hne].
    - rewrite Z.pow2_bits_true, andb_true_r by lia. by destruct (Z.testbit w 15).
    - rewrite Z.pow2_bits_false, andb_false_r by lia.
      destruct (Z.testbit w 15); [by rewrite Z.pow2_bits_false by lia|by rewrite Z.bits_0]. }
  change OVERFLOW_FLAG with (2 ^ 15)%Z. rewrite Hland. destruct c.
  - assert (Z.testbit (z + 2 ^ 15) 15 = true) as ->; [|done].
    apply Z.testbit_true; [lia|]. replace (z + 2 ^ 15)%Z with (z + 1 * 2 ^ 15)%Z by lia.
    rewrite Z.div_add, Z.div_small by (simpl; lia). done.
  - assert (Z.testbit (z + 0) 15 = false) as ->; [|done].
    apply Z.testbit_false; [lia|]. rewrite Z.add_0_r, Z.div_small by (simpl; lia). done.
Qed.

Lemma lor_flag len :
  (0 <= len < 32768)%Z -> Z.lor len OVERFLOW_FLAG = (len + OVERFLOW_FLAG)%Z.
Proof.
  intros Hl. pose proof (land_flag len false Hl) as Hz. rewrite Z.add_0_r in Hz.
  pose proof (Z.add_lor_land len OVERFLOW_FLAG). lia.
Qed.

Lemma len_field_value e :
  entry_ok e -> entry_len_field e =
  (Z.of_nat (length (stored e)) + if overflow e then OVERFLOW_FLAG else 0)%Z.
Proof.
  intros Hl%entry_ok_short. unfold entry_len_field, u16_sat, U16_MAX. rewrite Z.min_l by lia.
  destruct (overflow e); [|lia]. apply lor_flag. lia.
Qed.

Lemma len_field_u16 e : entry_ok e -> u16 (entry_len_field e).
Proof.
  intros He. rewrite len_field_value by done. apply entry_ok_short in He as Hl.
  unfold u16, OVERFLOW_FLAG. destruct (overflow e); lia.
Qed.

Lemma len_field_len e :
  entry_ok e ->
  Z.to_nat (Z.land (entry_len_field e) (U16_MAX - OVERFLOW_FLAG)) = length (stored e).
Proof.
  intros He. rewrite len_field_value by done. apply entry_ok_short in He as Hl.
  change (U16_MAX - OVERFLOW_FLAG)%Z with (Z.ones 15). rewrite Z.land_ones by lia.
  unfold OVERFLOW_FLAG. destruct (overflow e).
  - change 32768%Z with (1 * 2 ^ 15)%Z. rewrite Z_mod_plus_full, Z.mod_small by (simpl; lia). lia.
  - rewrite Z.add_0_r, Z.mod_small by (simpl; lia). lia.
Qed.

Lemma len_field_flag e :
  entry_ok e -> negb (bool_decide (Z.land (entry_len_field e) OVERFLOW_FLAG = 0%Z)) = overflow e.
Proof.
  intros He. rewrite len_field_value by done. apply entry_ok_short in He as Hl.
  rewrite land_flag by lia.
  by destruct (overflow e).
Qed.

(** ** Walking a leaf *)

Lemma entry_len_enc page a e r :
  drop a page = enc_entry e ++ r -> entry_ok e ->
  entry_len page a = Ok (length (stored e), overflow e).
Proof.
  intros Hd He.
  destruct (read16 page (a + 8) (entry_len_field e) (stored e ++ r)) as (b0 & b1 & H0 & H1 & Hv).
  - unfold enc_entry in Hd. rewrite <- !app_assoc in Hd.
    rewrite <- drop_drop, Hd. rewrite drop_app_length' by len. done.
  - by apply len_field_u16.
  - unfold entry_len. rewrite H0. cbn [rbind].
    replace (a + 9) with (a + 8 + 1) by lia. rewrite H1. cbn [rbind].
    by rewrite Hv, len_field_len, len_field_flag.
Qed.

Lemma entry_key_enc page a e r :
  drop a page = enc_entry e ++ r -> entry_ok e -> a <= length page ->
  read_u64 page a = Ok (key e).
Proof.
  intros Hd [Hk _] Ha. unfold read_u64.
  rewrite (slice_prefix page a (a + 8) (le_bytes 8 (key e))
             (le_bytes 2 (entry_len_field e) ++ stored e ++ r)).
  - cbn [rbind]. by rewrite le_val_bytes_u64.
  - unfold enc_entry in Hd. by rewrite <- !app_assoc in Hd.
  - len.
  - done.
Qed.

Lemma entry_body_enc page a e r :
  drop a page = enc_entry e ++ r -> a <= length page ->
  slice (E:=Error) page (a + LEAF_ENTRY_HEADER) (a + LEAF_ENTRY_HEADER + length (stored e)) =
  Ok (stored e).
Proof.
  intros Hd Ha.
  assert (length (drop a page) = length (enc_entry e ++ r)) as Hl by by rewrite Hd.
  rewrite length_drop, length_app, length_enc_entry in Hl.
  apply (slice_prefix _ _ _ _ r); [|done|lia].
  rewrite <- drop_drop, Hd. unfold enc_entry. rewrite !app_assoc, <- (app_assoc _ (stored e)).
  apply drop_app_length'. len.
Qed.

Lemma drop_enc_next page a e r :
  drop a page = enc_entry e ++ r ->
  drop (a + LEAF_ENTRY_HEADER + length (stored e)) page = r.
Proof.
  intros Hd. rewrite <- Nat.add_assoc. apply (drop_prefix _ _ _ (enc_entry e)); [done|].
  by rewrite length_enc_entry.
Qed.

Lemma enc_next_le page a e r :
  drop a page = enc_entry e ++ r -> a <= length page ->
  a + LEAF_ENTRY_HEADER + length (stored e) <= length page.
Proof.
  intros Hd Ha.
  assert (length (drop a page) = length (enc_entry e ++ r)) as Hl by by rewrite Hd.
  rewrite length_drop, length_app, length_enc_entry in Hl. lia.
Qed.

Lemma leaf_walk_enc {A} (f : A -> Z -> bytes -> bool -> A) es page a r acc :
  drop a page = enc_entries es ++ r -> a <= length page -> Forall entry_ok es ->
  leaf_walk page f (length es) a acc =
  Ok (foldl (fun acc e => f acc (key e) (stored e) (overflow e)) acc es).
Proof.
  revert a acc. induction es as [|e es IH]; intros a acc Hd Ha Hok; [done|].
  apply Forall_cons in Hok as [He Hok].
  change (enc_entries (e :: es)) with (enc_entry e ++ enc_entries es) in Hd.
  rewrite <- app_assoc in Hd. cbn [length leaf_walk foldl].
  rewrite (entry_key_enc _ _ _ _ Hd) by done. cbn [rbind].
  rewrite (entry_len_enc _ _ _ _ Hd) by done. cbn [rbind].
  rewrite (entry_body_enc _ _ _ _ Hd) by done. cbn [rbind].
  apply IH; [|by eapply enc_next_le|done].
  by apply drop_enc_next.
Qed.

Lemma foldl_entries es acc :
  foldl (fun out e => out ++ [MkEntry (key e) (stored e) (overflow e)]) acc es = acc ++ es.
Proof.
  revert acc. induction es as [|e es IH]; intros acc; simpl; [by rewrite app_nil_r|].
  rewrite IH, <- app_assoc. by destruct e.
Qed.

Lemma length_leaf_bytes link high es : leaf_fits es -> length (leaf_bytes link high es) = PAGE_SIZE.
Proof.
  unfold leaf_fits, leaf_bytes. intros H.
  rewrite !length_app, length_hdr, length_enc_entries. unfold zeros. len.
Qed.

Section Leaf.
Context (link : option Z) (high : Z) (es : list Entry).
Context (Hfit : leaf_fits es) (Hkeys : Forall (fun e => u64 (key e)) es).

Lemma drop_leaf_bytes :
  drop LEAF_ENTRIES (leaf_bytes link high es) =
  enc_entries es ++ zeros (LEAF_CAPACITY - entries_size es).
Proof using. clear. unfold leaf_bytes. apply drop_app_length'. by rewrite length_hdr. Qed.

Lemma leaf_for_each {A} (f : A -> Z -> bytes -> bool -> A) acc :
  for_each_leaf_entry (leaf_bytes link high es) f acc =
  Ok (foldl (fun acc e => f acc (key e) (stored e) (overflow e)) acc es).
Proof using Hfit Hkeys.
  unfold for_each_leaf_entry. unfold leaf_bytes at 1.
  rewrite hdr_count by by apply leaf_fits_length. cbn [rbind].
  apply (leaf_walk_enc f es _ _ (zeros (LEAF_CAPACITY - entries_size es))).
  - apply drop_leaf_bytes.
  - rewrite length_leaf_bytes by done. len.
  - by apply leaf_fits_ok.
Qed.

Lemma leaf_bytes_entries : leaf_entries (leaf_bytes link high es) = Ok es.
Proof using Hfit Hkeys. unfold leaf_entries. by rewrite leaf_for_each, foldl_entries. Qed.
End Leaf.

(** Searching a leaf: the walk stops at the first key past the target, which
    is the right answer on sorted entries. *)
Fixpoint lookup_entry (k : Z) (es : list Entry) : option Entry :=
  match es with
  | [] => None
  | e :: es => if (key e =? k)%Z then Some e else lookup_entry k es
  end.

Definition sorted_keys (ks : list Z) : Prop := StronglySorted Z.lt ks.

Lemma lookup_entry_none k es : Forall (fun e => key e <> k) es -> lookup_entry k es = None.
Proof.
  induction 1 as [|e es He _ IH]; simpl; [done|].
  by rewrite (proj2 (Z.eqb_neq _ _) He).
Qed.

Lemma lookup_entry_elem k es e : lookup_entry k es = Some e -> e ∈ es /\ key e = k.
Proof.
  induction es as [|e' es IH]; simpl; [done|].
  destruct (Z.eqb_spec (key e') k); intros H; simplify_eq.
  - split; [left|done].
  - destruct (IH H). split; [by right|done].
Qed.

Definition found (e : option Entry) : option (bytes * bool) :=
  (fun e => (stored e, overflow e)) <$> e.

Lemma find_walk_enc es page k a r :
  drop a page = enc_entries es ++ r -> a <= length page -> Forall entry_ok es ->
  sorted_keys (key <$> es) ->
  find_walk page k (length es) a = Ok (found (lookup_entry k es)).
Proof.
  revert a. induction es as [|e es IH]; intros a Hd Ha Hok Hs; [done|].
  apply Forall_cons in Hok as [He Hok].
  unfold sorted_keys in *. rewrite fmap_cons in Hs. apply StronglySorted_inv in Hs as [Hs Hlt].
  change (enc_entries (e :: es)) with (enc_entry e ++ enc_entries es) in Hd.
  rewrite <- app_assoc in Hd. cbn [length find_walk lookup_entry].
  rewrite (entry_key_enc _ _ _ _ Hd) by done. cbn [rbind].
  rewrite (entry_len_enc _ _ _ _ Hd) by done. cbn [rbind].
  destruct (Z.compare_spec (key e) k) as [Heq|Hl|Hg].
  - rewrite (entry_body_enc _ _ _ _ Hd) by done. cbn [rbind].
    by rewrite (proj2 (Z.eqb_eq _ _) Heq).
  - rewrite (proj2 (Z.eqb_neq _ _)) by lia.
    apply IH; [by apply drop_enc_next|by eapply enc_next_le|done|done].
  - rewrite (proj2 (Z.eqb_neq _ _)) by lia. rewrite lookup_entry_none; [done|].
    rewrite Forall_fmap in Hlt. eapply Forall_impl; [exact Hlt|]. simpl. lia.
Qed.

Lemma leaf_bytes_find link high es k :
  leaf_fits es -> Forall (fun e => u64 (key e)) es -> sorted_keys (key <$> es) ->
  leaf_find (leaf_bytes link high es) k = Ok (found (lookup_entry k es)).
Proof.
  intros Hfit Hkeys Hs. unfold leaf_find. unfold leaf_bytes at 1.
  rewrite hdr_count by by apply leaf_fits_length. cbn [rbind].
  eapply find_walk_enc; [apply drop_leaf_bytes| |by apply leaf_fits_ok|done].
  rewrite length_leaf_bytes by done. len.
Qed.

(** ** Writing a leaf *)

Lemma write_entries_enc es x old y :
  length old = entries_size es ->
  write_entries (x ++ old ++ y) es (length x) = Ok (x ++ enc_entries es ++ y).
Proof.
  revert x old. induction es as [|e es IH]; intros x old Hl.
  - by destruct old.
  - rewrite entries_size_cons in Hl. cbn [write_entries].
    destruct (list_split old 8) as (o1 & old1 & -> & Ho1); [len|].
    destruct (list_split old1 2) as (o2 & old2 & -> & Ho2); [len|].
    destruct (list_split old2 (length (stored e))) as (o3 & old3 & -> & Ho3); [len|].
    unfold write_u64. rewrite <- !app_assoc, store_at_mid by len. cbn [rbind].
    rewrite (app_assoc x), store_at_mid by len. cbn [rbind].
    rewrite (app_assoc (x ++ _)), store_at_mid by len. cbn [rbind].
    rewrite (app_assoc ((x ++ _) ++ _)).
    replace (length x + (LEAF_ENTRY_HEADER + length (stored e)))
      with (length (((x ++ le_bytes 8 (key e)) ++ le_bytes 2 (entry_len_field e)) ++ stored e)) by len.
    rewrite IH by len.
    change (enc_entries (e :: es)) with (enc_entry e ++ enc_entries es).
    unfold enc_entry. by rewrite <- !app_assoc.
Qed.

Lemma write_leaf_ok link high n body es :
  length body = LEAF_CAPACITY -> leaf_fits es ->
  write_leaf_entries (hdr KIND_LEAF (link_val link) high n ++ body) es =
  Ok (leaf_bytes link high es, true).
Proof.
  intros Hb Hfit. unfold write_leaf_entries, leaf_fits in *.
  pose proof (leaf_fits_length es Hfit) as Hu16. unfold u16 in Hu16.
  rewrite decide_False by (unfold U16_MAX; len).
  unfold zero_from. rewrite take_app_length' by by rewrite length_hdr.
  assert (replicate (length (hdr KIND_LEAF (link_val link) high n ++ body) - LEAF_ENTRIES) "000"%byte
          = zeros (entries_size es) ++ zeros (LEAF_CAPACITY - entries_size es)) as ->.
  { unfold zeros. rewrite <- replicate_add. f_equal. rewrite length_app, length_hdr. len. }
  replace LEAF_ENTRIES with (length (hdr KIND_LEAF (link_val link) high n)) at 1
    by by rewrite length_hdr.
  rewrite write_entries_enc by (unfold zeros; len). cbn [rbind].
  by rewrite hdr_set_count.
Qed.

Lemma write_leaf_full page es :
  ~ leaf_fits es -> write_leaf_entries page es = Ok (page, false).
Proof.
  intros Hfit. unfold write_leaf_entries. rewrite decide_True; [done|].
  left. unfold leaf_fits in Hfit. len.
Qed.

Lemma init_leaf_bytes page :
  length page = PAGE_SIZE -> init_leaf page = Ok (leaf_bytes None INF_KEY []).
Proof.
  intros Hl. unfold init_leaf. rewrite Hl, init_header by len.
  unfold leaf_bytes. do 2 f_equal.
Qed.

(** ** Interior nodes *)

Definition enc_sep (p : Z * Z) : bytes := le_bytes 8 p.1 ++ le_bytes 8 p.2.
Definition enc_seps (seps : list (Z * Z)) : bytes := concat (enc_sep <$> seps).

Definition sep_ok (p : Z * Z) : Prop := u64 p.1 /\ u64 p.2.

Definition inner_fits (n : nat) : Prop := INTERIOR_ENTRIES + n * INTERIOR_ENTRY <= PAGE_SIZE.

Definition inner_bytes (link : option Z) (high : Z) (seps : list (Z * Z)) (rm : Z) : Page :=
  hdr KIND_INTERIOR (link_val link) high (length seps) ++ le_bytes 8 rm ++
  enc_seps seps ++ zeros (PAGE_SIZE - INTERIOR_ENTRIES - length seps * INTERIOR_ENTRY).

Lemma length_enc_seps seps : length (enc_seps seps) = length seps * INTERIOR_ENTRY.
Proof.
  induction seps as [|p seps IH]; [done|].
  change (length (enc_sep p ++ enc_seps seps) = S (length seps) * INTERIOR_ENTRY).
  rewrite length_app, IH. unfold enc_sep. len.
Qed.

Lemma length_inner_bytes link high seps rm :
  inner_fits (length seps) -> length (inner_bytes link high seps rm) = PAGE_SIZE.
Proof.
  unfold inner_fits, inner_bytes. intros H.
  rewrite !length_app, length_hdr, length_enc_seps. unfold zeros. len.
Qed.

Lemma inner_fits_u16 n : inner_fits n -> u16 (Z.of_nat n).
Proof. unfold inner_fits, u16. len. Qed.

Lemma inner_fits_iff n : inner_fits n <-> n <= 510.
Proof. unfold inner_fits. len. Qed.

(** Reading the [i]-th separator. *)
Lemma read_u64_enc page a v r :
  drop a page = le_bytes 8 v ++ r -> a <= length page -> u64 v -> read_u64 page a = Ok v.
Proof.
  intros Hd Ha Hv. unfold read_u64. rewrite (slice_prefix page a (a + 8) (le_bytes 8 v) r);
    [|done|len|done].
  cbn [rbind]. by rewrite le_val_bytes_u64.
Qed.

Definition sep_at (i : nat) : nat := INTERIOR_ENTRIES + i * INTERIOR_ENTRY.

Lemma read_sep page i p seps r :
  drop (sep_at i) page = enc_seps (p :: seps) ++ r -> sep_at i <= length page -> sep_ok p ->
  read_u64 page (sep_at i) = Ok p.1 /\ read_u64 page (sep_at i + 8) = Ok p.2 /\
  drop (sep_at (S i)) page = enc_seps seps ++ r /\ sep_at (S i) <= length page.
Proof.
  intros Hd Ha [H1 H2].
  change (enc_seps (p :: seps)) with (enc_sep p ++ enc_seps seps) in Hd.
  assert (length (drop (sep_at i) page) = length ((enc_sep p ++ enc_seps seps) ++ r)) as Hl by by rewrite Hd.
  rewrite length_drop, !length_app in Hl. unfold enc_sep in Hl. rewrite length_app, !le_bytes_length in Hl.
  unfold enc_sep in Hd. rewrite <- !app_assoc in Hd.
  assert (sep_at (S i) = sep_at i + 8 + 8) as -> by (unfold sep_at; len).
  split_and!.
  - eapply read_u64_enc; done.
  - eapply read_u64_enc; [|lia|done]. eapply drop_prefix; [exact Hd|len].
  - eapply drop_prefix; [eapply drop_prefix; [exact Hd|len]|len].
  - lia.
Qed.

Lemma interior_walk_enc seps page i r :
  drop (sep_at i) page = enc_seps seps ++ r -> sep_at i <= length page -> Forall sep_ok seps ->
  interior_walk page (length seps) i = Ok seps.
Proof.
  revert i. induction seps as [|p seps IH]; intros i Hd Ha Hok; [done|].
  apply Forall_cons in Hok as [Hp Hok].
  destruct (read_sep page i p seps r) as (H1 & H2 & Hd' & Ha'); [done..|].
  cbn [length interior_walk]. unfold sep_at in H1, H2.
  rewrite H1. cbn [rbind]. rewrite H2. cbn [rbind].
  rewrite (IH (S i)) by done. by destruct p.
Qed.

(** The child the walk picks: that of the first separator past the key. *)
Fixpoint pick_child (k : Z) (seps : list (Z * Z)) (rm : Z) : Z :=
  match seps with
  | [] => rm
  | (sep, child) :: rest => if (k <? sep)%Z then child else pick_child k rest rm
  end.

Lemma route_walk_enc seps page k i r rm :
  drop (sep_at i) page = enc_seps seps ++ r -> sep_at i <= length page -> Forall sep_ok seps ->
  rightmost_child page = Ok rm ->
  route_walk page k (length seps) i = Ok (pick_child k seps rm).
Proof.
  revert i. induction seps as [|[s c] seps IH]; intros i Hd Ha Hok Hrm; [done|].
  apply Forall_cons in Hok as [Hp Hok].
  destruct (read_sep page i (s, c) seps r) as (H1 & H2 & Hd' & Ha'); [done..|].
  cbn [length route_walk pick_child]. unfold sep_at in H1, H2.
  rewrite H1. cbn [rbind fst snd] in *. destruct (k <? s)%Z; [exact H2|by apply IH].
Qed.

Section Interior.
Context (link : option Z) (high : Z) (seps : list (Z * Z)) (rm : Z).
Context (Hfit : inner_fits (length seps)) (Hok : Forall sep_ok seps) (Hrm : u64 rm).

Lemma drop_inner_bytes :
  drop (sep_at 0) (inner_bytes link high seps rm) =
  enc_seps seps ++ zeros (PAGE_SIZE - INTERIOR_ENTRIES - length seps * INTERIOR_ENTRY).
Proof using.
  clear. unfold inner_bytes. rewrite app_assoc. apply drop_app_length'.
  rewrite length_app, length_hdr. unfold sep_at. len.
Qed.

Lemma inner_rightmost : rightmost_child (inner_bytes link high seps rm) = Ok rm.
Proof using Hrm Hfit.
  unfold rightmost_child. eapply read_u64_enc; [|rewrite length_inner_bytes by done; len|done].
  unfold inner_bytes. rewrite drop_app_length' by by rewrite length_hdr. done.
Qed.

Lemma inner_bytes_entries : interior_entries (inner_bytes link high seps rm) = Ok seps.
Proof using Hfit Hok.
  unfold interior_entries. unfold inner_bytes at 1.
  rewrite hdr_count by by apply inner_fits_u16. cbn [rbind].
  eapply interior_walk_enc; [apply drop_inner_bytes| |done].
  rewrite length_inner_bytes by done. unfold sep_at. len.
Qed.

Lemma inner_bytes_route k : route (inner_bytes link high seps rm) k = Ok (pick_child k seps rm).
Proof using Hfit Hok Hrm.
  unfold route. unfold inner_bytes at 1.
  rewrite hdr_count by by apply inner_fits_u16. cbn [rbind].
  eapply route_walk_enc; [apply drop_inner_bytes| |done|apply inner_rightmost].
  rewrite length_inner_bytes by done. unfold sep_at. len.
Qed.

Lemma inner_set_rightmost rm' :
  set_rightmost_child (inner_bytes link high seps rm) rm' = Ok (inner_bytes link high seps rm').
Proof using.
  clear. unfold set_rightmost_child, write_u64, inner_bytes.
  rewrite store_at_mid; [done|by rewrite length_hdr|len].
Qed.
End Interior.

Lemma write_separators_enc seps x old y i :
  length x = sep_at i -> length old = length seps * INTERIOR_ENTRY ->
  write_separators (x ++ old ++ y) seps i = Ok (x ++ enc_seps seps ++ y).
Proof.
  revert x old i. induction seps as [|[s c] seps IH]; intros x old i Hx Hl.
  - by destruct old.
  - cbn [write_separators]. rewrite length_cons in Hl.
    destruct (list_split old 8) as (o1 & old1 & -> & Ho1); [len|].
    destruct (list_split old1 8) as (o2 & old2 & -> & Ho2); [len|].
    unfold write_u64. unfold sep_at in Hx. rewrite <- Hx.
    rewrite <- !app_assoc, store_at_mid by len. cbn [rbind].
    rewrite (app_assoc x), store_at_mid by len. cbn [rbind].
    rewrite (app_assoc (x ++ _)). rewrite IH; [|unfold sep_at; len|len].
    change (enc_seps ((s, c) :: seps)) with (enc_sep (s, c) ++ enc_seps seps).
    unfold enc_sep. cbn [fst snd]. by rewrite <- !app_assoc.
Qed.

Lemma write_interior_ok link high seps0 rm seps :
  inner_fits (length seps0) -> inner_fits (length seps) ->
  write_interior_entries (inner_bytes link high seps0 rm) seps =
  Ok (inner_bytes link high seps rm, true).
Proof.
  intros H0 Hfit. unfold write_interior_entries.
  pose proof (inner_fits_u16 _ Hfit) as Hu16. unfold u16, inner_fits in *.
  rewrite decide_False by (unfold U16_MAX; len).
  unfold zero_from. rewrite length_inner_bytes by done.
  unfold inner_bytes at 1. rewrite app_assoc.
  assert (length (hdr KIND_INTERIOR (link_val link) high (length seps0) ++ le_bytes 8 rm) = INTERIOR_ENTRIES)
    as Hlen by (rewrite length_app, length_hdr; len).
  rewrite take_app_length' by by rewrite Hlen.
  assert (replicate (PAGE_SIZE - INTERIOR_ENTRIES) "000"%byte
          = zeros (length seps * INTERIOR_ENTRY) ++
            zeros (PAGE_SIZE - INTERIOR_ENTRIES - length seps * INTERIOR_ENTRY)) as ->.
  { unfold zeros. rewrite <- replicate_add. f_equal. len. }
  rewrite write_separators_enc; [|unfold sep_at; rewrite Hlen; len|unfold zeros; len]. cbn [rbind].
  rewrite <- app_assoc, hdr_set_count by done. done.
Qed.

Lemma write_interior_full page seps :
  ~ inner_fits (length seps) -> write_interior_entries page seps = Ok (page, false).
Proof.
  intros Hfit. unfold write_interior_entries. rewrite decide_True; [done|].
  left. unfold inner_fits in Hfit. lia.
Qed.

Lemma init_interior_bytes page rm :
  length page = PAGE_SIZE -> init_interior page rm = Ok (inner_bytes None INF_KEY [] rm).
Proof.
  intros Hl. unfold init_interior. rewrite Hl.
  pose proof (init_header KIND_INTERIOR PAGE_SIZE ltac:(len)) as Hh.
  apply rbind_inv in Hh as (p1 & -> & Hh). cbn [rbind].
  apply rbind_inv in Hh as (p2 & -> & Hh). cbn [rbind].
  apply rbind_inv in Hh as (p3 & -> & Hh). cbn [rbind]. rewrite Hh. cbn [rbind].
  assert (zeros (PAGE_SIZE - 19) = le_bytes 8 0 ++ zeros (PAGE_SIZE - 27)) as ->.
  { change (le_bytes 8 0) with (zeros 8). unfold zeros. rewrite <- replicate_add. f_equal; len. }
  unfold write_u64. rewrite store_at_mid; [|by rewrite (length_hdr _ None)|len].
  unfold inner_bytes. simpl. reflexivity.
Qed.

(** ** Overflow pages and stubs *)

Definition ovf_bytes (payload : bytes) (next : option Z) : Page :=
  [KIND_OVERFLOW] ++ le_bytes 8 (link_val next) ++ le_bytes 2 (Z.of_nat (length payload)) ++
  payload ++ zeros (OVERFLOW_PAYLOAD - length payload).

Lemma length_ovf_bytes payload next :
  length payload <= OVERFLOW_PAYLOAD -> length (ovf_bytes payload next) = PAGE_SIZE.
Proof. intros H. unfold ovf_bytes, zeros. len. Qed.

Lemma ovf_len_u16 (payload : bytes) : length payload <= OVERFLOW_PAYLOAD -> u16 (Z.of_nat (length payload)).
Proof. unfold u16. len. Qed.

Lemma init_overflow_bytes page payload next :
  length page = PAGE_SIZE -> length payload <= OVERFLOW_PAYLOAD ->
  init_overflow page payload next = Ok (ovf_bytes payload next).
Proof.
  intros Hl Hp. unfold init_overflow. rewrite Hl.
  pose proof (ovf_len_u16 payload Hp) as Hu. unfold u16 in Hu.
  assert (replicate PAGE_SIZE "000"%byte =
          [] ++ zeros 1 ++ zeros 8 ++ zeros 2 ++ zeros (length payload)
            ++ zeros (OVERFLOW_PAYLOAD - length payload)) as ->.
  { unfold zeros. rewrite app_nil_l, <- !replicate_add. f_equal. len. }
  unfold set_byte. rewrite store_at_mid by (unfold zeros; len). cbn [rbind]. rewrite app_nil_l.
  unfold write_u64. rewrite store_at_mid by (unfold zeros; len). cbn [rbind].
  rewrite (app_assoc [KIND_OVERFLOW]), store_at_mid by (unfold zeros; len). cbn [rbind].
  rewrite (app_assoc (_ ++ _)), store_at_mid by (unfold zeros; len).
  unfold ovf_bytes, u16_sat, U16_MAX. rewrite Z.min_l by lia. by rewrite <- !app_assoc.
Qed.

Lemma ovf_is_overflow payload next : is_overflow (ovf_bytes payload next) = Ok true.
Proof. done. Qed.

Lemma ovf_next payload next : link_ok next -> overflow_next (ovf_bytes payload next) = Ok next.
Proof.
  intros Hl. unfold overflow_next, read_u64, ovf_bytes. rewrite slice_mid by len. cbn [rbind].
  rewrite le_val_bytes_u64 by by apply link_val_u64. by rewrite link_val_decode.
Qed.

Lemma ovf_payload payload next :
  length payload <= OVERFLOW_PAYLOAD -> overflow_payload (ovf_bytes payload next) = Ok payload.
Proof.
  intros Hp. unfold overflow_payload.
  destruct (read16 (ovf_bytes payload next) OFF_OVERFLOW_USED (Z.of_nat (length payload))
              (payload ++ zeros (OVERFLOW_PAYLOAD - length payload))) as (b0 & b1 & H0 & H1 & Hv).
  - unfold ovf_bytes. rewrite (app_assoc [KIND_OVERFLOW]). apply drop_app_length'. len.
  - by apply ovf_len_u16.
  - rewrite H0. cbn [rbind]. rewrite H1. cbn [rbind]. rewrite Hv, Nat2Z.id, Nat.min_l by done.
    unfold ovf_bytes. rewrite (app_assoc [KIND_OVERFLOW]), (app_assoc (_ ++ _)).
    apply slice_mid; len.
Qed.

Lemma decode_encode_stub prefix total first :
  length prefix = OVERFLOW_INLINE_PREFIX -> u32 total -> u64 first ->
  decode_stub (encode_stub prefix total first) = Some (prefix, Z.to_nat total, first).
Proof.
  intros Hp Ht Hf. unfold decode_stub, encode_stub.
  rewrite decide_True by len.
  rewrite (get_range_prefix _ _ _ prefix (le_bytes 4 total ++ le_bytes 8 first));
    [|done|len|len].
  rewrite (get_range_prefix _ _ _ (le_bytes 4 total) (le_bytes 8 first));
    [|by apply drop_app_length'|len|len].
  rewrite (get_range_prefix _ _ _ (le_bytes 8 first) []);
    [|rewrite app_nil_r, app_assoc; apply drop_app_length'; len|len|len].
  by rewrite le_val_bytes_u32, le_val_bytes_u64.
Qed.
