(* ===== verification/Mvcc.v ===== *)
(** * Row versions and visibility ([nusadb-btree/src/mvcc.rs])

    The version header in front of every stored row, the undo arena of
    superseded versions, and the walk that resolves which version a read view
    sees. The walk is a [loop] over arena indices; it runs here on fuel, one
    unit per version visited, and [chain_visible] shows that a chain that ends
    never needs more than one unit per arena slot plus one. *)

From S2P Require Import Prelude Core.
From stdpp Require Import base gmap list sets.
From Stdlib Require Import ZArith Lia Strings.Byte.

Definition NO_XMAX : Z := 0.
Definition NO_UNDO : Z := U64_MAX.
Definition META : nat := 24.
#[export] Hint Unfold META : consts.

Record RowMeta := MkMeta { xmin : Z; xmax : Z; undo : Z }.

#[global] Instance RowMeta_eq_dec : EqDecision RowMeta.
Proof. solve_decision. Defined.

Definition fresh_meta (x : Z) : RowMeta := MkMeta x NO_XMAX NO_UNDO.

Record UndoVersion := MkUndo { u_meta : RowMeta; u_tuple : bytes }.

#[global] Instance UndoVersion_eq_dec : EqDecision UndoVersion.
Proof. solve_decision. Defined.

Abbreviation Arena := (list (option UndoVersion)).

Definition encode_row (meta : RowMeta) (tuple : bytes) : bytes :=
  le_bytes 8 (xmin meta) ++ le_bytes 8 (xmax meta) ++ le_bytes 8 (undo meta) ++ tuple.

Definition decode_row (value : bytes) : option (RowMeta * bytes) :=
  match get_range value 0 8, get_range value 8 16, get_range value 16 24,
        get_range value META (length value) with
  | Some x, Some y, Some z, Some tuple => Some (MkMeta (le_val x) (le_val y) (le_val z), tuple)
  | _, _, _, _ => None
  end.

Record ReadView := MkView { own : Z; active : gset Z; horizon : Z }.

Definition sees (view : ReadView) (txn : Z) : bool :=
  (txn =? own view)%Z || ((txn <? horizon view)%Z && bool_decide (txn ∉ active view)).

Inductive Visible :=
| Head
| InArena (tuple : bytes).

#[global] Instance Visible_eq_dec : EqDecision Visible.
Proof. solve_decision. Defined.

(** [arena.get(usize::try_from(undo).ok()?)?.as_ref()?]. *)
Definition arena_get (arena : Arena) (i : Z) : option UndoVersion :=
  if (0 <=? i)%Z then mjoin (arena !! Z.to_nat i) else None.

Fixpoint visible_loop (fuel : nat) (arena : Arena) (view : ReadView)
    (meta : RowMeta) (at_head : bool) (tuple : bytes) : res Error (option Visible) :=
  match fuel with
  | O => Diverge
  | S fuel =>
      if sees view (xmin meta) then
        let deleted := negb (xmax meta =? NO_XMAX)%Z && sees view (xmax meta) in
        Ok (if deleted then None
            else if at_head then Some Head
            else Some (InArena tuple))
      else if (undo meta =? NO_UNDO)%Z then Ok None
      else
        match arena_get arena (undo meta) with
        | None => Ok None
        | Some prev => visible_loop fuel arena view (u_meta prev) false (u_tuple prev)
        end
  end.

Definition visible_version (leaf_meta : RowMeta) (arena : Arena) (view : ReadView)
    : res Error (option Visible) :=
  visible_loop (S (length arena)) arena view leaf_meta true [].

Definition visible_tuple (leaf_meta : RowMeta) (leaf_tuple : bytes) (arena : Arena)
    (view : ReadView) : res Error (option bytes) :=
  let? v := visible_version leaf_meta arena view in
  Ok (match v with
      | None => None
      | Some Head => Some leaf_tuple
      | Some (InArena tuple) => Some tuple
      end).

(** ** The header codec *)

Definition meta_ok (m : RowMeta) : Prop := u64 (xmin m) /\ u64 (xmax m) /\ u64 (undo m).

Lemma decode_encode_row m tuple :
  meta_ok m -> decode_row (encode_row m tuple) = Some (m, tuple).
Proof.
  intros (H1 & H2 & H3). unfold decode_row, encode_row.
  rewrite (get_range_prefix _ 0 8 (le_bytes 8 (xmin m))
             (le_bytes 8 (xmax m) ++ le_bytes 8 (undo m) ++ tuple)); [|done|len|len].
  rewrite (get_range_prefix _ 8 16 (le_bytes 8 (xmax m)) (le_bytes 8 (undo m) ++ tuple));
    [|by apply drop_app_length'; len|len|len].
  rewrite (get_range_prefix _ 16 24 (le_bytes 8 (undo m)) tuple);
    [|by rewrite app_assoc; apply drop_app_length'; len|len|len].
  rewrite (get_range_prefix _ META _ tuple []);
    [|rewrite app_nil_r, 2!app_assoc; apply drop_app_length'; len|len|len].
  rewrite !le_val_bytes_u64 by done. by destruct m.
Qed.

Lemma get_range_Some {A} (l : list A) a b x :
  get_range l a b = Some x -> x = take (b - a) (drop a l) /\ length x = b - a.
Proof.
  unfold get_range. case_decide; [|done]. intros [= <-]. split; [done|].
  rewrite length_take, length_drop. lia.
Qed.

(** Decoding loses nothing: what decodes is the encoding of what it decodes to. *)
Lemma decode_row_inv value m tuple :
  decode_row value = Some (m, tuple) -> value = encode_row m tuple /\ meta_ok m.
Proof.
  unfold decode_row.
  destruct (get_range value 0 8) as [x|] eqn:Hx; [|done].
  destruct (get_range value 8 16) as [y|] eqn:Hy; [|done].
  destruct (get_range value 16 24) as [z|] eqn:Hz; [|done].
  destruct (get_range value META (length value)) as [t|] eqn:Ht; [|done].
  intros [= <- <-]. apply get_range_Some in Hx as [Hx Lx], Hy as [Hy Ly], Hz as [Hz Lz], Ht as [Ht _].
  split; [|unfold meta_ok; cbn; auto using le_val_u64].
  unfold encode_row. cbn [xmin xmax undo].
  assert (forall b : bytes, length b = 8 -> le_bytes 8 (le_val b) = b) as Hle
    by (intros b Hb; rewrite <- Hb; apply le_bytes_val).
  rewrite !Hle by done. subst x y z t.
  rewrite (take_ge (drop META value)) by (rewrite length_drop; lia).
  change (24 - 16) with 8. change (16 - 8) with 8. change (8 - 0) with 8. unfold META.
  replace (drop 24 value) with (drop 8 (drop 16 value)) by by rewrite drop_drop.
  rewrite (take_drop 8 (drop 16 value)).
  replace (drop 16 value) with (drop 8 (drop 8 value)) by by rewrite drop_drop.
  by rewrite (take_drop 8 (drop 8 value)), drop_0, take_drop.
Qed.

Lemma length_encode_row m tuple : length (encode_row m tuple) = META + length tuple.
Proof. unfold encode_row. len. Qed.

(** ** Version chains

    [chain arena i ss vs]: following undo links from [i] visits slots [ss],
    holding versions [vs], newest first, and ends. *)
Inductive chain (arena : Arena) : Z -> list nat -> list UndoVersion -> Prop :=
| chain_end : chain arena NO_UNDO [] []
| chain_cons i v ss vs :
    i <> NO_UNDO -> (0 <= i)%Z ->
    arena !! Z.to_nat i = Some (Some v) ->
    chain arena (undo (u_meta v)) ss vs ->
    chain arena i (Z.to_nat i :: ss) (v :: vs).

(** What a view sees of a row whose versions, newest first, are [vs]: the
    newest one whose creator it sees, unless it also sees that one deleted. *)
Fixpoint resolve (view : ReadView) (vs : list UndoVersion) : option bytes :=
  match vs with
  | [] => None
  | v :: vs =>
      if sees view (xmin (u_meta v)) then
        if negb (xmax (u_meta v) =? NO_XMAX)%Z && sees view (xmax (u_meta v)) then None
        else Some (u_tuple v)
      else resolve view vs
  end.

Lemma chain_det arena i ss vs ss' vs' :
  chain arena i ss vs -> chain arena i ss' vs' -> ss = ss' /\ vs = vs'.
Proof.
  intros H. revert ss' vs'. induction H as [|i v ss vs Hne Hi Hl Hc IH]; intros ss' vs' H'.
  - inversion H'; by subst.
  - inversion H' as [|? v' ss2 vs2 ? ? Hl' Hc']; subst; [done|].
    rewrite Hl in Hl'. simplify_eq. destruct (IH _ _ Hc') as [-> ->]. done.
Qed.

(** A slot on a chain starts a shorter chain, so no slot occurs twice. *)
Lemma chain_suffix arena i ss vs n :
  chain arena i ss vs -> n ∈ ss ->
  exists ss' vs', chain arena (Z.of_nat n) (n :: ss') vs' /\ length ss' < length ss.
Proof.
  induction 1 as [|i v ss vs Hne Hi Hl Hc IH]; intros Hin; [by apply elem_of_nil in Hin|].
  apply elem_of_cons in Hin as [->|Hin].
  - exists ss, (v :: vs). split; [|simpl; lia].
    rewrite Z2Nat.id by done. by constructor.
  - destruct (IH Hin) as (ss' & vs' & Hc' & Hlt). exists ss', vs'. split; [done|simpl; lia].
Qed.

Lemma chain_NoDup arena i ss vs : chain arena i ss vs -> NoDup ss.
Proof.
  induction 1 as [|i v ss vs Hne Hi Hl Hc IH]; constructor; [|done].
  intros Hin. destruct (chain_suffix _ _ _ _ _ Hc Hin) as (ss' & vs' & Hc' & Hlt).
  rewrite Z2Nat.id in Hc' by done.
  destruct (chain_det _ _ _ _ _ _ Hc' (chain_cons arena i v ss vs Hne Hi Hl Hc)) as [Heq _].
  simplify_eq. lia.
Qed.

Lemma chain_lookup arena i ss vs n :
  chain arena i ss vs -> n ∈ ss -> exists v, arena !! n = Some (Some v).
Proof.
  induction 1 as [|i v ss vs Hne Hi Hl Hc IH]; intros Hin; [by apply elem_of_nil in Hin|].
  apply elem_of_cons in Hin as [->|Hin]; eauto.
Qed.

Lemma chain_length arena i ss vs : chain arena i ss vs -> length vs = length ss.
Proof. induction 1; simpl; congruence. Qed.

Lemma chain_short arena i ss vs : chain arena i ss vs -> length vs <= length arena.
Proof.
  intros H. rewrite (chain_length _ _ _ _ H).
  replace (length arena) with (length (seq 0 (length arena))) by apply length_seq.
  apply submseteq_length, NoDup_submseteq; [by eapply chain_NoDup|].
  intros n Hn. destruct (chain_lookup _ _ _ _ _ H Hn) as [v Hv].
  apply elem_of_seq. apply lookup_lt_Some in Hv. lia.
Qed.

(** The walk on a chain is [resolve]. *)
Definition shown (leaf_tuple : bytes) (v : option Visible) : option bytes :=
  match v with
  | None => None
  | Some Head => Some leaf_tuple
  | Some (InArena tuple) => Some tuple
  end.

Lemma visible_loop_chain arena view ss vs m at_head tuple fuel leaf_tuple :
  chain arena (undo m) ss vs -> length vs < fuel ->
  exists r, visible_loop fuel arena view m at_head tuple = Ok r /\
    shown leaf_tuple r =
    resolve view (MkUndo m (if at_head then leaf_tuple else tuple) :: vs).
Proof.
  intros H. remember (undo m) as i eqn:Hi. revert m at_head tuple fuel Hi.
  induction H as [|i v ss vs Hne Hpos Hl Hc IH]; intros m at_head tuple fuel Hi Hf;
    (destruct fuel as [|fuel]; [simpl in Hf; lia|]); cbn [visible_loop resolve u_meta u_tuple];
    (destruct (sees view (xmin m)) eqn:?;
      [eexists; split; [done|]; destruct (_ && _); [done|]; by destruct at_head|]).
  - rewrite <- Hi, Z.eqb_refl. by eexists.
  - rewrite <- Hi, (proj2 (Z.eqb_neq _ _) Hne). unfold arena_get.
    rewrite (proj2 (Z.leb_le _ _) Hpos), Hl. cbn [mjoin option_join].
    destruct (IH (u_meta v) false (u_tuple v) fuel eq_refl) as (r & Hr & Hs);
      [simpl in Hf; lia|].
    exists r. split; [done|]. rewrite Hs. by destruct v.
Qed.

Lemma visible_tuple_chain arena view ss vs m tuple :
  chain arena (undo m) ss vs ->
  visible_tuple m tuple arena view = Ok (resolve view (MkUndo m tuple :: vs)).
Proof.
  intros H. pose proof (chain_short _ _ _ _ H) as Hs.
  destruct (visible_loop_chain arena view ss vs m true [] (S (length arena)) tuple H)
    as (r & Hr & Hres); [lia|].
  unfold visible_tuple, visible_version. rewrite Hr. cbn [rbind]. by rewrite <- Hres.
Qed.

(** ** Frames: what a change to the arena leaves alone *)

Lemma chain_insert arena i ss vs n x :
  chain arena i ss vs -> n ∉ ss -> chain (<[n:=x]> arena) i ss vs.
Proof.
  induction 1 as [|i v ss vs Hne Hi Hl Hc IH]; intros Hn; [constructor|].
  apply not_elem_of_cons in Hn as [Hn1 Hn2].
  econstructor; [done|done| |by apply IH]. by rewrite list_lookup_insert_ne by congruence.
Qed.

Lemma chain_app arena i ss vs l : chain arena i ss vs -> chain (arena ++ l) i ss vs.
Proof.
  induction 1 as [|i v ss vs Hne Hi Hl Hc IH]; [constructor|].
  econstructor; [done|done| |done]. by apply lookup_app_l_Some.
Qed.

Lemma sees_own view : sees view (own view) = true.
Proof. unfold sees. by rewrite Z.eqb_refl. Qed.
