(* ===== verification/Txn.v ===== *)
(** * Transactions and locks ([TxnDomain] of [nusadb-btree/src/engine.rs])

    The transaction table, the active set, read views, write admission and the
    no-wait lock table. Each method is a function on the domain; a method that
    returns [Result] and mutates is in the state-and-error monad [M]. *)

From S2P Require Import Prelude Core Mvcc.
From stdpp Require Import base gmap list sets strings pretty sorting.
From Stdlib Require Import ZArith Lia Strings.Byte.

Inductive IsolationLevel := ReadUncommitted | ReadCommitted | RepeatableRead | Serializable.

#[global] Instance IsolationLevel_eq_dec : EqDecision IsolationLevel.
Proof. solve_decision. Defined.

Inductive LockId :=
| LRow (table page : Z) (slot : Z)
| LKey (table hash : Z)
| LTable (table : Z).

#[global] Instance LockId_eq_dec : EqDecision LockId.
Proof. solve_decision. Defined.

#[global] Program Instance LockId_countable : Countable LockId :=
  inj_countable'
    (fun l => match l with
              | LRow t p s => inl (t, p, s)
              | LKey t h => inr (inl (t, h))
              | LTable t => inr (inr t)
              end)
    (fun x => match x with
              | inl (t, p, s) => LRow t p s
              | inr (inl (t, h)) => LKey t h
              | inr (inr t) => LTable t
              end) _.
Next Obligation. by intros []. Qed.

(** Holder id to whether the hold is exclusive. *)
Record LockHolders := MkHolders { holders : gmap Z bool }.

(** The row inverses of [UndoOp]; the catalog, index and sequence ones are not
    part of this model. *)
Inductive UndoOp :=
| Inserted (table row_id : Z)
| Updated (table row_id : Z) (old : bytes) (undo_idx : Z)
| Deleted (table row_id : Z) (old : bytes).

Record PreparedMeta := MkPrepared {
  gid : string; owner : string; database : string; prepared_at_ms : Z; seq : Z }.

Record TxnState := MkTxn {
  undo_log : list UndoOp;
  savepoints : list (string * nat);
  level : IsolationLevel;
  pinned : ReadView;
  reads : gset (Z * Z);
  predicate_reads : gset Z;
  held : list LockId;
  write_versions_at_begin : gmap Z Z;
  write_bytes : Z;
  prepared : option PreparedMeta;
  fresh_reads : option (Z * ReadView);
  statements : Z }.

Record TxnDomain := MkDomain {
  txns : gmap Z TxnState;
  active_txns : gset Z;
  admission_paused : Z;
  next_txn_id : Z;
  locks : gmap LockId LockHolders;
  staged : gset Z;
  versions_staged : gmap Z Z;
  versions_finished : gmap Z Z;
  prepared_gids : gmap string Z;
  next_prepare_seq : Z }.

Definition domain_default : TxnDomain :=
  MkDomain ∅ ∅ 0 1 ∅ ∅ ∅ ∅ ∅ 0.

(** ** Field updates *)

Definition set_undo_log (f : list UndoOp -> list UndoOp) (s : TxnState) : TxnState :=
  MkTxn (f (undo_log s)) (savepoints s) (level s) (pinned s) (reads s) (predicate_reads s)
    (held s) (write_versions_at_begin s) (write_bytes s) (prepared s) (fresh_reads s)
    (statements s).
Definition set_savepoints (f : list (string * nat) -> list (string * nat)) (s : TxnState)
    : TxnState :=
  MkTxn (undo_log s) (f (savepoints s)) (level s) (pinned s) (reads s) (predicate_reads s)
    (held s) (write_versions_at_begin s) (write_bytes s) (prepared s) (fresh_reads s)
    (statements s).
Definition set_pinned (v : ReadView) (s : TxnState) : TxnState :=
  MkTxn (undo_log s) (savepoints s) (level s) v (reads s) (predicate_reads s)
    (held s) (write_versions_at_begin s) (write_bytes s) (prepared s) (fresh_reads s)
    (statements s).
Definition set_fresh_reads (x : option (Z * ReadView)) (s : TxnState) : TxnState :=
  MkTxn (undo_log s) (savepoints s) (level s) (pinned s) (reads s) (predicate_reads s)
    (held s) (write_versions_at_begin s) (write_bytes s) (prepared s) x (statements s).
Definition set_held (f : list LockId -> list LockId) (s : TxnState) : TxnState :=
  MkTxn (undo_log s) (savepoints s) (level s) (pinned s) (reads s) (predicate_reads s)
    (f (held s)) (write_versions_at_begin s) (write_bytes s) (prepared s) (fresh_reads s)
    (statements s).
Definition set_write_bytes (n : Z) (s : TxnState) : TxnState :=
  MkTxn (undo_log s) (savepoints s) (level s) (pinned s) (reads s) (predicate_reads s)
    (held s) (write_versions_at_begin s) n (prepared s) (fresh_reads s) (statements s).
Definition set_statements (n : Z) (s : TxnState) : TxnState :=
  MkTxn (undo_log s) (savepoints s) (level s) (pinned s) (reads s) (predicate_reads s)
    (held s) (write_versions_at_begin s) (write_bytes s) (prepared s) (fresh_reads s) n.
Definition add_reads (tables : gset Z) (rows : gset (Z * Z)) (s : TxnState) : TxnState :=
  MkTxn (undo_log s) (savepoints s) (level s) (pinned s) (reads s ∪ rows)
    (predicate_reads s ∪ tables) (held s) (write_versions_at_begin s) (write_bytes s)
    (prepared s) (fresh_reads s) (statements s).

Definition set_txns (f : gmap Z TxnState -> gmap Z TxnState) (d : TxnDomain) : TxnDomain :=
  MkDomain (f (txns d)) (active_txns d) (admission_paused d) (next_txn_id d) (locks d)
    (staged d) (versions_staged d) (versions_finished d) (prepared_gids d) (next_prepare_seq d).
Definition set_active (f : gset Z -> gset Z) (d : TxnDomain) : TxnDomain :=
  MkDomain (txns d) (f (active_txns d)) (admission_paused d) (next_txn_id d) (locks d)
    (staged d) (versions_staged d) (versions_finished d) (prepared_gids d) (next_prepare_seq d).
Definition set_next_txn_id (n : Z) (d : TxnDomain) : TxnDomain :=
  MkDomain (txns d) (active_txns d) (admission_paused d) n (locks d)
    (staged d) (versions_staged d) (versions_finished d) (prepared_gids d) (next_prepare_seq d).
Definition set_locks (f : gmap LockId LockHolders -> gmap LockId LockHolders) (d : TxnDomain)
    : TxnDomain :=
  MkDomain (txns d) (active_txns d) (admission_paused d) (next_txn_id d) (f (locks d))
    (staged d) (versions_staged d) (versions_finished d) (prepared_gids d) (next_prepare_seq d).
Definition set_staged (f : gset Z -> gset Z) (d : TxnDomain) : TxnDomain :=
  MkDomain (txns d) (active_txns d) (admission_paused d) (next_txn_id d) (locks d)
    (f (staged d)) (versions_staged d) (versions_finished d) (prepared_gids d)
    (next_prepare_seq d).
Definition set_versions_staged (f : gmap Z Z -> gmap Z Z) (d : TxnDomain) : TxnDomain :=
  MkDomain (txns d) (active_txns d) (admission_paused d) (next_txn_id d) (locks d)
    (staged d) (f (versions_staged d)) (versions_finished d) (prepared_gids d)
    (next_prepare_seq d).
Definition set_versions_finished (f : gmap Z Z -> gmap Z Z) (d : TxnDomain) : TxnDomain :=
  MkDomain (txns d) (active_txns d) (admission_paused d) (next_txn_id d) (locks d)
    (staged d) (versions_staged d) (f (versions_finished d)) (prepared_gids d)
    (next_prepare_seq d).

(** [if let Some(t) = self.txns.get_mut(&txn) { .. }]. *)
Definition alter_txn (f : TxnState -> TxnState) (txn : Z) : TxnDomain -> TxnDomain :=
  set_txns (alter f txn).

(** ** Bookkeeping of written tables *)

Definition row_table (op : UndoOp) : Z :=
  match op with Inserted t _ => t | Updated t _ _ _ => t | Deleted t _ _ => t end.

Definition touched_tables (d : TxnDomain) (txn : Z) : gset Z :=
  match txns d !! txn with
  | Some s => list_to_set (row_table <$> undo_log s)
  | None => ∅
  end.

(** [*map.entry(table).or_insert(0) += 1] for every table of the set. *)
Definition bump (tables : gset Z) (m : gmap Z Z) : gmap Z Z :=
  set_fold (fun t m => <[t := (match m !! t with Some n => n | None => 0 end + 1)%Z]> m) m tables.

Definition bump_staged_versions (txn : Z) (d : TxnDomain) : TxnDomain :=
  set_versions_staged (bump (touched_tables d txn)) d.

Definition bump_finished_versions (txn : Z) (d : TxnDomain) : TxnDomain :=
  set_versions_finished (bump (touched_tables d txn)) d.

Definition running (d : TxnDomain) : nat := size (active_txns d) - size (prepared_gids d).

(** ** Views *)

Definition fresh_view (d : TxnDomain) (own : Z) : ReadView :=
  MkView own (active_txns d ∖ {[own]}) (next_txn_id d).

Definition unknown_txn (txn : Z) : Error := UnknownTransaction txn.

Definition view_for (d : TxnDomain) (txn : Z) : result ReadView :=
  match txns d !! txn with
  | Some s => Ok (pinned s)
  | None => Err (unknown_txn txn)
  end.

(** [TxnState::snapshot]. *)
Definition snapshot (s : TxnState) : ReadView :=
  match fresh_reads s with Some (_, saved) => saved | None => pinned s end.

(** ** Write admission *)

Record Tid := MkTid { tid_page : Z; tid_slot : Z }.

Definition tid_of (row_id : Z) : Tid := MkTid row_id 0.
Definition row_id_of (tid : Tid) : Z := tid_page tid.

Definition tuple_not_found (tid : Tid) : Error :=
  Io NotFound ("nusadb-btree: no row at tid Tid { page: PageId(" +:+ pretty (tid_page tid) +:+
               "), slot: SlotIdx(" +:+ pretty (tid_slot tid) +:+ ") }").

Definition admit_write (d : TxnDomain) (txn : Z) (meta : RowMeta) (tid : Tid) : result unit :=
  let other_active id := negb (id =? txn)%Z && bool_decide (id ∈ active_txns d) in
  let unseen stamp :=
    match txns d !! txn with
    | Some s => negb (sees (pinned s) stamp)
    | None => false
    end in
  if other_active (xmin meta) then Err (SerializationConflict txn)
  else if negb (xmax meta =? NO_XMAX)%Z then
    if other_active (xmax meta) || unseen (xmax meta) then Err (SerializationConflict txn)
    else Err (tuple_not_found tid)
  else if unseen (xmin meta) then Err (SerializationConflict txn)
  else Ok tt.

(** ** The lock table *)

Definition holders_of (d : TxnDomain) (id : LockId) : gmap Z bool :=
  match locks d !! id with Some h => holders h | None => ∅ end.

Definition acquire_lock (txn : Z) (id : LockId) (exclusive : bool) : M Error TxnDomain unit :=
  fun d =>
    if decide (is_Some (txns d !! txn)) then
      (* [self.locks.entry(id).or_default()] *)
      let entry := holders_of d id in
      let d := set_locks <[id := MkHolders entry]> d in
      match entry !! txn with
      | Some held_exclusive =>
          if held_exclusive || negb exclusive then (Ok tt, d)
          else if decide (size entry = 1) then
            (Ok tt, set_locks <[id := MkHolders (<[txn := true]> entry)]> d)
          else (Err (SerializationConflict txn), d)
      | None =>
          let compatible :=
            if exclusive then bool_decide (entry = ∅)
            else bool_decide (map_Forall (fun _ e => e = false) entry) in
          if negb compatible then (Err (SerializationConflict txn), d)
          else
            (Ok tt,
             alter_txn (set_held (fun l => l ++ [id])) txn
               (set_locks <[id := MkHolders (<[txn := exclusive]> entry)]> d))
      end
    else (Err (unknown_txn txn), d).

Definition release_one (txn : Z) (lk : gmap LockId LockHolders) (id : LockId)
    : gmap LockId LockHolders :=
  match lk !! id with
  | Some h =>
      let h := delete txn (holders h) in
      if decide (h = ∅) then delete id lk else <[id := MkHolders h]> lk
  | None => lk
  end.

Definition release_locks (txn : Z) (ids : list LockId) : TxnDomain -> TxnDomain :=
  set_locks (fun lk => foldl (release_one txn) lk ids).

Definition lock_table_intention (txn table : Z) : M Error TxnDomain unit :=
  acquire_lock txn (LTable table) false.

(** The first holder, in iteration order, that is a prepared transaction, and
    the identifier it was prepared under. *)
Definition is_prepared_txn (d : TxnDomain) (txn : Z) : bool :=
  match txns d !! txn with
  | Some s => match prepared s with Some _ => true | None => false end
  | None => false
  end.

Definition prepared_holder (d : TxnDomain) (id : LockId) : option Z :=
  List.find (is_prepared_txn d) (map_to_list (holders_of d id)).*1.

Definition gid_of (d : TxnDomain) (holder : Z) : option string :=
  fst <$> List.find (fun p => (p.2 =? holder)%Z) (map_to_list (prepared_gids d)).

Definition quoted (s : string) : string :=
  let q := String (Ascii.ascii_of_nat 34) EmptyString in q +:+ s +:+ q.

Definition in_use (label gid : string) : Error :=
  ObjectInUse ("table " +:+ quoted label +:+ " is in use by prepared transaction " +:+
               quoted gid +:+
               "; finish it with COMMIT PREPARED or ROLLBACK PREPARED first").

Definition lock_table_for_ddl (txn table : Z) (label : string) : M Error TxnDomain unit :=
  fun d =>
    let id := LTable table in
    match acquire_lock txn id true d with
    | (Err conflict, d) =>
        let gid :=
          match prepared_holder d id with
          | Some holder => gid_of d holder
          | None => None
          end in
        (Err (match gid with Some gid => in_use label gid | None => conflict end), d)
    | r => r
    end.

(** ** Transaction control *)

(** [begin], once no checkpoint pauses admission. Arithmetic is checked, so an
    exhausted id space is a panic. *)
Definition begin (lvl : IsolationLevel) : M Error TxnDomain Z :=
  fun d =>
    let id := next_txn_id d in
    if decide (id + 1 <= U64_MAX)%Z then
      let d := set_active (fun a => a ∪ {[id]}) (set_next_txn_id (id + 1) d) in
      let write_versions :=
        match lvl with Serializable => versions_finished d | _ => ∅ end in
      let pinned := fresh_view d id in
      (Ok id,
       set_txns <[id := MkTxn [] [] lvl pinned ∅ ∅ [] write_versions 0 None None 0]> d)
    else (Panic, d).

(** [begin] waits while a checkpoint pauses admission: it takes its step only
    in a state where none does. *)
Definition begin_enabled (d : TxnDomain) : bool := (admission_paused d =? 0)%Z.

Definition refreshes (lvl : IsolationLevel) : bool :=
  match lvl with ReadCommitted | ReadUncommitted => true | _ => false end.

Definition begin_statement (txn : Z) (d : TxnDomain) : TxnDomain :=
  let d := alter_txn (fun s => set_statements (statements s + 1) s) txn d in
  match txns d !! txn with
  | Some s =>
      if refreshes (level s) then alter_txn (set_pinned (fresh_view d txn)) txn d else d
  | None => d
  end.

Definition begin_fresh_reads (txn : Z) : M Error TxnDomain unit :=
  fun d =>
    let view := fresh_view d txn in
    match txns d !! txn with
    | None => (Err (unknown_txn txn), d)
    | Some s =>
        let previous := pinned s in
        match fresh_reads s with
        | Some (depth, saved) =>
            (* the depth is a [u32], added to with a check *)
            if decide (u32 (depth + 1)) then
              (Ok tt, alter_txn (fun s => set_fresh_reads (Some (depth + 1, saved)%Z)
                                            (set_pinned view s)) txn d)
            else (Panic, alter_txn (fun s => set_fresh_reads None (set_pinned view s)) txn d)
        | None =>
            (Ok tt, alter_txn (fun s => set_fresh_reads (Some (1%Z, previous))
                                          (set_pinned view s)) txn d)
        end
    end.

Definition end_fresh (s : TxnState) : TxnState :=
  match fresh_reads s with
  | Some (depth, saved) =>
      if (depth =? 1)%Z then set_fresh_reads None (set_pinned saved s)
      else set_fresh_reads (Some (depth - 1, saved)%Z) s
  | None => s
  end.

Definition end_fresh_reads (txn : Z) (d : TxnDomain) : TxnDomain := alter_txn end_fresh txn d.

Definition txn_isolation (d : TxnDomain) (txn : Z) : option IsolationLevel :=
  level <$> txns d !! txn.

(** [finish_commit]'s effect on the domain. *)
Definition finish_commit (txn : Z) (d : TxnDomain) : TxnDomain :=
  let d :=
    match txns d !! txn with
    | Some s => release_locks txn (held s) (set_txns (delete txn) d)
    | None => d
    end in
  set_active (fun a => a ∖ {[txn]}) d.

(** The teardown of [abort_with]: the state has already left the table. *)
Definition finish_abort (txn : Z) (ids : list LockId) (d : TxnDomain) : TxnDomain :=
  release_locks txn ids (set_active (fun a => a ∖ {[txn]}) d).

Definition savepoint (txn : Z) (name : string) : M Error TxnDomain unit :=
  fun d =>
    match txns d !! txn with
    | None => (Err (unknown_txn txn), d)
    | Some s =>
        let mark := length (undo_log s) in
        (Ok tt,
         alter_txn
           (set_savepoints (fun sp => filter (fun p => p.1 <> name) sp ++ [(name, mark)])) txn d)
    end.

(** [rposition(|(n, _)| n == name)]. *)
Fixpoint rposition (name : string) (sp : list (string * nat)) : option nat :=
  match sp with
  | [] => None
  | p :: sp =>
      match rposition name sp with
      | Some i => Some (S i)
      | None => if decide (p.1 = name) then Some 0 else None
      end
  end.

Definition no_savepoint (name : string) : Error :=
  Io NotFound ("savepoint " +:+ name +:+ " does not exist").

(** The part of [rollback_to] under the transaction lock: the tail of the undo
    log past the savepoint, taken off the transaction. *)
Definition split_at_savepoint (txn : Z) (name : string) : M Error TxnDomain (list UndoOp) :=
  fun d =>
    match txns d !! txn with
    | None => (Err (unknown_txn txn), d)
    | Some s =>
        match rposition name (savepoints s) with
        | None => (Err (no_savepoint name), d)
        | Some pos =>
            let mark := match savepoints s !! pos with Some p => p.2 | None => 0 end in
            (* [Vec::split_off] panics past the end *)
            if decide (mark <= length (undo_log s)) then
              (Ok (drop mark (undo_log s)),
               alter_txn (fun s => set_undo_log (take mark)
                                     (set_savepoints (take (pos + 1)) s)) txn d)
            else (Panic, d)
        end
    end.

Definition release_savepoint (txn : Z) (name : string) : M Error TxnDomain unit :=
  fun d =>
    match txns d !! txn with
    | None => (Err (unknown_txn txn), d)
    | Some s =>
        match rposition name (savepoints s) with
        | None => (Err (no_savepoint name), d)
        | Some pos => (Ok tt, alter_txn (set_savepoints (take pos)) txn d)
        end
    end.

Inductive RowLockMode := LShare | LExclusive.

Definition is_exclusive (m : RowLockMode) : bool :=
  match m with LShare => false | LExclusive => true end.

Definition require_txn (txn : Z) : M Error TxnDomain unit :=
  fun d => if decide (is_Some (txns d !! txn)) then (Ok tt, d) else (Err (unknown_txn txn), d).

Definition lock_row (txn table : Z) (tid : Tid) (mode : RowLockMode) : M Error TxnDomain unit :=
  require_txn txn >>
  lock_table_intention txn table >>
  acquire_lock txn (LRow table (tid_page tid) (tid_slot tid)) (is_exclusive mode).

Definition lock_key (txn table hash : Z) (mode : RowLockMode) : M Error TxnDomain unit :=
  require_txn txn >>
  lock_table_intention txn table >>
  acquire_lock txn (LKey table hash) (is_exclusive mode).

Inductive TableLockMode := AccessShare | AccessExclusive.

Definition lock_table (txn table : Z) (mode : TableLockMode) (label : string)
    : M Error TxnDomain unit :=
  require_txn txn >>
  match mode with
  | AccessShare => acquire_lock txn (LTable table) false
  | AccessExclusive => lock_table_for_ddl txn table label
  end.

(** The row writer's locks: the table intention, then the row exclusively. *)
Definition lock_for_write (txn table : Z) (tid : Tid) : M Error TxnDomain unit :=
  require_txn txn >>
  lock_table_intention txn table >>
  acquire_lock txn (LRow table (tid_page tid) (tid_slot tid)) true.

(** ** The lock table's invariant

    An exclusive holder is alone; every hold belongs to a live transaction that
    lists it; every listed hold is in the table; no entry is empty. *)

Definition excl_alone (h : gmap Z bool) : Prop :=
  forall t, h !! t = Some true -> h = {[t := true]}.

Record locks_ok (d : TxnDomain) : Prop := {
  lk_nonempty : forall id h, locks d !! id = Some (MkHolders h) -> h <> ∅;
  lk_excl : forall id h, locks d !! id = Some (MkHolders h) -> excl_alone h;
  lk_held : forall id h t e, locks d !! id = Some (MkHolders h) -> h !! t = Some e ->
    exists s, txns d !! t = Some s /\ id ∈ held s;
  lk_back : forall t s id, txns d !! t = Some s -> id ∈ held s ->
    is_Some (holders_of d id !! t) }.

(** Whether granting [txn] the lock would break exclusion. *)
Definition conflicts (d : TxnDomain) (txn : Z) (id : LockId) (exclusive : bool) : Prop :=
  exists t e, t <> txn /\ holders_of d id !! t = Some e /\ (exclusive = true \/ e = true).

Lemma set_locks_id d id h : locks d !! id = Some h -> set_locks <[id := h]> d = d.
Proof. intros H. destruct d. unfold set_locks. simpl in *. by rewrite insert_id. Qed.

Lemma holders_of_nonempty d id : holders_of d id <> ∅ -> locks d !! id = Some (MkHolders (holders_of d id)).
Proof. unfold holders_of. by destruct (locks d !! id) as [[]|]. Qed.

Lemma holders_excl d id : locks_ok d -> excl_alone (holders_of d id).
Proof.
  intros Hok t. unfold holders_of. destruct (locks d !! id) as [[h]|] eqn:Hl; [|by rewrite lookup_empty].
  by apply (lk_excl _ Hok _ _ Hl).
Qed.

Lemma size_one_other (h : gmap Z bool) t e :
  h !! t = Some e -> size h = 1 -> h = {[t := e]}.
Proof.
  intros Ht Hs. apply map_eq. intros i. destruct (decide (i = t)) as [->|Hne].
  { by rewrite lookup_singleton_eq. }
  rewrite lookup_singleton_ne by done.
  rewrite <- (insert_delete_id h t e Ht), map_size_insert_None in Hs by apply lookup_delete_eq.
  assert (delete t h = ∅) as He by (apply map_size_empty_inv; lia).
  by rewrite <- (lookup_delete_ne h t i), He, lookup_empty.
Qed.

Lemma size_gt_other (h : gmap Z bool) t e :
  h !! t = Some e -> size h <> 1 -> exists t' e', t' <> t /\ h !! t' = Some e'.
Proof.
  intros Ht Hs. destruct (map_choose (delete t h)) as (t' & e' & H').
  - intros He. apply Hs. rewrite <- (insert_delete_id h t e Ht), He.
    by rewrite insert_empty, map_size_singleton.
  - apply lookup_delete_Some in H' as [Hne H']. eauto.
Qed.

(** A request is refused exactly when another holder conflicts with it, and a
    refusal leaves the domain as it was. *)
Lemma acquire_refused d txn id ex :
  locks_ok d -> is_Some (txns d !! txn) -> conflicts d txn id ex ->
  holders_of d id !! txn <> Some true ->
  (holders_of d id !! txn = Some false -> ex = true) ->
  acquire_lock txn id ex d = (Err (SerializationConflict txn), d).
Proof.
  intros Hok Htx (t & e & Hne & Hh & Hc) Hnt Hf. unfold acquire_lock.
  rewrite decide_True by done.
  assert (holders_of d id <> ∅) as Hemp by (intros He; by rewrite He, lookup_empty in Hh).
  rewrite set_locks_id by by apply holders_of_nonempty.
  destruct (holders_of d id !! txn) as [[]|] eqn:Ht; [done| |].
  - rewrite Hf by done. cbn [orb negb]. rewrite decide_False; [done|].
    intros Hs. rewrite (size_one_other _ _ _ Ht Hs) in Hh.
    by rewrite lookup_singleton_ne in Hh.
  - destruct ex; [by rewrite bool_decide_false|].
    rewrite bool_decide_false; [done|]. intros Hall. apply Hall in Hh.
    destruct Hc as [?|?]; congruence.
Qed.

Definition granted (d : TxnDomain) (txn : Z) (id : LockId) (ex : bool) : Prop :=
  exists e, holders_of d id !! txn = Some e /\ (ex = true -> e = true).

Lemma lookup_holders_insert d id h : holders_of (set_locks <[id := MkHolders h]> d) id = h.
Proof. unfold holders_of, set_locks. simpl. by rewrite lookup_insert_eq. Qed.

Lemma lookup_holders_insert_ne d id id' h :
  id <> id' -> holders_of (set_locks <[id := MkHolders h]> d) id' = holders_of d id'.
Proof. intros. unfold holders_of, set_locks. simpl. by rewrite lookup_insert_ne. Qed.

(** Replacing one entry by another that agrees on everyone else. *)
Lemma locks_ok_update d id h txn s e f :
  locks_ok d -> txns d !! txn = Some s ->
  (forall t e', t <> txn -> h !! t = Some e' -> holders_of d id !! t = Some e') ->
  (forall t, t <> txn -> is_Some (holders_of d id !! t) -> is_Some (h !! t)) ->
  h !! txn = Some e -> excl_alone h ->
  (forall l, l ∈ f (held s) <-> l ∈ held s \/ l = id) ->
  locks_ok (alter_txn (set_held f) txn (set_locks <[id := MkHolders h]> d)).
Proof.
  intros [Hne Hex Hheld Hback] Hs Hsub Hsup Ht Hexh Hf.
  split; cbn [locks txns alter_txn set_txns set_locks].
  - intros id' h' Hl. destruct (decide (id = id')) as [->|].
    + rewrite lookup_insert_eq in Hl. simplify_eq. intros ->. by rewrite lookup_empty in Ht.
    + rewrite lookup_insert_ne in Hl by done. by eapply Hne.
  - intros id' h' Hl. destruct (decide (id = id')) as [->|].
    + rewrite lookup_insert_eq in Hl. by simplify_eq.
    + rewrite lookup_insert_ne in Hl by done. by eapply Hex.
  - intros id' h' t e' Hl He'. destruct (decide (t = txn)) as [->|Hnt].
    + rewrite lookup_alter_eq, Hs. eexists; split; [done|]. cbn [held set_held]. apply Hf.
      destruct (decide (id = id')) as [->|]; [by right|left].
      rewrite lookup_insert_ne in Hl by done. destruct (Hheld _ _ _ _ Hl He') as (s' & ? & ?).
      by simplify_eq.
    + rewrite lookup_alter_ne by done. destruct (decide (id = id')) as [->|].
      * rewrite lookup_insert_eq in Hl. simplify_eq. apply Hsub in He'; [|done].
        unfold holders_of in He'. destruct (locks d !! id') as [[h0]|] eqn:Hl0; [|done].
        by eapply Hheld.
      * rewrite lookup_insert_ne in Hl by done. by eapply Hheld.
  - intros t s' id' Ht' Hin.
    assert (holders_of (alter_txn (set_held f) txn (set_locks <[id := MkHolders h]> d)) id'
            = holders_of (set_locks <[id := MkHolders h]> d) id') as -> by done.
    destruct (decide (t = txn)) as [->|Hnt].
    + rewrite lookup_alter_eq, Hs in Ht'. cbn in Ht'. simplify_eq. cbn [held set_held] in Hin.
      destruct (decide (id = id')) as [->|Hid]; [by rewrite lookup_holders_insert, Ht|].
      rewrite lookup_holders_insert_ne by done. apply Hf in Hin as [Hin|]; [|congruence].
      by eapply Hback.
    + rewrite lookup_alter_ne in Ht' by done. destruct (decide (id = id')) as [->|Hid].
      * rewrite lookup_holders_insert. apply Hsup; [done|]. by eapply Hback.
      * rewrite lookup_holders_insert_ne by done. by eapply Hback.
Qed.

Lemma alter_held_id txn d : alter_txn (set_held (fun l => l)) txn d = d.
Proof.
  destruct d as [tx]. unfold alter_txn, set_txns. simpl. f_equal. apply map_eq. intros i.
  destruct (decide (i = txn)) as [->|]; [|by rewrite lookup_alter_ne].
  rewrite lookup_alter_eq. by destruct (tx !! txn) as [[]|].
Qed.

Lemma set_locks_twice d id h h' :
  set_locks <[id := h']> (set_locks <[id := h]> d) = set_locks <[id := h']> d.
Proof. unfold set_locks. simpl. f_equal. apply insert_insert_eq. Qed.

(** What taking a lock leaves alone: everything but the lock table and the
    lists of held locks. *)
Definition erase_held (s : TxnState) : TxnState := set_held (fun _ => []) s.

Record lock_step (d d' : TxnDomain) : Prop := {
  ls_txns : erase_held <$> txns d = erase_held <$> txns d';
  ls_active : active_txns d' = active_txns d;
  ls_next : next_txn_id d' = next_txn_id d;
  ls_staged : staged d' = staged d;
  ls_vs : versions_staged d' = versions_staged d;
  ls_vf : versions_finished d' = versions_finished d;
  ls_gids : prepared_gids d' = prepared_gids d;
  ls_paused : admission_paused d' = admission_paused d }.

#[export] Instance lock_step_refl : Reflexive lock_step.
Proof. by split. Qed.

#[export] Instance lock_step_trans : Transitive lock_step.
Proof. intros d1 d2 d3 [] []. split; congruence. Qed.

Lemma lock_step_held f txn lk d : lock_step d (alter_txn (set_held f) txn (set_locks lk d)).
Proof.
  split; try done. cbn. apply map_eq. intros i. rewrite !lookup_fmap.
  destruct (decide (i = txn)) as [->|]; [|by rewrite lookup_alter_ne].
  rewrite lookup_alter_eq. by destruct (txns d !! txn).
Qed.

Lemma lock_step_locks lk d : lock_step d (set_locks lk d).
Proof. by split. Qed.

Lemma excl_alone_shared (h : gmap Z bool) txn :
  map_Forall (fun _ e => e = false) h -> excl_alone (<[txn := false]> h).
Proof.
  intros Hall t Ht. destruct (decide (t = txn)) as [->|].
  - by rewrite lookup_insert_eq in Ht.
  - rewrite lookup_insert_ne in Ht by done. by apply Hall in Ht.
Qed.

Lemma excl_alone_single txn b : excl_alone {[txn := b]}.
Proof.
  intros t Ht. apply lookup_singleton_Some in Ht as [-> ->]. done.
Qed.

Lemma acquire_granted d txn id ex d' :
  locks_ok d -> acquire_lock txn id ex d = (Ok tt, d') ->
  locks_ok d' /\ granted d' txn id ex /\ lock_step d d'.
Proof.
  intros Hok. unfold acquire_lock.
  destruct (decide (is_Some (txns d !! txn))) as [[s Hs]|]; [|done].
  destruct (holders_of d id !! txn) as [b|] eqn:Hh.
  - assert (locks d !! id = Some (MkHolders (holders_of d id))) as Hl.
    { apply holders_of_nonempty. intros He. by rewrite He, lookup_empty in Hh. }
    rewrite set_locks_id by done.
    assert (id ∈ held s) as Hin.
    { destruct (lk_held _ Hok _ _ _ _ Hl Hh) as (s' & ? & ?). by simplify_eq. }
    destruct (b || negb ex) eqn:Hb.
    + intros [= <-]. split_and!; [done| |done].
      exists b. split; [done|]. intros ->. by destruct b.
    + case_decide as Hsize; [|done]. intros [= <-].
      rewrite <- (alter_held_id txn (set_locks _ d)). split_and!; [| |apply lock_step_held].
      * pose proof (size_one_other _ _ _ Hh Hsize) as Heq.
        eapply (locks_ok_update d id _ txn s true (fun l => l)); [done|done|..].
        -- intros t e' Hne. by rewrite lookup_insert_ne.
        -- intros t Hne. by rewrite lookup_insert_ne.
        -- by rewrite lookup_insert_eq.
        -- rewrite Heq, insert_singleton_eq. apply excl_alone_single.
        -- intros l. naive_solver.
      * exists true. split; [|done].
        change (holders_of (set_locks <[id:=MkHolders (<[txn:=true]> (holders_of d id))]> d) id !! txn = Some true).
        by rewrite lookup_holders_insert, lookup_insert_eq.
  - rewrite set_locks_twice. destruct (negb _) eqn:Hc; [done|]. intros [= <-].
    split_and!; [| |apply lock_step_held].
    + eapply (locks_ok_update d id _ txn s ex (fun l => l ++ [id])); [done|done|..].
      * intros t e' Hne. by rewrite lookup_insert_ne.
      * intros t Hne. by rewrite lookup_insert_ne.
      * by rewrite lookup_insert_eq.
      * apply negb_false_iff in Hc. destruct ex; apply bool_decide_eq_true in Hc.
        -- rewrite Hc, insert_empty. apply excl_alone_single.
        -- by apply excl_alone_shared.
      * intros l. rewrite elem_of_app, list_elem_of_singleton. done.
    + exists ex. split; [|done].
      change (holders_of (set_locks <[id:=MkHolders (<[txn:=ex]> (holders_of d id))]> d) id !! txn = Some ex).
      by rewrite lookup_holders_insert, lookup_insert_eq.
Qed.

(** A request never panics, and when it fails nothing changes. *)
Lemma acquire_cases d txn id ex r d' :
  locks_ok d -> acquire_lock txn id ex d = (r, d') ->
  r = Ok tt \/ (d' = d /\
    (r = Err (unknown_txn txn) /\ txns d !! txn = None \/
     r = Err (SerializationConflict txn) /\ conflicts d txn id ex)).
Proof.
  intros Hok. unfold acquire_lock.
  destruct (decide (is_Some (txns d !! txn))) as [Hs|Hs].
  2:{ intros [= <- <-]. right. split; [done|]. left. split; [done|].
      by apply eq_None_not_Some. }
  destruct (holders_of d id !! txn) as [b|] eqn:Hh.
  - assert (locks d !! id = Some (MkHolders (holders_of d id))) as Hl.
    { apply holders_of_nonempty. intros He. by rewrite He, lookup_empty in Hh. }
    rewrite set_locks_id by done.
    destruct (b || negb ex) eqn:Hb; [intros [= <- <-]; by left|].
    case_decide as Hsize; [intros [= <- <-]; by left|]. intros [= <- <-].
    right. split; [done|]. right. split; [done|].
    destruct (size_gt_other _ _ _ Hh Hsize) as (t' & e' & Hne & H').
    exists t', e'. split_and!; [done|done|]. left. by destruct b, ex.
  - destruct (negb _) eqn:Hc; [|intros [= <- <-]; by left]. intros [= <- <-].
    apply negb_true_iff in Hc. right.
    assert (conflicts d txn id ex) as Hconf.
    { destruct ex; apply bool_decide_eq_false in Hc.
      - destruct (map_choose _ Hc) as (t & e & Ht). exists t, e. split_and!; [congruence|done|by left].
      - apply map_not_Forall in Hc as (t & e & Ht & He); [|solve_decision].
        exists t, e. split_and!; [congruence|done|right; by destruct e]. }
    split; [|by right].
    apply set_locks_id, holders_of_nonempty. intros He.
    destruct Hconf as (t & e & _ & Ht & _). by rewrite He, lookup_empty in Ht.
Qed.

(** Ending a transaction drops exactly its holds. *)
Lemma release_one_other txn lk id t id' :
  t <> txn ->
  (match foldl (release_one txn) lk id !! id' with Some h => holders h | None => ∅ end) !! t =
  (match lk !! id' with Some h => holders h | None => ∅ end) !! t.
Proof.
  intros Hne. revert lk. induction id as [|i ids IH]; intros lk; [done|]. simpl. rewrite IH.
  unfold release_one. destruct (lk !! i) as [[h]|] eqn:Hi; [|done].
  destruct (decide (i = id')) as [->|Hid].
  - rewrite Hi. cbn [holders]. case_decide as Hd.
    + rewrite lookup_delete_eq, lookup_empty.
      rewrite <- (lookup_delete_ne h txn t) by done. by rewrite Hd, lookup_empty.
    + rewrite lookup_insert_eq. cbn [holders]. by rewrite lookup_delete_ne.
  - case_decide; [by rewrite lookup_delete_ne|by rewrite lookup_insert_ne].
Qed.

Lemma release_one_own txn ids lk id h :
  foldl (release_one txn) lk ids !! id = Some (MkHolders h) ->
  exists h0, lk !! id = Some (MkHolders h0) /\ (h = h0 \/ h = delete txn h0) /\
    (id ∈ ids -> h !! txn = None) /\ (h0 <> ∅ -> h <> ∅).
Proof.
  revert lk. induction ids as [|i ids IH]; intros lk; simpl; intros H.
  { exists h. split_and!; [done|by left| |done]. by intros ?%elem_of_nil. }
  destruct (IH _ H) as (h1 & H1 & Hh & Hin & Hne). unfold release_one in H1.
  destruct (lk !! i) as [[hi]|] eqn:Hi.
  2:{ exists h1. split_and!; [done|done| |done].
      intros [->|]%elem_of_cons; [congruence|auto]. }
  destruct (decide (i = id)) as [->|Hid].
  - exists hi. case_decide as Hd; [by rewrite lookup_delete_eq in H1|].
    rewrite lookup_insert_eq in H1. simplify_eq. split_and!; [done| | |auto].
    + right. destruct Hh as [->| ->]; [done|]. by rewrite delete_delete_eq.
    + intros _. destruct Hh as [->| ->]; [apply lookup_delete_eq|].
      by rewrite delete_delete_eq, lookup_delete_eq.
  - assert (lk !! id = Some (MkHolders h1)) as ->.
    { case_decide; [by rewrite lookup_delete_ne in H1|by rewrite lookup_insert_ne in H1]. }
    exists h1. split_and!; [done|done| |done]. intros [->|]%elem_of_cons; [done|auto].
Qed.

(** The state after [txn] left the table and its locks were released. *)
Lemma locks_ok_release d txn s :
  locks_ok d -> txns d !! txn = Some s ->
  locks_ok (release_locks txn (held s) (set_txns (delete txn) d)) /\
  (forall id, holders_of (release_locks txn (held s) (set_txns (delete txn) d)) id !! txn = None).
Proof.
  intros [Hne Hex Hheld Hback] Hs.
  assert (forall id h, foldl (release_one txn) (locks d) (held s) !! id = Some (MkHolders h) -> h !! txn = None)
    as Hgone.
  { intros id h Hl. destruct (release_one_own _ _ _ _ _ Hl) as (h0 & H0 & Hh & Hin & _).
    destruct (h !! txn) as [e|] eqn:He; [|done].
    assert (is_Some (h0 !! txn)) as [e0 He0].
    { destruct Hh as [<-| ->]; [by eexists|]. by rewrite lookup_delete_eq in He. }
    destruct (Hheld _ _ _ _ H0 He0) as (s' & Hs' & Hin'). simplify_eq. specialize (Hin Hin'). congruence. }
  split; [split|]; cbn [locks txns release_locks set_txns set_locks].
  - intros id h Hl. destruct (release_one_own _ _ _ _ _ Hl) as (h0 & H0 & _ & _ & Hn).
    apply Hn. by eapply Hne.
  - intros id h Hl t Ht. destruct (release_one_own _ _ _ _ _ Hl) as (h0 & H0 & Hh & _ & Hn).
    pose proof (Hgone _ _ Hl) as Hg. destruct Hh as [->| ->]; [by eapply Hex|].
    assert (t <> txn) as Hnt by congruence.
    rewrite lookup_delete_ne in Ht by done. rewrite (Hex _ _ H0 _ Ht).
    by rewrite delete_singleton_ne.
  - intros id h t e Hl He. destruct (release_one_own _ _ _ _ _ Hl) as (h0 & H0 & Hh & _ & _).
    pose proof (Hgone _ _ Hl). assert (t <> txn) as Hnt by congruence.
    rewrite lookup_delete_ne by done. apply (Hheld id h0 t e H0).
    destruct Hh as [->| ->]; [done|by rewrite lookup_delete_ne in He].
  - intros t s' id Ht Hin. apply lookup_delete_Some in Ht as [Hnt Ht].
    unfold holders_of. cbn [locks release_locks set_txns set_locks].
    rewrite release_one_other by done. by eapply (Hback t s' id).
  - intros id. unfold holders_of. cbn [locks release_locks set_txns set_locks].
    destruct (foldl _ _ _ !! id) as [[h]|] eqn:Hl; [by eapply Hgone|apply lookup_empty].
Qed.

(** ** Read views that agree with the domain

    A view never sees a transaction that is still active, its owner apart, nor
    one that has not begun. *)
Record view_ok (d : TxnDomain) (txn : Z) (v : ReadView) : Prop := {
  vo_own : own v = txn;
  vo_horizon : (horizon v <= next_txn_id d)%Z;
  vo_active : forall x, x ∈ active_txns d -> x <> txn -> (x < horizon v)%Z -> x ∈ active v }.

Lemma view_ok_sees d txn v x :
  view_ok d txn v -> sees v x = true -> x = txn \/ (x < next_txn_id d)%Z /\ x ∉ active_txns d.
Proof.
  intros [Ho Hh Ha]. unfold sees. rewrite orb_true_iff, andb_true_iff, bool_decide_eq_true.
  rewrite Ho, Z.eqb_eq, Z.ltb_lt. intros [->|[Hlt Hnin]]; [by left|].
  destruct (decide (x = txn)) as [->|Hne]; [by left|].
  right. split; [lia|]. intros Hin. by apply Hnin, Ha.
Qed.

Lemma fresh_view_ok d txn : view_ok d txn (fresh_view d txn).
Proof. split; cbn; [done|lia|set_solver]. Qed.

Lemma fresh_view_sees d txn x :
  sees (fresh_view d txn) x = true <->
  x = txn \/ (x < next_txn_id d)%Z /\ x ∉ active_txns d.
Proof.
  unfold sees. cbn. rewrite orb_true_iff, andb_true_iff, bool_decide_eq_true, Z.eqb_eq, Z.ltb_lt.
  destruct (decide (x = txn)); set_solver.
Qed.

Lemma view_ok_mono d d' txn v :
  view_ok d txn v -> (next_txn_id d <= next_txn_id d')%Z ->
  (forall x, x ∈ active_txns d' -> x ∈ active_txns d \/ (next_txn_id d <= x)%Z) ->
  view_ok d' txn v.
Proof.
  intros [Ho Hh Ha] Hn Hact. split; [done|lia|]. intros x Hx Hne Hlt.
  destruct (Hact x Hx) as [?|?]; [auto|lia].
Qed.

(** ** The domain's invariant *)

Record txn_ok (d : TxnDomain) (t : Z) (s : TxnState) : Prop := {
  to_pinned : view_ok d t (pinned s);
  to_saved : forall n v, fresh_reads s = Some (n, v) -> view_ok d t v;
  to_marks : Forall (fun p => p.2 <= length (undo_log s)) (savepoints s);
  to_sorted : StronglySorted le (snd <$> savepoints s) }.

Record domain_ok (d : TxnDomain) : Prop := {
  do_locks : locks_ok d;
  do_active : forall t, is_Some (txns d !! t) -> t ∈ active_txns d;
  do_ids : forall t, t ∈ active_txns d -> (1 <= t < next_txn_id d)%Z;
  do_next : (1 <= next_txn_id d <= U64_MAX)%Z;
  do_txns : forall t s, txns d !! t = Some s -> txn_ok d t s;
  do_staged : staged d ⊆ active_txns d }.

Lemma domain_ok_default : domain_ok domain_default.
Proof.
  split; cbn; unfold U64_MAX; try set_solver; try lia.
  - split; cbn; intros *; try by rewrite lookup_empty.
  - intros t [s Hs]. by rewrite lookup_empty in Hs.
Qed.

Lemma txn_ok_mono d d' t s :
  txn_ok d t s -> (next_txn_id d <= next_txn_id d')%Z ->
  (forall x, x ∈ active_txns d' -> x ∈ active_txns d \/ (next_txn_id d <= x)%Z) ->
  txn_ok d' t s.
Proof. intros [Hp Hs Hm] Hn Ha. split; eauto using view_ok_mono. Qed.

(** Changing one transaction's state, its locks apart. *)
Lemma domain_ok_alter d t f :
  domain_ok d ->
  (forall s, txns d !! t = Some s -> txn_ok d t s -> txn_ok d t (f s) /\ held (f s) = held s) ->
  domain_ok (alter_txn f t d).
Proof.
  intros [Hl Ha Hi Hn Ht Hs] Hf.
  assert (forall t' s', alter f t (txns d) !! t' = Some s' ->
    exists s, txns d !! t' = Some s /\ held s' = held s /\ txn_ok d t' s') as Hlook.
  { intros t' s' H. destruct (decide (t' = t)) as [->|Hne].
    - rewrite lookup_alter_eq in H. destruct (txns d !! t) as [s|] eqn:Hts; [|done].
      cbn in H. simplify_eq. destruct (Hf s eq_refl (Ht _ _ Hts)). eauto.
    - rewrite lookup_alter_ne in H by done. eauto. }
  assert (forall t' s, txns d !! t' = Some s ->
    exists s', alter f t (txns d) !! t' = Some s' /\ held s' = held s) as Hback.
  { intros t' s H. destruct (decide (t' = t)) as [->|Hne].
    - rewrite lookup_alter_eq, H. cbn. eexists. split; [done|]. by eapply Hf; eauto.
    - rewrite lookup_alter_ne by done. eauto. }
  split; cbn; try done.
  - destruct Hl as [H1 H2 H3 H4]. split; cbn; try done.
    + intros id h t' e Hid He. destruct (H3 _ _ _ _ Hid He) as (s & Hts & Hin).
      destruct (Hback _ _ Hts) as (s' & Hs' & Heq). exists s'. by rewrite Heq.
    + intros t' s' id Ht' Hin. destruct (Hlook _ _ Ht') as (s & Hts & Heq & _).
      apply (H4 t' s id Hts). by rewrite <- Heq.
  - intros t' [s' Hs']. destruct (Hlook _ _ Hs') as (s & Hts & _). apply Ha. eauto.
  - intros t' s' Hs'. destruct (Hlook _ _ Hs') as (s & Hts & _ & Hok).
    eapply txn_ok_mono; [done|cbn; lia|cbn; auto].
Qed.

Lemma domain_ok_lock_step d d' :
  domain_ok d -> lock_step d d' -> locks_ok d' -> domain_ok d'.
Proof.
  intros [Hl Ha Hi Hn Ht Hs] [Etx Eact Enext Est _ _ _ _] Hl'.
  assert (forall t s', txns d' !! t = Some s' ->
    exists s, txns d !! t = Some s /\ erase_held s = erase_held s') as Hlook.
  { intros t s' H. assert ((erase_held <$> txns d) !! t = Some (erase_held s')) as Hf
      by by rewrite Etx, lookup_fmap, H.
    rewrite lookup_fmap in Hf. destruct (txns d !! t) as [s|]; [|done].
    exists s. by apply (inj Some) in Hf. }
  split; rewrite ?Eact, ?Enext, ?Est; try done.
  - intros t [s' Hs']. destruct (Hlook _ _ Hs') as (s & H & _). apply Ha. eauto.
  - intros t s' Hs'. destruct (Hlook _ _ Hs') as (s & H & He).
    assert (txn_ok d' t s) as [Hp Hsv Hm Hso].
    { eapply txn_ok_mono; [by apply Ht|lia|rewrite Eact; auto]. }
    pose proof (f_equal pinned He) as E1. pose proof (f_equal fresh_reads He) as E2.
    pose proof (f_equal savepoints He) as E3. pose proof (f_equal undo_log He) as E4.
    cbn in E1, E2, E3, E4. split; by rewrite <- ?E1, <- ?E2, <- ?E3, <- ?E4.
Qed.

Lemma domain_ok_acquire d txn id ex r d' :
  domain_ok d -> acquire_lock txn id ex d = (r, d') -> domain_ok d' /\ lock_step d d'.
Proof.
  intros Hok Ha. destruct (acquire_cases _ _ _ _ _ _ (do_locks _ Hok) Ha) as [->|[-> _]].
  - destruct (acquire_granted _ _ _ _ _ (do_locks _ Hok) Ha) as (Hl & _ & Hs).
    split; [by eapply domain_ok_lock_step|done].
  - by split.
Qed.

Lemma domain_ok_begin d lvl r d' :
  domain_ok d -> begin lvl d = (r, d') ->
  (exists id, r = Ok id /\ id = next_txn_id d /\ txns d !! id = None) /\ domain_ok d' \/ r = Panic.
Proof.
  intros [Hl Ha Hi Hn Ht Hs]. unfold begin. case_decide as Hov; [|intros [= <- <-]; by right].
  intros [= <- <-]. left.
  assert (txns d !! next_txn_id d = None) as Hnone.
  { destruct (txns d !! next_txn_id d) as [s|] eqn:H; [|done].
    assert (next_txn_id d ∈ active_txns d) as Hin by (apply Ha; eauto). apply Hi in Hin. lia. }
  split; [eauto|]. split; cbn.
  - destruct Hl as [H1 H2 H3 H4]. split; cbn; try done.
    + intros id h t e Hid He. destruct (H3 _ _ _ _ Hid He) as (s & Hts & Hin).
      exists s. rewrite lookup_insert_ne by congruence. done.
    + intros t s id Hts Hin. destruct (decide (t = next_txn_id d)) as [->|Hne].
      * rewrite lookup_insert_eq in Hts. simplify_eq. cbn in Hin. by apply elem_of_nil in Hin.
      * rewrite lookup_insert_ne in Hts by done. by apply (H4 t s id).
  - intros t [s Hts]. destruct (decide (t = next_txn_id d)) as [->|Hne]; [set_solver|].
    rewrite lookup_insert_ne in Hts by done. apply elem_of_union_l, Ha. eauto.
  - intros t [Hin| ->%elem_of_singleton]%elem_of_union; [apply Hi in Hin|]; lia.
  - lia.
  - intros t s Hts. destruct (decide (t = next_txn_id d)) as [->|Hne].
    + rewrite lookup_insert_eq in Hts. simplify_eq. split; cbn; [|done|constructor|constructor].
      eapply view_ok_mono; [apply fresh_view_ok|cbn; lia|cbn; auto].
    + rewrite lookup_insert_ne in Hts by done.
      eapply txn_ok_mono; [by apply Ht|cbn; lia|cbn; set_solver by lia].
  - set_solver.
Qed.

Lemma txn_ok_set_pinned d t v s : txn_ok d t s -> view_ok d t v -> txn_ok d t (set_pinned v s).
Proof. intros [H1 H2 H3 H4] Hv. by split. Qed.

Lemma domain_ok_begin_statement d txn : domain_ok d -> domain_ok (begin_statement txn d).
Proof.
  intros Hok. unfold begin_statement.
  assert (domain_ok (alter_txn (fun s => set_statements (statements s + 1) s) txn d)) as Hok1.
  { apply domain_ok_alter; [done|]. intros s _ [H1 H2 H3 H4]. by split; [split|]. }
  destruct (txns (alter_txn _ txn d) !! txn) as [s|]; [|done].
  destruct (refreshes (level s)); [|done].
  apply domain_ok_alter; [done|]. intros s' _ Hs'. split; [|done].
  apply txn_ok_set_pinned; [done|]. apply fresh_view_ok.
Qed.

Lemma domain_ok_begin_fresh_reads d txn r d' :
  domain_ok d -> begin_fresh_reads txn d = (r, d') -> domain_ok d'.
Proof.
  intros Hok. unfold begin_fresh_reads.
  destruct (txns d !! txn) as [s|] eqn:Hs; [|by intros [= <- <-]].
  destruct (do_txns _ Hok _ _ Hs) as [Hp Hsv _ _].
  destruct (fresh_reads s) as [[n v]|] eqn:Hf; [case_decide|]; intros [= <- <-];
    (apply domain_ok_alter; [done|]; intros s' Hs' [H1 H2 H3 H4]; split; [|done]);
    (split; cbn; [apply fresh_view_ok| |done|done]); intros m w [=]; subst; eauto.
Qed.

Lemma domain_ok_end_fresh_reads d txn : domain_ok d -> domain_ok (end_fresh_reads txn d).
Proof.
  intros Hok. apply domain_ok_alter; [done|]. intros s _ Hs. pose proof Hs as [H1 H2 H3 H4]. unfold end_fresh.
  destruct (fresh_reads s) as [[n v]|] eqn:Hf; [|by split].
  destruct (n =? 1)%Z; (split; [|done]); (split; cbn; [|intros ? ? [=]; subst|done|done]); eauto.
Qed.

Lemma domain_ok_remove d txn s :
  domain_ok d -> txns d !! txn = Some s ->
  domain_ok (set_active (fun a => a ∖ {[txn]})
    (set_staged (fun a => a ∖ {[txn]}) (release_locks txn (held s) (set_txns (delete txn) d)))).
Proof.
  intros [Hl Ha Hi Hn Ht Hs] Hts. destruct (locks_ok_release d txn s Hl Hts) as [Hl' _].
  split; cbn.
  - destruct Hl'. by split.
  - intros t [s' Hs']. apply lookup_delete_Some in Hs' as [Hne Hs'].
    apply elem_of_difference. split; [eauto|set_solver].
  - intros t [Hin _]%elem_of_difference. by apply Hi.
  - done.
  - intros t s' Hs'. apply lookup_delete_Some in Hs' as [Hne Hs'].
    eapply txn_ok_mono; [by apply Ht|cbn; lia|cbn; set_solver].
  - set_solver.
Qed.

Lemma marks_filter (P : string * nat -> Prop) `{forall p, Decision (P p)} l :
  StronglySorted le (snd <$> l) -> StronglySorted le (snd <$> filter P l).
Proof.
  induction l as [|p l IH]; [done|]. rewrite fmap_cons, StronglySorted_cons. intros [Hf Hs].
  rewrite filter_cons. case_decide; [|auto]. rewrite fmap_cons, StronglySorted_cons.
  split; [|auto]. rewrite Forall_fmap in Hf |- *. rewrite Forall_forall in Hf |- *.
  intros q [_ Hq]%list_elem_of_filter. by apply Hf.
Qed.

Lemma marks_take n (l : list (string * nat)) :
  StronglySorted le (snd <$> l) -> StronglySorted le (snd <$> take n l).
Proof.
  intros H. rewrite <- (take_drop n l), fmap_app in H. by eapply StronglySorted_app_1_l.
Qed.

Lemma domain_ok_savepoint d txn name r d' :
  domain_ok d -> savepoint txn name d = (r, d') -> domain_ok d'.
Proof.
  intros Hok. unfold savepoint.
  destruct (txns d !! txn) as [s|] eqn:Hs; [|by intros [= <- <-]]. intros [= <- <-].
  apply domain_ok_alter; [done|]. intros s' Hs' [H1 H2 H3 H4]. simplify_eq.
  assert (Forall (fun p => p.2 <= length (undo_log s)) (filter (fun p => p.1 <> name) (savepoints s)))
    as Hm.
  { rewrite Forall_forall in H3 |- *. intros p [_ Hp]%list_elem_of_filter. by apply H3. }
  split; [|done]. split; cbn; [done|done| |].
  - apply Forall_app. split; [done|by repeat constructor].
  - rewrite fmap_app. apply StronglySorted_app. split_and!; [|by apply marks_filter|repeat constructor].
    intros x y Hx Hy. apply list_elem_of_fmap in Hx as (p & -> & Hp).
    apply list_elem_of_singleton in Hy as ->. cbn. by eapply Forall_forall in Hm.
Qed.

Lemma rposition_Some name sp i :
  rposition name sp = Some i -> exists p, sp !! i = Some p /\ p.1 = name.
Proof.
  revert i. induction sp as [|p sp IH]; [done|]. intros i. cbn.
  destruct (rposition name sp) as [j|] eqn:Hj; [intros [= <-]; by apply IH|].
  case_decide; [|done]. intros [= <-]. eauto.
Qed.

Lemma domain_ok_split d txn name r d' :
  domain_ok d -> split_at_savepoint txn name d = (r, d') -> domain_ok d' /\ r <> Panic.
Proof.
  intros Hok. unfold split_at_savepoint.
  destruct (txns d !! txn) as [s|] eqn:Hs; [|by intros [= <- <-]].
  destruct (rposition name (savepoints s)) as [pos|] eqn:Hp; [|by intros [= <- <-]].
  destruct (rposition_Some _ _ _ Hp) as (p & Hlp & _). rewrite Hlp.
  destruct (do_txns _ Hok _ _ Hs) as [H1 H2 H3 H4].
  assert (p.2 <= length (undo_log s)) as Hle by (eapply Forall_lookup_1 in H3; done).
  rewrite decide_True by done. intros [= <- <-]. split; [|done].
  apply domain_ok_alter; [done|]. intros s' Hs' _. simplify_eq. split; [|done].
  split; cbn; [done|done| |by apply marks_take].
  rewrite length_take_le by done.
  apply Forall_forall. intros q Hq. apply list_elem_of_lookup in Hq as [j Hj].
  apply lookup_take_Some in Hj as [Hj Hlt].
  destruct (decide (j = pos)) as [->|Hne]; [by simplify_eq|].
  assert (j < pos) as Hlt' by lia.
  rewrite <- (take_drop pos (savepoints s)), fmap_app in H4.
  eapply (StronglySorted_app_1_elem_of _ _ _ q.2 p.2 H4); apply list_elem_of_fmap_2.
  - eapply list_elem_of_lookup_2. rewrite lookup_take_lt by done. done.
  - eapply (list_elem_of_lookup_2 _ 0). by rewrite lookup_drop, Nat.add_0_r.
Qed.

Lemma domain_ok_release_savepoint d txn name r d' :
  domain_ok d -> release_savepoint txn name d = (r, d') -> domain_ok d'.
Proof.
  intros Hok. unfold release_savepoint.
  destruct (txns d !! txn) as [s|] eqn:Hs; [|by intros [= <- <-]].
  destruct (rposition name (savepoints s)) as [pos|]; [|by intros [= <- <-]].
  intros [= <- <-]. apply domain_ok_alter; [done|]. intros s' Hs' [H1 H2 H3 H4].
  split; [|done]. split; cbn; [done|done|by apply Forall_take|by apply marks_take].
Qed.

(** The lock operations are sequences of [acquire_lock]. *)
Lemma domain_ok_sbind {A B} (m : M Error TxnDomain A) (k : A -> M Error TxnDomain B) d r d' :
  (forall d r d', domain_ok d -> m d = (r, d') -> domain_ok d' /\ lock_step d d') ->
  (forall a d r d', domain_ok d -> k a d = (r, d') -> domain_ok d' /\ lock_step d d') ->
  domain_ok d -> sbind m k d = (r, d') -> domain_ok d' /\ lock_step d d'.
Proof.
  intros Hm Hk Hok. unfold sbind. destruct (m d) as [r1 d1] eqn:H1.
  destruct (Hm _ _ _ Hok H1) as [Hok1 Hs1].
  destruct r1; [|by intros [= <- <-]..]. intros H2.
  destruct (Hk _ _ _ _ Hok1 H2) as [Hok2 Hs2]. split; [done|by transitivity d1].
Qed.

Lemma domain_ok_require d txn r d' :
  domain_ok d -> require_txn txn d = (r, d') -> domain_ok d' /\ lock_step d d'.
Proof. intros Hok. unfold require_txn. by case_decide; intros [= <- <-]. Qed.

Lemma domain_ok_ddl d txn table label r d' :
  domain_ok d -> lock_table_for_ddl txn table label d = (r, d') -> domain_ok d' /\ lock_step d d'.
Proof.
  intros Hok. unfold lock_table_for_ddl.
  destruct (acquire_lock txn (LTable table) true d) as [r1 d1] eqn:H1.
  destruct (domain_ok_acquire _ _ _ _ _ _ Hok H1) as [Hok1 Hs1].
  by destruct r1; intros [= <- <-].
Qed.

Lemma domain_ok_lock_for_write d txn table tid r d' :
  domain_ok d -> lock_for_write txn table tid d = (r, d') -> domain_ok d' /\ lock_step d d'.
Proof.
  apply domain_ok_sbind; [intros *; apply domain_ok_require|]. intros _ d1 r1 d1'.
  apply domain_ok_sbind; [intros *; apply domain_ok_acquire|]. intros _ d2 r2 d2'.
  apply domain_ok_acquire.
Qed.
