(* ===== verification/Engine.v ===== *)
(** * The row engine ([BtreeEngine] of [nusadb-btree/src/engine.rs])

    Row writes, scans, commit, rollback, savepoints and purge over the
    transaction domain of [Txn.v] and the versions of [Mvcc.v]. A table's
    clustered tree appears as the ordered map it stores, row id to encoded
    value; [Tree.v] models the tree itself. Each public method, and each
    section of purge that runs under its latches, is one atomic step on the
    engine's state.

    The two halves of a durable commit are separate steps; what the operations
    append to the log is in [Recovery.v]. The model is of tables that exist throughout
    (no DDL); and of scans read whole when they open. *)

From S2P Require Import Prelude Core Mvcc Txn.
From stdpp Require Import base gmap list sets strings pretty sorting.
From Stdlib Require Import ZArith Lia Strings.Byte.

Definition MAX_USER_TUPLE : Z := 33554432.
Definition PER_ROW_WRITE_OVERHEAD : Z := Z.of_nat META + 40.
Definition PURGE_ROW_BATCH : nat := 4096.

(** No [Vec] holds more than [isize::MAX] bytes, so none has more elements. *)
Definition VEC_MAX : Z := 9223372036854775807.

Record TableState := MkTable { rows : gmap Z bytes; next_row_id : Z }.

(** [free] is the [Vec] read from its end, where it is pushed and popped. *)
Record UndoDomain := MkUndoDomain {
  arena : Arena;
  free : list Z;
  orphans : list (Z * Z) }.

Record Engine := MkEngine {
  tables : gmap Z TableState;
  reclaim : UndoDomain;
  txd : TxnDomain;
  fault : option string;
  data_version : Z }.

Definition set_tables (f : gmap Z TableState -> gmap Z TableState) (e : Engine) : Engine :=
  MkEngine (f (tables e)) (reclaim e) (txd e) (fault e) (data_version e).
Definition set_reclaim (u : UndoDomain) (e : Engine) : Engine :=
  MkEngine (tables e) u (txd e) (fault e) (data_version e).
Definition set_txd (d : TxnDomain) (e : Engine) : Engine :=
  MkEngine (tables e) (reclaim e) d (fault e) (data_version e).
Definition set_fault (x : option string) (e : Engine) : Engine :=
  MkEngine (tables e) (reclaim e) (txd e) x (data_version e).
Definition set_data_version (n : Z) (e : Engine) : Engine :=
  MkEngine (tables e) (reclaim e) (txd e) (fault e) n.

Abbreviation eng := (M Error Engine).

(** ** Errors *)

Definition tuple_too_large (len : nat) : Error :=
  Io InvalidInput ("nusadb-btree: tuple of " +:+ pretty len +:+
                   " bytes exceeds the maximum row size of " +:+ pretty MAX_USER_TUPLE +:+ " bytes").
Definition table_not_found (table : Z) : Error :=
  TableNotFound ("table id " +:+ pretty table).
Definition corrupt_row (row_id : Z) : Error :=
  Io InvalidData ("nusadb-btree: row " +:+ pretty row_id +:+ " has no decodable version header").
Definition corrupt (msg : string) : Error := Io InvalidData ("nusadb-btree: " +:+ msg).
Definition stopped_error (reason : string) : Error :=
  Io Other ("nusadb-btree: the database stopped after a storage error interrupted a change (" +:+
            reason +:+ "); restart it to recover from its log").
Definition txn_memory_exceeded (limit attempted : Z) : Error :=
  OutOfMemory ("transaction exceeded its write-memory limit of " +:+ pretty limit +:+
               " bytes (needed " +:+ pretty attempted +:+
               "); split it into smaller transactions or raise the limit").
Definition is_prepared (txn : Z) : Error :=
  Io InvalidInput ("transaction " +:+ pretty txn +:+
                   " is prepared; finish it with COMMIT PREPARED or ROLLBACK PREPARED").

(** [error.to_string()] reaches only the stop message; which text it is does
    not affect any step. *)
Definition describe (e : Error) : string :=
  match e with
  | Io _ msg | FsyncFailed msg | ConstraintViolation msg | OutOfMemory msg => msg
  | _ => sqlstate e
  end.

(** ** Plumbing *)

(** A method of the transaction domain, under the engine's lock on it. *)
Definition on_txns {A} (m : M Error TxnDomain A) : eng A :=
  fun e => let '(r, d) := m (txd e) in (r, set_txd d e).

Definition ensure_healthy : eng unit :=
  fun e => match fault e with None => (Ok tt, e) | Some reason => (Err (stopped_error reason), e) end.

(** [fail_stop]: the first error that interrupts a change stops the engine. *)
Definition fail_stop (error : Error) : eng Error :=
  fun e =>
    let reason := describe error in
    (Ok (stopped_error reason),
     match fault e with None => set_fault (Some reason) e | Some _ => e end).

Definition guarded {A} (m : eng A) : eng A :=
  fun e =>
    match m e with
    | (Err error, e) =>
        match fail_stop error e with
        | (Ok error, e) => (Err error, e)
        | (_, e) => (Err error, e)
        end
    | r => r
    end.

Definition get_table (table : Z) : eng TableState :=
  fun e =>
    match tables e !! table with
    | Some t => (Ok t, e)
    | None => (Err (table_not_found table), e)
    end.

Definition put_table (table : Z) (t : TableState) : eng unit :=
  fun e => (Ok tt, set_tables <[table := t]> e).

Definition push_undo (txn : Z) (op : UndoOp) : eng unit :=
  let* _ := ensure_healthy in
  fun e => (Ok tt, set_txd (alter_txn (set_undo_log (fun l => l ++ [op])) txn (txd e)) e).

(** ** The clustered tree, as the map it stores *)

Definition tree_insert (row_id : Z) (value : bytes) (m : gmap Z bytes) : result (gmap Z bytes) :=
  match m !! row_id with
  | Some _ => Err (corrupt "duplicate row-id insert")
  | None => Ok (<[row_id := value]> m)
  end.

Definition tree_update (row_id : Z) (value : bytes) (m : gmap Z bytes) : result (gmap Z bytes) :=
  match m !! row_id with
  | Some _ => Ok (<[row_id := value]> m)
  | None => Err (corrupt "update of a missing row-id")
  end.

Definition tree_update_prefix (row_id : Z) (prefix : bytes) (m : gmap Z bytes)
    : result (gmap Z bytes) :=
  match m !! row_id with
  | Some v =>
      if decide (length prefix <= length v) then Ok (<[row_id := splice v 0 prefix]> m)
      else Err (corrupt "prefix update exceeds the stored value")
  | None => Err (corrupt "prefix update of a missing row-id")
  end.

(** A change to one table's tree, under its writer latch. *)
Definition on_rows (table : Z) (f : gmap Z bytes -> result (gmap Z bytes)) : eng unit :=
  let* t := get_table table in
  let* m := slift (f (rows t)) in
  put_table table (MkTable m (next_row_id t)).

Definition get_row (table row_id : Z) : eng (option bytes) :=
  let* t := get_table table in sret (rows t !! row_id).

(** The row's newest version, read under the writer latch. *)
Definition newest_version (table : Z) (tid : Tid) : eng (bytes * RowMeta * bytes) :=
  let row_id := row_id_of tid in
  let* v := get_row table row_id in
  match v with
  | None => sfail (tuple_not_found tid)
  | Some value =>
      match decode_row value with
      | None => sfail (corrupt_row row_id)
      | Some (meta, tuple) => sret (value, meta, tuple)
      end
  end.

Module BtreeEngine.

(** ** Row writes *)

(** Park a superseded version: a freed slot is reused before the arena grows. *)
Definition park (v : UndoVersion) : eng Z :=
  fun e =>
    let u := reclaim e in
    match free u with
    | i :: rest =>
        (Ok i, set_reclaim (MkUndoDomain (<[Z.to_nat i := Some v]> (arena u)) rest (orphans u)) e)
    | [] =>
        if decide (Z.of_nat (length (arena u)) < VEC_MAX)%Z then
          let a := arena u ++ [Some v] in
          (Ok (Z.of_nat (length a - 1)), set_reclaim (MkUndoDomain a [] (orphans u)) e)
        else (Panic, e)
    end.

Section Limits.
(** The optional memory ceilings, and the accounting the resident one reads. *)
Context (max_txn_write_bytes max_total_resident_bytes : option Z).
Context (pinned_bytes : Engine -> Z) (resident_memory_exceeded : Z -> Z -> Error).

Definition charge_txn_memory (txn : Z) (n : Z) : eng unit :=
  fun e =>
    match max_txn_write_bytes with
    | None => (Ok tt, e)
    | Some limit =>
        match txns (txd e) !! txn with
        | None => (Ok tt, e)
        | Some s =>
            (* [saturating_add] *)
            let next := Z.min (write_bytes s + n) U64_MAX in
            if (limit <? next)%Z then (Err (txn_memory_exceeded limit next), e)
            else (Ok tt, set_txd (alter_txn (set_write_bytes next) txn (txd e)) e)
        end
    end.

Definition check_resident_memory (incoming : Z) : eng unit :=
  fun e =>
    match max_total_resident_bytes with
    | None => (Ok tt, e)
    | Some limit =>
        let resident := pinned_bytes e in
        if (limit <=? resident)%Z || (limit <? Z.min (resident + incoming) U64_MAX)%Z
        then (Err (resident_memory_exceeded limit resident), e)
        else (Ok tt, e)
    end.

Definition check_tuple (tuple : bytes) : eng unit :=
  if (MAX_USER_TUPLE <? Z.of_nat (length tuple))%Z then sfail (tuple_too_large (length tuple))
  else sret tt.

(** The next row id, minted under the table's writer latch. *)
Definition mint_row_id (table : Z) : eng Z :=
  let* t := get_table table in
  let id := next_row_id t in
  if decide (id + 1 <= U64_MAX)%Z then
    let* _ := put_table table (MkTable (rows t) (id + 1)) in sret id
  else slift Panic.

Definition insert (txn table : Z) (tuple : bytes) : eng Tid :=
  let* _ := ensure_healthy in
  let* _ := check_tuple tuple in
  let* _ := check_resident_memory (Z.of_nat (length tuple)) in
  let* _ := charge_txn_memory txn (Z.of_nat (length tuple) + PER_ROW_WRITE_OVERHEAD) in
  let* _ := get_table table in
  let* _ := on_txns (require_txn txn >> lock_table_intention txn table) in
  let* row_id := mint_row_id table in
  let value := encode_row (fresh_meta txn) tuple in
  let* _ := guarded (on_rows table (tree_insert row_id value)) in
  let* _ := push_undo txn (Inserted table row_id) in
  sret (tid_of row_id).

Definition update (txn table : Z) (tid : Tid) (tuple : bytes) : eng Tid :=
  let* _ := ensure_healthy in
  let* _ := check_tuple tuple in
  let* _ := charge_txn_memory txn (Z.of_nat (length tuple) + PER_ROW_WRITE_OVERHEAD) in
  let* _ := check_resident_memory (Z.of_nat (length tuple)) in
  let* _ := get_table table in
  let* _ := on_txns (lock_for_write txn table tid) in
  let row_id := row_id_of tid in
  let* '(old_value, old_meta, old_tuple) := newest_version table tid in
  let* _ := on_txns (fun d => (admit_write d txn old_meta tid, d)) in
  let* undo_idx := park (MkUndo old_meta old_tuple) in
  let new_value := encode_row (MkMeta txn NO_XMAX undo_idx) tuple in
  let* _ := guarded (on_rows table (tree_update row_id new_value)) in
  let* _ := push_undo txn (Updated table row_id old_value undo_idx) in
  sret tid.

Definition delete (txn table : Z) (tid : Tid) : eng unit :=
  let* _ := ensure_healthy in
  let* _ := get_table table in
  let* _ := on_txns (lock_for_write txn table tid) in
  let row_id := row_id_of tid in
  let* '(old_value, meta, old_tuple) := newest_version table tid in
  let* _ := charge_txn_memory txn (Z.of_nat (length old_value) + PER_ROW_WRITE_OVERHEAD) in
  let* _ := on_txns (fun d => (admit_write d txn meta tid, d)) in
  let new_value := encode_row (MkMeta (xmin meta) txn (undo meta)) old_tuple in
  let header := take META new_value in
  let* _ := guarded (on_rows table (tree_update_prefix row_id header)) in
  push_undo txn (Deleted table row_id old_value).
End Limits.

(** ** Reads *)

(** The rows of a table in row-id order. *)
Definition row_ids (m : gmap Z bytes) : list Z := merge_sort Z.le (elements (dom m)).

Fixpoint visible_rows (a : Arena) (view : ReadView) (m : gmap Z bytes) (ids : list Z)
    : result (list (Tid * bytes)) :=
  match ids with
  | [] => Ok []
  | row_id :: ids =>
      match m !! row_id with
      | None => visible_rows a view m ids
      | Some value =>
          match decode_row value with
          | None => Err (corrupt_row row_id)
          | Some (meta, tuple) =>
              let? v := visible_tuple meta tuple a view in
              let? rest := visible_rows a view m ids in
              Ok (match v with Some t => (tid_of row_id, t) :: rest | None => rest end)
          end
      end
  end.

(** A whole-table scan under [view]. *)
Definition scan_view (view : ReadView) (table : Z) : eng (list (Tid * bytes)) :=
  fun e =>
    match tables e !! table with
    | None => (Err (table_not_found table), e)
    | Some t => (visible_rows (arena (reclaim e)) view (rows t) (row_ids (rows t)), e)
    end.

Definition scan (txn table : Z) : eng (list (Tid * bytes)) :=
  let* _ := ensure_healthy in
  let* _ := get_table table in
  let* lvl := on_txns (fun d => (match txns d !! txn with
                                 | Some s => Ok (level s)
                                 | None => Err (unknown_txn txn)
                                 end, d)) in
  let* view := on_txns (fun d => (view_for d txn, d)) in
  let* out := scan_view view table in
  let* _ :=
    match lvl with
    | Serializable =>
        on_txns (fun d =>
          (Ok tt, alter_txn (add_reads {[table]}
             (list_to_set ((fun p => (table, row_id_of p.1)) <$> out))) txn d))
    | _ => sret tt
    end in
  sret out.

Definition scan_committed (txn table : Z) : eng (list (Tid * bytes)) :=
  let* _ := ensure_healthy in
  let* _ := get_table table in
  let* _ := on_txns (require_txn txn) in
  let* view := on_txns (fun d => (Ok (fresh_view d txn), d)) in
  scan_view view table.

(** ** Ending a transaction *)

(** [finish_commit], with the data-version bump of a commit that wrote. *)
Definition finish_commit (txn : Z) : eng unit :=
  fun e =>
    let wrote :=
      match txns (txd e) !! txn with
      | Some s => negb (bool_decide (undo_log s = []))
      | None => false
      end in
    let e := set_txd (Txn.finish_commit txn (txd e)) e in
    (Ok tt, if wrote then set_data_version (data_version e + 1) e else e).

(** Undo one write. *)
Definition undo_op (txn : Z) (op : UndoOp) : eng unit :=
  match op with
  | Inserted table row_id =>
      fun e =>
        match tables e !! table with
        | Some t => put_table table (MkTable (base.delete row_id (rows t)) (next_row_id t)) e
        | None => (Ok tt, e)
        end
  | Updated table row_id old undo_idx =>
      let* _ :=
        (fun e =>
           match tables e !! table with
           | Some _ => on_rows table (tree_update row_id old) e
           | None => (Ok tt, e)
           end) in
      fun e =>
        let u := reclaim e in
        (Ok tt, set_reclaim (MkUndoDomain (arena u) (free u) (orphans u ++ [(undo_idx, txn)])) e)
  | Deleted table row_id old =>
      fun e =>
        match tables e !! table with
        | None => (Ok tt, e)
        | Some t =>
            match decode_row old, rows t !! row_id with
            | None, _ => (Err (corrupt_row row_id), e)
            | _, None => (Err (corrupt_row row_id), e)
            | Some (old_meta, _), Some stored =>
                match decode_row stored with
                | None => (Err (corrupt_row row_id), e)
                | Some (meta, _) =>
                    on_rows table
                      (tree_update_prefix row_id
                         (encode_row (MkMeta (xmin meta) (xmax old_meta) (undo meta)) [])) e
                end
            end
        end
  end.

(** [while let Some(op) = ops.pop()]: newest first. *)
Fixpoint undo_each (txn : Z) (newest_first : list UndoOp) : eng unit :=
  match newest_first with
  | [] => sret tt
  | op :: ops => undo_op txn op >> undo_each txn ops
  end.

Definition undo_ops (txn : Z) (ops : list UndoOp) : eng unit := undo_each txn (reverse ops).

Definition rollback_tail (txn : Z) (ops : list UndoOp) : eng unit := guarded (undo_ops txn ops).

(** [abort]: the caller has taken [state] out of the table. The undo's error
    is dropped (the engine has stopped), and the teardown always runs. *)
Definition abort (txn : Z) (state : TxnState) : eng unit :=
  fun e =>
    let e :=
      match fault e with
      | None => snd (rollback_tail txn (undo_log state) e)
      | Some _ => e
      end in
    (Ok tt, set_txd (finish_abort txn (held state) (txd e)) e).

Definition take_txn (txn : Z) : eng TxnState :=
  fun e =>
    match txns (txd e) !! txn with
    | Some s => (Ok s, set_txd (set_txns (base.delete txn) (txd e)) e)
    | None => (Err (unknown_txn txn), e)
    end.

Definition rollback (txn : Z) : eng unit :=
  fun e =>
    match txns (txd e) !! txn with
    | Some s =>
        match prepared s with
        | Some _ => (Err (is_prepared txn), e)
        | None => (let* state := take_txn txn in abort txn state) e
        end
    | None => (Err (unknown_txn txn), e)
    end.

Definition rollback_to (txn : Z) (name : string) : eng unit :=
  let* _ := ensure_healthy in
  let* tail := on_txns (split_at_savepoint txn name) in
  rollback_tail txn tail.

(** ** The serializable check *)

Definition conflicting (txn : Z) (view : ReadView) (active staged : gset Z) (stamp : Z) : bool :=
  negb (stamp =? txn)%Z && negb (sees view stamp) &&
  (bool_decide (stamp ∉ active) || bool_decide (stamp ∈ staged)).

Fixpoint conflict_walk (fuel : nat) (a : Arena) (view : ReadView) (c : Z -> bool)
    (meta : RowMeta) : result bool :=
  match fuel with
  | O => Diverge
  | S fuel =>
      if c (xmin meta) || (negb (xmax meta =? NO_XMAX)%Z && c (xmax meta)) then Ok true
      else if sees view (xmin meta) || (undo meta =? NO_UNDO)%Z then Ok false
      else
        match arena_get a (undo meta) with
        | None => Ok false
        | Some prev => conflict_walk fuel a view c (u_meta prev)
        end
  end.

Definition read_conflict (e : Engine) (view : ReadView) (c : Z -> bool) (p : Z * Z)
    : result bool :=
  match tables e !! p.1 with
  | None => Ok false
  | Some t =>
      match rows t !! p.2 with
      | None => Ok false
      | Some stored =>
          match decode_row stored with
          | None => Err (corrupt_row p.2)
          | Some (meta, _) =>
              conflict_walk (S (length (arena (reclaim e)))) (arena (reclaim e)) view c meta
          end
      end
  end.

(** The head version of every row of the table, whatever its undo chain. *)
Fixpoint phantom_rows (m : gmap Z bytes) (c : Z -> bool) (ids : list Z) : result bool :=
  match ids with
  | [] => Ok false
  | row_id :: ids =>
      match m !! row_id with
      | None => phantom_rows m c ids
      | Some stored =>
          match decode_row stored with
          | None => Err (corrupt_row row_id)
          | Some (meta, _) =>
              let? rest := phantom_rows m c ids in Ok (c (xmin meta) || rest)
          end
      end
  end.

Definition predicate_conflict (e : Engine) (c : Z -> bool) (table : Z) : result bool :=
  match tables e !! table with
  | None => Ok false
  | Some t => phantom_rows (rows t) c (row_ids (rows t))
  end.

(** The first [Ok true] of a list of checks, as the [for] loops return it. *)
Fixpoint any_conflict {A} (f : A -> result bool) (l : list A) : result bool :=
  match l with
  | [] => Ok false
  | x :: l => let? b := f x in if b then Ok true else any_conflict f l
  end.

Definition version_of (m : gmap Z Z) (table : Z) : Z :=
  match m !! table with Some n => n | None => 0 end.

Definition write_moved (d : TxnDomain) (s : TxnState) (table : Z) : bool :=
  negb (version_of (versions_staged d) table =? version_of (write_versions_at_begin s) table)%Z.

Definition serializable_read_conflict (e : Engine) (txn : Z) : result bool :=
  match txns (txd e) !! txn with
  | None => Ok false
  | Some s =>
      if negb (bool_decide (level s = Serializable)) ||
         (bool_decide (reads s = ∅) && bool_decide (predicate_reads s = ∅))
      then Ok false
      else
        let d := txd e in
        let rd := filter (fun p => write_moved d s p.1 = true) (elements (reads s)) in
        let pr := filter (fun t => write_moved d s t = true) (elements (predicate_reads s)) in
        if bool_decide (rd = []) && bool_decide (pr = []) then Ok false
        else
          let view := snapshot s in
          let c := conflicting txn view (active_txns d)
                     (staged d ∪ list_to_set (map_to_list (prepared_gids d)).*2) in
          let? row := any_conflict (read_conflict e view c) rd in
          if row then Ok true else any_conflict (predicate_conflict e c) pr
  end.

(** ** Commit *)

Definition check_commit (txn : Z) : eng unit :=
  fun e =>
    match txns (txd e) !! txn with
    | None => (Err (unknown_txn txn), e)
    | Some s => match prepared s with
                | Some _ => (Err (is_prepared txn), e)
                | None => (Ok tt, e)
                end
    end.

(** The checks before the durability point, under the commit gate: a failed or
    conflicting serializable check rolls the transaction back. *)
Definition validate_commit (txn : Z) : eng unit :=
  let* _ := ensure_healthy in
  let* _ := check_commit txn in
  fun e =>
    match serializable_read_conflict e txn with
    | Ok false => (Ok tt, e)
    | Ok true =>
        (let* state := take_txn txn in
         let* _ := abort txn state in sfail (SerializationConflict txn)) e
    | Err error =>
        (let* state := take_txn txn in
         let* _ := abort txn state in sfail error) e
    | Panic => (Panic, e)
    | Diverge => (Diverge, e)
    end.

(** [commit] of an engine without a log: it ends right there. *)
Definition commit (txn : Z) : eng unit :=
  let* _ := validate_commit txn in
  let* _ := on_txns (fun d => (Ok tt, bump_finished_versions txn (bump_staged_versions txn d))) in
  finish_commit txn.

(** The two halves of [commit] of an engine with a log, between which other
    steps run: appending the marker ([marker] is the append's outcome) stages
    the transaction, and the group's fsync finishes it. A transaction that
    wrote nothing ends at once. A failed fsync aborts the process, so it has no
    step. *)
Definition commit_stage (txn : Z) (marker : option Error) : eng unit :=
  let* _ := validate_commit txn in
  fun e =>
    let wrote :=
      match txns (txd e) !! txn with
      | Some s => negb (bool_decide (undo_log s = []))
      | None => true
      end in
    if negb wrote then finish_commit txn e
    else
      match marker with
      | Some error =>
          (let* state := take_txn txn in
           let* _ := abort txn state in sfail error) e
      | None =>
          (Ok tt,
           set_txd (set_staged (fun s => s ∪ {[txn]}) (bump_staged_versions txn (txd e))) e)
      end.

Definition commit_finish (txn : Z) : eng unit :=
  let* _ := on_txns (fun d =>
    (Ok tt, bump_finished_versions txn (set_staged (fun s => s ∖ {[txn]}) d))) in
  finish_commit txn.

(** ** Purge *)

Record PurgeSnapshot := MkSnap {
  p_pinned : list ReadView; p_active : gset Z; p_horizon : Z }.

Definition purge_snapshot (e : Engine) : PurgeSnapshot :=
  let states := (map_to_list (txns (txd e))).*2 in
  MkSnap
    ((pinned <$> states) ++
     omap (fun s => match fresh_reads s with Some (_, saved) => Some saved | None => None end) states)
    (active_txns (txd e)) (next_txn_id (txd e)).

Definition settled (snap : PurgeSnapshot) (x : Z) : bool :=
  (x <? p_horizon snap)%Z && bool_decide (x ∉ p_active snap) &&
  forallb (fun v => sees v x) (p_pinned snap).

(** [free_chain]: each turn empties a slot, so one turn per slot is enough. *)
Fixpoint free_chain_loop (fuel : nat) (u : UndoDomain) (idx : Z) : UndoDomain * nat :=
  match fuel with
  | O => (u, 0)
  | S fuel =>
      if (idx =? NO_UNDO)%Z then (u, 0)
      else
        match arena_get (arena u) idx with
        | None => (u, 0)
        | Some version =>
            let u := MkUndoDomain (<[Z.to_nat idx := None]> (arena u)) (idx :: free u) (orphans u) in
            let '(u, freed) := free_chain_loop fuel u (undo (u_meta version)) in
            (u, S freed)
        end
  end.

Definition free_chain (u : UndoDomain) (idx : Z) : UndoDomain * nat :=
  free_chain_loop (S (length (arena u))) u idx.

(** One row of a purge batch. *)
Definition purge_row (snap : PurgeSnapshot) (table row_id : Z) : eng unit :=
  fun e =>
    match tables e !! table with
    | None => (Ok tt, e)
    | Some t =>
        match rows t !! row_id with
        | None => (Ok tt, e)
        | Some stored =>
            match decode_row stored with
            | None => (Err (corrupt_row row_id), e)
            | Some (meta, _) =>
                if negb (xmax meta =? NO_XMAX)%Z && settled snap (xmax meta) then
                  let '(u, _) := free_chain (reclaim e) (undo meta) in
                  put_table table (MkTable (base.delete row_id (rows t)) (next_row_id t))
                    (set_reclaim u e)
                else if negb (undo meta =? NO_UNDO)%Z && settled snap (xmin meta) then
                  let '(u, _) := free_chain (reclaim e) (undo meta) in
                  on_rows table
                    (tree_update_prefix row_id
                       (encode_row (MkMeta (xmin meta) (xmax meta) NO_UNDO) []))
                    (set_reclaim u e)
                else (Ok tt, e)
            end
        end
    end.

Fixpoint purge_rows (snap : PurgeSnapshot) (table : Z) (ids : list Z) : eng unit :=
  match ids with
  | [] => sret tt
  | row_id :: ids => purge_row snap table row_id >> purge_rows snap table ids
  end.

(** A batch: up to [PURGE_ROW_BATCH] rows from [cursor] on, under the writer
    latch and the reclamation gate. Returns the row id the next batch starts
    from, or nothing at the end of the table. *)
Definition purge_batch (snap : PurgeSnapshot) (table cursor : Z) : eng (option Z) :=
  fun e =>
    match tables e !! table with
    | None => (Ok None, e)
    | Some t =>
        let batch := take PURGE_ROW_BATCH (filter (fun id => (cursor <= id)%Z) (row_ids (rows t))) in
        (let* _ := purge_rows snap table batch in
         sret (if decide (length batch < PURGE_ROW_BATCH) then None
               else match last batch with
                    | Some k => Some (Z.min (k + 1) U64_MAX)
                    | None => None
                    end)) e
    end.

(** The slots of aborted updates, freed once the abort is settled. *)
Fixpoint purge_orphans_loop (snap : PurgeSnapshot) (queue : list (Z * Z)) (u : UndoDomain)
    : UndoDomain :=
  match queue with
  | [] => u
  | (slot, txn) :: queue =>
      let u :=
        if settled snap txn then
          match arena_get (arena u) slot with
          | Some _ =>
              MkUndoDomain (<[Z.to_nat slot := None]> (arena u)) (slot :: free u) (orphans u)
          | None => u
          end
        else MkUndoDomain (arena u) (free u) (orphans u ++ [(slot, txn)]) in
      purge_orphans_loop snap queue u
  end.

Definition purge_orphans (snap : PurgeSnapshot) : eng unit :=
  fun e =>
    let u := reclaim e in
    (Ok tt,
     set_reclaim (purge_orphans_loop snap (orphans u) (MkUndoDomain (arena u) (free u) [])) e).

End BtreeEngine.
