(* ===== verification/EngineInv.v ===== *)
(** * The row engine: invariant and simulation

    Every row of a reachable engine stands for a list of versions, newest
    first. This file relates the engine's leaves and arena to those lists
    ([rep]), states what the lists satisfy with respect to the transaction
    domain ([hist_ok]), and shows how each primitive change of the engine acts
    on them. *)

From S2P Require Import Prelude Core Mvcc Txn Engine.
From stdpp Require Import base gmap list sets functions sorting.
From Stdlib Require Import ZArith Lia Strings.Byte.

(** A row's address: table and row id. *)
Abbreviation Key := (Z * Z)%type.
Abbreviation Versions := (Key -> list UndoVersion).
Abbreviation Slots := (Key -> list nat).

Definition row_at (e : Engine) (k : Key) : option bytes :=
  match tables e !! k.1 with Some t => rows t !! k.2 | None => None end.

(** ** The leaves and the arena stand for version lists *)

Definition row_rep (a : Arena) (value : option bytes) (vs : list UndoVersion) (ss : list nat)
    : Prop :=
  match value with
  | None => vs = [] /\ ss = []
  | Some value => exists v rest,
      vs = v :: rest /\ value = encode_row (u_meta v) (u_tuple v) /\ meta_ok (u_meta v) /\
      chain a (undo (u_meta v)) ss rest
  end.

Record undo_rep (u : UndoDomain) (ss : Slots) : Prop := {
  ur_disj : forall k1 k2 i, i ∈ ss k1 -> i ∈ ss k2 -> k1 = k2;
  ur_free_nodup : NoDup (free u);
  ur_free : forall i, i ∈ free u ->
    (0 <= i < VEC_MAX)%Z /\ arena u !! Z.to_nat i = Some None;
  ur_orphans_nodup : NoDup (orphans u).*1;
  ur_orphans : forall i, i ∈ (orphans u).*1 ->
    (0 <= i < VEC_MAX)%Z /\ (exists v, arena u !! Z.to_nat i = Some (Some v)) /\
    forall k, Z.to_nat i ∉ ss k;
  ur_len : (Z.of_nat (length (arena u)) <= VEC_MAX)%Z }.

Record rep (e : Engine) (vs : Versions) (ss : Slots) : Prop := {
  rp_rows : forall k, row_rep (arena (reclaim e)) (row_at e k) (vs k) (ss k);
  rp_undo : undo_rep (reclaim e) ss }.

(** ** Reading *)

Definition read_row (e : Engine) (view : ReadView) (k : Key) : result (option bytes) :=
  match row_at e k with
  | None => Ok None
  | Some value =>
      match decode_row value with
      | None => Err (corrupt_row k.2)
      | Some (meta, tuple) => visible_tuple meta tuple (arena (reclaim e)) view
      end
  end.

Lemma rep_read e vs ss view k :
  rep e vs ss -> read_row e view k = Ok (resolve view (vs k)).
Proof.
  intros [Hr _]. specialize (Hr k). unfold read_row.
  destruct (row_at e k) as [value|]; cbn in Hr.
  - destruct Hr as (v & rest & -> & -> & Hm & Hc). rewrite decode_encode_row by done.
    rewrite (visible_tuple_chain _ _ _ _ _ _ Hc). by destruct v.
  - by destruct Hr as [-> _].
Qed.

(** ** Parking a version *)

Lemma row_rep_insert a value vs ss i x :
  row_rep a value vs ss -> i ∉ ss -> row_rep (<[i := x]> a) value vs ss.
Proof.
  destruct value as [value|]; [|done]. intros (v & rest & -> & -> & Hm & Hc) Hi.
  exists v, rest. split_and!; [done|done|done|by apply chain_insert].
Qed.

Lemma row_rep_app a value vs ss l : row_rep a value vs ss -> row_rep (a ++ l) value vs ss.
Proof.
  destruct value as [value|]; [|done]. intros (v & rest & -> & -> & Hm & Hc).
  exists v, rest. split_and!; [done|done|done|by apply chain_app].
Qed.

Lemma row_rep_slot a value vs ss i :
  row_rep a value vs ss -> i ∈ ss -> exists v, a !! i = Some (Some v).
Proof.
  destruct value as [value|].
  - intros (v & rest & -> & -> & Hm & Hc) Hi. by eapply chain_lookup.
  - intros [-> ->] Hi. by apply elem_of_nil in Hi.
Qed.

(** The slot a version was parked in belongs to nobody yet. *)
Record parked (e : Engine) (ss : Slots) (i : Z) (v : UndoVersion) : Prop := {
  pk_range : (0 <= i < VEC_MAX)%Z;
  pk_slot : arena (reclaim e) !! Z.to_nat i = Some (Some v);
  pk_unowned : forall k, Z.to_nat i ∉ ss k;
  pk_free : i ∉ free (reclaim e);
  pk_orphans : i ∉ (orphans (reclaim e)).*1 }.

Lemma to_nat_ne (i j : Z) : (0 <= i)%Z -> (0 <= j)%Z -> i <> j -> Z.to_nat i <> Z.to_nat j.
Proof. lia. Qed.

Lemma park_rep e vs ss v r e' :
  rep e vs ss -> BtreeEngine.park v e = (r, e') ->
  r = Panic \/ exists i, r = Ok i /\ rep e' vs ss /\ parked e' ss i v /\
    (forall k, row_at e' k = row_at e k) /\ tables e' = tables e /\ txd e' = txd e /\
    fault e' = fault e.
Proof.
  intros [Hr [Hd Hfn Hf Hon Ho Hl]]. unfold BtreeEngine.park.
  destruct (free (reclaim e)) as [|i fr] eqn:Hfree.
  - case_decide as Hlen; [|intros [= <- <-]; by left]. intros [= <- <-]. right.
    set (a := arena (reclaim e)) in *.
    assert (Z.to_nat (Z.of_nat (length (a ++ [Some v]) - 1)) = length a) as Hi
      by (rewrite length_app; cbn; lia).
    assert (forall k, length a ∉ ss k) as Hun.
    { intros k Hin. destruct (row_rep_slot _ _ _ _ _ (Hr k) Hin) as [w Hw].
      apply lookup_lt_Some in Hw. lia. }
    assert (forall i x, (0 <= i)%Z -> a !! Z.to_nat i = Some x -> i <> Z.of_nat (length a)) as Hlt.
    { intros j x Hj Hx ->. apply lookup_lt_Some in Hx. lia. }
    eexists. split_and!; [done| | |done|done|done|done].
    + split; [intros k; exact (row_rep_app _ _ _ _ _ (Hr k))|]. split; cbn; try assumption.
      * intros j Hj. by apply elem_of_nil in Hj.
      * intros j Hj. destruct (Ho j Hj) as (Hrg & (w & Hw) & Hk).
        split_and!; [lia|lia| |done]. exists w. by apply lookup_app_l_Some.
      * rewrite length_app. cbn. lia.
    + split; cbn.
      * rewrite length_app. cbn. lia.
      * rewrite Hi, lookup_app_r, Nat.sub_diag by lia. done.
      * intros k. rewrite Hi. done.
      * apply not_elem_of_nil.
      * intros Hin. destruct (Ho _ Hin) as (Hrg & (w & Hw) & _). rewrite Hi in Hw.
        apply lookup_lt_Some in Hw. lia.
  - intros [= <- <-]. right.
    destruct (Hf i) as [Hrg Hnone]; [left|].
    apply NoDup_cons in Hfn as [Hifr Hfn].
    assert (forall k, Z.to_nat i ∉ ss k) as Hun.
    { intros k Hin. destruct (row_rep_slot _ _ _ _ _ (Hr k) Hin) as [w Hw]. congruence. }
    assert (i ∉ (orphans (reclaim e)).*1) as Hio.
    { intros Hin. destruct (Ho _ Hin) as (_ & (w & Hw) & _). congruence. }
    assert (Z.to_nat i < length (arena (reclaim e))) as Hlt by by eapply lookup_lt_Some.
    exists i. split_and!; [done| | |done|done|done|done].
    + split; [intros k; exact (row_rep_insert _ _ _ _ _ _ (Hr k) (Hun k))|]. split; cbn; try assumption.
      * intros j Hj. destruct (Hf j) as [Hrj Hnj]; [by right|]. split; [done|].
        rewrite list_lookup_insert_ne; [done|]. apply to_nat_ne; [lia|lia|congruence].
      * intros j Hj. destruct (Ho j Hj) as (Hrj & (w & Hw) & Hk). split_and!; [lia|lia| |done].
        exists w. rewrite list_lookup_insert_ne; [done|]. apply to_nat_ne; [lia|lia|congruence].
      * by rewrite length_insert.
    + split; cbn; [done|by rewrite list_lookup_insert_eq|done|done|done].
Qed.

(** ** Rewriting one row *)

Lemma upd_at {A} (f : Key -> A) k x k' : (<[k := x]> f) k' = if decide (k' = k) then x else f k'.
Proof.
  case_decide as H; [subst; apply fn_lookup_insert|apply fn_lookup_insert_ne; congruence].
Qed.

Lemma undo_rep_slots u ss k ss' :
  undo_rep u ss ->
  (forall i k', i ∈ ss' -> k' <> k -> i ∉ ss k') ->
  (forall i, i ∈ (orphans u).*1 -> Z.to_nat i ∉ ss') ->
  undo_rep u (<[k := ss']> ss).
Proof.
  intros [Hd Hfn Hf Hon Ho Hl] Hdis Horph. split; try assumption.
  - intros k1 k2 i. rewrite !upd_at. repeat case_decide; subst; intros H1 H2; try done.
    + by destruct (Hdis i k2).
    + by destruct (Hdis i k1).
    + by eapply Hd.
  - intros i Hi. destruct (Ho i Hi) as (Hr & Hv & Hk). split_and!; [lia|lia|done|].
    intros k'. rewrite upd_at. case_decide; subst; auto.
Qed.

Lemma rep_set_row e e' vs ss k v rest ss' :
  rep e vs ss -> reclaim e' = reclaim e ->
  row_at e' k = Some (encode_row (u_meta v) (u_tuple v)) ->
  (forall k', k' <> k -> row_at e' k' = row_at e k') ->
  meta_ok (u_meta v) -> chain (arena (reclaim e)) (undo (u_meta v)) ss' rest ->
  (forall i k', i ∈ ss' -> k' <> k -> i ∉ ss k') ->
  (forall i, i ∈ (orphans (reclaim e)).*1 -> Z.to_nat i ∉ ss') ->
  rep e' (<[k := v :: rest]> vs) (<[k := ss']> ss).
Proof.
  intros [Hr Hu] Eu Hk Hother Hm Hc Hdis Horph. split; rewrite ?Eu.
  - intros k'. rewrite !upd_at. case_decide as N; subst.
    + rewrite Hk. exists v, rest. done.
    + rewrite Hother by done. apply Hr.
  - by apply undo_rep_slots.
Qed.

Lemma rep_del_row e e' vs ss k :
  rep e vs ss -> reclaim e' = reclaim e -> row_at e' k = None ->
  (forall k', k' <> k -> row_at e' k' = row_at e k') ->
  rep e' (<[k := []]> vs) (<[k := []]> ss).
Proof.
  intros [Hr Hu] Eu Hk Hother. split; rewrite ?Eu.
  - intros k'. rewrite !upd_at. case_decide as N; subst.
    + by rewrite Hk.
    + rewrite Hother by done. apply Hr.
  - apply undo_rep_slots; [done| |]; intros; apply not_elem_of_nil || set_solver.
Qed.

(** ** Freeing a chain *)

Lemma arena_get_some a i v : (0 <= i)%Z -> a !! Z.to_nat i = Some (Some v) -> arena_get a i = Some v.
Proof. intros Hi Hv. unfold arena_get. by rewrite (proj2 (Z.leb_le _ _) Hi), Hv. Qed.

Record freed (u u' : UndoDomain) (sl : list nat) : Prop := {
  fr_same : forall i, i ∉ sl -> arena u' !! i = arena u !! i;
  fr_gone : forall i, i ∈ sl -> arena u' !! i = Some None;
  fr_len : length (arena u') = length (arena u);
  fr_free : free u' = reverse (Z.of_nat <$> sl) ++ free u;
  fr_orphans : orphans u' = orphans u }.

Lemma free_chain_loop_spec fuel u idx sl rest :
  chain (arena u) idx sl rest -> length sl < fuel ->
  exists u', BtreeEngine.free_chain_loop fuel u idx = (u', length sl) /\ freed u u' sl.
Proof.
  revert u idx sl rest. induction fuel as [|fuel IH]; intros u idx sl rest Hc Hl; [lia|].
  cbn [BtreeEngine.free_chain_loop].
  inversion Hc as [|i v sl' rest' Hne Hpos Hv Hc' E1 E2 E3]; subst.
  - rewrite Z.eqb_refl. exists u. split; [done|]. split; try done. intros i Hi. by apply elem_of_nil in Hi.
  - rewrite (proj2 (Z.eqb_neq _ _) Hne), (arena_get_some _ _ _ Hpos Hv).
    pose proof (chain_NoDup _ _ _ _ Hc) as Hnd. apply NoDup_cons in Hnd as [Hni Hnd].
    set (u1 := MkUndoDomain _ _ _).
    destruct (IH u1 (undo (u_meta v)) sl' rest') as (u' & Hrun & [F1 F2 F3 F4 F5]).
    { by apply chain_insert. }
    { simpl in Hl. lia. }
    rewrite Hrun. exists u'. split; [done|]. cbn in *.
    assert (Z.to_nat idx < length (arena u)) as Hlt by by eapply lookup_lt_Some.
    split.
    + intros i [N1 N2]%not_elem_of_cons. rewrite F1 by done.
      by rewrite list_lookup_insert_ne.
    + intros i Hi. destruct (decide (i ∈ sl')) as [Hin|Hnin]; [by apply F2|].
      apply elem_of_cons in Hi as [->|]; [|done]. rewrite F1 by done.
      by rewrite list_lookup_insert_eq.
    + by rewrite F3, length_insert.
    + rewrite F4, fmap_cons, reverse_cons, <- app_assoc. by rewrite Z2Nat.id.
    + by rewrite F5.
Qed.

Lemma free_chain_spec u idx sl rest :
  chain (arena u) idx sl rest ->
  exists u', BtreeEngine.free_chain u idx = (u', length sl) /\ freed u u' sl.
Proof.
  intros Hc. unfold BtreeEngine.free_chain. eapply free_chain_loop_spec; [done|].
  rewrite <- (chain_length _ _ _ _ Hc). pose proof (chain_short _ _ _ _ Hc). lia.
Qed.

Lemma chain_freed u u' sl i ss vs :
  freed u u' sl -> (forall j, j ∈ ss -> j ∉ sl) ->
  chain (arena u) i ss vs -> chain (arena u') i ss vs.
Proof.
  intros Hf Hd Hc. induction Hc as [|i v ss vs Hne Hi Hl Hc IH]; [constructor|].
  econstructor; [done|done| |].
  - rewrite (fr_same _ _ _ Hf); [done|]. apply Hd. by left.
  - apply IH. intros j Hj. apply Hd. by right.
Qed.

Lemma row_rep_freed u u' sl value vs ss :
  freed u u' sl -> (forall j, j ∈ ss -> j ∉ sl) ->
  row_rep (arena u) value vs ss -> row_rep (arena u') value vs ss.
Proof.
  intros Hf Hd. destruct value as [value|]; [|done]. intros (v & rest & -> & -> & Hm & Hc).
  exists v, rest. split_and!; [done|done|done|by eapply chain_freed].
Qed.

Lemma undo_rep_freed u u' ss k vs value :
  undo_rep u ss -> freed u u' (ss k) -> row_rep (arena u) value vs (ss k) ->
  undo_rep u' (<[k := []]> ss).
Proof.
  intros [Hd Hfn Hf Hon Ho Hl] [F1 F2 F3 F4 F5] Hrow.
  assert (forall i, i ∈ ss k -> exists v, arena u !! i = Some (Some v)) as Hslots
    by (intros; by eapply row_rep_slot).
  assert (NoDup (ss k)) as Hnd.
  { destruct value; cbn in Hrow; [|destruct Hrow as [_ ->]; constructor].
    destruct Hrow as (? & ? & _ & _ & _ & Hc). by eapply chain_NoDup. }
  split.
  - intros k1 k2 i. rewrite !upd_at. repeat case_decide; subst; intros H1 H2; try done;
      [by apply elem_of_nil in H1|by apply elem_of_nil in H2|by eapply Hd].
  - rewrite F4. apply NoDup_app. split_and!; [|intros i Hi Hi2|done].
    + rewrite reverse_Permutation. by apply NoDup_fmap_2; [apply _|].
    + rewrite elem_of_reverse, list_elem_of_fmap in Hi. destruct Hi as (n & -> & Hn).
      destruct (Hf _ Hi2) as [_ Hnone]. rewrite Nat2Z.id in Hnone.
      destruct (Hslots n Hn) as [v Hv]. congruence.
  - intros i. rewrite F4, elem_of_app, elem_of_reverse, list_elem_of_fmap.
    intros [(n & -> & Hn)|Hi].
    + destruct (Hslots n Hn) as [v Hv]. apply lookup_lt_Some in Hv.
      rewrite Nat2Z.id, F2 by done. split; [lia|done].
    + destruct (Hf i Hi) as [Hr Hnone]. split; [done|].
      rewrite F1; [done|]. intros Hin. destruct (Hslots _ Hin) as [v Hv]. congruence.
  - by rewrite F5.
  - rewrite F5. intros i Hi. destruct (Ho i Hi) as (Hr & (v & Hv) & Hk). split_and!; [lia|lia| |].
    + exists v. rewrite F1; [done|apply Hk].
    + intros k'. rewrite upd_at. case_decide; [apply not_elem_of_nil|apply Hk].
  - by rewrite F3.
Qed.

(** ** What version lists satisfy *)

Definition op_key (op : UndoOp) : Key :=
  match op with
  | Inserted t r => (t, r)
  | Updated t r _ _ => (t, r)
  | Deleted t r _ => (t, r)
  end.

(** The operations of a log that concern one row, in the log's order. *)
Definition ops_on (k : Key) (ops : list UndoOp) : list UndoOp :=
  filter (fun op => op_key op = k) ops.

Definition set_xmax (x : Z) (v : UndoVersion) : UndoVersion :=
  MkUndo (MkMeta (xmin (u_meta v)) x (undo (u_meta v))) (u_tuple v).

(** [row_undo t ops vs]: the versions [vs] of a row are the effect of [t]'s
    operations [ops] on it, newest first, over versions that carry no stamp of
    [t]. *)
Inductive row_undo (t : Z) : list UndoOp -> list UndoVersion -> Prop :=
| ru_nil vs :
    (forall v, v ∈ vs -> xmin (u_meta v) <> t /\ xmax (u_meta v) <> t) ->
    row_undo t [] vs
| ru_insert table row_id v :
    xmin (u_meta v) = t -> xmax (u_meta v) = NO_XMAX ->
    row_undo t [Inserted table row_id] [v]
| ru_update table row_id old undo_idx ops v w vs :
    xmin (u_meta v) = t -> xmax (u_meta v) = NO_XMAX -> undo (u_meta v) = undo_idx ->
    old = encode_row (u_meta w) (u_tuple w) -> meta_ok (u_meta w) ->
    row_undo t ops (w :: vs) ->
    row_undo t (Updated table row_id old undo_idx :: ops) (v :: w :: vs)
| ru_delete table row_id old m ops v vs :
    xmax (u_meta v) = t -> decode_row old = Some (m, u_tuple v) -> xmax m = NO_XMAX ->
    row_undo t ops (set_xmax NO_XMAX v :: vs) ->
    row_undo t (Deleted table row_id old :: ops) (v :: vs).

(** The log a transaction would replay, newest first; [pend] is the part
    already taken off the transaction [a] that is being undone. *)
Definition log_of (d : TxnDomain) (a : Z) (pend : list UndoOp) (t : Z) : list UndoOp :=
  (if decide (t = a) then pend else []) ++
  (match txns d !! t with Some s => reverse (undo_log s) | None => [] end).

Definition has_view (s : TxnState) (v : ReadView) : Prop :=
  v = pinned s \/ exists n, fresh_reads s = Some (n, v).

Record hist_ok (d : TxnDomain) (vs : Versions) (a : Z) (pend : list UndoOp) : Prop := {
  ho_stamps : forall k v, v ∈ vs k ->
    (1 <= xmin (u_meta v) < next_txn_id d)%Z /\
    (xmax (u_meta v) = NO_XMAX \/ (1 <= xmax (u_meta v) < next_txn_id d)%Z);
  ho_tail : forall k v rest w, vs k = v :: rest -> w ∈ rest -> xmax (u_meta w) = NO_XMAX;
  ho_deleted : forall k v, v ∈ vs k -> xmax (u_meta v) <> NO_XMAX ->
    xmin (u_meta v) = xmax (u_meta v) \/ xmin (u_meta v) ∉ active_txns d;
  ho_views : forall k v o s view, v ∈ vs k -> xmax (u_meta v) <> NO_XMAX ->
    txns d !! o = Some s -> has_view s view -> o <> xmax (u_meta v) ->
    sees view (xmax (u_meta v)) = true -> sees view (xmin (u_meta v)) = true;
  ho_undo : forall t k, t ∈ active_txns d -> row_undo t (ops_on k (log_of d a pend t)) (vs k) }.

Lemma resolve_ext view view' vs :
  Forall (fun v => sees view (xmin (u_meta v)) = sees view' (xmin (u_meta v)) /\
            (xmax (u_meta v) = NO_XMAX \/ sees view (xmax (u_meta v)) = sees view' (xmax (u_meta v)))) vs ->
  resolve view vs = resolve view' vs.
Proof.
  induction 1 as [|v vs [H1 H2] _ IH]; [done|]. cbn. rewrite H1, IH.
  destruct H2 as [->| ->]; done.
Qed.

(** A view that sees every transaction that has ended, and any of the running
    ones: what a reader could see if those running ones were to commit. *)
Definition late (d : TxnDomain) (view : ReadView) : Prop :=
  forall x, (1 <= x < next_txn_id d)%Z -> x ∉ active_txns d -> sees view x = true.

(** No reader that cannot see [a] notices the change from [vs] to [vs']. *)
Definition stable (a : Z) (vs vs' : Versions) : Prop :=
  forall view k, sees view a = false -> resolve view (vs' k) = resolve view (vs k).

#[export] Instance stable_refl a : Reflexive (stable a).
Proof. by intros vs view k. Qed.

#[export] Instance stable_trans a : Transitive (stable a).
Proof. intros v1 v2 v3 H1 H2 view k Hs. by rewrite H2, H1. Qed.

Lemma stable_upd a vs k new :
  (forall view, sees view a = false -> resolve view new = resolve view (vs k)) ->
  stable a vs (<[k := new]> vs).
Proof. intros H view k' Hs. rewrite upd_at. case_decide; subst; auto. Qed.

(** A row whose newest version is live and not written by [t] holds nothing of
    [t]. *)
Lemma row_undo_untouched t ops v vs :
  row_undo t ops (v :: vs) -> t <> NO_XMAX ->
  xmin (u_meta v) <> t -> xmax (u_meta v) <> t -> ops = [].
Proof. intros H Ht H1 H2. by inversion H; subst. Qed.

Lemma row_undo_absent t ops : row_undo t ops [] -> ops = [].
Proof. intros H. by inversion H. Qed.

Lemma row_undo_nil_cons t v vs :
  row_undo t [] vs -> xmin (u_meta v) <> t -> xmax (u_meta v) <> t -> row_undo t [] (v :: vs).
Proof.
  intros H H1 H2. inversion H as [? Hn| | |]; subst. constructor.
  intros w [->|Hw]%elem_of_cons; [done|auto].
Qed.

Lemma log_of_none d a pend t : txns d !! t = None -> t <> a -> log_of d a pend t = [].
Proof. intros H Hne. unfold log_of. by rewrite decide_False, H by done. Qed.

Lemma ops_on_app k l1 l2 : ops_on k (l1 ++ l2) = ops_on k l1 ++ ops_on k l2.
Proof. unfold ops_on. apply filter_app. Qed.

Lemma ops_on_cons k op l :
  ops_on k (op :: l) = if decide (op_key op = k) then op :: ops_on k l else ops_on k l.
Proof. unfold ops_on. by rewrite filter_cons. Qed.

(** Writing through [t] puts the new operation in front of its log. *)
Lemma log_of_push d a op t f :
  (forall s, undo_log (f s) = undo_log s ++ [op]) -> is_Some (txns d !! a) ->
  log_of (alter_txn f a d) a [] t = (if decide (t = a) then [op] else []) ++ log_of d a [] t.
Proof.
  intros Hf [s Hs]. unfold log_of. cbn. case_decide as Ht; subst.
  - rewrite lookup_alter_eq, Hs. cbn. by rewrite Hf, reverse_app.
  - rewrite lookup_alter_ne by done. done.
Qed.

(** ** Domain changes that leave the histories alone *)

Definition hist_part (s : TxnState) : list UndoOp * ReadView * option (Z * ReadView) :=
  (undo_log s, pinned s, fresh_reads s).

Record dom_same (d d' : TxnDomain) : Prop := {
  ds_next : next_txn_id d' = next_txn_id d;
  ds_active : active_txns d' = active_txns d;
  ds_txns : forall t, hist_part <$> txns d' !! t = hist_part <$> txns d !! t }.

Lemma dom_same_lock d d' : lock_step d d' -> dom_same d d'.
Proof.
  intros [Etx Ea En _ _ _ _ _]. split; [done|done|]. intros t.
  assert ((erase_held <$> txns d') !! t = (erase_held <$> txns d) !! t) as H by by rewrite Etx.
  rewrite !lookup_fmap in H.
  destruct (txns d !! t) as [s|], (txns d' !! t) as [s'|]; try done. cbn in *.
  apply (inj Some) in H. f_equal. unfold hist_part.
  pose proof (f_equal pinned H) as E1. pose proof (f_equal fresh_reads H) as E2.
  pose proof (f_equal undo_log H) as E3. cbn in *. congruence.
Qed.

Lemma dom_same_alter d f t : (forall s, hist_part (f s) = hist_part s) -> dom_same d (alter_txn f t d).
Proof.
  intros Hf. split; [done|done|]. intros t'. cbn.
  destruct (decide (t' = t)) as [->|]; [|by rewrite lookup_alter_ne].
  rewrite lookup_alter_eq. destruct (txns d !! t); [|done]. cbn. by rewrite Hf.
Qed.

Lemma dom_same_txn d d' t s' :
  dom_same d d' -> txns d' !! t = Some s' ->
  exists s, txns d !! t = Some s /\ hist_part s' = hist_part s.
Proof.
  intros H Hs'. pose proof (ds_txns _ _ H t) as Ht. rewrite Hs' in Ht.
  destruct (txns d !! t) as [s|]; [|done]. exists s. split; [done|]. by apply (inj Some) in Ht.
Qed.

Lemma has_view_part s s' view : hist_part s' = hist_part s -> has_view s' view -> has_view s view.
Proof.
  intros Heq [->|[n Hn]]; injection Heq as E1 E2 E3; [left; congruence|right; exists n; congruence].
Qed.

Lemma dom_same_views d d' t s' view :
  dom_same d d' -> txns d' !! t = Some s' -> has_view s' view ->
  exists s, txns d !! t = Some s /\ has_view s view.
Proof.
  intros H Hs' Hv. destruct (dom_same_txn _ _ _ _ H Hs') as (s & Hs & Heq).
  eauto using has_view_part.
Qed.

Lemma dom_same_is_Some d d' t : dom_same d d' -> is_Some (txns d' !! t) <-> is_Some (txns d !! t).
Proof.
  intros H. pose proof (ds_txns _ _ H t) as Ht.
  destruct (txns d !! t), (txns d' !! t); try done; by split; intros [??].
Qed.

Lemma hist_ok_dom d d' vs a pend : hist_ok d vs a pend -> dom_same d d' -> hist_ok d' vs a pend.
Proof.
  intros [H1 H2 H3 H4 H5] Hd. pose proof Hd as [En Ea Etx].
  split; rewrite ?En, ?Ea; try assumption.
  - intros k v o s' view Hv Hx Hs' Hview Hne Hsee.
    destruct (dom_same_txn _ _ _ _ Hd Hs') as (s & Hs & Heq). injection Heq as E1 E2 E3.
    eapply (H4 k v o s view); [done|done|done| |done|done].
    destruct Hview as [->|[n Hn]]; [left; congruence|right; exists n; congruence].
  - intros t k Ht. specialize (H5 t k Ht). unfold log_of in *.
    specialize (Etx t). destruct (txns d !! t) as [s|], (txns d' !! t) as [s'|]; try done.
    cbn in Etx. injection Etx as E1 E2 E3. by rewrite E1.
Qed.

(** ** Writing a row

    [t] replaces the versions of row [k] by [new] and logs [op]. *)
Lemma hist_write d vs t k new op f :
  hist_ok d vs t [] -> is_Some (txns d !! t) ->
  (forall s, undo_log (f s) = undo_log s ++ [op]) ->
  (forall s, pinned (f s) = pinned s /\ fresh_reads (f s) = fresh_reads s) ->
  op_key op = k ->
  (forall v, v ∈ new ->
    (1 <= xmin (u_meta v) < next_txn_id d)%Z /\
    (xmax (u_meta v) = NO_XMAX \/ (1 <= xmax (u_meta v) < next_txn_id d)%Z)) ->
  (forall v rest w, new = v :: rest -> w ∈ rest -> xmax (u_meta w) = NO_XMAX) ->
  (forall v, v ∈ new -> xmax (u_meta v) <> NO_XMAX ->
    xmin (u_meta v) = xmax (u_meta v) \/ xmin (u_meta v) ∉ active_txns d) ->
  (forall v o s view, v ∈ new -> xmax (u_meta v) <> NO_XMAX ->
    txns d !! o = Some s -> has_view s view -> o <> xmax (u_meta v) ->
    sees view (xmax (u_meta v)) = true -> sees view (xmin (u_meta v)) = true) ->
  row_undo t (op :: ops_on k (log_of d t [] t)) new ->
  (forall t', t' ∈ active_txns d -> t' <> t ->
    row_undo t' (ops_on k (log_of d t [] t')) new) ->
  hist_ok (alter_txn f t d) (<[k := new]> vs) t [].
Proof.
  intros [H1 H2 H3 H4 H5] Ht Hlog Hviews Hop N1 N2 N3 N4 N5 N6.
  split; cbn [next_txn_id active_txns alter_txn set_txns txns].
  - intros k' v. rewrite upd_at. case_decide; [apply N1|apply H1].
  - intros k' v rest w. rewrite upd_at. case_decide; [apply N2|apply H2].
  - intros k' v. rewrite upd_at. case_decide; [apply N3|apply H3].
  - intros k' v o s' view Hv Hx Ho Hview.
    assert (exists s, txns d !! o = Some s /\ has_view s view) as (s & Hs & Hv').
    { destruct (decide (o = t)) as [->|Hne].
      - rewrite lookup_alter_eq in Ho. destruct (txns d !! t) as [s|]; [|done].
        cbn in Ho. simplify_eq. exists s. split; [done|].
        destruct (Hviews s) as [E1 E2]. destruct Hview as [->|[n Hn]];
          [left; congruence|right; exists n; congruence].
      - rewrite lookup_alter_ne in Ho by done. eauto. }
    rewrite upd_at in Hv. case_decide; [by eapply N4|by eapply H4].
  - intros t' k' Ht'. rewrite (log_of_push d t op t' f Hlog Ht), ops_on_app, upd_at.
    destruct (decide (t' = t)) as [->|Ht2], (decide (k' = k)) as [->|Hk2]; subst.
    + rewrite ops_on_cons, decide_True by done. exact N5.
    + rewrite ops_on_cons, decide_False by congruence. by apply H5.
    + by apply N6.
    + by apply H5.
Qed.

(** ** The invariant *)

Record Inv (e : Engine) (vs : Versions) (ss : Slots) : Prop := {
  in_rep : rep e vs ss;
  in_dom : domain_ok (txd e);
  in_hist : hist_ok (txd e) vs 0 [];
  in_live : forall t, t ∈ active_txns (txd e) -> is_Some (txns (txd e) !! t);
  in_tables : forall tb t, tables e !! tb = Some t ->
    (0 <= next_row_id t <= U64_MAX)%Z /\
    forall r, is_Some (rows t !! r) -> (0 <= r < next_row_id t)%Z;
  in_healthy : fault e = None }.

Lemma log_of_nil d a b t : log_of d a [] t = log_of d b [] t.
Proof. unfold log_of. by repeat case_decide. Qed.

Lemma hist_ok_nil d vs a b : hist_ok d vs a [] -> hist_ok d vs b [].
Proof. intros [H1 H2 H3 H4 H5]. split; try assumption. intros t k Ht. rewrite (log_of_nil d b a). auto. Qed.

(** What the actor [a] leaves alone in the domain: everyone else's state. *)
Record others (a : Z) (d d' : TxnDomain) : Prop := {
  ot_next : next_txn_id d' = next_txn_id d;
  ot_active : forall x, x ∈ active_txns d' -> x ∈ active_txns d \/ (next_txn_id d <= x)%Z;
  ot_txns : forall o, o <> a -> (o < next_txn_id d)%Z -> txns d' !! o = txns d !! o;
  ot_views : forall t s' view, txns d' !! t = Some s' -> has_view s' view ->
    exists s, txns d !! t = Some s /\ has_view s view;
  ot_staged : staged d' = staged d }.

#[export] Instance others_refl a : Reflexive (others a).
Proof. intros d. split; [lia|auto|auto|eauto|done]. Qed.

#[export] Instance others_trans a : Transitive (others a).
Proof.
  intros d1 d2 d3 [A1 A2 A3 A4 A5] [B1 B2 B3 B4 B5]. split; [lia| | | |congruence].
  - intros x Hx. destruct (B2 x Hx) as [Hx'|]; [auto|right; lia].
  - intros o Ho Hlt. rewrite B3 by (done || lia). by apply A3.
  - intros t s3 view Hs Hv. destruct (B4 _ _ _ Hs Hv) as (s2 & H2 & V2). eauto.
Qed.

(** Steps that touch only the actor's own bookkeeping. *)
Record qstep (a : Z) (e e' : Engine) : Prop := {
  qs_tables : tables e' = tables e;
  qs_reclaim : reclaim e' = reclaim e;
  qs_fault : fault e' = fault e;
  qs_same : dom_same (txd e) (txd e');
  qs_dom : domain_ok (txd e');
  qs_others : others a (txd e) (txd e') }.

Definition quiet (a : Z) {A} (m : eng A) : Prop :=
  forall e r e', domain_ok (txd e) -> m e = (r, e') -> r <> Diverge /\ qstep a e e'.

#[export] Instance dom_same_refl : Reflexive dom_same.
Proof. by split. Qed.

#[export] Instance dom_same_trans : Transitive dom_same.
Proof. intros d1 d2 d3 [A1 A2 A3] [B1 B2 B3]. split; [congruence|congruence|]. intros t. by rewrite B3. Qed.

Lemma qstep_refl a e : domain_ok (txd e) -> qstep a e e.
Proof. intros H. by split. Qed.

Lemma qstep_trans a e1 e2 e3 : qstep a e1 e2 -> qstep a e2 e3 -> qstep a e1 e3.
Proof.
  intros [A1 A2 A3 A4 A5 A6] [B1 B2 B3 B4 B5 B6]. split; [congruence|congruence|congruence| |done|].
  - by transitivity (txd e2).
  - by transitivity (txd e2).
Qed.

Lemma quiet_ret a {A} (x : A) : quiet a (sret x).
Proof. intros e r e' Hd [= <- <-]. split; [done|by apply qstep_refl]. Qed.

Lemma quiet_fail a {A} err : quiet a (sfail err : eng A).
Proof. intros e r e' Hd [= <- <-]. split; [done|by apply qstep_refl]. Qed.

Lemma quiet_bind a {A B} (m : eng A) (k : A -> eng B) :
  quiet a m -> (forall x, quiet a (k x)) -> quiet a (sbind m k).
Proof.
  intros Hm Hk e r e' Hd. unfold sbind. destruct (m e) as [r1 e1] eqn:E1.
  destruct (Hm _ _ _ Hd E1) as [Hr1 Hq1].
  destruct r1; [|by intros [= <- <-]..]. intros E2.
  destruct (Hk _ _ _ _ (qs_dom _ _ _ Hq1) E2) as [Hr2 Hq2]. split; [done|by eapply qstep_trans].
Qed.

Lemma quiet_healthy a : quiet a ensure_healthy.
Proof.
  intros e r e' Hd. unfold ensure_healthy.
  destruct (fault e); intros [= <- <-]; (split; [done|by apply qstep_refl]).
Qed.

Lemma quiet_get_table a table : quiet a (get_table table).
Proof.
  intros e r e' Hd. unfold get_table.
  destruct (tables e !! table); intros [= <- <-]; (split; [done|by apply qstep_refl]).
Qed.

Lemma others_lock a d d' :
  lock_step d d' -> (forall o, o <> a -> txns d' !! o = txns d !! o) -> others a d d'.
Proof.
  intros Hl Ho. pose proof (dom_same_lock _ _ Hl) as Hds. destruct Hl as [_ Ea En Es _ _ _ _].
  split; [lia|rewrite Ea; auto|auto| |done]. intros t s' view. by apply dom_same_views.
Qed.

Lemma acquire_others d txn id ex r d' o :
  acquire_lock txn id ex d = (r, d') -> o <> txn -> txns d' !! o = txns d !! o.
Proof.
  intros H Ho. unfold acquire_lock in H.
  destruct (decide (is_Some (txns d !! txn))); [|by simplify_eq].
  destruct (holders_of d id !! txn) as [b|].
  - destruct (b || negb ex); [by simplify_eq|]. case_decide; by simplify_eq.
  - destruct (negb _); simplify_eq; [done|]. cbn. by rewrite lookup_alter_ne.
Qed.

Lemma quiet_acquire txn id ex : quiet txn (on_txns (acquire_lock txn id ex)).
Proof.
  intros e r e' Hd. unfold on_txns.
  destruct (acquire_lock txn id ex (txd e)) as [r1 d1] eqn:E1. intros [= <- <-].
  destruct (domain_ok_acquire _ _ _ _ _ _ Hd E1) as [Hd1 Hs]. split.
  - destruct (acquire_cases _ _ _ _ _ _ (do_locks _ Hd) E1) as [->|[_ [[-> _]|[-> _]]]]; done.
  - split; cbn; try done; [by apply dom_same_lock|].
    apply others_lock; [done|]. intros o Ho. by eapply acquire_others.
Qed.

Lemma on_txns_bind {A B} (m : M Error TxnDomain A) (k : A -> M Error TxnDomain B) e :
  on_txns (sbind m k) e = sbind (on_txns m) (fun x => on_txns (k x)) e.
Proof. unfold on_txns, sbind. destruct (m (txd e)) as [[] d]; try done. Qed.

Lemma quiet_on_bind a {A B} (m : M Error TxnDomain A) (k : A -> M Error TxnDomain B) :
  quiet a (on_txns m) -> (forall x, quiet a (on_txns (k x))) -> quiet a (on_txns (sbind m k)).
Proof.
  intros Hm Hk e r e' Hd. rewrite on_txns_bind. by apply (quiet_bind a (on_txns m)).
Qed.

Lemma set_txd_same e : set_txd (txd e) e = e.
Proof. by destruct e. Qed.

Lemma quiet_query a {A} (f : TxnDomain -> result A) :
  (forall d, f d <> Diverge) -> quiet a (on_txns (fun d => (f d, d))).
Proof.
  intros Hf e r e' Hd [= <- <-]. rewrite set_txd_same. split; [apply Hf|by apply qstep_refl].
Qed.

Lemma quiet_require a txn : quiet a (on_txns (require_txn txn)).
Proof.
  intros e r e' Hd. unfold on_txns, require_txn.
  case_decide; intros [= <- <-]; rewrite set_txd_same; (split; [done|by apply qstep_refl]).
Qed.

Lemma quiet_lock_for_write txn table tid : quiet txn (on_txns (lock_for_write txn table tid)).
Proof.
  apply quiet_on_bind; [apply quiet_require|]. intros _.
  apply quiet_on_bind; [apply quiet_acquire|]. intros _. apply quiet_acquire.
Qed.

Lemma quiet_alter a f :
  (forall s, hist_part (f s) = hist_part s) -> (forall s, held (f s) = held s) ->
  (forall s, savepoints (f s) = savepoints s) ->
  quiet a (fun e => (Ok tt, set_txd (alter_txn f a (txd e)) e)).
Proof.
  intros H1 H2 H3 e r e' Hd [= <- <-]. split; [done|]. split; cbn; try done.
  - by apply dom_same_alter.
  - apply domain_ok_alter; [done|]. intros s Hs [T1 T2 T3 T4]. split; [|done].
    specialize (H1 s). unfold hist_part in H1. injection H1 as E1 E2 E3.
    split; rewrite ?E1, ?E2, ?E3, ?H3; assumption.
  - split; cbn; [lia|auto| | |done].
    + intros o Ho _. by rewrite lookup_alter_ne.
    + intros t s' view. by apply (dom_same_views _ (alter_txn f a (txd e))), dom_same_alter.
Qed.

Lemma quiet_charge lim txn n : quiet txn (BtreeEngine.charge_txn_memory lim txn n).
Proof.
  intros e r e' Hd. unfold BtreeEngine.charge_txn_memory.
  destruct lim as [limit|]; [|intros [= <- <-]; split; [done|by apply qstep_refl]].
  destruct (txns (txd e) !! txn) as [s|]; [|intros [= <- <-]; split; [done|by apply qstep_refl]].
  destruct (limit <? _)%Z; [intros [= <- <-]; split; [done|by apply qstep_refl]|].
  intros E. eapply (quiet_alter txn (set_write_bytes _)); [done|done|done|done|exact E].
Qed.

Lemma quiet_resident a lim pb err n : quiet a (BtreeEngine.check_resident_memory lim pb err n).
Proof.
  intros e r e' Hd. unfold BtreeEngine.check_resident_memory.
  destruct lim; [destruct (_ || _)|]; intros [= <- <-]; (split; [done|by apply qstep_refl]).
Qed.

Lemma quiet_check_tuple a tuple : quiet a (BtreeEngine.check_tuple tuple).
Proof. unfold BtreeEngine.check_tuple. destruct (_ <? _)%Z; [apply quiet_fail|apply quiet_ret]. Qed.

Create HintDb quiet.
#[export] Hint Resolve quiet_ret quiet_fail quiet_healthy quiet_get_table quiet_acquire
  quiet_require quiet_lock_for_write quiet_charge quiet_resident quiet_check_tuple : quiet.

Lemma Inv_qstep a e e' vs ss : Inv e vs ss -> qstep a e e' -> Inv e' vs ss.
Proof.
  intros [[Hr Hu] Hd Hh Hl Ht Hf] [Q1 Q2 Q3 Q4 Q5 Q6]. split.
  - split; [|by rewrite Q2]. intros k. unfold row_at. rewrite Q1, Q2. apply Hr.
  - done.
  - by eapply hist_ok_dom.
  - intros t Hin. rewrite (ds_active _ _ Q4) in Hin. apply (dom_same_is_Some _ _ t Q4). auto.
  - by rewrite Q1.
  - congruence.
Qed.

(** ** Outcomes

    [outcome a e vs m Q]: run from a state that stands for [vs], [m] either
    panics (an exhausted counter) or ends in a state that again satisfies the
    invariant, that readers who cannot see [a] cannot tell from the first, and,
    if [m] returned a value, that satisfies [Q]. A refused call changes no row,
    unless it ended [a] and erased what [a] wrote. *)
Definition no_stamps (vs : Versions) (t : Z) : Prop :=
  forall k v, v ∈ vs k -> xmin (u_meta v) <> t /\ xmax (u_meta v) <> t.

Definition gone (a : Z) (d : TxnDomain) (vs : Versions) : Prop :=
  a ∉ active_txns d /\ no_stamps vs a.

Definition outcome (a : Z) (e : Engine) (vs : Versions) {A} (m : eng A)
    (Q : A -> Engine -> Versions -> Prop) : Prop :=
  match m e with
  | (Panic, _) => True
  | (Diverge, _) => False
  | (Err _, e') => exists vs' ss',
      Inv e' vs' ss' /\ stable a vs vs' /\ others a (txd e) (txd e') /\
      (vs' = vs /\ active_txns (txd e') = active_txns (txd e) \/ gone a (txd e') vs')
  | (Ok x, e') => exists vs' ss',
      Inv e' vs' ss' /\ stable a vs vs' /\ others a (txd e) (txd e') /\ Q x e' vs'
  end.

Lemma outcome_quiet a e vs ss {A B} (m : eng A) (k : A -> eng B) Q :
  quiet a m -> Inv e vs ss ->
  (forall x e', m e = (Ok x, e') -> qstep a e e' -> Inv e' vs ss -> outcome a e' vs (k x) Q) ->
  outcome a e vs (sbind m k) Q.
Proof.
  intros Hm Hinv Hk. unfold outcome, sbind. destruct (m e) as [r1 e1] eqn:E1.
  destruct (Hm _ _ _ (in_dom _ _ _ Hinv) E1) as [Hr1 Hq1].
  pose proof (Inv_qstep _ _ _ _ _ Hinv Hq1) as Hinv1.
  destruct r1 as [x|err| |];
    [|by exists vs, ss; split_and!; [..|apply Hq1|left; split; [|apply Hq1]]|done|done].
  specialize (Hk x e1 eq_refl Hq1 Hinv1). unfold outcome in Hk.
  pose proof (qs_others _ _ _ Hq1) as Ho1.
  destruct (k x e1) as [[y|err| |] e2]; try done.
  - destruct Hk as (vs' & ss' & ? & ? & ? & ?). exists vs', ss'.
    split_and!; [done|done|by etransitivity|done].
  - destruct Hk as (vs' & ss' & ? & ? & ? & Hk). exists vs', ss'.
    split_and!; [done|done|by etransitivity|]. destruct Hk as [[-> Ea]|?]; [left|by right].
    by rewrite Ea, (ds_active _ _ (qs_same _ _ _ Hq1)).
Qed.

(** Rewriting the header of an encoded row. *)
Lemma take_meta m tuple : take META (encode_row m tuple) = encode_row m [].
Proof.
  unfold encode_row. rewrite !app_assoc, app_nil_r. apply take_app_length'. len.
Qed.

Lemma splice_meta m m' tuple : splice (encode_row m tuple) 0 (encode_row m' []) = encode_row m' tuple.
Proof.
  unfold splice. rewrite length_encode_row, take_0, app_nil_l.
  unfold encode_row. rewrite (app_assoc (le_bytes 8 (xmin m))), (app_assoc (_ ++ _)).
  rewrite drop_app_length' by len. by rewrite app_nil_r, <- !app_assoc.
Qed.

Lemma update_prefix_meta row_id m m' tuple (t : gmap Z bytes) :
  t !! row_id = Some (encode_row m tuple) ->
  tree_update_prefix row_id (encode_row m' []) t = Ok (<[row_id := encode_row m' tuple]> t).
Proof.
  intros H. unfold tree_update_prefix. rewrite H, decide_True, splice_meta; [done|].
  rewrite !length_encode_row. cbn. lia.
Qed.

(** ** Row writes *)

Lemma domain_ok_push d txn op :
  domain_ok d -> domain_ok (alter_txn (set_undo_log (fun l => l ++ [op])) txn d).
Proof.
  intros Hd. apply domain_ok_alter; [done|]. intros s _ [T1 T2 T3 T4]. split; [|done].
  split; cbn; try assumption. eapply Forall_impl; [exact T3|].
  intros p Hp. cbn in *. rewrite length_app. lia.
Qed.

Lemma others_alter a f d :
  (forall s, pinned (f s) = pinned s /\ fresh_reads (f s) = fresh_reads s) ->
  others a d (alter_txn f a d).
Proof.
  intros Hf. split; cbn; [lia|auto| | |done].
  - intros o Ho _. by rewrite lookup_alter_ne.
  - intros t s' view Ht Hv. destruct (decide (t = a)) as [->|].
    + rewrite lookup_alter_eq in Ht. destruct (txns d !! a) as [s|]; [|done].
      cbn in Ht. simplify_eq. exists s. split; [done|]. destruct (Hf s) as [E1 E2].
      destruct Hv as [->|[n Hn]]; [left; congruence|right; exists n; congruence].
    + rewrite lookup_alter_ne in Ht by done. eauto.
Qed.

Lemma row_at_put e tb t m nx k :
  tables e !! tb = Some t ->
  row_at (set_tables <[tb := MkTable m nx]> e) k = if decide (k.1 = tb) then m !! k.2 else row_at e k.
Proof.
  intros Ht. unfold row_at. cbn. case_decide as Hk; subst.
  - by rewrite lookup_insert_eq.
  - by rewrite lookup_insert_ne.
Qed.

Lemma on_rows_ok e tb t f m :
  tables e !! tb = Some t -> f (rows t) = Ok m ->
  on_rows tb f e = (Ok tt, set_tables <[tb := MkTable m (next_row_id t)]> e).
Proof. intros Ht Hf. unfold on_rows, sbind, get_table. rewrite Ht. cbn. by rewrite Hf. Qed.

Definition tables_ok (e : Engine) : Prop :=
  forall tb t, tables e !! tb = Some t ->
    (0 <= next_row_id t <= U64_MAX)%Z /\
    forall r, is_Some (rows t !! r) -> (0 <= r < next_row_id t)%Z.

Lemma tables_ok_put e tb t m :
  tables_ok e -> tables e !! tb = Some t ->
  (forall r, is_Some (m !! r) -> is_Some (rows t !! r)) ->
  tables_ok (set_tables <[tb := MkTable m (next_row_id t)]> e).
Proof.
  intros Hok Ht Hm tb' t'. cbn. destruct (decide (tb' = tb)) as [->|].
  - rewrite lookup_insert_eq. intros [= <-]. cbn. destruct (Hok _ _ Ht). eauto.
  - rewrite lookup_insert_ne by done. apply Hok.
Qed.

(** The state after a row of [k] was rewritten and the write logged. *)
Lemma Inv_write e e1 vs ss vs' ss' txn op :
  Inv e vs ss -> rep e1 vs' ss' -> txd e1 = txd e -> fault e1 = fault e ->
  tables_ok e1 ->
  hist_ok (alter_txn (set_undo_log (fun l => l ++ [op])) txn (txd e)) vs' txn [] ->
  let e2 := set_txd (alter_txn (set_undo_log (fun l => l ++ [op])) txn (txd e1)) e1 in
  push_undo txn op e1 = (Ok tt, e2) /\ Inv e2 vs' ss' /\ others txn (txd e) (txd e2).
Proof.
  intros [_ Hd _ Hl _ Hf] [Hr Hu] Ed Ef Ht Hh e2.
  assert (push_undo txn op e1 = (Ok tt, e2)) as Hpush.
  { unfold push_undo, sbind, ensure_healthy. by rewrite Ef, Hf. }
  split; [done|]. unfold e2. rewrite Ed. split; [split; cbn|cbn; by apply others_alter].
  - split; [exact Hr|exact Hu].
  - by apply domain_ok_push.
  - by eapply hist_ok_nil.
  - intros t Hin. apply Hl in Hin as [s Hs].
    destruct (decide (t = txn)) as [->|]; [rewrite lookup_alter_eq, Hs; eauto|].
    rewrite lookup_alter_ne by done. eauto.
  - exact Ht.
  - congruence.
Qed.

Lemma admit_ok d txn s m tid :
  txns d !! txn = Some s -> admit_write d txn m tid = Ok tt ->
  xmax m = NO_XMAX /\ sees (pinned s) (xmin m) = true /\
  (xmin m = txn \/ xmin m ∉ active_txns d).
Proof.
  intros Hs. unfold admit_write. rewrite Hs.
  destruct (negb (xmin m =? txn)%Z && _) eqn:Ha; [done|].
  destruct (Z.eqb_spec (xmax m) NO_XMAX) as [Hx|]; cbn; [|by destruct (_ || _)].
  destruct (sees (pinned s) (xmin m)); [|done]. intros _. split_and!; [done|done|].
  destruct (Z.eqb_spec (xmin m) txn); [by left|right]. cbn in Ha. by apply bool_decide_eq_false in Ha.
Qed.

(** Other active transactions have nothing on a row that [t] may write. *)
Lemma other_ops_nil d vs a t k v rest :
  hist_ok d vs a [] -> domain_ok d -> vs k = v :: rest ->
  xmax (u_meta v) = NO_XMAX -> (xmin (u_meta v) = t \/ xmin (u_meta v) ∉ active_txns d) ->
  forall t', t' ∈ active_txns d -> t' <> t ->
  ops_on k (log_of d a [] t') = [] /\ row_undo t' [] (v :: rest).
Proof.
  intros Hh Hd Hk Hx Hm t' Ht' Hne.
  pose proof (ho_undo _ _ _ _ Hh t' k Ht') as Hru. rewrite Hk in Hru.
  pose proof (do_ids _ Hd t' Ht') as Hid.
  assert (ops_on k (log_of d a [] t') = []) as Hnil.
  { apply (row_undo_untouched t' _ v rest Hru); [unfold NO_XMAX; lia| |].
    - intros E. destruct Hm as [Hm|Hm]; [congruence|]. by rewrite E in Hm.
    - rewrite Hx. unfold NO_XMAX. lia. }
  by rewrite Hnil in Hru.
Qed.
