(* ===== verification/EngineOps.v ===== *)
(** * The row engine: each operation keeps the invariant

    For every public operation, an [outcome] lemma: the invariant again, what
    other readers see unchanged, and the operation's effect on the version
    lists. *)

From S2P Require Import Prelude Core Mvcc Txn Engine EngineInv.
From stdpp Require Import base gmap list sets functions sorting.
From Stdlib Require Import ZArith Lia Strings.Byte.

Import BtreeEngine.

Section Writes.
Context (wl rl : option Z) (pb : Engine -> Z) (re : Z -> Z -> Error).
Context (e : Engine) (vs : Versions) (ss : Slots) (Hinv : Inv e vs ss).
Context (txn table : Z) (t : TableState) (s : TxnState).
Context (Ht : tables e !! table = Some t) (Hs : txns (txd e) !! txn = Some s).

Lemma txn_active : txn ∈ active_txns (txd e).
Proof using Hinv Hs. apply (do_active _ (in_dom _ _ _ Hinv)). eauto. Qed.

Lemma txn_range : (1 <= txn < next_txn_id (txd e))%Z /\ u64 txn.
Proof using Hinv Hs.
  pose proof (do_ids _ (in_dom _ _ _ Hinv) _ txn_active) as H.
  pose proof (do_next _ (in_dom _ _ _ Hinv)) as Hn. unfold u64, U64_MAX in *. lia.
Qed.

Lemma resolve_skip view v rest :
  sees view (xmin (u_meta v)) = false -> resolve view (v :: rest) = resolve view rest.
Proof using. clear. intros H. cbn. by rewrite H. Qed.

(** Inserting under the next row id. *)
Lemma insert_core tuple :
  outcome txn e vs
    (let* row_id := mint_row_id table in
     let value := encode_row (fresh_meta txn) tuple in
     let* _ := guarded (on_rows table (tree_insert row_id value)) in
     let* _ := push_undo txn (Inserted table row_id) in
     sret (tid_of row_id))
    (fun tid e' vs' =>
       tid = tid_of (next_row_id t) /\
       vs' = <[(table, next_row_id t) := [MkUndo (fresh_meta txn) tuple]]> vs /\
       active_txns (txd e') = active_txns (txd e)).
Proof using Hinv Ht Hs.
  destruct (in_tables _ _ _ Hinv _ _ Ht) as [Hnx Hrows].
  unfold outcome, mint_row_id.
  set (id := next_row_id t). set (v := MkUndo (fresh_meta txn) tuple). set (k := (table, id)).
  unfold sbind at 1 2. unfold get_table. rewrite Ht. fold id.
  case_decide as Hov; [|done].
  unfold sbind at 1. cbn [put_table sret].
  set (e1 := set_tables <[table := MkTable (rows t) (id + 1)]> e).
  assert (rows t !! id = None) as Hnone.
  { destruct (rows t !! id) eqn:E; [|done]. specialize (Hrows id ltac:(eauto)). lia. }
  assert (tables e1 !! table = Some (MkTable (rows t) (id + 1))) as Ht1 by by cbn; rewrite lookup_insert_eq.
  unfold sbind at 1. unfold guarded at 1.
  erewrite on_rows_ok; [|exact Ht1|cbn; unfold tree_insert; by rewrite Hnone]. cbn [next_row_id].
  set (e2 := set_tables _ e1).
  assert (forall k', row_at e2 k' = if decide (k' = k) then Some (encode_row (fresh_meta txn) tuple)
                                    else row_at e k') as Hrow.
  { intros [tb r]. unfold e2. rewrite (row_at_put _ _ _ _ _ _ Ht1). cbn [fst snd].
    unfold e1, row_at. cbn. destruct (decide (tb = table)) as [->|].
    - rewrite Ht. destruct (decide (r = id)) as [->|].
      + by rewrite lookup_insert_eq, decide_True.
      + rewrite lookup_insert_ne, decide_False by (unfold k; congruence). done.
    - rewrite lookup_insert_ne, decide_False by (unfold k; congruence). done. }
  assert (vs k = []) as Hvk.
  { pose proof (rp_rows _ _ _ (in_rep _ _ _ Hinv) k) as H. unfold row_at in H. cbn in H.
    rewrite Ht, Hnone in H. apply H. }
  assert (rep e2 (<[k := [v]]> vs) (<[k := []]> ss)) as Hrep.
  { apply (rep_set_row e); [apply Hinv|done| | | | | |].
    - by rewrite Hrow, decide_True.
    - intros k' Hne. by rewrite Hrow, decide_False.
    - unfold meta_ok. cbn. destruct txn_range as [_ Hu]. unfold u64, NO_XMAX, NO_UNDO, U64_MAX in *. lia.
    - constructor.
    - intros i k' Hi. by apply elem_of_nil in Hi.
    - intros i _. apply not_elem_of_nil. }
  assert (forall t', t' ∈ active_txns (txd e) -> ops_on k (log_of (txd e) txn [] t') = []) as Hnil.
  { intros t' Ht'. apply (row_undo_absent t'). rewrite <- Hvk, (log_of_nil _ txn 0).
    by apply (ho_undo _ _ _ _ (in_hist _ _ _ Hinv)). }
  assert (tables_ok e2) as Htok.
  { intros tb t'. cbn. rewrite insert_insert_eq. destruct (decide (tb = table)) as [->|].
    - rewrite lookup_insert_eq. intros [= <-]. cbn. split; [lia|]. intros r.
      destruct (decide (r = id)) as [->|]; [lia|]. rewrite lookup_insert_ne by done.
      intros Hr%Hrows. fold id in Hr. lia.
    - rewrite lookup_insert_ne by done. apply (in_tables _ _ _ Hinv). }
  assert (hist_ok (alter_txn (set_undo_log (fun l => l ++ [Inserted table id])) txn (txd e))
            (<[k := [v]]> vs) txn []) as Hh.
  { pose proof txn_range as [Hrg _].
    apply (hist_write _ _ _ _ _ (Inserted table id)); try done.
    - apply (hist_ok_nil _ _ 0), Hinv.
    - intros w ->%list_elem_of_singleton. cbn. auto.
    - intros w rest' x [= <- <-] Hx. by apply elem_of_nil in Hx.
    - intros w ->%list_elem_of_singleton. done.
    - intros w o s' view ->%list_elem_of_singleton. done.
    - rewrite Hnil by apply txn_active. by constructor.
    - intros t' Ht' Hne. rewrite Hnil by done. constructor.
      intros w ->%list_elem_of_singleton. cbn. split; [congruence|].
      pose proof (do_ids _ (in_dom _ _ _ Hinv) _ Ht'). unfold NO_XMAX. lia. }
  destruct (Inv_write e e2 vs ss _ _ txn (Inserted table id) Hinv Hrep eq_refl eq_refl Htok Hh)
    as (Hp & Hinv' & Hoth).
  unfold sbind at 1. rewrite Hp. cbn [sret].
  eexists _, _. split_and!; [exact Hinv'| |exact Hoth|done|done|done].
  apply stable_upd. intros view Hsee. rewrite Hvk. by rewrite resolve_skip.
Qed.

Section Existing.
Context (row_id : Z) (value : bytes) (m : RowMeta) (old_tuple : bytes).
Context (Hv : rows t !! row_id = Some value) (Hdec : decode_row value = Some (m, old_tuple)).

Let k : Key := (table, row_id).
Let w : UndoVersion := MkUndo m old_tuple.

Lemma row_versions :
  exists rest, vs k = w :: rest /\ value = encode_row m old_tuple /\ meta_ok m /\
    chain (arena (reclaim e)) (undo m) (ss k) rest.
Proof using Hinv Ht Hv Hdec.
  pose proof (rp_rows _ _ _ (in_rep _ _ _ Hinv) k) as H. unfold row_at in H. cbn in H.
  rewrite Ht, Hv in H. destruct H as (v & rest & Hk & -> & Hm & Hc).
  rewrite decode_encode_row in Hdec by done. injection Hdec as E1 E2. subst m old_tuple.
  exists rest. split_and!; [|done|done|done]. by destruct v.
Qed.

Lemma row_at_rewritten e1 v' k' :
  tables e1 = tables e ->
  row_at (set_tables <[table := MkTable (<[row_id := v']> (rows t)) (next_row_id t)]> e1) k' =
  if decide (k' = k) then Some v' else row_at e k'.
Proof using Ht.
  intros Et. rewrite (row_at_put _ _ t) by by rewrite Et. destruct k' as [tb r]. cbn [fst snd].
  unfold row_at. rewrite Et. cbn [fst snd]. destruct (decide (tb = table)) as [->|].
  - rewrite Ht. destruct (decide (r = row_id)) as [->|].
    + by rewrite lookup_insert_eq, decide_True.
    + rewrite lookup_insert_ne, decide_False by (unfold k; congruence). done.
  - by rewrite decide_False by (unfold k; congruence).
Qed.

Lemma tables_ok_rewritten e1 v' :
  tables e1 = tables e ->
  tables_ok (set_tables <[table := MkTable (<[row_id := v']> (rows t)) (next_row_id t)]> e1).
Proof using Hinv Ht Hv.
  intros Et. apply tables_ok_put; [|by rewrite Et|].
  - intros tb t'. rewrite Et. apply (in_tables _ _ _ Hinv).
  - intros r. destruct (decide (r = row_id)) as [->|]; [eauto|]. by rewrite lookup_insert_ne.
Qed.

Context (tid : Tid) (Hadm : admit_write (txd e) txn m tid = Ok tt).

(** The versions below a new one keep what they had. *)
Lemma hist_update v op rest :
  vs k = w :: rest -> op_key op = k ->
  xmin (u_meta v) = txn -> xmax (u_meta v) = NO_XMAX ->
  row_undo txn (op :: ops_on k (log_of (txd e) txn [] txn)) (v :: w :: rest) ->
  hist_ok (alter_txn (set_undo_log (fun l => l ++ [op])) txn (txd e)) (<[k := v :: w :: rest]> vs) txn [].
Proof using Hinv Hs Hadm.
  intros Hk Hop Hx1 Hx2 Hru.
  destruct (admit_ok _ _ _ _ _ Hs Hadm) as (Hmx & _ & Hmin).
  pose proof (hist_ok_nil _ _ 0 txn (in_hist _ _ _ Hinv)) as Hh.
  pose proof txn_range as [Hrg _].
  assert (forall x, x ∈ w :: rest -> x ∈ vs k) as Hin by by rewrite Hk.
  apply (hist_write _ _ _ _ _ op); try done.
  - intros x [->|Hx]%elem_of_cons; [rewrite Hx1, Hx2; auto|].
    apply (ho_stamps _ _ _ _ Hh k). auto.
  - intros x rest' y [= <- <-] [->|Hy]%elem_of_cons; [done|]. by apply (ho_tail _ _ _ _ Hh k w rest).
  - intros x [->|Hx]%elem_of_cons Hne; [done|]. apply (ho_deleted _ _ _ _ Hh k); auto.
  - intros x o s' view [->|Hx]%elem_of_cons Hne; [done|]. apply (ho_views _ _ _ _ Hh k); auto.
  - intros t' Ht' Hne.
    destruct (other_ops_nil _ _ txn txn k w rest Hh (in_dom _ _ _ Hinv) Hk Hmx Hmin t' Ht' Hne)
      as [-> Hru']. apply row_undo_nil_cons; [done|congruence|].
    rewrite Hx2. pose proof (do_ids _ (in_dom _ _ _ Hinv) _ Ht'). unfold NO_XMAX. lia.
Qed.

Lemma update_core tuple :
  outcome txn e vs
    (let* undo_idx := park (MkUndo m old_tuple) in
     let new_value := encode_row (MkMeta txn NO_XMAX undo_idx) tuple in
     let* _ := guarded (on_rows table (tree_update row_id new_value)) in
     let* _ := push_undo txn (Updated table row_id value undo_idx) in
     sret tid)
    (fun tid' e' vs' => tid' = tid /\ active_txns (txd e') = active_txns (txd e) /\
       exists i, vs' = <[k := MkUndo (MkMeta txn NO_XMAX i) tuple :: vs k]> vs).
Proof using Hinv Ht Hs Hv Hdec Hadm.
  destruct row_versions as (rest & Hk & Hval & Hm & Hc).
  unfold outcome. unfold sbind at 1. destruct (park (MkUndo m old_tuple) e) as [r e1] eqn:Hpark.
  destruct (park_rep _ _ _ _ _ _ (in_rep _ _ _ Hinv) Hpark)
    as [->|(i & -> & Hrep1 & [P1 P2 P3 P4 P5] & Hrow1 & Et & Ed & Ef)]; [done|].
  unfold sbind at 1. unfold guarded at 1.
  rewrite (on_rows_ok e1 table t _
             (<[row_id := encode_row (MkMeta txn NO_XMAX i) tuple]> (rows t)));
    [|by rewrite Et|unfold tree_update; by rewrite Hv].
  set (v := MkUndo (MkMeta txn NO_XMAX i) tuple). set (e2 := set_tables _ e1).
  pose proof (rp_rows _ _ _ Hrep1 k) as Hc1.
  assert (row_at e1 k = Some value) as Hat by (unfold row_at; cbn; by rewrite Et, Ht).
  rewrite Hat, Hk in Hc1. destruct Hc1 as (w' & rest' & [= <- <-] & _ & _ & Hc1).
  assert (rep e2 (<[k := v :: w :: rest]> vs) (<[k := Z.to_nat i :: ss k]> ss)) as Hrep2.
  { apply (rep_set_row e1); [done|done| | | | | |].
    - unfold e2. rewrite row_at_rewritten, decide_True by done. done.
    - intros k' Hne. unfold e2. rewrite row_at_rewritten, decide_False by done. by rewrite Hrow1.
    - unfold meta_ok. cbn. destruct txn_range as [_ Hu].
      unfold u64, NO_XMAX, U64_MAX, VEC_MAX in *. lia.
    - cbn. econstructor; [unfold NO_UNDO, U64_MAX, VEC_MAX in *; lia|lia|done|done].
    - intros j k' [->|Hj]%elem_of_cons Hne; [apply P3|]. intros Hj'.
      by apply Hne, (ur_disj _ _ (rp_undo _ _ _ Hrep1) _ _ j).
    - intros j Hj. apply not_elem_of_cons.
      destruct (ur_orphans _ _ (rp_undo _ _ _ Hrep1) j Hj) as (Hrj & _ & Hno).
      split; [|done]. apply to_nat_ne; [lia|lia|congruence]. }
  destruct (Inv_write e e2 vs ss _ _ txn (Updated table row_id value i) Hinv Hrep2 Ed Ef)
    as (Hp & Hinv' & Hoth).
  { by apply tables_ok_rewritten. }
  { apply hist_update; [done|done|done|done|]. constructor; [done|done|done|done|done|].
    rewrite <- Hk, (log_of_nil _ txn 0). apply (ho_undo _ _ _ _ (in_hist _ _ _ Hinv)), txn_active. }
  unfold sbind at 1. rewrite Hp. cbn [sret].
  eexists _, _. split_and!; [exact Hinv'| |exact Hoth|done|by cbn; rewrite Ed|].
  - apply stable_upd. intros view Hsee. rewrite Hk. by rewrite resolve_skip.
  - exists i. by rewrite Hk.
Qed.
Lemma set_xmax_undo v : xmax (u_meta v) = NO_XMAX -> set_xmax NO_XMAX (set_xmax txn v) = v.
Proof using. clear. intros H. destruct v as [[x y z] tu]. cbn in *. by subst. Qed.

Lemma hist_delete rest :
  vs k = w :: rest ->
  hist_ok (alter_txn (set_undo_log (fun l => l ++ [Deleted table row_id value])) txn (txd e))
    (<[k := set_xmax txn w :: rest]> vs) txn [].
Proof using Hinv Hs Hadm Hdec.
  intros Hk. destruct (admit_ok _ _ _ _ _ Hs Hadm) as (Hmx & _ & Hmin).
  pose proof (hist_ok_nil _ _ 0 txn (in_hist _ _ _ Hinv)) as Hh.
  pose proof txn_range as [Hrg _].
  assert (w ∈ vs k) as Hw by (rewrite Hk; left).
  assert (forall x, x ∈ rest -> x ∈ vs k) as Hin by (intros x Hx; rewrite Hk; by right).
  apply (hist_write _ _ _ _ _ (Deleted table row_id value)); try done.
  - intros x [->|Hx]%elem_of_cons; [|apply (ho_stamps _ _ _ _ Hh k); auto].
    cbn. split; [apply (ho_stamps _ _ _ _ Hh k w Hw)|auto].
  - intros x rest' y [= <- <-]. by apply (ho_tail _ _ _ _ Hh k w).
  - intros x [->|Hx]%elem_of_cons Hne; [|apply (ho_deleted _ _ _ _ Hh k); auto].
    cbn. destruct Hmin; auto.
  - intros x o s' view [->|Hx]%elem_of_cons Hne Ho Hview Hneq Hsee;
      [|apply (ho_views _ _ _ _ Hh k x o s' view); auto].
    cbn in Hneq, Hsee. exfalso.
    destruct (do_txns _ (in_dom _ _ _ Hinv) _ _ Ho) as [V1 V2 _ _].
    assert (view_ok (txd e) o view) as Hvok by (destruct Hview as [->|[n Hn]]; eauto).
    destruct (view_ok_sees _ _ _ _ Hvok Hsee) as [->|[_ Hna]]; [done|]. by apply Hna, txn_active.
  - econstructor; [done|done|done|]. rewrite set_xmax_undo by done.
    rewrite <- Hk. apply (ho_undo _ _ _ _ Hh), txn_active.
  - intros t' Ht' Hne.
    destruct (other_ops_nil _ _ txn txn k w rest Hh (in_dom _ _ _ Hinv) Hk Hmx Hmin t' Ht' Hne)
      as [-> Hru']. inversion Hru' as [? Hn| | |]; subst. constructor.
    intros x [->|Hx]%elem_of_cons; [|apply Hn; by right]. cbn.
    split; [apply (Hn w); left|congruence].
Qed.

Lemma delete_core :
  outcome txn e vs
    (let header := take META (encode_row (MkMeta (xmin m) txn (undo m)) old_tuple) in
     let* _ := guarded (on_rows table (tree_update_prefix row_id header)) in
     push_undo txn (Deleted table row_id value))
    (fun _ e' vs' => active_txns (txd e') = active_txns (txd e) /\
       exists rest, vs k = w :: rest /\ vs' = <[k := set_xmax txn w :: rest]> vs).
Proof using Hinv Ht Hs Hv Hdec Hadm.
  destruct row_versions as (rest & Hk & Hval & Hm & Hc).
  destruct (admit_ok _ _ _ _ _ Hs Hadm) as (Hmx & _ & _).
  unfold outcome. rewrite take_meta. unfold sbind at 1. unfold guarded at 1.
  rewrite (on_rows_ok e table t _ (<[row_id := encode_row (u_meta (set_xmax txn w)) old_tuple]> (rows t)));
    [|done|apply (update_prefix_meta _ m); congruence].
  set (e2 := set_tables _ e).
  assert (rep e2 (<[k := set_xmax txn w :: rest]> vs) (<[k := ss k]> ss)) as Hrep2.
  { apply (rep_set_row e); [apply Hinv|done| | | |exact Hc| |].
    - unfold e2. rewrite row_at_rewritten, decide_True by done. done.
    - intros k' Hne. unfold e2. rewrite row_at_rewritten, decide_False by done. done.
    - destruct Hm as (M1 & M2 & M3). destruct txn_range as [_ Hu]. by unfold meta_ok.
    - intros j k' Hj Hne Hj'.
      by apply Hne, (ur_disj _ _ (rp_undo _ _ _ (in_rep _ _ _ Hinv)) _ _ j).
    - intros j Hj. by apply (ur_orphans _ _ (rp_undo _ _ _ (in_rep _ _ _ Hinv)) j Hj). }
  destruct (Inv_write e e2 vs ss _ _ txn (Deleted table row_id value) Hinv Hrep2 eq_refl eq_refl)
    as (Hp & Hinv' & Hoth); [by apply tables_ok_rewritten|by apply hist_delete|].
  rewrite Hp. eexists _, _. split_and!; [exact Hinv'| |exact Hoth|done|eauto].
  apply stable_upd. intros view Hsee. rewrite Hk. cbn. rewrite Hsee, andb_false_r.
  cbn in Hmx. rewrite Hmx, Z.eqb_refl. done.
Qed.
End Existing.
End Writes.

(** ** The public row operations *)

Lemma newest_quiet a table tid : quiet a (newest_version table tid).
Proof.
  unfold newest_version, get_row.
  apply quiet_bind; [apply quiet_bind; [apply quiet_get_table|intros; apply quiet_ret]|].
  intros [value|]; [|apply quiet_fail].
  destruct (decode_row value) as [[m tuple]|]; [apply quiet_ret|apply quiet_fail].
Qed.

Lemma newest_spec table tid e value m tuple e' :
  newest_version table tid e = (Ok (value, m, tuple), e') ->
  e' = e /\ exists t, tables e !! table = Some t /\ rows t !! row_id_of tid = Some value /\
    decode_row value = Some (m, tuple).
Proof.
  unfold newest_version, get_row, get_table, sbind. cbn.
  destruct (tables e !! table) as [t|] eqn:Ht; [|done]. cbn.
  destruct (rows t !! row_id_of tid) as [v|] eqn:Hv; [|done].
  destruct (decode_row v) as [[m' tu]|] eqn:Hd; [|done]. intros [= <- <- <- <-]. eauto 10.
Qed.

Lemma admit_quiet a txn m tid :
  quiet a (on_txns (fun d => (admit_write d txn m tid, d))).
Proof.
  apply quiet_query. intros d. unfold admit_write. by repeat case_match.
Qed.

Lemma require_some {A} txn (k : M Error TxnDomain A) e r e' :
  on_txns (sbind (require_txn txn) (fun _ => k)) e = (Ok r, e') -> is_Some (txns (txd e) !! txn).
Proof.
  unfold on_txns, sbind, require_txn. by case_decide.
Qed.

#[export] Hint Resolve newest_quiet admit_quiet : quiet.

(** Step over a quiet prefix, naming the value and the state it leaves. *)
Ltac quietly x e :=
  eapply outcome_quiet;
    [eauto with quiet|eassumption|
     let r := fresh "Run" in let q := fresh "Quiet" in let i := fresh "I" in intros x e r q i].

Section Public.
Context (wl rl : option Z) (pb : Engine -> Z) (re : Z -> Z -> Error).

Lemma txn_after a e e' txn :
  is_Some (txns (txd e) !! txn) -> qstep a e e' -> exists s, txns (txd e') !! txn = Some s.
Proof using. intros H [_ _ _ Q _ _]. by apply (dom_same_is_Some _ _ txn Q). Qed.

Lemma insert_outcome e vs ss txn table tuple :
  Inv e vs ss ->
  outcome txn e vs (insert wl rl pb re txn table tuple)
    (fun tid e' vs' =>
       vs (table, row_id_of tid) = [] /\
       (txn ∈ active_txns (txd e) /\ active_txns (txd e') = active_txns (txd e)) /\
       vs' = <[(table, row_id_of tid) := [MkUndo (fresh_meta txn) tuple]]> vs).
Proof using.
  intros Hinv. unfold insert.
  quietly u1 e1. quietly u2 e2. quietly u3 e3. quietly u4 e4. quietly t5 e5.
  assert (tables e4 !! table = Some t5) as Ht.
  { match goal with H : get_table table e4 = _ |- _ => unfold get_table in H end.
    destruct (tables e4 !! table); by simplify_eq. }
  eapply outcome_quiet; [|eassumption|intros u6 e6 H6 Q6 Hinv6].
  { apply quiet_on_bind; [apply quiet_require|]. intros _. apply quiet_acquire. }
  destruct (txn_after _ _ _ txn (require_some _ _ _ _ _ H6) Q6) as [s Hs].
  assert (tables e6 !! table = Some t5) as Ht6.
  { rewrite (qs_tables _ _ _ Q6). by match goal with Q : qstep _ e4 e5 |- _ => rewrite (qs_tables _ _ _ Q) end. }
  assert (qstep txn e e6) as Q by eauto 10 using qstep_trans.
  pose proof (insert_core e6 vs ss Hinv6 txn table t5 s Ht6 Hs tuple) as Hcore.
  unfold outcome in Hcore |- *.
  match goal with |- match ?m with _ => _ end => destruct m as [[tid| | |] e7]; try done end.
  destruct Hcore as (vs' & ss' & ? & ? & ? & -> & -> & Ea). eexists _, ss'.
  rewrite Ea, <- (ds_active _ _ (qs_same _ _ _ Q)).
  split_and!; [done|done|done| |apply (do_active _ (in_dom _ _ _ Hinv6)); eauto|done|done].
  pose proof (rp_rows _ _ _ (in_rep _ _ _ Hinv6) (table, next_row_id t5)) as Hrow.
  unfold row_at in Hrow. cbn in Hrow. rewrite Ht6 in Hrow.
  destruct (in_tables _ _ _ Hinv6 _ _ Ht6) as [_ Hlt].
  destruct (rows t5 !! next_row_id t5) eqn:E; [specialize (Hlt (next_row_id t5) ltac:(eauto)); lia|].
  apply Hrow.
Qed.

Lemma get_table_Some table e t e' : get_table table e = (Ok t, e') -> tables e !! table = Some t.
Proof using. clear. unfold get_table. intros H. destruct (tables e !! table); by simplify_eq. Qed.

Lemma pinned_back e e' txn s' :
  qstep txn e e' -> txns (txd e') !! txn = Some s' ->
  exists s, txns (txd e) !! txn = Some s /\ pinned s' = pinned s.
Proof using.
  clear. intros [_ _ _ Q _ _] Hs. destruct (dom_same_txn _ _ _ _ Q Hs) as (s & H & E).
  exists s. injection E as E1 E2 E3. done.
Qed.

Lemma update_outcome e vs ss txn table tid tuple :
  Inv e vs ss ->
  outcome txn e vs (update wl rl pb re txn table tid tuple)
    (fun tid' e' vs' => tid' = tid /\ active_txns (txd e') = active_txns (txd e) /\
       exists s w rest i,
       txns (txd e) !! txn = Some s /\ vs (table, row_id_of tid) = w :: rest /\
       sees (pinned s) (xmin (u_meta w)) = true /\ xmax (u_meta w) = NO_XMAX /\
       vs' = <[(table, row_id_of tid) := MkUndo (MkMeta txn NO_XMAX i) tuple :: w :: rest]> vs).
Proof using.
  intros Hinv. unfold update.
  quietly u1 e1. quietly u2 e2. quietly u3 e3. quietly u4 e4. quietly t5 e5. quietly u6 e6.
  destruct (txn_after _ _ _ txn (require_some _ _ _ _ _ Run4) Quiet4) as [s6 Hs6].
  cbn zeta. quietly x e7. destruct x as [[value m] old].
  destruct (newest_spec _ _ _ _ _ _ _ Run5) as (-> & t & Ht & Hv & Hd).
  quietly u8 e8.
  assert (e8 = e6 /\ admit_write (txd e6) txn m tid = Ok tt) as [-> Hadm].
  { unfold on_txns in Run6. rewrite set_txd_same in Run6. destruct u8. by simplify_eq. }
  pose proof (update_core e6 vs ss I4 txn table t s6 Ht Hs6 (row_id_of tid) value m old Hv Hd tid Hadm tuple)
    as Hcore.
  destruct (row_versions e6 vs ss I4 table t Ht (row_id_of tid) value m old Hv Hd) as (rest & Hk & _).
  destruct (admit_ok _ _ _ _ _ Hs6 Hadm) as (Hmx & Hsee & _).
  assert (qstep txn e e6) as Q by eauto 10 using qstep_trans.
  destruct (pinned_back _ _ _ _ Q Hs6) as (s & Hs & Hp).
  unfold outcome in Hcore |- *.
  match goal with |- match ?m with _ => _ end => destruct m as [[tid'| | |] e9]; try done end.
  destruct Hcore as (vs' & ss' & ? & ? & ? & -> & Ea & i & ->). eexists _, ss'.
  split_and!; [done|done|done|done|by rewrite Ea, (ds_active _ _ (qs_same _ _ _ Q))|]. exists s, (MkUndo m old), rest, i.
  split_and!; [done|done|by rewrite <- Hp|done|by rewrite Hk].
Qed.

Lemma delete_outcome e vs ss txn table tid :
  Inv e vs ss ->
  outcome txn e vs (delete wl txn table tid)
    (fun _ e' vs' => active_txns (txd e') = active_txns (txd e) /\ exists s w rest,
       txns (txd e) !! txn = Some s /\ vs (table, row_id_of tid) = w :: rest /\
       sees (pinned s) (xmin (u_meta w)) = true /\ xmax (u_meta w) = NO_XMAX /\
       vs' = <[(table, row_id_of tid) := set_xmax txn w :: rest]> vs).
Proof using.
  intros Hinv. unfold delete.
  quietly u1 e1. quietly t5 e2. quietly u6 e3.
  destruct (txn_after _ _ _ txn (require_some _ _ _ _ _ Run1) Quiet1) as [s3 Hs3].
  cbn zeta. quietly x e4. destruct x as [[value m] old].
  destruct (newest_spec _ _ _ _ _ _ _ Run2) as (-> & t & Ht & Hv & Hd).
  quietly u7 e7. quietly u8 e8.
  assert (e8 = e7 /\ admit_write (txd e7) txn m tid = Ok tt) as [-> Hadm].
  { unfold on_txns in Run4. rewrite set_txd_same in Run4. destruct u8. by simplify_eq. }
  rewrite <- (qs_tables _ _ _ Quiet3) in Ht.
  destruct (txn_after _ _ _ txn ltac:(eauto) Quiet3) as [s7 Hs7].
  pose proof (delete_core e7 vs ss I3 txn table t s7 Ht Hs7 (row_id_of tid) value m old Hv Hd tid Hadm)
    as Hcore.
  destruct (admit_ok _ _ _ _ _ Hs7 Hadm) as (Hmx & Hsee & _).
  assert (qstep txn e e7) as Q by eauto 10 using qstep_trans.
  destruct (pinned_back _ _ _ _ Q Hs7) as (s & Hs & Hp).
  unfold outcome in Hcore |- *.
  match goal with |- match ?m with _ => _ end => destruct m as [[tid'| | |] e9]; try done end.
  destruct Hcore as (vs' & ss' & ? & ? & ? & Ea & rest & Hk & ->). eexists _, ss'.
  split_and!; [done|done|done|by rewrite Ea, (ds_active _ _ (qs_same _ _ _ Q))|]. exists s, (MkUndo m old), rest.
  split_and!; [done|done|by rewrite <- Hp|done|done].
Qed.

End Public.
