(* ===== verification/EngineUndo.v ===== *)
(** * The row engine: rollback

    Undoing a transaction's log, newest operation first, takes its versions
    off the rows it wrote and leaves what every other reader sees as it was. *)

From S2P Require Import Prelude Core Mvcc Txn Engine EngineInv EngineOps.
From stdpp Require Import base gmap list sets functions sorting.
From Stdlib Require Import ZArith Lia Strings.Byte.

Import BtreeEngine.

Lemma log_of_pend d a op pend t :
  log_of d a (op :: pend) t = (if decide (t = a) then [op] else []) ++ log_of d a pend t.
Proof. unfold log_of. by case_decide. Qed.

Lemma hist_undo d vs a op pend k new :
  hist_ok d vs a (op :: pend) -> op_key op = k ->
  (forall v, v ∈ new -> v ∈ vs k \/ exists w, w ∈ vs k /\ v = set_xmax NO_XMAX w) ->
  (forall v rest w, new = v :: rest -> w ∈ rest -> xmax (u_meta w) = NO_XMAX) ->
  row_undo a (ops_on k (log_of d a pend a)) new ->
  (forall t, t ∈ active_txns d -> t <> a -> row_undo t (ops_on k (log_of d a pend t)) new) ->
  hist_ok d (<[k := new]> vs) a pend.
Proof.
  intros [H1 H2 H3 H4 H5] Hop Hsub Htail Hown Hother.
  split.
  - intros k' v. rewrite upd_at. case_decide; [|apply H1].
    intros [Hv|(w & Hw & ->)]%Hsub; [by apply (H1 k)|]. cbn.
    split; [apply (H1 k w Hw)|by left].
  - intros k' v rest w. rewrite upd_at. case_decide; [apply Htail|apply H2].
  - intros k' v. rewrite upd_at. case_decide; [|apply H3].
    intros [Hv|(w & Hw & ->)]%Hsub; [by apply (H3 k)|done].
  - intros k' v o s view. rewrite upd_at. case_decide; [|apply H4].
    intros [Hv|(w & Hw & ->)]%Hsub; [by apply (H4 k)|done].
  - intros t k' Ht. specialize (H5 t k' Ht). rewrite log_of_pend, ops_on_app in H5.
    rewrite upd_at. destruct (decide (k' = k)) as [->|Hne].
    + destruct (decide (t = a)) as [->|Hta]; [done|by apply Hother].
    + case_decide; [|done]. by rewrite ops_on_cons, decide_False in H5 by congruence.
Qed.

Definition ids_ok (d : TxnDomain) : Prop :=
  forall t, t ∈ active_txns d -> (1 <= t < next_txn_id d)%Z.

(** The operations other active transactions have on a row whose newest
    version [a] wrote. *)
Lemma other_ops_on_own d vs a op pend k v rest t :
  hist_ok d vs a (op :: pend) -> ids_ok d -> vs k = v :: rest ->
  xmin (u_meta v) = a -> xmax (u_meta v) = NO_XMAX ->
  t ∈ active_txns d -> t <> a ->
  ops_on k (log_of d a pend t) = [] /\ row_undo t [] (v :: rest).
Proof.
  intros Hh Hd Hk Hx1 Hx2 Ht Hne. pose proof (Hd _ Ht) as Hid.
  pose proof (ho_undo _ _ _ _ Hh t k Ht) as Hru. rewrite log_of_pend, decide_False in Hru by done.
  rewrite Hk, app_nil_l in Hru.
  assert (ops_on k (log_of d a pend t) = []) as Hnil.
  { apply (row_undo_untouched t _ v rest Hru); unfold NO_XMAX in *; [lia|congruence|lia]. }
  by rewrite Hnil in Hru.
Qed.

Lemma row_undo_nil_sub t vs vs' :
  row_undo t [] vs -> (forall v, v ∈ vs' -> v ∈ vs) -> row_undo t [] vs'.
Proof. intros H Hsub. inversion H as [? Hn| | |]; subst. constructor. auto. Qed.

Lemma row_undo_insert_inv t tb r ops vs :
  row_undo t (Inserted tb r :: ops) vs ->
  ops = [] /\ exists v, vs = [v] /\ xmin (u_meta v) = t /\ xmax (u_meta v) = NO_XMAX.
Proof. intros H. inversion H; subst. eauto. Qed.

Lemma row_undo_update_inv t tb r old i ops vs :
  row_undo t (Updated tb r old i :: ops) vs ->
  exists v w rest, vs = v :: w :: rest /\ xmin (u_meta v) = t /\ xmax (u_meta v) = NO_XMAX /\
    undo (u_meta v) = i /\ old = encode_row (u_meta w) (u_tuple w) /\ meta_ok (u_meta w) /\
    row_undo t ops (w :: rest).
Proof. intros H. inversion H; subst. eauto 12. Qed.

Lemma row_undo_delete_inv t tb r old ops vs :
  row_undo t (Deleted tb r old :: ops) vs ->
  exists m v rest, vs = v :: rest /\ xmax (u_meta v) = t /\
    decode_row old = Some (m, u_tuple v) /\ xmax m = NO_XMAX /\
    row_undo t ops (set_xmax NO_XMAX v :: rest).
Proof. intros H. inversion H; subst. eauto 12. Qed.

(** What the row reads as, to its own transaction, once [op] is undone. *)
Definition restored (op : UndoOp) : option bytes :=
  match op with
  | Inserted _ _ => None
  | Updated _ _ old _ | Deleted _ _ old =>
      match decode_row old with
      | Some (m, tuple) => if (xmax m =? NO_XMAX)%Z then Some tuple else None
      | None => None
      end
  end.

Fixpoint restore_each (ops : list UndoOp) (k : Key) (x : option bytes) : option bytes :=
  match ops with
  | [] => x
  | op :: ops => restore_each ops k (if decide (op_key op = k) then restored op else x)
  end.

(** Undoing [ops] of [a], newest first, takes a view that sees [a] from [vs] to
    [vs']. *)
Definition tracks (d : TxnDomain) (a : Z) (ops : list UndoOp) (vs vs' : Versions) : Prop :=
  forall view k, late d view -> sees view a = true ->
    resolve view (vs' k) = restore_each ops k (resolve view (vs k)).

Lemma tracks_one d a op vs new :
  (forall view, late d view -> sees view a = true -> resolve view new = restored op) ->
  tracks d a [op] vs (<[op_key op := new]> vs).
Proof.
  intros H view k Hl Hs. rewrite upd_at. cbn [restore_each].
  destruct (decide (k = op_key op)) as [->|]; [by rewrite decide_True; auto|by rewrite decide_False].
Qed.

(** Below the version [a] wrote there are only versions of [a] and of ended
    transactions. *)
Lemma below_seen d vs a op pend k v w rest view :
  hist_ok d vs a (op :: pend) -> ids_ok d -> vs k = v :: w :: rest ->
  xmin (u_meta v) = a -> xmax (u_meta v) = NO_XMAX -> late d view -> sees view a = true ->
  sees view (xmin (u_meta w)) = true.
Proof.
  intros Hh Hd Hk H1 H2 Hl Hs. destruct (decide (xmin (u_meta w) = a)) as [->|Hne]; [done|].
  assert (w ∈ vs k) as Hin by (rewrite Hk; right; left).
  apply Hl; [by apply (ho_stamps _ _ _ _ Hh k w)|]. intros Hact.
  destruct (other_ops_on_own d vs a op pend k v (w :: rest) _ Hh Hd Hk H1 H2 Hact Hne) as [_ Hn].
  inversion Hn as [? Hno| | |]; subst. by destruct (Hno w) as [[] _]; [right; left|].
Qed.

Record undone (e e' : Engine) (vs vs' : Versions) (ss' : Slots) (a : Z) (ops pend : list UndoOp) : Prop := {
  un_rep : rep e' vs' ss';
  un_hist : hist_ok (txd e') vs' a pend;
  un_stable : stable a vs vs';
  un_tracks : tracks (txd e) a ops vs vs';
  un_txd : txd e' = txd e;
  un_fault : fault e' = fault e;
  un_tables : tables_ok e' }.

Section UndoOne.
Context (e : Engine) (vs : Versions) (ss : Slots) (a : Z) (op : UndoOp) (pend : list UndoOp).
Context (Hrep : rep e vs ss) (Hh : hist_ok (txd e) vs a (op :: pend)) (Hd : ids_ok (txd e)).
Context (Ha : a ∈ active_txns (txd e)) (Htok : tables_ok e).

Let k : Key := op_key op.

Lemma own_row_undo : row_undo a (op :: ops_on k (log_of (txd e) a pend a)) (vs k).
Proof using Hh Ha.
  pose proof (ho_undo _ _ _ _ Hh a k Ha) as H. rewrite log_of_pend, decide_True in H by done.
  by rewrite ops_on_app, ops_on_cons, decide_True in H.
Qed.

Lemma own_row v rest :
  vs k = v :: rest -> exists t, tables e !! k.1 = Some t /\
    rows t !! k.2 = Some (encode_row (u_meta v) (u_tuple v)) /\ meta_ok (u_meta v) /\
    chain (arena (reclaim e)) (undo (u_meta v)) (ss k) rest.
Proof using Hrep.
  intros Hk. pose proof (rp_rows _ _ _ Hrep k) as H. unfold row_at in H. rewrite Hk in H.
  destruct (tables e !! k.1) as [t|]; [|by destruct H].
  destruct (rows t !! k.2) as [value|] eqn:Hv; [|by destruct H].
  destruct H as (v' & rest' & [= <- <-] & -> & Hm & Hc). eauto 10.
Qed.

Lemma row_at_set t m k' :
  tables e !! k.1 = Some t ->
  (forall r, r <> k.2 -> m !! r = rows t !! r) ->
  row_at (set_tables <[k.1 := MkTable m (next_row_id t)]> e) k' =
  if decide (k' = k) then m !! k.2 else row_at e k'.
Proof using.
  clear. intros Ht Hm. rewrite (row_at_put _ _ _ _ _ _ Ht). destruct k' as [tb r]. cbn [fst snd].
  destruct (decide ((tb, r) = k)) as [<-|Hne]; [by rewrite decide_True|].
  case_decide as Htb; [|done]. unfold row_at. cbn [fst snd]. subst tb. rewrite Ht.
  apply Hm. intros ->. apply Hne. by destruct k.
Qed.
End UndoOne.

Section UndoKinds.
Context (e : Engine) (vs : Versions) (ss : Slots) (a : Z) (pend : list UndoOp).
Context (Hrep : rep e vs ss) (Hd : ids_ok (txd e)).
Context (Ha : a ∈ active_txns (txd e)) (Htok : tables_ok e).

Lemma undo_inserted table row_id :
  hist_ok (txd e) vs a (Inserted table row_id :: pend) ->
  exists e' vs' ss', undo_op a (Inserted table row_id) e = (Ok tt, e') /\
    undone e e' vs vs' ss' a [Inserted table row_id] pend.
Proof using Hrep Hd Ha Htok.
  intros Hh. set (k := (table, row_id)).
  pose proof (own_row_undo e vs a _ pend Hh Ha) as Hru. cbn [op_key] in Hru. fold k in Hru.
  apply row_undo_insert_inv in Hru as (E1 & v & Hk & Hx1 & Hx2).
  destruct (own_row e vs ss (Inserted table row_id) Hrep v [] Hk) as (t & Ht & Hv & Hm & Hc).
  cbn [op_key fst snd] in Ht, Hv.
  pose (e' := set_tables <[table := MkTable (base.delete row_id (rows t)) (next_row_id t)]> e).
  assert (forall k', row_at e' k' = if decide (k' = k) then None else row_at e k') as Hrow.
  { intros k'. unfold e'. rewrite (row_at_set e (Inserted table row_id) t _ k' Ht).
    - cbn. by rewrite lookup_delete_eq.
    - cbn. intros r Hr. by rewrite lookup_delete_ne. }
  exists e', (<[k := []]> vs), (<[k := []]> ss). split; [cbn; by rewrite Ht|]. split.
  - apply (rep_del_row e); [done|done|by rewrite Hrow, decide_True|].
    intros k' Hne. by rewrite Hrow, decide_False.
  - change (txd e') with (txd e). apply (hist_undo _ _ _ (Inserted table row_id)); [done|done| | | |].
    + intros w Hw. by apply elem_of_nil in Hw.
    + done.
    + rewrite E1. constructor. intros w Hw. by apply elem_of_nil in Hw.
    + intros t' Ht' Hne.
      destruct (other_ops_on_own _ _ _ _ _ k v [] t' Hh Hd Hk Hx1 Hx2 Ht' Hne) as [-> Hn].
      eapply row_undo_nil_sub; [exact Hn|]. intros w Hw. by apply elem_of_nil in Hw.
  - apply stable_upd. intros view Hsee. rewrite Hk. by rewrite resolve_skip by by rewrite Hx1.
  - by apply (tracks_one _ _ (Inserted table row_id)).
  - done.
  - done.
  - apply tables_ok_put; [done|done|]. intros r. rewrite lookup_delete_is_Some. by intros [_ ?].
Qed.

Lemma undo_updated table row_id old undo_idx :
  hist_ok (txd e) vs a (Updated table row_id old undo_idx :: pend) ->
  exists e' vs' ss', undo_op a (Updated table row_id old undo_idx) e = (Ok tt, e') /\
    undone e e' vs vs' ss' a [Updated table row_id old undo_idx] pend.
Proof using Hrep Hd Ha Htok.
  intros Hh. set (k := (table, row_id)). set (op := Updated table row_id old undo_idx).
  pose proof (own_row_undo e vs a op pend Hh Ha) as Hru. cbn [op_key op] in Hru. fold k in Hru.
  apply row_undo_update_inv in Hru as (v & w & rest & Hk & Hx1 & Hx2 & Hi & Hold & Hmw & Hru').
  destruct (own_row e vs ss op Hrep v (w :: rest) Hk) as (t & Ht & Hv & Hm & Hc).
  cbn [op_key op fst snd] in Ht, Hv. change (ss (op_key op)) with (ss k) in Hc.
  rewrite Hi in Hc. inversion Hc as [|i v' ss0 rest0 Hne0 Hpos Hslot Hc0 E2 E3 E4]; subst v' rest0.
  change (ss (table, row_id)) with (ss k) in *.
  pose (e1 := set_tables <[table := MkTable (<[row_id := old]> (rows t)) (next_row_id t)]> e).
  pose (u := reclaim e).
  pose (e' := set_reclaim (MkUndoDomain (arena u) (free u) (orphans u ++ [(undo_idx, a)])) e1).
  assert (forall k', row_at e' k' = if decide (k' = k) then Some old else row_at e k') as Hrow.
  { intros k'. change (row_at e' k') with (row_at e1 k'). unfold e1.
    rewrite (row_at_set e op t _ k' Ht); [by cbn; rewrite lookup_insert_eq|].
    cbn. intros r Hr. by rewrite lookup_insert_ne. }
  pose proof (rp_undo _ _ _ Hrep) as Hu. pose proof Hu as [U1 U2 U3 U4 U5 U6].
  assert (Z.to_nat undo_idx ∈ ss k) as Hin by (rewrite <- E3; left).
  assert (undo_idx ∉ (orphans u).*1) as Hno.
  { intros H. destruct (U5 _ H) as (_ & _ & Hx). by apply (Hx k). }
  pose proof (chain_NoDup _ _ _ _ Hc) as Hnd. rewrite <- E3 in Hnd. apply NoDup_cons in Hnd as [Hni _].
  assert (rep e1 (<[k := w :: rest]> vs) (<[k := ss0]> ss)) as Hrep1.
  { apply (rep_set_row e); [done|done| | |done|exact Hc0| |].
    - change (row_at e1 k) with (row_at e' k). by rewrite Hrow, decide_True, Hold.
    - intros k' Hne. change (row_at e1 k') with (row_at e' k'). by rewrite Hrow, decide_False.
    - intros j k' Hj Hne Hj'. apply Hne. eapply (U1 _ _ j); [done|]. rewrite <- E3. by right.
    - intros j Hj Hj'. destruct (U5 _ Hj) as (_ & _ & Hx). apply (Hx k). rewrite <- E3. by right. }
  exists e', (<[k := w :: rest]> vs), (<[k := ss0]> ss). split.
  { cbn. unfold sbind at 1. rewrite Ht.
    rewrite (on_rows_ok e table t _ (<[row_id := old]> (rows t))); [done|done|].
    unfold tree_update. by rewrite Hv. }
  split.
  - destruct Hrep1 as [R1 [V1 V2 V3 V4 V5 V6]]. split; [exact R1|]. split; cbn; try assumption.
    + rewrite fmap_app. apply NoDup_app. split_and!; [done| |apply NoDup_singleton].
      intros j Hj ->%list_elem_of_singleton. done.
    + intros j. rewrite fmap_app, elem_of_app. change ([(undo_idx, a)].*1) with [undo_idx]. rewrite list_elem_of_singleton. intros [Hj| ->]; [by apply V5|].
      apply lookup_lt_Some in Hslot as Hlt. split_and!; [lia| |eauto|].
      * unfold u in *. cbn in *. lia.
      * intros k'. rewrite upd_at. case_decide as Hk'; [done|]. intros Hj. apply Hk'.
        by apply (U1 _ _ (Z.to_nat undo_idx)).
  - change (txd e') with (txd e). apply (hist_undo _ _ _ op); [done|done| | |done|].
    + intros x Hx. left. rewrite Hk. by right.
    + intros x rest' y [= <- <-] Hy. apply (ho_tail _ _ _ _ Hh k v (w :: rest)); [done|by right].
    + intros t' Ht' Hne.
      destruct (other_ops_on_own _ _ _ _ _ k v (w :: rest) t' Hh Hd Hk Hx1 Hx2 Ht' Hne) as [-> Hn].
      eapply row_undo_nil_sub; [exact Hn|]. intros x Hx. by right.
  - apply stable_upd. intros view Hsee. rewrite Hk. by rewrite (resolve_skip view v) by by rewrite Hx1.
  - apply (tracks_one _ _ op). intros view Hl Hs. cbn [restored op]. rewrite Hold, decode_encode_row by done.
    rewrite (ho_tail _ _ _ _ Hh k v (w :: rest) w Hk) by left. cbn [resolve].
    rewrite (below_seen _ _ _ _ _ _ _ _ _ _ Hh Hd Hk Hx1 Hx2 Hl Hs).
    by rewrite (ho_tail _ _ _ _ Hh k v (w :: rest) w Hk) by left.
  - done.
  - done.
  - apply (tables_ok_put e); [done|done|]. intros r.
    destruct (decide (r = row_id)) as [->|]; [by rewrite Hv; eauto|by rewrite lookup_insert_ne].
Qed.

Lemma undo_deleted table row_id old :
  hist_ok (txd e) vs a (Deleted table row_id old :: pend) ->
  exists e' vs' ss', undo_op a (Deleted table row_id old) e = (Ok tt, e') /\
    undone e e' vs vs' ss' a [Deleted table row_id old] pend.
Proof using Hrep Hd Ha Htok.
  intros Hh. set (k := (table, row_id)). set (op := Deleted table row_id old).
  pose proof (own_row_undo e vs a op pend Hh Ha) as Hru. cbn [op_key op] in Hru. fold k in Hru.
  apply row_undo_delete_inv in Hru as (m & v & rest & Hk & Hx & Hdec & Hmx & Hru').
  destruct (own_row e vs ss op Hrep v rest Hk) as (t & Ht & Hv & Hm & Hc).
  cbn [op_key op fst snd] in Ht, Hv. change (ss (op_key op)) with (ss k) in Hc.
  set (v' := set_xmax NO_XMAX v).
  pose (e' := set_tables
    <[table := MkTable (<[row_id := encode_row (u_meta v') (u_tuple v')]> (rows t)) (next_row_id t)]> e).
  assert (forall k', row_at e' k' = if decide (k' = k) then Some (encode_row (u_meta v') (u_tuple v'))
                                    else row_at e k') as Hrow.
  { intros k'. unfold e'. rewrite (row_at_set e op t _ k' Ht); [by cbn; rewrite lookup_insert_eq|].
    cbn. intros r Hr. by rewrite lookup_insert_ne. }
  pose proof (rp_undo _ _ _ Hrep) as Hu. pose proof Hu as [U1 U2 U3 U4 U5 U6].
  pose proof (Hd _ Ha) as Hida.
  exists e', (<[k := v' :: rest]> vs), (<[k := ss k]> ss). split.
  { cbn. rewrite Ht, Hdec, Hv, decode_encode_row by done. rewrite Hmx.
    apply on_rows_ok; [done|]. apply (update_prefix_meta _ (u_meta v)). done. }
  split.
  - apply (rep_set_row e); [done|done|by rewrite Hrow, decide_True| | |done| |].
    + intros k' Hne. by rewrite Hrow, decide_False.
    + destruct Hm as (M1 & M2 & M3). split_and!; [done| |done]. by unfold u64, NO_XMAX.
    + intros j k' Hj Hne Hj'. apply Hne. by apply (U1 _ _ j).
    + intros j Hj. by apply (U5 _ Hj).
  - change (txd e') with (txd e). apply (hist_undo _ _ _ op); [done|done| | |done|].
    + intros x [->|Hx']%elem_of_cons; [right; exists v; split; [rewrite Hk; left|done]|].
      left. rewrite Hk. by right.
    + intros x rest' y [= <- <-] Hy. by apply (ho_tail _ _ _ _ Hh k v rest).
    + intros t' Ht' Hne. pose proof (Hd _ Ht') as Hid.
      pose proof (ho_undo _ _ _ _ Hh t' k Ht') as Hru2.
      rewrite log_of_pend, decide_False, app_nil_l, Hk in Hru2 by done.
      destruct (ho_deleted _ _ _ _ Hh k v) as [Heq|Hna]; [rewrite Hk; left|unfold NO_XMAX in *; lia| |].
      * assert (ops_on k (log_of (txd e) a pend t') = []) as Hnil.
        { apply (row_undo_untouched t' _ v rest Hru2); unfold NO_XMAX in *; [lia|congruence|congruence]. }
        rewrite Hnil in Hru2 |- *. inversion Hru2 as [? Hn| | |]; subst. constructor.
        intros x [->|Hx']%elem_of_cons; [|apply Hn; by right]. cbn.
        split; [apply (Hn v); left|unfold NO_XMAX; lia].
      * assert (xmin (u_meta v) <> t') as Hxm by (intros E; by rewrite E in Hna).
        assert (ops_on k (log_of (txd e) a pend t') = []) as Hnil.
        { apply (row_undo_untouched t' _ v rest Hru2); unfold NO_XMAX in *; [lia|done|congruence]. }
        rewrite Hnil in Hru2 |- *. inversion Hru2 as [? Hn| | |]; subst. constructor.
        intros x [->|Hx']%elem_of_cons; [|apply Hn; by right]. cbn.
        split; [apply (Hn v); left|unfold NO_XMAX; lia].
  - apply stable_upd. intros view Hsee. rewrite Hk. cbn.
    by rewrite Hx, Hsee, andb_false_r.
  - apply (tracks_one _ _ op). intros view Hl Hs. cbn [restored op]. rewrite Hdec, Hmx. cbn.
    destruct (ho_deleted _ _ _ _ Hh k v) as [Heq|Hna]; [rewrite Hk; left|unfold NO_XMAX in *; lia| |].
    + by rewrite Heq, Hx, Hs.
    + rewrite (Hl (xmin (u_meta v))); [done| |done]. apply (ho_stamps _ _ _ _ Hh k v). rewrite Hk. left.
  - done.
  - done.
  - apply (tables_ok_put e); [done|done|]. intros r.
    destruct (decide (r = row_id)) as [->|]; [by rewrite Hv; eauto|by rewrite lookup_insert_ne].
Qed.
End UndoKinds.

Lemma undo_one e vs ss a op pend :
  rep e vs ss -> hist_ok (txd e) vs a (op :: pend) -> ids_ok (txd e) ->
  a ∈ active_txns (txd e) -> tables_ok e ->
  exists e' vs' ss', undo_op a op e = (Ok tt, e') /\ undone e e' vs vs' ss' a [op] pend.
Proof.
  intros Hrep Hh Hd Ha Ht. destruct op.
  - by apply (undo_inserted e vs ss).
  - by apply (undo_updated e vs ss).
  - by apply (undo_deleted e vs ss).
Qed.

Lemma undo_each_ok ops e vs ss a :
  rep e vs ss -> hist_ok (txd e) vs a ops -> ids_ok (txd e) ->
  a ∈ active_txns (txd e) -> tables_ok e ->
  exists e' vs' ss', undo_each a ops e = (Ok tt, e') /\ undone e e' vs vs' ss' a ops [].
Proof.
  revert e vs ss. induction ops as [|op ops IH]; intros e vs ss Hrep Hh Hd Ha Ht.
  - exists e, vs, ss. by split.
  - destruct (undo_one e vs ss a op ops Hrep Hh Hd Ha Ht)
      as (e1 & vs1 & ss1 & H1 & [R1 R2 R3 Rt R4 R5 R6]).
    destruct (IH e1 vs1 ss1 R1) as (e2 & vs2 & ss2 & H2 & [S1 S2 S3 St S4 S5 S6]);
      [by rewrite R4 in *..|done|].
    exists e2, vs2, ss2. split; [cbn; unfold sbind; by rewrite H1|].
    split; [done|done|by transitivity vs1| |congruence|congruence|done].
    intros view k Hl Hs. rewrite (St view k) by (done || by rewrite R4). by rewrite (Rt view k).
Qed.

(** ** Ending a transaction *)

Lemma domain_ok_end d txn s :
  domain_ok d -> txns d !! txn = Some s -> txn ∉ staged d ->
  domain_ok (set_active (fun a => a ∖ {[txn]}) (release_locks txn (held s) (set_txns (base.delete txn) d))).
Proof.
  intros Hd Hs Hst. pose proof (domain_ok_remove d txn s Hd Hs) as [H1 H2 H3 H4 H5 H6].
  split; try assumption.
  - destruct H1. by split.
  - intros t s' Hs'. eapply txn_ok_mono; [by apply H5|cbn; lia|cbn; auto].
  - cbn in *. set_solver.
Qed.

Lemma hist_ok_end d d' vs a :
  hist_ok d vs a [] -> next_txn_id d' = next_txn_id d ->
  active_txns d' = active_txns d ∖ {[a]} -> txns d' = base.delete a (txns d) ->
  hist_ok d' vs 0 [].
Proof.
  intros [H1 H2 H3 H4 H5] En Ea Et. split; rewrite ?En; try assumption.
  - intros k v Hv Hx. destruct (H3 k v Hv Hx) as [?|Hn]; [by left|right]. rewrite Ea. set_solver.
  - intros k v o s view Hv Hx Ho. rewrite Et in Ho. apply lookup_delete_Some in Ho as [_ Ho].
    by apply (H4 k v o s).
  - intros t k. rewrite Ea. intros [Ht Hne]%elem_of_difference.
    specialize (H5 t k Ht). rewrite (log_of_nil d a 0) in H5. unfold log_of in *.
    rewrite Et, lookup_delete_ne by set_solver. done.
Qed.

(** The domain while a transaction is being undone: out of the table, still
    active. *)
Lemma hist_ok_take d vs txn s :
  hist_ok d vs 0 [] -> txns d !! txn = Some s ->
  hist_ok (set_txns (base.delete txn) d) vs txn (reverse (undo_log s)).
Proof.
  intros [H1 H2 H3 H4 H5] Hs. split; try assumption.
  - intros k v o s' view Hv Hx Ho. cbn in Ho. apply lookup_delete_Some in Ho as [_ Ho].
    by apply (H4 k v o s').
  - intros t k Ht. specialize (H5 t k Ht). unfold log_of in *. cbn.
    destruct (decide (t = txn)) as [->|Hne].
    + rewrite lookup_delete_eq, app_nil_r. rewrite Hs in H5. by case_decide.
    + rewrite lookup_delete_ne by done. by case_decide.
Qed.

Lemma abort_outcome e vs ss txn s :
  Inv e vs ss -> txns (txd e) !! txn = Some s -> txn ∉ staged (txd e) ->
  exists e' vs' ss',
    (let* state := take_txn txn in abort txn state) e = (Ok tt, e') /\ Inv e' vs' ss' /\ stable txn vs vs' /\
    others txn (txd e) (txd e') /\ no_stamps vs' txn /\
    txn ∉ active_txns (txd e') /\ (forall id, holders_of (txd e') id !! txn = None).
Proof.
  intros Hinv Hs Hst. unfold sbind, take_txn. rewrite Hs.
  pose proof Hinv as [Hrep Hd Hh Hl Ht Hf].
  set (e1 := set_txd (set_txns (base.delete txn) (txd e)) e).
  assert (txn ∈ active_txns (txd e)) as Hact by (apply (do_active _ Hd); eauto).
  destruct (undo_each_ok (reverse (undo_log s)) e1 vs ss txn)
    as (e2 & vs2 & ss2 & Hrun & [R1 R2 R3 Rt R4 R5 R6]).
  { destruct Hrep. by split. }
  { by apply hist_ok_take. }
  { exact (do_ids _ Hd). }
  { done. }
  { exact Ht. }
  assert (no_stamps vs2 txn) as Hns.
  { intros k v Hv. pose proof (ho_undo _ _ _ _ R2 txn k) as Hru. rewrite R4 in Hru.
    specialize (Hru Hact). unfold log_of in Hru. rewrite decide_True in Hru by done.
    cbn in Hru. rewrite lookup_delete_eq in Hru. inversion Hru as [? Hn| | |]; subst. auto. }
  pose (e3 := set_txd (finish_abort txn (held s) (txd e2)) e2).
  exists e3, vs2, ss2. split_and!.
  - unfold abort. change (fault e1) with (fault e). rewrite Hf.
    unfold rollback_tail, guarded, undo_ops. rewrite Hrun. done.
  - split; cbn.
    + destruct R1. by split.
    + rewrite R4. by apply domain_ok_end.
    + apply (hist_ok_end (txd e2) _ _ txn); [done|done|done|]. cbn. rewrite R4. cbn.
      by rewrite delete_delete_eq.
    + rewrite R4. cbn. intros t [Ht' Hne]%elem_of_difference.
      rewrite lookup_delete_ne by set_solver. auto.
    + exact R6.
    + by rewrite R5.
  - done.
  - cbn. rewrite R4. split; cbn; [lia|set_solver| | |done].
    + intros o Ho _. by rewrite lookup_delete_ne.
    + intros t s' view [_ Ht']%lookup_delete_Some Hview. eauto.
  - done.
  - cbn. set_solver.
  - intros id. destruct (locks_ok_release _ _ _ (do_locks _ Hd) Hs) as [_ Hg].
    specialize (Hg id). unfold holders_of in *. cbn in *. by rewrite R4.
Qed.

Lemma rollback_outcome e vs ss txn :
  Inv e vs ss -> txn ∉ staged (txd e) ->
  outcome txn e vs (rollback txn)
    (fun _ e' vs' => no_stamps vs' txn /\ txn ∉ active_txns (txd e') /\
       forall id, holders_of (txd e') id !! txn = None).
Proof.
  intros Hinv Hst. unfold outcome, rollback.
  destruct (txns (txd e) !! txn) as [s|] eqn:Hs; [|by exists vs, ss; split_and!; [..|by left]].
  destruct (prepared s); [by exists vs, ss; split_and!; [..|by left]|].
  destruct (abort_outcome e vs ss txn s Hinv Hs Hst) as (e' & vs' & ss' & Hrun & ? & ? & ? & ?).
  cbv beta. rewrite Hrun. by exists vs', ss'.
Qed.

Lemma hist_ok_split d vs txn s n :
  hist_ok d vs 0 [] -> txns d !! txn = Some s ->
  forall f, (forall s', undo_log (f s') = take n (undo_log s')) ->
    (forall s', pinned (f s') = pinned s' /\ fresh_reads (f s') = fresh_reads s') ->
  hist_ok (alter_txn f txn d) vs txn (reverse (drop n (undo_log s))).
Proof.
  intros [H1 H2 H3 H4 H5] Hs f Hf Hviews. split; try assumption.
  - intros k v o s' view Hv Hx Ho Hview. cbn in Ho.
    destruct (decide (o = txn)) as [->|Hne].
    + rewrite lookup_alter_eq, Hs in Ho. cbn in Ho. simplify_eq.
      apply (H4 k v txn s); [done|done|done|]. destruct (Hviews s) as [E1 E2].
      destruct Hview as [->|[m Hm]]; [left; congruence|right; exists m; congruence].
    + rewrite lookup_alter_ne in Ho by done. by apply (H4 k v o s').
  - intros t k Ht. specialize (H5 t k Ht). unfold log_of in *. cbn.
    destruct (decide (t = txn)) as [->|Hne].
    + rewrite lookup_alter_eq, Hs. cbn. rewrite Hf, <- reverse_app, take_drop.
      rewrite Hs in H5. by case_decide.
    + rewrite lookup_alter_ne by done. by case_decide.
Qed.

(** Once the savepoint is found, the rollback to it succeeds. *)
Lemma rollback_to_runs e vs ss txn name tail d1 :
  Inv e vs ss -> split_at_savepoint txn name (txd e) = (Ok tail, d1) ->
  exists e' vs' ss', rollback_to txn name e = (Ok tt, e') /\ Inv e' vs' ss' /\ stable txn vs vs' /\
    others txn (txd e) (txd e') /\ active_txns (txd e') = active_txns (txd e) /\
    tracks (txd e) txn (reverse tail) vs vs'.
Proof.
  intros Hinv Hsp. destruct (domain_ok_split _ _ _ _ _ (in_dom _ _ _ Hinv) Hsp) as [Hd1 _].
  pose proof Hinv as [Hrep Hd Hh Hl Ht Hf]. unfold rollback_to, sbind, ensure_healthy, on_txns.
  rewrite Hf, Hsp. unfold split_at_savepoint in Hsp. destruct (txns (txd e) !! txn) as [s|] eqn:Hs; [|done].
  destruct (rposition name (savepoints s)) as [pos|] eqn:Hpos; [|done]. case_decide; [|done].
  injection Hsp as <- <-. set (mark := match _ with Some _ => _ | None => _ end) in *.
  set (e1 := set_txd _ e).
  assert (txn ∈ active_txns (txd e)) as Hact by (apply (do_active _ Hd); eauto).
  destruct (undo_each_ok (reverse (drop mark (undo_log s))) e1 vs ss txn)
    as (e2 & vs2 & ss2 & Hrun & [R1 R2 R3 Rt R4 R5 R6]).
  { destruct Hrep. by split. }
  { by apply hist_ok_split. }
  { exact (do_ids _ Hd1). }
  { done. }
  { exact Ht. }
  unfold rollback_tail, guarded, undo_ops. rewrite Hrun. exists e2, vs2, ss2.
  split; [done|split; [|split; [done|split; [|by rewrite R4]]]].
  - split.
    + done.
    + by rewrite R4.
    + by eapply hist_ok_nil.
    + rewrite R4. cbn. intros t Ht'. apply Hl in Ht' as [s' Hs'].
      destruct (decide (t = txn)) as [->|]; [rewrite lookup_alter_eq, Hs; eauto|].
      rewrite lookup_alter_ne by done. eauto.
    + exact R6.
    + by rewrite R5.
  - rewrite R4. by apply others_alter.
Qed.

Lemma rollback_to_outcome e vs ss txn name :
  Inv e vs ss ->
  outcome txn e vs (rollback_to txn name)
    (fun _ e' vs' => exists tail, (split_at_savepoint txn name (txd e)).1 = Ok tail /\
       active_txns (txd e') = active_txns (txd e) /\ tracks (txd e) txn (reverse tail) vs vs').
Proof.
  intros Hinv. destruct (split_at_savepoint txn name (txd e)) as [[tail|err| |] d1] eqn:Hsp.
  { destruct (rollback_to_runs _ _ _ _ _ _ _ Hinv Hsp) as (e' & vs' & ss' & E & ? & ? & ? & ? & ?).
    unfold outcome. rewrite E. exists vs', ss'. cbn. eauto 10. }
  all: unfold outcome, rollback_to, sbind, ensure_healthy, on_txns; rewrite (in_healthy _ _ _ Hinv), Hsp;
    try done; unfold split_at_savepoint in Hsp; repeat case_match; simplify_eq.
  all: rewrite set_txd_same; by exists vs, ss; split_and!; [..|by left].
Qed.
