(* ===== verification/EnginePurge.v ===== *)
(** * The row engine: purge

    Purge judges versions by a snapshot of the views and transactions at some
    earlier moment. A stamp it calls settled stays settled whatever runs in
    between ([settled_now] is kept by every step), so the versions it frees are
    ones no view, present or future, can reach. *)

From S2P Require Import Prelude Core Mvcc Txn Engine EngineInv EngineOps EngineUndo.
From stdpp Require Import base gmap list sets functions sorting.
From Stdlib Require Import ZArith Lia Strings.Byte.

Import BtreeEngine.

(** [x] has ended and every view a live transaction may read under sees it. *)
Record settled_now (d : TxnDomain) (x : Z) : Prop := {
  sn_begun : (x < next_txn_id d)%Z;
  sn_ended : x ∉ active_txns d;
  sn_seen : forall t s view, txns d !! t = Some s -> has_view s view -> sees view x = true }.

Definition snap_ok (snap : PurgeSnapshot) (d : TxnDomain) : Prop :=
  forall x, settled snap x = true -> settled_now d x.

Lemma settled_snapshot e : snap_ok (purge_snapshot e) (txd e).
Proof.
  intros x. unfold settled, purge_snapshot. cbn.
  rewrite !andb_true_iff, Z.ltb_lt, bool_decide_eq_true, forallb_forall.
  intros [[H1 H2] H3]. split; [done|done|]. intros t s view Hs Hview.
  assert (s ∈ (map_to_list (txns (txd e))).*2) as Hin.
  { apply list_elem_of_fmap. exists (t, s). split; [done|]. by apply elem_of_map_to_list. }
  apply H3, list_elem_of_In, elem_of_app. destruct Hview as [->|[n Hn]].
  - left. apply list_elem_of_fmap. eauto.
  - right. apply list_elem_of_omap. exists s. by rewrite Hn.
Qed.

(** A view some live transaction reads under, or will go back to. *)
Definition protected (d : TxnDomain) (view : ReadView) : Prop :=
  (exists t s, txns d !! t = Some s /\ has_view s view) \/ late d view.

Lemma settled_seen d x view :
  (1 <= x)%Z -> settled_now d x -> protected d view -> sees view x = true.
Proof. intros Hx [S1 S2 S3] [(t & s & Hs & Hv)|Hl]; [by eapply S3|apply Hl; [lia|done]]. Qed.

(** Who sees a settled delete sees the version it deleted. *)
Lemma settled_delete_seen d vs k v view :
  hist_ok d vs 0 [] -> domain_ok d -> v ∈ vs k -> xmax (u_meta v) <> NO_XMAX ->
  settled_now d (xmax (u_meta v)) -> protected d view -> sees view (xmin (u_meta v)) = true.
Proof.
  intros Hh Hd Hin Hx Hs Hp. pose proof (ho_stamps _ _ _ _ Hh k v Hin) as [Hr1 Hr2].
  assert (sees view (xmax (u_meta v)) = true) as Hsee.
  { eapply settled_seen; [|done..]. destruct Hr2; [done|lia]. }
  destruct Hp as [(o & s & Ho & Hv)|Hl].
  - eapply (ho_views _ _ _ _ Hh k v o s view); try done. intros ->.
    apply (sn_ended _ _ Hs), (do_active _ Hd). eauto.
  - destruct (ho_deleted _ _ _ _ Hh k v Hin Hx) as [->|Hna]; [done|]. by apply Hl.
Qed.

Lemma row_undo_truncate t ops v rest :
  row_undo t ops (v :: rest) -> xmin (u_meta v) <> t ->
  row_undo t ops [MkUndo (MkMeta (xmin (u_meta v)) (xmax (u_meta v)) NO_UNDO) (u_tuple v)].
Proof.
  intros H. remember (v :: rest) as vs eqn:Hvs. revert v rest Hvs.
  induction H as [vs Hn|tb r w Hx1 Hx2|tb r old i ops w x vs Hx1 Hx2 Hi Ho Hm H IH
                 |tb r old m ops w vs Hx Hd Hm H IH]; intros v rest Hvs Hne; simplify_eq.
  - constructor. intros w ->%list_elem_of_singleton. cbn. apply Hn. left.
  - econstructor; [done|done|done|].
    exact (IH (set_xmax NO_XMAX v) rest eq_refl Hne).
Qed.

Lemma hist_replace d vs k new :
  hist_ok d vs 0 [] ->
  (forall v, v ∈ new -> exists w, w ∈ vs k /\ xmin (u_meta v) = xmin (u_meta w) /\
    xmax (u_meta v) = xmax (u_meta w)) ->
  (forall v rest w, new = v :: rest -> w ∈ rest -> xmax (u_meta w) = NO_XMAX) ->
  (forall t, t ∈ active_txns d -> row_undo t (ops_on k (log_of d 0 [] t)) new) ->
  hist_ok d (<[k := new]> vs) 0 [].
Proof.
  intros [H1 H2 H3 H4 H5] Hsub Htail Hundo. split.
  - intros k' v. rewrite upd_at. case_decide; [|apply H1].
    intros (w & Hw & -> & ->)%Hsub. by apply (H1 k).
  - intros k' v rest w. rewrite upd_at. case_decide; [apply Htail|apply H2].
  - intros k' v. rewrite upd_at. case_decide; [|apply H3].
    intros (w & Hw & -> & ->)%Hsub. by apply (H3 k).
  - intros k' v o s view. rewrite upd_at. case_decide; [|apply H4].
    intros (w & Hw & -> & ->)%Hsub. by apply (H4 k).
  - intros t k' Ht. rewrite upd_at. case_decide; [subst; by apply Hundo|by apply H5].
Qed.

(** The engine after [free_chain] ran on row [k]'s chain and the row was
    replaced by [value]. *)
Lemma rep_freed_row e e' vs ss k u' value new :
  rep e vs ss -> freed (reclaim e) u' (ss k) -> reclaim e' = u' ->
  row_at e' k = value -> (forall k', k' <> k -> row_at e' k' = row_at e k') ->
  row_rep (arena u') value new [] ->
  rep e' (<[k := new]> vs) (<[k := []]> ss).
Proof.
  intros [Hr Hu] Hf Eu Hk Hother Hnew. split; rewrite Eu.
  - intros k'. rewrite !upd_at. case_decide as Hc; subst.
    + exact Hnew.
    + rewrite Hother by done. eapply row_rep_freed; [exact Hf| |apply Hr].
      intros j Hj Hj'. by apply Hc, (ur_disj _ _ Hu _ _ j).
  - eapply undo_rep_freed; [done|done|apply Hr].
Qed.

Record purged (e e' : Engine) (vs vs' : Versions) (ss' : Slots) : Prop := {
  pu_inv : Inv e' vs' ss';
  pu_txd : txd e' = txd e;
  pu_stable : forall view k, protected (txd e) view -> resolve view (vs' k) = resolve view (vs k) }.

Section PurgeRow.
Context (e : Engine) (vs : Versions) (ss : Slots) (Hinv : Inv e vs ss).
Context (table row_id : Z) (t : TableState) (v : UndoVersion) (rest : list UndoVersion).
Let k : Key := (table, row_id).
Context (Ht : tables e !! table = Some t).
Context (Hv : rows t !! row_id = Some (encode_row (u_meta v) (u_tuple v))).
Context (Hk : vs k = v :: rest) (u' : UndoDomain) (Hf : freed (reclaim e) u' (ss k)).

(** Every view sees the delete: the row and its history go. *)
Lemma purge_dead :
  xmax (u_meta v) <> NO_XMAX -> settled_now (txd e) (xmax (u_meta v)) ->
  exists e' vs' ss',
    put_table table (MkTable (base.delete row_id (rows t)) (next_row_id t)) (set_reclaim u' e) =
      (Ok tt, e') /\ purged e e' vs vs' ss'.
Proof using Hinv Ht Hv Hk Hf.
  intros Hx Hset. pose proof Hset as [S1 S2 S3]. pose proof Hinv as [Hrep Hd Hh Hl Htok Hfa].
  assert (v ∈ vs k) as Hin by (rewrite Hk; left).
  assert (xmin (u_meta v) ∉ active_txns (txd e)) as Hmin.
  { destruct (ho_deleted _ _ _ _ Hh k v Hin Hx) as [->|]; done. }
  assert (xmax (u_meta v) <> NO_XMAX -> (1 <= xmax (u_meta v) < next_txn_id (txd e))%Z) as Hxr.
  { destruct (ho_stamps _ _ _ _ Hh k v Hin) as [_ []]; done. }
  eexists _, (<[k := []]> vs), (<[k := []]> ss). split; [done|].
  set (e' := set_tables _ _).
  assert (forall k', row_at e' k' = if decide (k' = k) then None else row_at e k') as Hrow.
  { intros k'. change (row_at e' k') with
      (row_at (set_tables <[table := MkTable (base.delete row_id (rows t)) (next_row_id t)]> e) k').
    rewrite (row_at_set e (Inserted table row_id) t _ k' Ht); cbn.
    - by rewrite lookup_delete_eq.
    - intros r Hr. by rewrite lookup_delete_ne. }
  split; [|done|].
  - split; try done.
    + eapply (rep_freed_row e); [done|done|done|done| |by rewrite Hrow, decide_True].
      intros k' Hne. by rewrite Hrow, decide_False.
    + change (txd e') with (txd e). apply hist_replace; [done| | |].
      * intros w Hw. by apply elem_of_nil in Hw.
      * done.
      * intros t' Ht'. pose proof (ho_undo _ _ _ _ Hh t' k Ht') as Hru. rewrite Hk in Hru.
        rewrite (row_undo_untouched t' _ v rest Hru).
        -- constructor. intros w Hw. by apply elem_of_nil in Hw.
        -- pose proof (do_ids _ Hd _ Ht'). unfold NO_XMAX. lia.
        -- by intros E; rewrite E in Hmin.
        -- by intros E; rewrite E in S2.
    + apply (tables_ok_put e); [done|done|]. intros r. rewrite lookup_delete_is_Some. by intros [_ ?].
  - intros view k' Hp. rewrite upd_at. case_decide as Hk'; [|done]. subst k'. rewrite Hk. cbn.
    rewrite (settled_delete_seen _ _ _ _ _ Hh Hd Hin Hx Hset Hp).
    rewrite (settled_seen _ _ _ (proj1 (Hxr Hx)) Hset Hp), (proj2 (Z.eqb_neq _ _) Hx). done.
Qed.

(** Every view sees the newest version: its history goes. *)
Lemma purge_history :
  settled_now (txd e) (xmin (u_meta v)) -> meta_ok (u_meta v) ->
  exists e' vs' ss',
    on_rows table (tree_update_prefix row_id
        (encode_row (MkMeta (xmin (u_meta v)) (xmax (u_meta v)) NO_UNDO) [])) (set_reclaim u' e) =
      (Ok tt, e') /\ purged e e' vs vs' ss'.
Proof using Hinv Ht Hv Hk Hf.
  intros Hset Hm. pose proof Hset as [S1 S2 S3]. pose proof Hinv as [Hrep Hd Hh Hl Htok Hfa].
  assert (v ∈ vs k) as Hin by (rewrite Hk; left).
  set (v' := MkUndo (MkMeta (xmin (u_meta v)) (xmax (u_meta v)) NO_UNDO) (u_tuple v)).
  eexists _, (<[k := [v']]> vs), (<[k := []]> ss). split.
  { apply (on_rows_ok _ _ t); [done|]. by apply (update_prefix_meta _ (u_meta v)). }
  set (e' := set_tables _ _).
  assert (forall k', row_at e' k' = if decide (k' = k) then Some (encode_row (u_meta v') (u_tuple v'))
                                    else row_at e k') as Hrow.
  { intros k'. change (row_at e' k') with
      (row_at (set_tables <[table := MkTable (<[row_id := encode_row (u_meta v') (u_tuple v')]> (rows t))
                                             (next_row_id t)]> e) k').
    rewrite (row_at_set e (Inserted table row_id) t _ k' Ht); cbn.
    - by rewrite lookup_insert_eq.
    - intros r Hr. by rewrite lookup_insert_ne. }
  split; [|done|].
  - split; try done.
    + eapply (rep_freed_row e); [done|done|done|done| |rewrite Hrow, decide_True by done].
      * intros k' Hne. by rewrite Hrow, decide_False.
      * exists v', []. split_and!; [done|done| |constructor].
        destruct Hm as (M1 & M2 & M3). split_and!; [done|done|]. by unfold u64, NO_UNDO, U64_MAX.
    + change (txd e') with (txd e). apply hist_replace; [done| | |].
      * intros w ->%list_elem_of_singleton. by exists v.
      * intros w rest' x [= <- <-] Hx. by apply elem_of_nil in Hx.
      * intros t' Ht'. apply (row_undo_truncate _ _ v rest); [|by intros E; rewrite E in S2].
        rewrite <- Hk. by apply (ho_undo _ _ _ _ Hh).
    + apply (tables_ok_put e); [done|done|]. intros r.
      destruct (decide (r = row_id)) as [->|]; [by rewrite Hv; eauto|by rewrite lookup_insert_ne].
  - intros view k' Hp. rewrite upd_at. case_decide as Hk'; [|done]. subst k'. rewrite Hk. cbn.
    rewrite (settled_seen (txd e) (xmin (u_meta v)) view); [done| |done|done].
    by apply (ho_stamps _ _ _ _ Hh k v Hin).
Qed.
End PurgeRow.

Lemma purged_refl e vs ss : Inv e vs ss -> purged e e vs vs ss.
Proof. intros H. by split. Qed.

Lemma purge_row_ok e vs ss snap table row_id :
  Inv e vs ss -> snap_ok snap (txd e) ->
  exists e' vs' ss', purge_row snap table row_id e = (Ok tt, e') /\ purged e e' vs vs' ss'.
Proof.
  intros Hinv Hsnap. unfold purge_row.
  destruct (tables e !! table) as [t|] eqn:Ht; [|exists e, vs, ss; split; [done|by apply purged_refl]].
  destruct (rows t !! row_id) as [stored|] eqn:Hv; [|exists e, vs, ss; split; [done|by apply purged_refl]].
  pose proof (rp_rows _ _ _ (in_rep _ _ _ Hinv) (table, row_id)) as Hrow.
  unfold row_at in Hrow. cbn in Hrow. rewrite Ht, Hv in Hrow.
  destruct Hrow as (v & rest & Hk & -> & Hm & Hc). rewrite decode_encode_row by done.
  destruct (free_chain_spec _ _ _ _ Hc) as (u' & Hfree & Hf).
  destruct (negb _ && settled snap (xmax (u_meta v))) eqn:Hdead.
  - apply andb_true_iff in Hdead as [Hx%negb_true_iff%Z.eqb_neq Hs]. rewrite Hfree.
    apply (purge_dead e vs ss Hinv table row_id t v rest Ht Hv Hk u' Hf Hx). by apply Hsnap.
  - destruct (negb _ && settled snap (xmin (u_meta v))) eqn:Hold; [|exists e, vs, ss; split; [done|by apply purged_refl]].
    apply andb_true_iff in Hold as [_ Hs]. rewrite Hfree.
    apply (purge_history e vs ss Hinv table row_id t v rest Ht Hv Hk u' Hf); [by apply Hsnap|done].
Qed.

Lemma purged_trans e1 e2 e3 v1 v2 v3 s2 s3 :
  purged e1 e2 v1 v2 s2 -> purged e2 e3 v2 v3 s3 -> purged e1 e3 v1 v3 s3.
Proof.
  intros [A1 A2 A3] [B1 B2 B3]. split; [done|congruence|].
  intros view k Hp. rewrite B3, A3; [done|done|by rewrite A2].
Qed.

Lemma purge_rows_ok ids e vs ss snap table :
  Inv e vs ss -> snap_ok snap (txd e) ->
  exists e' vs' ss', purge_rows snap table ids e = (Ok tt, e') /\ purged e e' vs vs' ss'.
Proof.
  revert e vs ss. induction ids as [|id ids IH]; intros e vs ss Hinv Hsnap;
    [exists e, vs, ss; split; [done|by apply purged_refl]|].
  destruct (purge_row_ok e vs ss snap table id Hinv Hsnap) as (e1 & vs1 & ss1 & H1 & P1).
  destruct (IH e1 vs1 ss1) as (e2 & vs2 & ss2 & H2 & P2);
    [apply P1|by rewrite (pu_txd _ _ _ _ _ P1)|].
  exists e2, vs2, ss2. split; [cbn; unfold sbind; by rewrite H1|by eapply purged_trans].
Qed.

Lemma purge_batch_ok e vs ss snap table cursor :
  Inv e vs ss -> snap_ok snap (txd e) ->
  exists r e' vs' ss', purge_batch snap table cursor e = (Ok r, e') /\ purged e e' vs vs' ss'.
Proof.
  intros Hinv Hsnap. unfold purge_batch.
  destruct (tables e !! table) as [t|]; [|exists None, e, vs, ss; split; [done|by apply purged_refl]].
  set (batch := take _ _).
  destruct (purge_rows_ok batch e vs ss snap table Hinv Hsnap) as (e1 & vs1 & ss1 & H1 & P1).
  unfold sbind. rewrite H1. cbn. eauto 10.
Qed.

(** ** Orphans *)

Lemma row_rep_other a value vs ss i :
  row_rep a value vs ss -> i ∉ ss -> row_rep (<[i := None]> a) value vs ss.
Proof. apply row_rep_insert. Qed.

(** The queue still to judge, beside the domain that keeps what stays. *)
Lemma orphans_loop_ok queue u ss snap :
  undo_rep (MkUndoDomain (arena u) (free u) (orphans u ++ queue)) ss ->
  undo_rep (purge_orphans_loop snap queue u) ss /\
  (forall value vs k, row_rep (arena u) value vs (ss k) ->
     row_rep (arena (purge_orphans_loop snap queue u)) value vs (ss k)).
Proof.
  revert u. induction queue as [|[slot txn] queue IH]; intros u Hu.
  { rewrite app_nil_r in Hu. destruct u. by split. }
  cbn [purge_orphans_loop]. destruct Hu as [U1 U2 U3 U4 U5 U6]. cbn in *.
  destruct (settled snap txn).
  - destruct (U5 slot) as (Hrg & (v & Hv) & Hno).
    { rewrite fmap_app, elem_of_app. right. left. }
    rewrite (arena_get_some _ _ _ (proj1 Hrg) Hv).
    assert (forall i, i ∈ (orphans u ++ queue).*1 -> i <> slot /\ i ∈ (orphans u ++ (slot, txn) :: queue).*1)
      as Hrest.
    { intros i Hi. rewrite fmap_app, elem_of_app in Hi |- *. cbn.
      rewrite fmap_app in U4. apply NoDup_app in U4 as (_ & N1 & N2).
      cbn in N2. apply NoDup_cons in N2 as [N2 _]. rewrite elem_of_cons.
      split; [|naive_solver]. intros ->. destruct Hi as [Hi|Hi]; [|done].
      apply (N1 slot Hi). left. }
    apply lookup_lt_Some in Hv as Hlt.
    destruct (IH (MkUndoDomain (<[Z.to_nat slot := None]> (arena u)) (slot :: free u) (orphans u)))
      as [R1 R2].
    + split; cbn.
      * done.
      * constructor; [|done]. intros Hin. destruct (U3 _ Hin) as [_ Hn]. congruence.
      * intros i [->|Hi]%elem_of_cons; [by rewrite list_lookup_insert_eq|].
        destruct (U3 _ Hi) as [Hri Hn]. split; [done|].
        rewrite list_lookup_insert_ne; [done|]. apply to_nat_ne; [lia|lia|congruence].
      * rewrite fmap_app in U4 |- *. cbn in U4. eapply sublist_NoDup; [exact U4|].
        apply sublist_app; [done|]. by apply sublist_cons.
      * intros i Hi. destruct (Hrest i Hi) as [Hne Hi']. destruct (U5 i Hi') as (Hri & (w & Hw) & Hn).
        split_and!; [lia|lia| |done]. exists w.
        rewrite list_lookup_insert_ne; [done|]. apply to_nat_ne; [lia|lia|congruence].
      * by rewrite length_insert.
    + split; [done|]. intros value vs k Hr. apply R2. cbn. by apply row_rep_other.
  - destruct (IH (MkUndoDomain (arena u) (free u) (orphans u ++ [(slot, txn)]))) as [R1 R2].
    + cbn. rewrite <- app_assoc. by split.
    + split; [done|]. intros value vs k Hr. by apply R2.
Qed.

Lemma purge_orphans_ok e vs ss snap :
  Inv e vs ss -> exists e', purge_orphans snap e = (Ok tt, e') /\ purged e e' vs vs ss.
Proof.
  intros Hinv. eexists. split; [done|].
  destruct Hinv as [[Hr Hu] Hd Hh Hl Ht Hf].
  destruct (orphans_loop_ok (orphans (reclaim e))
              (MkUndoDomain (arena (reclaim e)) (free (reclaim e)) []) ss snap) as [R1 R2].
  { cbn. by destruct (reclaim e). }
  split; [|done|done]. split; try done. split; [|exact R1].
  intros k. apply (R2 _ _ k (Hr k)).
Qed.
