(* ===== verification/EngineCommit.v ===== *)
(** * The row engine: beginning, refreshing and committing transactions

    The serializable check on version lists, and the outcome of every
    operation that changes only the transaction domain. *)

From S2P Require Import Prelude Core Mvcc Txn Engine EngineInv EngineOps EngineUndo EnginePurge.
From stdpp Require Import base gmap list sets functions sorting.
From Stdlib Require Import ZArith Lia Strings.Byte.

Import BtreeEngine.

(** ** The serializable check, on version lists *)

Fixpoint list_conflict (view : ReadView) (c : Z -> bool) (vs : list UndoVersion) : bool :=
  match vs with
  | [] => false
  | v :: vs =>
      if c (xmin (u_meta v)) || (negb (xmax (u_meta v) =? NO_XMAX)%Z && c (xmax (u_meta v))) then true
      else if sees view (xmin (u_meta v)) then false
      else list_conflict view c vs
  end.

Lemma conflict_walk_chain a view c ss vs v fuel :
  chain a (undo (u_meta v)) ss vs -> length vs < fuel ->
  conflict_walk fuel a view c (u_meta v) = Ok (list_conflict view c (v :: vs)).
Proof.
  intros H. remember (undo (u_meta v)) as i eqn:Hi. revert v fuel Hi.
  induction H as [|i w ss vs Hne Hpos Hl Hc IH]; intros v fuel Hi Hf;
    (destruct fuel as [|fuel]; [simpl in Hf; lia|]); cbn [conflict_walk list_conflict];
    (destruct (c _ || _); [done|]); (destruct (sees view (xmin (u_meta v))); [done|]);
    rewrite <- Hi; cbn [orb].
  - by rewrite Z.eqb_refl.
  - rewrite (proj2 (Z.eqb_neq _ _) Hne), (arena_get_some _ _ _ Hpos Hl).
    apply (IH w); [done|simpl in Hf; lia].
Qed.

Lemma read_conflict_rep e vs ss view c k :
  rep e vs ss -> read_conflict e view c k = Ok (list_conflict view c (vs k)).
Proof.
  intros [Hr _]. specialize (Hr k). unfold read_conflict. unfold row_at in Hr.
  destruct (tables e !! k.1) as [t|]; [|by destruct Hr as [-> _]].
  destruct (rows t !! k.2) as [value|]; [|by destruct Hr as [-> _]].
  destruct Hr as (v & rest & -> & -> & Hm & Hc). rewrite decode_encode_row by done.
  eapply conflict_walk_chain; [done|]. pose proof (chain_short _ _ _ _ Hc). lia.
Qed.

(** The newest version's creator, if the row has one. *)
Definition head_conflict (c : Z -> bool) (vs : list UndoVersion) : bool :=
  match vs with [] => false | v :: _ => c (xmin (u_meta v)) end.

Lemma phantom_rows_rep e vs ss table t c ids :
  rep e vs ss -> tables e !! table = Some t ->
  phantom_rows (rows t) c ids = Ok (existsb (fun r => head_conflict c (vs (table, r))) ids).
Proof.
  intros [Hr _] Ht. induction ids as [|r ids IH]; [done|]. cbn [phantom_rows existsb].
  specialize (Hr (table, r)). unfold row_at in Hr. cbn in Hr. rewrite Ht in Hr.
  destruct (rows t !! r) as [value|]; [|by destruct Hr as [-> _]].
  destruct Hr as (v & rest & -> & -> & Hm & Hc). rewrite decode_encode_row by done.
  by rewrite IH.
Qed.

Lemma elem_of_row_ids (m : gmap Z bytes) r : r ∈ row_ids m <-> is_Some (m !! r).
Proof.
  unfold row_ids. rewrite merge_sort_Permutation, elem_of_elements, elem_of_dom. done.
Qed.

Definition predicate_reads_conflict (e : Engine) (vs : Versions) (c : Z -> bool) (table : Z) : bool :=
  match tables e !! table with
  | None => false
  | Some t => existsb (fun r => head_conflict c (vs (table, r))) (row_ids (rows t))
  end.

Lemma predicate_conflict_rep e vs ss c table :
  rep e vs ss -> predicate_conflict e c table = Ok (predicate_reads_conflict e vs c table).
Proof.
  intros Hr. unfold predicate_conflict, predicate_reads_conflict.
  destruct (tables e !! table) as [t|] eqn:Ht; [|done]. by eapply phantom_rows_rep.
Qed.

Lemma any_conflict_all {A} (f : A -> result bool) (g : A -> bool) l :
  (forall x, f x = Ok (g x)) -> any_conflict f l = Ok (existsb g l).
Proof.
  intros Hf. induction l as [|x l IH]; [done|]. cbn. rewrite Hf. cbn.
  destruct (g x); [done|exact IH].
Qed.

(** What the check decides: a conflict on a row or a predicate of a table that
    was written since the transaction began. *)
Definition checked_reads (d : TxnDomain) (s : TxnState) : list Key :=
  filter (fun p => write_moved d s p.1 = true) (elements (reads s)).
Definition checked_predicates (d : TxnDomain) (s : TxnState) : list Z :=
  filter (fun t => write_moved d s t = true) (elements (predicate_reads s)).
Definition check_stamps (d : TxnDomain) (txn : Z) (s : TxnState) : Z -> bool :=
  conflicting txn (snapshot s) (active_txns d) (staged d ∪ list_to_set (map_to_list (prepared_gids d)).*2).

Lemma serializable_check e vs ss txn s :
  rep e vs ss -> txns (txd e) !! txn = Some s ->
  serializable_read_conflict e txn =
  Ok (bool_decide (level s = Serializable) &&
      (existsb (fun k => list_conflict (snapshot s) (check_stamps (txd e) txn s) (vs k))
         (checked_reads (txd e) s) ||
       existsb (predicate_reads_conflict e vs (check_stamps (txd e) txn s))
         (checked_predicates (txd e) s))).
Proof.
  intros Hrep Hs. unfold serializable_read_conflict. rewrite Hs.
  fold (checked_reads (txd e) s) (checked_predicates (txd e) s) (check_stamps (txd e) txn s).
  case_bool_decide as Hlvl; cbn [negb orb andb]; [|done].
  destruct (bool_decide (reads s = ∅) && bool_decide (predicate_reads s = ∅)) eqn:Hemp.
  { apply andb_true_iff in Hemp as [E1%bool_decide_eq_true E2%bool_decide_eq_true].
    unfold checked_reads, checked_predicates. by rewrite E1, E2, !elements_empty. }
  destruct (bool_decide (checked_reads _ _ = []) && bool_decide (checked_predicates _ _ = [])) eqn:Hnil.
  { apply andb_true_iff in Hnil as [E1%bool_decide_eq_true E2%bool_decide_eq_true]. by rewrite E1, E2. }
  rewrite (any_conflict_all _ (fun k => list_conflict (snapshot s) (check_stamps (txd e) txn s) (vs k)))
    by (intros k; by eapply read_conflict_rep).
  cbn [rbind]. destruct (existsb _ (checked_reads _ _)); [done|]. cbn [orb].
  apply any_conflict_all. intros t. by eapply predicate_conflict_rep.
Qed.

(** ** Domain-only changes *)

Lemma Inv_txd e vs ss d' :
  Inv e vs ss -> domain_ok d' -> hist_ok d' vs 0 [] ->
  (forall t, t ∈ active_txns d' -> is_Some (txns d' !! t)) -> Inv (set_txd d' e) vs ss.
Proof. intros [[R1 R2] _ _ _ Ht Hf] Hd Hh Hl. split; [by split|done|done|done|exact Ht|exact Hf]. Qed.

(** A view taken now sees a deletion only if it sees the creation. *)
Lemma fresh_view_order d vs o k v :
  hist_ok d vs 0 [] -> v ∈ vs k -> xmax (u_meta v) <> NO_XMAX -> o <> xmax (u_meta v) ->
  sees (fresh_view d o) (xmax (u_meta v)) = true ->
  sees (fresh_view d o) (xmin (u_meta v)) = true.
Proof.
  intros Hh Hv Hx Hne. rewrite !fresh_view_sees. intros [E|[Hlt Hna]]; [congruence|]. right.
  destruct (ho_stamps _ _ _ _ Hh k v Hv) as [Hs _].
  destruct (ho_deleted _ _ _ _ Hh k v Hv Hx) as [->|Hn]; [done|]. split; [lia|done].
Qed.

(** Steps that only change views, to ones already held or taken now. *)
Record view_step (d d' : TxnDomain) : Prop := {
  vw_next : next_txn_id d' = next_txn_id d;
  vw_active : active_txns d' = active_txns d;
  vw_log : forall t, undo_log <$> txns d' !! t = undo_log <$> txns d !! t;
  vw_views : forall t s' view, txns d' !! t = Some s' -> has_view s' view ->
    (exists s, txns d !! t = Some s /\ has_view s view) \/ view = fresh_view d t }.

Lemma hist_ok_views d d' vs : hist_ok d vs 0 [] -> view_step d d' -> hist_ok d' vs 0 [].
Proof.
  intros Hh [En Ea El Ev]. pose proof Hh as [H1 H2 H3 H4 H5].
  split; rewrite ?En, ?Ea; try assumption.
  - intros k v o s' view Hv Hx Ho Hview Hne Hsee.
    destruct (Ev o s' view Ho Hview) as [(s & Hs & Hv')| ->]; [by eapply H4|].
    by apply (fresh_view_order d vs o k v).
  - intros t k Ht. specialize (H5 t k Ht). unfold log_of in *. specialize (El t).
    destruct (txns d !! t) as [s|], (txns d' !! t) as [s'|]; try done.
    cbn in El. apply (inj Some) in El. by rewrite El.
Qed.

Lemma view_step_live d d' :
  view_step d d' -> (forall t, t ∈ active_txns d -> is_Some (txns d !! t)) ->
  forall t, t ∈ active_txns d' -> is_Some (txns d' !! t).
Proof.
  intros [_ Ea El _] Hl t. rewrite Ea. intros Ht. apply Hl in Ht as [s Hs].
  specialize (El t). rewrite Hs in El. destruct (txns d' !! t); [eauto|done].
Qed.

Lemma Inv_views e vs ss d' :
  Inv e vs ss -> domain_ok d' -> view_step (txd e) d' -> Inv (set_txd d' e) vs ss.
Proof.
  intros Hinv Hd Hv. apply Inv_txd; [done|done| |].
  - eapply hist_ok_views; [apply Hinv|done].
  - eapply view_step_live; [done|apply Hinv].
Qed.

Lemma view_step_alter d t f :
  (forall s, undo_log (f s) = undo_log s) ->
  (forall s view, txns d !! t = Some s -> has_view (f s) view ->
     has_view s view \/ view = fresh_view d t) ->
  view_step d (alter_txn f t d).
Proof.
  intros Hl Hv. split; cbn; [done|done| |].
  - intros t'. destruct (decide (t' = t)) as [->|]; [|by rewrite lookup_alter_ne].
    rewrite lookup_alter_eq. destruct (txns d !! t) as [s|]; [|done]. cbn. by rewrite Hl.
  - intros t' s' view Ht' Hview. destruct (decide (t' = t)) as [->|].
    + rewrite lookup_alter_eq in Ht'. destruct (txns d !! t) as [s|] eqn:Hs; [|done].
      cbn in Ht'. simplify_eq. destruct (Hv s view eq_refl Hview) as [?| ->]; eauto.
    + rewrite lookup_alter_ne in Ht' by done. eauto.
Qed.

Lemma begin_statement_step d txn : view_step d (begin_statement txn d).
Proof.
  unfold begin_statement.
  set (f := fun s : TxnState => set_statements (statements s + 1) s).
  assert (view_step d (alter_txn f txn d)) as H1.
  { apply view_step_alter; [done|]. intros s view _ H. left. exact H. }
  destruct (txns (alter_txn f txn d) !! txn) as [s|] eqn:Hs; [|done].
  destruct (refreshes (level s)); [|done].
  change (fresh_view (alter_txn f txn d) txn) with (fresh_view d txn).
  assert (alter_txn (set_pinned (fresh_view d txn)) txn (alter_txn f txn d)
          = alter_txn (fun s => set_pinned (fresh_view d txn) (f s)) txn d) as ->.
  { clear. destruct d as [tx]. unfold alter_txn, set_txns. cbn. f_equal. apply map_eq. intros i.
    destruct (decide (i = txn)) as [->|Hne]; [|by rewrite !lookup_alter_ne].
    rewrite !lookup_alter_eq. by destruct (tx !! txn). }
  apply view_step_alter; [done|]. intros s' view _ [->|[n Hn]]; [by right|left; right; eauto].
Qed.

Lemma begin_fresh_step d txn r d' : begin_fresh_reads txn d = (r, d') -> view_step d d'.
Proof.
  unfold begin_fresh_reads. destruct (txns d !! txn) as [s|] eqn:Hs.
  2:{ intros [= <- <-]. rewrite <- (alter_held_id txn d) at 2.
      apply view_step_alter; [done|]. intros s view _ H. left. exact H. }
  destruct (fresh_reads s) as [[n v]|] eqn:Hf; [case_decide|]; intros [= <- <-];
    (apply view_step_alter; [done|]); intros s' view Hs' [->|[m Hm]]; simplify_eq;
    try (by right); cbn in Hm; simplify_eq; left; [right; eauto|by left].
Qed.

Lemma end_fresh_step d txn : view_step d (end_fresh_reads txn d).
Proof.
  apply view_step_alter.
  - intros s. unfold end_fresh. by destruct (fresh_reads s) as [[n v]|]; [destruct (n =? 1)%Z|].
  - intros s view Hs. unfold end_fresh. destruct (fresh_reads s) as [[n v]|] eqn:Hf.
    + destruct (n =? 1)%Z; intros [->|[m Hm]]; cbn in *; simplify_eq; left;
        [right; eauto|by left|right; eauto].
    + intros H. by left.
Qed.

Lemma hist_ok_begin d vs lvl id d' :
  hist_ok d vs 0 [] -> domain_ok d -> begin lvl d = (Ok id, d') -> hist_ok d' vs 0 [].
Proof.
  intros Hh Hd Hb. pose proof Hh as [H1 H2 H3 H4 H5].
  unfold begin in Hb. case_decide as Hov; [|done]. simplify_eq.
  set (id := next_txn_id d) in *.
  assert (forall k v, v ∈ vs k -> xmin (u_meta v) <> id /\ xmax (u_meta v) <> id) as Hfresh.
  { intros k v Hv. destruct (H1 k v Hv) as [A B]. pose proof (do_next _ Hd). unfold NO_XMAX in *.
    unfold id. lia. }
  split; cbn [next_txn_id active_txns set_txns set_active set_next_txn_id txns].
  - intros k v Hv. destruct (H1 k v Hv) as [A B]. fold id. lia.
  - done.
  - intros k v Hv Hx. destruct (H3 k v Hv Hx) as [?|Hn]; [by left|right].
    destruct (Hfresh k v Hv). set_solver.
  - intros k v o s view Hv Hx Ho Hview Hne Hsee. destruct (decide (o = id)) as [->|Hoid].
    + rewrite lookup_insert_eq in Ho. simplify_eq. destruct Hview as [->|[n Hn]]; [|done].
      cbn [pinned] in *.
      assert (forall x, sees (fresh_view d id) x =
                sees (fresh_view (set_active (fun a => a ∪ {[id]}) (set_next_txn_id (id + 1) d)) id) x)
        as Heq.
      { intros x. apply eq_bool_prop_intro. rewrite !Is_true_true, !fresh_view_sees. cbn. fold id.
        assert (id ∉ active_txns d) by (intros ?%(do_ids _ Hd); unfold id in *; lia).
        destruct (decide (x = id)) as [->|]; [naive_solver|]. set_solver by lia. }
      rewrite <- Heq in *. by apply (fresh_view_order d vs id k v).
    + rewrite lookup_insert_ne in Ho by done. by apply (H4 k v o s).
  - intros t k Ht. unfold log_of. cbn [txns set_txns set_active set_next_txn_id]. destruct (decide (t = id)) as [->|Htid].
    + rewrite lookup_insert_eq. cbn [undo_log]. destruct (decide (id = 0)%Z); constructor; apply Hfresh.
    + rewrite lookup_insert_ne by done. apply H5. set_solver.
Qed.

Lemma begin_inv e vs ss lvl id d' :
  Inv e vs ss -> begin lvl (txd e) = (Ok id, d') ->
  Inv (set_txd d' e) vs ss /\ id = next_txn_id (txd e) /\
  (exists s, txns d' !! id = Some s /\ pinned s = fresh_view d' id /\ fresh_reads s = None /\
     undo_log s = [] /\ level s = lvl).
Proof.
  intros Hinv Hb. pose proof (in_dom _ _ _ Hinv) as Hd.
  destruct (domain_ok_begin _ _ _ _ Hd Hb) as [[_ Hd']|]; [|done].
  pose proof (hist_ok_begin _ _ _ _ _ (in_hist _ _ _ Hinv) Hd Hb) as Hh.
  pose proof Hb as Hb'. unfold begin in Hb'. case_decide as Hov; [|done]. simplify_eq.
  split_and!; [|done|].
  - apply Inv_txd; [done|done|done|]. cbn. intros t [Ht| ->%elem_of_singleton]%elem_of_union.
    + destruct (decide (t = next_txn_id (txd e))) as [->|]; [by rewrite lookup_insert_eq; eauto|].
      rewrite lookup_insert_ne by done. by apply Hinv.
    + rewrite lookup_insert_eq. eauto.
  - cbn. rewrite lookup_insert_eq. eexists. split_and!; [done|done|done|done|done].
Qed.

(** ** Commit *)

(** Changes to the write-version counters and the staged set. *)
Record stage_step (d d' : TxnDomain) : Prop := {
  ss_txns : txns d' = txns d;
  ss_active : active_txns d' = active_txns d;
  ss_next : next_txn_id d' = next_txn_id d;
  ss_locks : locks d' = locks d }.

Lemma domain_ok_stage d d' :
  domain_ok d -> stage_step d d' -> staged d' ⊆ active_txns d -> domain_ok d'.
Proof.
  intros [[L1 L2 L3 L4] H2 H3 H4 H5 H6] [E1 E2 E3 E4] Hst.
  split; rewrite ?E1, ?E2, ?E3; try assumption.
  - split; rewrite ?E1, ?E4; try assumption. intros t s id. unfold holders_of.
    rewrite E4. apply L4.
  - intros t s Hs. eapply txn_ok_mono; [by apply H5|lia|rewrite E2; auto].
Qed.

Lemma hist_ok_stage d d' vs a pend : hist_ok d vs a pend -> stage_step d d' -> hist_ok d' vs a pend.
Proof.
  intros Hh [E1 E2 E3 E4]. eapply hist_ok_dom; [done|]. split; [done|done|]. by rewrite E1.
Qed.

(** The transaction leaves the table and the active set; its versions stay. *)
Lemma Inv_finish e vs ss txn s d1 :
  Inv e vs ss -> txns (txd e) !! txn = Some s -> stage_step (txd e) d1 ->
  staged d1 ⊆ active_txns (txd e) ∖ {[txn]} ->
  let d2 := Txn.finish_commit txn d1 in
  Inv (set_txd d2 e) vs ss /\ others txn (set_staged (fun _ => staged d1) (txd e)) d2 /\
  txn ∉ active_txns d2 /\
  (forall id, holders_of d2 id !! txn = None).
Proof.
  intros Hinv Hs Hst Hsub d2. pose proof Hinv as [Hrep Hd Hh Hl Ht Hf].
  assert (domain_ok d1) as Hd1 by (apply (domain_ok_stage (txd e)); [done|done|set_solver]).
  pose proof Hst as [E1 E2 E3 E4].
  assert (txns d1 !! txn = Some s) as Hs1 by by rewrite E1.
  assert (d2 = set_active (fun a => a ∖ {[txn]})
            (release_locks txn (held s) (set_txns (base.delete txn) d1))) as Hd2.
  { unfold d2, Txn.finish_commit. by rewrite Hs1. }
  rewrite Hd2. split_and!.
  - apply Inv_txd; [done| | |].
    + apply domain_ok_end; [done|done|set_solver].
    + apply (hist_ok_end d1 _ _ txn); [|done|done|done].
      eapply hist_ok_nil, hist_ok_stage; done.
    + cbn. rewrite E1, E2. intros t [Ht' Hne]%elem_of_difference.
      rewrite lookup_delete_ne by set_solver. auto.
  - split; cbn; rewrite ?E1, ?E2, ?E3; [lia|set_solver| | |done].
    + intros o Ho _. by rewrite lookup_delete_ne.
    + intros t s' view [_ Ht']%lookup_delete_Some Hview. eauto.
  - cbn. set_solver.
  - intros id. destruct (locks_ok_release _ _ _ (do_locks _ Hd1) Hs1) as [_ Hg].
    exact (Hg id).
Qed.

Lemma others_staged a d d' : others a (set_staged (fun _ => staged d) d) d' -> others a d d'.
Proof. by destruct d. Qed.

Lemma finish_commit_run txn e :
  exists n, finish_commit txn e = (Ok tt, set_data_version n (set_txd (Txn.finish_commit txn (txd e)) e)).
Proof.
  unfold finish_commit. destruct (match txns (txd e) !! txn with Some _ => _ | None => _ end).
  - eexists. done.
  - exists (data_version e). by destruct e.
Qed.

Lemma Inv_data_version e vs ss n : Inv e vs ss -> Inv (set_data_version n e) vs ss.
Proof. intros [[R1 R2] Hd Hh Hl Ht Hf]. by split. Qed.

Lemma validate_cases e vs ss txn :
  Inv e vs ss -> txn ∉ staged (txd e) ->
  (validate_commit txn e = (Ok tt, e) /\
     exists s, txns (txd e) !! txn = Some s /\ prepared s = None /\
       serializable_read_conflict e txn = Ok false) \/
  (exists err e' vs' ss', validate_commit txn e = (Err err, e') /\ Inv e' vs' ss' /\
     stable txn vs vs' /\ others txn (txd e) (txd e') /\ (vs' = vs /\ active_txns (txd e') = active_txns (txd e) \/ gone txn (txd e') vs')).
Proof.
  intros Hinv Hst. unfold validate_commit, sbind, ensure_healthy, check_commit.
  rewrite (in_healthy _ _ _ Hinv).
  destruct (txns (txd e) !! txn) as [s|] eqn:Hs; [|right; eexists _, e, vs, ss; by split_and!; [..|by left]].
  destruct (prepared s) eqn:Hp; [right; eexists _, e, vs, ss; by split_and!; [..|by left]|].
  rewrite (serializable_check e vs ss txn s (in_rep _ _ _ Hinv) Hs).
  destruct (_ && _); [|left; eauto].
  destruct (abort_outcome e vs ss txn s Hinv Hs Hst) as (e' & vs' & ss' & Hrun & H1 & H2 & H3 & H4 & H5 & _).
  right. exists (SerializationConflict txn), e', vs', ss'. split_and!; [|done|done|done|by right].
  revert Hrun. unfold sbind, take_txn. rewrite Hs. intros Hrun. by rewrite Hrun.
Qed.

Lemma commit_outcome e vs ss txn :
  Inv e vs ss -> txn ∉ staged (txd e) ->
  outcome txn e vs (commit txn)
    (fun _ e' vs' => vs' = vs /\ txn ∉ active_txns (txd e') /\
       (forall id, holders_of (txd e') id !! txn = None) /\
       serializable_read_conflict e txn = Ok false).
Proof.
  intros Hinv Hst. unfold outcome, commit. unfold sbind at 1.
  destruct (validate_cases e vs ss txn Hinv Hst)
    as [[-> (s & Hs & _ & Hck)]|(err & e' & vs' & ss' & -> & H1 & H2 & H3)]; [|eauto].
  unfold sbind at 1. cbn [on_txns].
  set (d1 := bump_finished_versions _ _). set (e1 := set_txd d1 e).
  destruct (finish_commit_run txn e1) as [n ->].
  destruct (Inv_finish e vs ss txn s d1 Hinv Hs) as (I1 & I2 & I3 & I4); [by split| |].
  { cbn. pose proof (do_staged _ (in_dom _ _ _ Hinv)). set_solver. }
  exists vs, ss. split_and!; [by apply Inv_data_version|done|by apply others_staged|done|done|done|done].
Qed.

(** A transaction whose undo log is empty has no version anywhere. *)
Lemma wrote_nothing e vs ss txn s :
  Inv e vs ss -> txns (txd e) !! txn = Some s -> undo_log s = [] -> no_stamps vs txn.
Proof.
  intros Hinv Hs Hu k v Hv. pose proof (ho_undo _ _ _ _ (in_hist _ _ _ Hinv) txn k) as H.
  assert (txn ∈ active_txns (txd e)) as Hact by (apply (do_active _ (in_dom _ _ _ Hinv)); eauto).
  specialize (H Hact). unfold log_of in H. rewrite Hs, Hu in H.
  rewrite (decide_False (P := txn = 0%Z)) in H
    by (pose proof (do_ids _ (in_dom _ _ _ Hinv) _ Hact); lia).
  cbn in H. inversion H as [? Hn| | |]; subst. auto.
Qed.

(** Staging leaves every row alone. The transaction is then staged, or, having
    written nothing, over. *)
Lemma commit_stage_outcome e vs ss txn marker :
  Inv e vs ss -> txn ∉ staged (txd e) ->
  match commit_stage txn marker e with
  | (Ok _, e') => Inv e' vs ss /\ serializable_read_conflict e txn = Ok false /\
      (others txn (txd e) (txd e') /\ gone txn (txd e') vs \/
       marker = None /\ txn ∈ active_txns (txd e) /\ active_txns (txd e') = active_txns (txd e) /\
       others txn (set_staged (fun s => s ∪ {[txn]}) (txd e)) (txd e'))
  | (Err _, e') => exists vs' ss', Inv e' vs' ss' /\ stable txn vs vs' /\
      others txn (txd e) (txd e') /\ (vs' = vs /\ active_txns (txd e') = active_txns (txd e) \/ gone txn (txd e') vs')
  | _ => False
  end.
Proof.
  intros Hinv Hst. unfold commit_stage. unfold sbind at 1.
  destruct (validate_cases e vs ss txn Hinv Hst)
    as [[-> (s & Hs & _ & Hck)]|(err & e' & vs' & ss' & -> & H1 & H2 & H3 & H4)]; [|by eauto 10].
  assert (txn ∈ active_txns (txd e)) as Hact by (apply (do_active _ (in_dom _ _ _ Hinv)); eauto).
  rewrite Hs. destruct (negb (negb _)) eqn:Hw.
  - rewrite negb_involutive in Hw. apply bool_decide_eq_true in Hw.
    destruct (finish_commit_run txn e) as [n ->].
    destruct (Inv_finish e vs ss txn s (txd e) Hinv Hs) as (I1 & I2 & I3 & _); [by split| |].
    { pose proof (do_staged _ (in_dom _ _ _ Hinv)). set_solver. }
    split_and!; [by apply Inv_data_version|done|left]. split; [by apply others_staged|].
    split; [done|]. by apply (wrote_nothing e vs ss txn s).
  - destruct marker as [error|].
    + destruct (abort_outcome e vs ss txn s Hinv Hs Hst)
        as (e' & vs' & ss' & Hrun & H1 & H2 & H3 & H4 & H5 & _).
      revert Hrun. unfold sbind, take_txn. rewrite Hs. intros Hrun. rewrite Hrun. cbn.
      exists vs', ss'. split_and!; [done|done|done|by right].
    + set (d1 := set_staged _ _). pose proof Hinv as [Hrep Hd Hh Hl Ht Hf].
      assert (stage_step (txd e) d1) as Hss by by split.
      split_and!; [|done|right; split_and!; [done|done|done|]].
      * apply Inv_txd; [done| | |done]; [|by eapply hist_ok_stage].
        apply (domain_ok_stage (txd e)); [done|done|]. cbn.
        pose proof (do_staged _ Hd). set_solver.
      * split; cbn; eauto; lia.
Qed.

Lemma commit_finish_outcome e vs ss txn s :
  Inv e vs ss -> txns (txd e) !! txn = Some s ->
  exists e', commit_finish txn e = (Ok tt, e') /\ Inv e' vs ss /\ txn ∉ active_txns (txd e') /\
    others txn (set_staged (fun s => s ∖ {[txn]}) (txd e)) (txd e').
Proof.
  intros Hinv Hs. unfold commit_finish. unfold sbind at 1. cbn [on_txns].
  set (d1 := bump_finished_versions _ _). set (e1 := set_txd d1 e).
  destruct (finish_commit_run txn e1) as [n ->].
  destruct (Inv_finish e vs ss txn s d1 Hinv Hs) as (I1 & I2 & I3 & I4); [by split| |].
  { cbn. pose proof (do_staged _ (in_dom _ _ _ Hinv)). set_solver. }
  eexists. split_and!; [done|by apply Inv_data_version|done|done].
Qed.
