(* ===== verification/EngineSys.v ===== *)
(** * The row engine as a transition system

    Sessions and the purge worker take atomic steps on one engine in any
    order. Purge works from snapshots taken at earlier moments, so the system's
    state carries the snapshots still in use. *)

From S2P Require Import Prelude Core Mvcc Txn Engine EngineInv EngineOps EngineUndo EnginePurge EngineCommit.
From stdpp Require Import base gmap list sets functions sorting strings.
From Stdlib Require Import ZArith Lia Strings.Byte.

Import BtreeEngine.

Inductive action :=
| ABegin (lvl : IsolationLevel)
| AStatement (t : Z)
| ABeginFresh (t : Z)
| AEndFresh (t : Z)
| ASavepoint (t : Z) (name : string)
| AReleaseSavepoint (t : Z) (name : string)
| ARollbackTo (t : Z) (name : string)
| ALockRow (t table : Z) (tid : Tid) (mode : RowLockMode)
| ALockKey (t table hash : Z) (mode : RowLockMode)
| ALockTable (t table : Z) (mode : TableLockMode) (label : string)
| AInsert (t table : Z) (tuple : bytes)
| AUpdate (t table : Z) (tid : Tid) (tuple : bytes)
| ADelete (t table : Z) (tid : Tid)
| AScan (t table : Z)
| AScanCommitted (t table : Z)
| ACommit (t : Z)
| AStage (t : Z) (marker : option Error)
| AFinish (t : Z)
| ARollback (t : Z).

(** Whose step it is; a transaction that begins takes the next id. *)
Definition actor (e : Engine) (a : action) : Z :=
  match a with
  | ABegin _ => next_txn_id (txd e)
  | AStatement t | ABeginFresh t | AEndFresh t | ASavepoint t _ | AReleaseSavepoint t _
  | ARollbackTo t _ | ALockRow t _ _ _ | ALockKey t _ _ _ | ALockTable t _ _ _
  | AInsert t _ _ | AUpdate t _ _ _ | ADelete t _ _ | AScan t _ | AScanCommitted t _
  | ACommit t | AStage t _ | AFinish t | ARollback t => t
  end.

(** [begin] waits out a checkpoint's pause; a session whose commit is staged
    does nothing until the log is synced. *)
Definition enabled (e : Engine) (a : action) : Prop :=
  match a with
  | ABegin _ => begin_enabled (txd e) = true
  | AFinish t => t ∈ staged (txd e)
  | _ => actor e a ∉ staged (txd e)
  end.

Definition discard {A} (m : eng A) : eng unit := let* _ := m in sret tt.

Section System.
Context (wl rl : option Z) (pb : Engine -> Z) (re : Z -> Z -> Error).

Definition perform (a : action) : eng unit :=
  match a with
  | ABegin lvl => let* _ := ensure_healthy in discard (on_txns (begin lvl))
  | AStatement t =>
      let* _ := ensure_healthy in on_txns (fun d => (Ok tt, begin_statement t d))
  | ABeginFresh t => on_txns (begin_fresh_reads t)
  | AEndFresh t => on_txns (fun d => (Ok tt, end_fresh_reads t d))
  | ASavepoint t name => on_txns (savepoint t name)
  | AReleaseSavepoint t name => on_txns (release_savepoint t name)
  | ARollbackTo t name => rollback_to t name
  | ALockRow t table tid mode => on_txns (lock_row t table tid mode)
  | ALockKey t table hash mode => on_txns (lock_key t table hash mode)
  | ALockTable t table mode label => on_txns (lock_table t table mode label)
  | AInsert t table tuple => discard (insert wl rl pb re t table tuple)
  | AUpdate t table tid tuple => discard (update wl rl pb re t table tid tuple)
  | ADelete t table tid => delete wl t table tid
  | AScan t table => discard (scan t table)
  | AScanCommitted t table => discard (scan_committed t table)
  | ACommit t => commit t
  | AStage t marker => commit_stage t marker
  | AFinish t => commit_finish t
  | ARollback t => rollback t
  end.

(** Label 0 is purge: no transaction has it. *)
Inductive step : Engine * list PurgeSnapshot -> Z -> Engine * list PurgeSnapshot -> Prop :=
| step_act e snaps a r e' :
    enabled e a -> perform a e = (r, e') -> r <> Panic ->
    step (e, snaps) (actor e a) (e', snaps)
| step_snapshot e snaps :
    step (e, snaps) 0 (e, purge_snapshot e :: snaps)
| step_batch e snaps snap table cursor r e' :
    snap ∈ snaps -> purge_batch snap table cursor e = (r, e') ->
    step (e, snaps) 0 (e', snaps)
| step_orphans e snaps snap r e' :
    snap ∈ snaps -> purge_orphans snap e = (r, e') ->
    step (e, snaps) 0 (e', snaps).

(** Empty tables under the given ids. *)
Definition initial (ids : gset Z) : Engine :=
  MkEngine (gset_to_gmap (MkTable ∅ 0) ids) (MkUndoDomain [] [] []) domain_default None 0.

Inductive reachable (ids : gset Z) : Engine * list PurgeSnapshot -> Prop :=
| reach_init : reachable ids (initial ids, [])
| reach_step w t w' : reachable ids w -> step w t w' -> reachable ids w'.
End System.

(** ** How the domain evolves *)

Record evolves (a : Z) (d d' : TxnDomain) : Prop := {
  ev_next : (next_txn_id d <= next_txn_id d')%Z;
  ev_active : forall x, x ∈ active_txns d' -> x ∈ active_txns d \/ (next_txn_id d <= x)%Z;
  ev_txns : forall o, o <> a -> (o < next_txn_id d)%Z -> txns d' !! o = txns d !! o;
  ev_views : forall t s' view, txns d' !! t = Some s' -> has_view s' view ->
    (exists s, txns d !! t = Some s /\ has_view s view) \/
    (forall x, (x < next_txn_id d)%Z -> x ∉ active_txns d -> sees view x = true) }.

Lemma others_evolves a d d' : others a d d' -> evolves a d d'.
Proof. intros [H1 H2 H3 H4 H5]. cbn in *. split; eauto. lia. Qed.

Lemma evolves_staged a f d d' : others a (set_staged f d) d' -> evolves a d d'.
Proof. intros [H1 H2 H3 H4 H5]. cbn in *. split; eauto. lia. Qed.

Lemma view_step_evolves a d d' :
  view_step d d' -> (forall o, o <> a -> txns d' !! o = txns d !! o) -> evolves a d d'.
Proof.
  intros [En Ea El Ev] Ho. split; [lia|rewrite Ea; auto|auto|].
  intros t s' view Ht Hv. destruct (Ev t s' view Ht Hv) as [?| ->]; [eauto|].
  right. intros x Hx Hna. apply fresh_view_sees. auto.
Qed.

(** What a snapshot judged settled stays settled. *)
Lemma settled_mono a d d' x : evolves a d d' -> settled_now d x -> settled_now d' x.
Proof.
  intros [H1 H2 H3 H4] [S1 S2 S3]. split; [lia| |].
  - intros Hx. destruct (H2 x Hx); [done|lia].
  - intros t s view Hs Hv. destruct (H4 t s view Hs Hv) as [(s0 & Hs0 & Hv0)|Hf]; eauto.
Qed.

Lemma snap_ok_mono a d d' snap : evolves a d d' -> snap_ok snap d -> snap_ok snap d'.
Proof. intros H Hs x Hx. eauto using settled_mono. Qed.

Lemma alter_evolves a f d :
  (forall s view, txns d !! a = Some s -> has_view (f s) view -> has_view s view) ->
  evolves a d (alter_txn f a d).
Proof.
  intros Hf. split; cbn; [lia|auto| |].
  - intros o Ho _. by rewrite lookup_alter_ne.
  - intros t s' view Ht Hv. left. destruct (decide (t = a)) as [->|].
    + rewrite lookup_alter_eq in Ht. destruct (txns d !! a) as [s|]; [|done].
      cbn in Ht. simplify_eq. eauto.
    + rewrite lookup_alter_ne in Ht by done. eauto.
Qed.

Lemma begin_evolves lvl d id d' :
  domain_ok d -> begin lvl d = (Ok id, d') -> evolves (next_txn_id d) d d'.
Proof.
  intros Hd Hb. unfold begin in Hb. case_decide; [|done]. simplify_eq. split; cbn.
  - lia.
  - intros x [Hx| ->%elem_of_singleton]%elem_of_union; [by left|right; lia].
  - intros o Ho _. by rewrite lookup_insert_ne.
  - intros t s' view Ht Hv. destruct (decide (t = next_txn_id d)) as [->|Hne].
    + rewrite lookup_insert_eq in Ht. simplify_eq. destruct Hv as [->|[n Hn]]; [|done].
      right. intros x Hx Hna. cbn [pinned]. apply fresh_view_sees. cbn. right.
      split; [lia|]. set_solver by lia.
    + rewrite lookup_insert_ne in Ht by done. eauto.
Qed.

(** ** Scans *)

Definition scanned (vs : Versions) (view : ReadView) (table : Z) (ids : list Z) : list (Tid * bytes) :=
  omap (fun r => (fun tuple => (tid_of r, tuple)) <$> resolve view (vs (table, r))) ids.

Lemma visible_rows_rep e vs ss view table t ids :
  rep e vs ss -> tables e !! table = Some t ->
  visible_rows (arena (reclaim e)) view (rows t) ids = Ok (scanned vs view table ids).
Proof.
  intros [Hr _] Ht. induction ids as [|r ids IH]; [done|]. cbn [visible_rows].
  specialize (Hr (table, r)). unfold row_at in Hr. cbn in Hr. rewrite Ht in Hr.
  unfold scanned. cbn [omap list_omap].
  destruct (rows t !! r) as [value|]; [|destruct Hr as [-> _]; exact IH].
  destruct Hr as (v & rest & -> & -> & Hm & Hc). rewrite decode_encode_row by done.
  rewrite (visible_tuple_chain _ _ _ _ _ _ Hc). cbn [rbind]. rewrite IH. cbn [rbind].
  destruct v as [m tu]. cbn [u_meta u_tuple]. by destruct (resolve view _).
Qed.

Lemma scan_view_quiet e vs ss view table a {B} (k : list (Tid * bytes) -> eng B) Q :
  Inv e vs ss ->
  (forall t, tables e !! table = Some t ->
     outcome a e vs (k (scanned vs view table (row_ids (rows t)))) Q) ->
  outcome a e vs (sbind (scan_view view table) k) Q.
Proof.
  intros Hinv Hk. unfold outcome, sbind, scan_view.
  destruct (tables e !! table) as [t|] eqn:Ht; [|by exists vs, ss; split_and!; [..|by left]].
  rewrite (visible_rows_rep e vs ss view table t _ (in_rep _ _ _ Hinv) Ht). by apply Hk.
Qed.

Lemma level_quiet a txn : quiet a (on_txns (fun d => (match txns d !! txn with
    | Some s => Ok (level s) | None => Err (unknown_txn txn) end, d))).
Proof. apply quiet_query. intros d. by destruct (txns d !! txn). Qed.

Lemma view_for_quiet a txn : quiet a (on_txns (fun d => (view_for d txn, d))).
Proof. apply quiet_query. intros d. unfold view_for. by destruct (txns d !! txn). Qed.

Lemma fresh_view_quiet a txn : quiet a (on_txns (fun d => (Ok (fresh_view d txn), d))).
Proof. by apply quiet_query. Qed.

Lemma add_reads_quiet a tables rows :
  quiet a (on_txns (fun d => (Ok tt, alter_txn (add_reads tables rows) a d))).
Proof. intros e r e' Hd [= <- <-]. by apply (quiet_alter a (add_reads tables rows)) with (e := e). Qed.

#[export] Hint Resolve level_quiet view_for_quiet fresh_view_quiet add_reads_quiet : quiet.

Lemma outcome_ret a e vs ss {A} (x : A) (Q : A -> Engine -> Versions -> Prop) :
  Inv e vs ss -> Q x e vs -> outcome a e vs (sret x) Q.
Proof. intros Hinv HQ. unfold outcome. cbn. exists vs, ss. by split_and!. Qed.

Lemma scan_outcome e vs ss txn table :
  Inv e vs ss ->
  outcome txn e vs (scan txn table)
    (fun out e' vs' => vs' = vs /\ active_txns (txd e') = active_txns (txd e) /\ exists s t,
       txns (txd e) !! txn = Some s /\ tables e !! table = Some t /\
       out = scanned vs (pinned s) table (row_ids (rows t))).
Proof.
  intros Hinv. unfold scan. quietly u1 e1. quietly t2 e2. quietly lvl e3. quietly view e4.
  assert (e4 = e3 /\ view_for (txd e3) txn = Ok view) as [-> Hview].
  { unfold on_txns in Run2. rewrite set_txd_same in Run2. by simplify_eq. }
  unfold view_for in Hview. destruct (txns (txd e3) !! txn) as [s3|] eqn:Hs3; [|done].
  injection Hview as <-.
  assert (qstep txn e e3) as Q by eauto 10 using qstep_trans.
  destruct (pinned_back _ _ _ _ Q Hs3) as (s & Hs & ->).
  eapply scan_view_quiet; [eassumption|]. intros t Ht. rewrite (qs_tables _ _ _ Q) in Ht.
  set (out := scanned _ _ _ _).
  eapply (outcome_quiet txn e3 vs ss
            (match lvl with Serializable => _ | _ => _ end)); [|eassumption|].
  { destruct lvl; eauto with quiet. }
  intros u5 e5 Run5 Q5 I5. eapply outcome_ret; [eassumption|]. split_and!; [done| |eauto].
  by rewrite (ds_active _ _ (qs_same _ _ _ Q5)), (ds_active _ _ (qs_same _ _ _ Q)).
Qed.

Lemma scan_committed_outcome e vs ss txn table :
  Inv e vs ss ->
  outcome txn e vs (scan_committed txn table)
    (fun out e' vs' => vs' = vs /\ active_txns (txd e') = active_txns (txd e) /\ exists t, tables e !! table = Some t /\
       out = scanned vs (fresh_view (txd e) txn) table (row_ids (rows t))).
Proof.
  intros Hinv. unfold scan_committed. quietly u1 e1. quietly t2 e2. quietly u3 e3. quietly view e4.
  assert (e4 = e3 /\ view = fresh_view (txd e3) txn) as [-> ->].
  { unfold on_txns in Run2. rewrite set_txd_same in Run2. by simplify_eq. }
  assert (qstep txn e e3) as Q by eauto 10 using qstep_trans.
  assert (fresh_view (txd e3) txn = fresh_view (txd e) txn) as ->.
  { unfold fresh_view. destruct (qs_same _ _ _ Q) as [-> -> _]. done. }
  unfold outcome, scan_view. destruct (tables e3 !! table) as [t|] eqn:Ht; [|by exists vs, ss; split_and!; [..|by left]].
  rewrite (visible_rows_rep e3 vs ss _ table t _ (in_rep _ _ _ I2) Ht).
  exists vs, ss. split_and!; [done|done|done|done|apply Q|]. exists t. by rewrite <- (qs_tables _ _ _ Q).
Qed.

(** ** Every step keeps the invariant *)

(** What any step of [a] guarantees. *)
Definition simulates (a : Z) (e e' : Engine) (vs vs' : Versions) (ss' : Slots) : Prop :=
  Inv e' vs' ss' /\ stable a vs vs' /\ evolves a (txd e) (txd e').

Definition safe_step (a : Z) (e : Engine) (vs : Versions) {A} (m : eng A) : Prop :=
  forall r e', m e = (r, e') -> r <> Panic ->
    r <> Diverge /\ exists vs' ss', simulates a e e' vs vs' ss'.

Lemma safe_outcome a e vs {A} (m : eng A) Q : outcome a e vs m Q -> safe_step a e vs m.
Proof.
  unfold outcome. intros Ho r e' Hm Hp. rewrite Hm in Ho.
  destruct r as [x|err| |]; try done; (split; [done|]).
  - destruct Ho as (vs' & ss' & ? & ? & ?%others_evolves & _). by exists vs', ss'.
  - destruct Ho as (vs' & ss' & ? & ? & ?%others_evolves & _). by exists vs', ss'.
Qed.

(** A step that changes no row, unless it ends [a] and erases what [a] wrote. *)
Definition calm_step (a : Z) (e : Engine) (vs : Versions) {A} (m : eng A) : Prop :=
  forall r e', m e = (r, e') -> r <> Panic ->
    r <> Diverge /\ exists vs' ss', simulates a e e' vs vs' ss' /\
      staged (txd e') = staged (txd e) /\
      (vs' = vs /\ active_txns (txd e) ⊆ active_txns (txd e') \/
       gone a (txd e') vs' /\ next_txn_id (txd e') = next_txn_id (txd e)).

Lemma calm_safe a e vs {A} (m : eng A) : calm_step a e vs m -> safe_step a e vs m.
Proof. intros Hc r e' Hm Hp. destruct (Hc r e' Hm Hp) as [? (vs' & ss' & ? & _)]. eauto. Qed.

Lemma calm_outcome a e vs {A} (m : eng A) Q :
  outcome a e vs m Q ->
  (forall x e' vs', Q x e' vs' ->
     vs' = vs /\ active_txns (txd e) ⊆ active_txns (txd e') \/ gone a (txd e') vs') ->
  calm_step a e vs m.
Proof.
  unfold outcome. intros Ho HQ r e' Hm Hp. rewrite Hm in Ho.
  destruct r as [x|err| |]; try done; (split; [done|]);
    destruct Ho as (vs' & ss' & ? & ? & Hot & Hv); exists vs', ss';
    (split_and!; [split_and!; [done|done|by apply others_evolves]|apply Hot|]); pose proof (ot_next _ _ _ Hot).
  - destruct (HQ _ _ _ Hv) as [?|?]; [by left|by right].
  - destruct Hv as [[-> ->]|?]; [by left|by right].
Qed.

Lemma safe_discard a e vs {A} (m : eng A) : safe_step a e vs m -> safe_step a e vs (discard m).
Proof.
  intros Hs r e'. unfold discard, sbind. destruct (m e) as [r0 e0] eqn:Hm.
  destruct r0; intros [= <- <-] Hp; destruct (Hs _ _ Hm) as [? ?]; done.
Qed.

Lemma calm_discard a e vs {A} (m : eng A) : calm_step a e vs m -> calm_step a e vs (discard m).
Proof.
  intros Hs r e'. unfold discard, sbind. destruct (m e) as [r0 e0] eqn:Hm.
  destruct r0; intros [= <- <-] Hp; destruct (Hs _ _ Hm) as [? ?]; done.
Qed.

Lemma calm_quiet a e vs ss {A} (m : eng A) : Inv e vs ss -> quiet a m -> calm_step a e vs m.
Proof.
  intros Hinv Hq r e' Hm _. destruct (Hq _ _ _ (in_dom _ _ _ Hinv) Hm) as [Hd Q]. split; [done|].
  exists vs, ss. split_and!; [split_and!|apply Q|left; by rewrite (ds_active _ _ (qs_same _ _ _ Q))];
    [by eapply Inv_qstep|done|]. by apply others_evolves, Q.
Qed.

Lemma calm_healthy a e vs ss {A} (m : eng A) :
  Inv e vs ss -> calm_step a e vs m -> calm_step a e vs (let* _ := ensure_healthy in m).
Proof.
  intros Hinv Hm r e'. unfold sbind, ensure_healthy. rewrite (in_healthy _ _ _ Hinv). apply Hm.
Qed.

(** Replacing the actor's views. *)
Lemma calm_views a e vs ss {A} (m : M Error TxnDomain A) :
  Inv e vs ss ->
  (forall r d', m (txd e) = (r, d') -> r <> Diverge /\ domain_ok d' /\ view_step (txd e) d' /\
     staged d' = staged (txd e) /\ forall o, o <> a -> txns d' !! o = txns (txd e) !! o) ->
  calm_step a e vs (on_txns m).
Proof.
  intros Hinv Hm r e'. unfold on_txns. destruct (m (txd e)) as [r1 d1] eqn:E. intros [= <- <-] _.
  destruct (Hm _ _ eq_refl) as (Hd & Hok & Hv & Hst & Ho). split; [done|]. exists vs, ss.
  split_and!; [split_and!|done|left; by rewrite <- (vw_active _ _ Hv)];
    [by apply Inv_views|done|by apply view_step_evolves].
Qed.

Lemma begin_statement_others txn d o : o <> txn -> txns (begin_statement txn d) !! o = txns d !! o.
Proof.
  intros Ho. unfold begin_statement. destruct (txns (alter_txn _ _ _) !! txn) as [s|].
  - destruct (refreshes (level s)); cbn; by rewrite ?lookup_alter_ne.
  - cbn. by rewrite lookup_alter_ne.
Qed.

Lemma begin_fresh_others txn d r d' o :
  begin_fresh_reads txn d = (r, d') -> o <> txn -> r <> Diverge /\ txns d' !! o = txns d !! o.
Proof.
  intros H Ho. unfold begin_fresh_reads in H. destruct (txns d !! txn) as [s|]; [|by simplify_eq].
  destruct (fresh_reads s) as [[n v]|]; [case_decide|]; simplify_eq; cbn;
    by rewrite lookup_alter_ne.
Qed.

Lemma begin_statement_staged txn d : staged (begin_statement txn d) = staged d.
Proof. unfold begin_statement. destruct (txns _ !! txn) as [s|]; [by destruct (refreshes _)|done]. Qed.

Lemma begin_fresh_staged txn d r d' : begin_fresh_reads txn d = (r, d') -> staged d' = staged d.
Proof.
  unfold begin_fresh_reads. destruct (txns d !! txn) as [s|]; [|by intros [= <- <-]].
  destruct (fresh_reads s) as [[n v]|]; [case_decide|]; by intros [= <- <-].
Qed.

Lemma begin_staged lvl d r d' : begin lvl d = (r, d') -> staged d' = staged d.
Proof. unfold begin. case_decide; by intros [= <- <-]. Qed.

Lemma calm_statement e vs ss t :
  Inv e vs ss -> calm_step t e vs (on_txns (fun d => (Ok tt, begin_statement t d))).
Proof.
  intros Hinv. eapply calm_views; [done|]. intros r d' [= <- <-]. split_and!; [done| | | |].
  - by apply domain_ok_begin_statement, Hinv.
  - apply begin_statement_step.
  - apply begin_statement_staged.
  - intros o. apply begin_statement_others.
Qed.

Lemma calm_begin_fresh e vs ss t : Inv e vs ss -> calm_step t e vs (on_txns (begin_fresh_reads t)).
Proof.
  intros Hinv. eapply calm_views; [done|]. intros r d' Hr. split_and!.
  - by apply (begin_fresh_others t (txd e) r d' (t + 1) Hr); lia.
  - by eapply domain_ok_begin_fresh_reads, Hr; apply Hinv.
  - by eapply begin_fresh_step.
  - by eapply begin_fresh_staged.
  - intros o Ho. by apply (begin_fresh_others t (txd e) r d' o Hr).
Qed.

Lemma calm_end_fresh e vs ss t :
  Inv e vs ss -> calm_step t e vs (on_txns (fun d => (Ok tt, end_fresh_reads t d))).
Proof.
  intros Hinv. eapply calm_views; [done|]. intros r d' [= <- <-]. split_and!; [done| | |done|].
  - by apply domain_ok_end_fresh_reads, Hinv.
  - apply end_fresh_step.
  - intros o Ho. cbn. by rewrite lookup_alter_ne.
Qed.

Lemma calm_begin e vs ss lvl :
  Inv e vs ss -> calm_step (next_txn_id (txd e)) e vs (on_txns (begin lvl)).
Proof.
  intros Hinv r e'. unfold on_txns. destruct (begin lvl (txd e)) as [r1 d1] eqn:E.
  intros [= <- <-] Hp. destruct r1 as [id|err| |]; try done.
  - split; [done|]. exists vs, ss. destruct (begin_inv _ _ _ _ _ _ Hinv E) as (I1 & -> & _).
    split_and!; [split_and!; [done|done|]|by apply begin_staged in E|left; split; [done|]].
    + by eapply begin_evolves; [apply Hinv|].
    + unfold begin in E. case_decide; simplify_eq. cbn. set_solver.
  - unfold begin in E. by case_decide.
  - unfold begin in E. by case_decide.
Qed.

Lemma quiet_savepoints a (m : M Error TxnDomain unit) :
  (forall d r d', domain_ok d -> m d = (r, d') -> r <> Diverge /\ domain_ok d' /\
     (d' = d \/ exists f, d' = alter_txn (set_savepoints f) a d)) ->
  quiet a (on_txns m).
Proof.
  intros Hm e r e' Hd. unfold on_txns. destruct (m (txd e)) as [r1 d1] eqn:E. intros [= <- <-].
  destruct (Hm _ _ _ Hd E) as (Hr & Hd1 & [->|[f ->]]); (split; [done|]).
  - rewrite set_txd_same. by apply qstep_refl.
  - split; cbn; try done; [by apply dom_same_alter|by apply others_alter].
Qed.

Lemma quiet_savepoint txn name : quiet txn (on_txns (savepoint txn name)).
Proof.
  apply quiet_savepoints. intros d r d' Hd Hr. split_and!; [|by eapply domain_ok_savepoint|];
    unfold savepoint in Hr; destruct (txns d !! txn); simplify_eq; eauto.
Qed.

Lemma quiet_release_savepoint txn name : quiet txn (on_txns (release_savepoint txn name)).
Proof.
  apply quiet_savepoints. intros d r d' Hd Hr. split_and!; [|by eapply domain_ok_release_savepoint|];
    unfold release_savepoint in Hr; destruct (txns d !! txn) as [s|]; simplify_eq; eauto;
    destruct (rposition name (savepoints s)); simplify_eq; eauto.
Qed.

Lemma quiet_ddl txn table label : quiet txn (on_txns (lock_table_for_ddl txn table label)).
Proof.
  intros e r e' Hd. pose proof (quiet_acquire txn (LTable table) true e) as H.
  unfold on_txns, lock_table_for_ddl in *.
  destruct (acquire_lock txn (LTable table) true (txd e)) as [r1 d1] eqn:E.
  specialize (H _ _ Hd eq_refl). destruct H as [Hr Q].
  destruct r1; intros [= <- <-]; (split; [done|exact Q]).
Qed.

Lemma quiet_lock_row txn table tid mode : quiet txn (on_txns (lock_row txn table tid mode)).
Proof. repeat (apply quiet_on_bind; [eauto with quiet|intros _]). eauto with quiet. Qed.

Lemma quiet_lock_key txn table hash mode : quiet txn (on_txns (lock_key txn table hash mode)).
Proof. repeat (apply quiet_on_bind; [eauto with quiet|intros _]). eauto with quiet. Qed.

Lemma quiet_lock_table txn table mode label : quiet txn (on_txns (lock_table txn table mode label)).
Proof.
  apply quiet_on_bind; [eauto with quiet|intros _].
  destruct mode; [apply quiet_acquire|apply quiet_ddl].
Qed.

#[export] Hint Resolve quiet_savepoint quiet_release_savepoint quiet_lock_row quiet_lock_key
  quiet_lock_table : quiet.

Create HintDb calm.
#[export] Hint Resolve calm_discard calm_statement calm_begin_fresh calm_end_fresh calm_begin
  calm_healthy : calm.

Section Reachable.
Context (wl rl : option Z) (pb : Engine -> Z) (re : Z -> Z -> Error).

(** The actions that write no row and settle no commit. *)
Definition plain (a : action) : bool :=
  match a with
  | ARollbackTo _ _ | AInsert _ _ _ | AUpdate _ _ _ _ | ADelete _ _ _
  | ACommit _ | AStage _ _ | AFinish _ | ARollback _ => false
  | _ => true
  end.

Lemma perform_calm e vs ss a :
  Inv e vs ss -> plain a = true -> calm_step (actor e a) e vs (perform wl rl pb re a).
Proof.
  intros Hinv Hp. destruct a; try done; cbn [perform actor] in *;
    try (by eapply calm_quiet; eauto with quiet); eauto with calm.
  - eapply calm_discard, calm_outcome; [by eapply scan_outcome|]. intros ? ? ? (-> & -> & _). by left.
  - eapply calm_discard, calm_outcome; [by eapply scan_committed_outcome|]. intros ? ? ? (-> & -> & _). by left.
Qed.

Lemma safe_stage e vs ss t marker :
  Inv e vs ss -> t ∉ staged (txd e) -> safe_step t e vs (commit_stage t marker).
Proof.
  intros Hinv Hst r e' Hm Hp. pose proof (commit_stage_outcome e vs ss t marker Hinv Hst) as Ho.
  rewrite Hm in Ho. destruct r as [x|err| |]; try done; (split; [done|]).
  - exists vs, ss. destruct Ho as (I & _ & [[Hot _]|(_ & _ & _ & Hot)]);
      (split_and!; [done|done|]); [by apply others_evolves|by eapply evolves_staged].
  - destruct Ho as (vs' & ss' & ? & ? & ?%others_evolves & _). by exists vs', ss'.
Qed.

Lemma safe_finish e vs ss t :
  Inv e vs ss -> t ∈ staged (txd e) -> safe_step t e vs (commit_finish t).
Proof.
  intros Hinv Hen r e' Hm Hp.
  apply (do_staged _ (in_dom _ _ _ Hinv)), (in_live _ _ _ Hinv) in Hen as [s Hs].
  destruct (commit_finish_outcome e vs ss t s Hinv Hs) as (e1 & E & I & _ & Hot).
  rewrite Hm in E. injection E as -> ->.
  split; [done|]. exists vs, ss. split_and!; [done|done|by eapply evolves_staged].
Qed.

Lemma perform_safe e vs ss a :
  Inv e vs ss -> enabled e a -> safe_step (actor e a) e vs (perform wl rl pb re a).
Proof.
  intros Hinv Hen. destruct (plain a) eqn:Hpl; [by eapply calm_safe, perform_calm|].
  destruct a; try done; cbn [perform actor enabled] in *.
  - by eapply safe_outcome, rollback_to_outcome.
  - by eapply safe_discard, safe_outcome, insert_outcome.
  - by eapply safe_discard, safe_outcome, update_outcome.
  - by eapply safe_outcome, delete_outcome.
  - by eapply safe_outcome, commit_outcome.
  - by eapply safe_stage.
  - by eapply safe_finish.
  - by eapply safe_outcome, rollback_outcome.
Qed.

(** A call for a transaction that is not live changes nothing. *)
Definition keeps (e : Engine) {A} (m : eng A) : Prop := forall r e', m e = (r, e') -> e' = e.

Lemma keeps_bind e {A B} (m : eng A) (k : A -> eng B) :
  keeps e m -> (forall x, m e = (Ok x, e) -> keeps e (k x)) -> keeps e (sbind m k).
Proof.
  intros Hm Hk r e'. unfold sbind. destruct (m e) as [r0 e0] eqn:E.
  pose proof (Hm _ _ E) as ->. destruct r0; [by apply Hk|..]; by intros [= <- <-].
Qed.

Lemma keeps_query e {A} (m : eng A) : (m e).2 = e -> keeps e m.
Proof. intros H r e' Hm. by rewrite Hm in H. Qed.

Section Unknown.
Context (e : Engine) (txn : Z) (Hno : txns (txd e) !! txn = None).

Lemma alter_unknown f : alter_txn f txn (txd e) = txd e.
Proof using Hno.
  destruct (txd e) as [tx]. cbn in *. unfold alter_txn, set_txns. cbn. by rewrite alter_id by congruence.
Qed.

Lemma require_unknown {A} (k : M Error TxnDomain A) : keeps e (on_txns (require_txn txn >> k)).
Proof using Hno.
  apply keeps_query. unfold on_txns, sbind, require_txn.
  rewrite decide_False by (rewrite Hno; intros [? ?]; done). apply set_txd_same.
Qed.

Lemma require_unknown_stop {A B} (k : M Error TxnDomain A) (k' : A -> eng B) :
  keeps e (sbind (on_txns (require_txn txn >> k)) k').
Proof using Hno.
  apply keeps_query. unfold on_txns, sbind, require_txn.
  rewrite decide_False by (rewrite Hno; intros [? ?]; done). apply set_txd_same.
Qed.

Lemma charge_unknown n : keeps e (charge_txn_memory wl txn n).
Proof using Hno. apply keeps_query. unfold charge_txn_memory. by destruct wl; rewrite ?Hno. Qed.

Lemma table_keeps table : keeps e (get_table table).
Proof using. apply keeps_query. unfold get_table. by destruct (tables e !! table). Qed.

Lemma healthy_keeps : keeps e ensure_healthy.
Proof using. apply keeps_query. unfold ensure_healthy. by destruct (fault e). Qed.

Lemma tuple_keeps tuple : keeps e (check_tuple tuple).
Proof using. apply keeps_query. unfold check_tuple. by destruct (_ <? _)%Z. Qed.

Lemma validate_unknown {A} (k : unit -> eng A) : fault e = None -> keeps e (sbind (validate_commit txn) k).
Proof using Hno.
  intros Hf. apply keeps_query. unfold validate_commit, sbind, ensure_healthy, check_commit.
  by rewrite Hf, Hno.
Qed.

Lemma split_unknown name x : on_txns (split_at_savepoint txn name) e <> (Ok x, e).
Proof using Hno. unfold on_txns, split_at_savepoint. by rewrite Hno. Qed.

Lemma scan_keeps view table : keeps e (scan_view view table).
Proof using. apply keeps_query. unfold scan_view. by destruct (tables e !! table). Qed.

Lemma resident_keeps n : keeps e (check_resident_memory rl pb re n).
Proof using. apply keeps_query. unfold check_resident_memory. by destruct rl; [destruct (_ || _)|]. Qed.
End Unknown.

Lemma perform_unknown e vs ss a r e' :
  Inv e vs ss -> enabled e a -> txns (txd e) !! actor e a = None ->
  match a with ABegin _ => False | _ => True end ->
  perform wl rl pb re a e = (r, e') -> e' = e.
Proof.
  intros Hinv Hen Hno Hb. pose proof (in_healthy _ _ _ Hinv) as Hf.
  assert (keeps e (perform wl rl pb re a)) as Hk; [|by apply Hk].
  assert (forall t, a = AFinish t -> False) as Hfin.
  { intros t ->. cbn in *. apply (do_staged _ (in_dom _ _ _ Hinv)), (in_live _ _ _ Hinv) in Hen as [s Hs].
    congruence. }
  destruct a as [| t | t | t | t | t | t | t | t | t | t | t | t | t | t | t | t | t | t];
    try done; try (by destruct (Hfin t)); cbn [perform actor enabled] in *; unfold discard, rollback_to, insert, update, delete,
      scan, scan_committed, commit, commit_stage, lock_row, lock_key, lock_table;
    repeat first [ by apply require_unknown | by apply require_unknown_stop | by apply validate_unknown
                 | apply keeps_bind;
                   [ eauto using charge_unknown, table_keeps, healthy_keeps, tuple_keeps, resident_keeps,
                       scan_keeps
                   | intros ? ? ] ];
    try (by apply scan_keeps); try (by edestruct split_unknown);
    try (apply keeps_query; unfold on_txns, sbind, begin_statement, begin_fresh_reads, end_fresh_reads,
           savepoint, release_savepoint, rollback, split_at_savepoint, check_commit, require_txn;
         rewrite ?alter_unknown, ?Hno by done; cbn; by rewrite ?set_txd_same).
  1: match goal with |- keeps e (match ?l with _ => _ end) => destruct l end; apply keeps_query; cbn;
    by rewrite ?alter_unknown, ?set_txd_same.
  apply keeps_query. unfold on_txns, require_txn. case_decide; by rewrite set_txd_same.
Qed.

Lemma perform_actor e vs ss a r e' :
  Inv e vs ss -> enabled e a -> perform wl rl pb re a e = (r, e') ->
  e' = e \/ actor e a ∈ active_txns (txd e) \/ actor e a = next_txn_id (txd e).
Proof.
  intros Hinv Hen Hp. destruct (txns (txd e) !! actor e a) as [s|] eqn:Hs.
  - right. left. apply (do_active _ (in_dom _ _ _ Hinv)). eauto.
  - destruct (decide (actor e a = next_txn_id (txd e))); [by right; right|]. left.
    eapply perform_unknown; eauto. by destruct a.
Qed.

(** The system's invariant: the engine's, and every purge snapshot in use only
    calls settled what is. *)
Definition SysInv (w : Engine * list PurgeSnapshot) (vs : Versions) (ss : Slots) : Prop :=
  Inv w.1 vs ss /\ Forall (fun snap => snap_ok snap (txd w.1)) w.2.

Lemma evolves_refl a d : evolves a d d.
Proof. split; eauto; lia. Qed.

(** A step keeps the invariant, and changes what a view reads only if the view
    sees the actor or, when purge runs, if nobody holds the view. *)
Lemma step_inv w a w' vs ss :
  SysInv w vs ss -> step wl rl pb re w a w' ->
  exists vs' ss', SysInv w' vs' ss' /\ evolves a (txd w.1) (txd w'.1) /\
    forall view k,
      (a ∈ active_txns (txd w.1) \/ a = next_txn_id (txd w.1) -> sees view a = false) ->
      (a = 0%Z -> protected (txd w.1) view) ->
      resolve view (vs' k) = resolve view (vs k).
Proof.
  intros [Hinv Hsn] Hst. destruct Hst as [e snaps act r e' Hen Hp Hr|e snaps|
    e snaps snap table cursor r e' Hin Hp|e snaps snap r e' Hin Hp]; cbn in *.
  - destruct (perform_actor e vs ss act r e' Hinv Hen Hp) as [->|Hact].
    { exists vs, ss. by split_and!; [|apply evolves_refl|]. }
    destruct (perform_safe e vs ss act Hinv Hen r e' Hp Hr) as [_ (vs' & ss' & H1 & H2 & H3)].
    exists vs', ss'. split_and!; [|done|auto]. split; [done|].
    eapply Forall_impl; [exact Hsn|]. eauto using snap_ok_mono.
  - exists vs, ss. split_and!; [|apply evolves_refl|done]. split; [done|].
    constructor; [apply settled_snapshot|done].
  - eapply Forall_forall in Hsn as Hsnap; [|done].
    destruct (purge_batch_ok e vs ss snap table cursor Hinv Hsnap) as (r' & e1 & vs' & ss' & E & [P1 P2 P3]).
    rewrite Hp in E. simplify_eq. exists vs', ss'. unfold SysInv. cbn. rewrite P2.
    split_and!; [done|done|apply evolves_refl|]. intros view k _ Hpr. auto.
  - destruct (purge_orphans_ok e vs ss snap Hinv) as (e1 & E & [P1 P2 P3]).
    rewrite Hp in E. simplify_eq. exists vs, ss. unfold SysInv. cbn. rewrite P2.
    split_and!; [done|done|apply evolves_refl|done].
Qed.

Lemma initial_inv ids : SysInv (initial ids, []) (fun _ => []) (fun _ => []).
Proof.
  assert (forall tb t, tables (initial ids) !! tb = Some t -> t = MkTable ∅ 0) as Ht.
  { intros tb t. cbn. rewrite lookup_gset_to_gmap_Some. naive_solver. }
  split; [|by constructor]. split; cbn [fst].
  - split.
    + intros k. unfold row_at. destruct (tables (initial ids) !! k.1) as [t|] eqn:E; [|done].
      apply Ht in E as ->. cbn. by rewrite lookup_empty.
    + split; cbn; try (intros; set_solver); try constructor. unfold VEC_MAX. lia.
  - apply domain_ok_default.
  - split; cbn; intros; set_solver.
  - cbn. set_solver.
  - intros tb t E. apply Ht in E as ->. cbn. unfold U64_MAX. split; [lia|].
    intros r [x Hx]. by rewrite lookup_empty in Hx.
  - done.
Qed.

Lemma reachable_inv ids w : reachable wl rl pb re ids w -> exists vs ss, SysInv w vs ss.
Proof.
  induction 1 as [|w t w' _ (vs & ss & IH) Hst]; [eauto using initial_inv|].
  destruct (step_inv _ _ _ _ _ IH Hst) as (vs' & ss' & H & _). eauto.
Qed.

End Reachable.
