(* ===== verification/EngineTables.v ===== *)
(** * No row operation adds or drops a table

    Every operation of the row engine leaves the set of tables as it was. *)

From S2P Require Import Prelude Core Mvcc Txn Engine EngineSys.
From stdpp Require Import base gmap list sets strings.
From Stdlib Require Import ZArith Lia Strings.Byte.

Import BtreeEngine.

Definition same_tables {A} (m : eng A) : Prop :=
  forall e r e', m e = (r, e') -> dom (tables e') = dom (tables e).

Create HintDb tables.

Lemma same_ret {A} (x : A) : same_tables (sret x).
Proof. by intros e r e' [= <- <-]. Qed.

Lemma same_fail {A} err : same_tables (sfail err : eng A).
Proof. by intros e r e' [= <- <-]. Qed.

Lemma same_lift {A} (x : result A) : same_tables (slift x).
Proof. by intros e r e' [= <- <-]. Qed.

Lemma same_bind {A B} (m : eng A) (k : A -> eng B) :
  same_tables m -> (forall x, same_tables (k x)) -> same_tables (sbind m k).
Proof.
  intros Hm Hk e r e'. unfold sbind. destruct (m e) as [[x| | |] e1] eqn:E; apply Hm in E;
    intros H; [apply Hk in H; congruence|by simplify_eq..].
Qed.

Lemma same_txns {A} (m : M Error TxnDomain A) : same_tables (on_txns m).
Proof. intros e r e'. unfold on_txns. destruct (m (txd e)). by intros [= <- <-]. Qed.

Lemma same_guarded {A} (m : eng A) : same_tables m -> same_tables (guarded m).
Proof.
  intros Hm e r e'. unfold guarded. destruct (m e) as [[x|err| |] e1] eqn:E; apply Hm in E;
    [by intros [= <- <-]| |by intros [= <- <-]..].
  unfold fail_stop. destruct (fault e1); by intros [= <- <-].
Qed.

Lemma same_put tb t t' e :
  tables e !! tb = Some t -> dom (tables (set_tables <[tb := t']> e)) = dom (tables e).
Proof. intros H. cbn. by rewrite dom_insert_lookup_L by eauto. Qed.

Lemma same_get table : same_tables (get_table table).
Proof. intros e r e'. unfold get_table. by destruct (tables e !! table); intros [= <- <-]. Qed.

Lemma same_rows table f : same_tables (on_rows table f).
Proof.
  intros e r e'. unfold on_rows, sbind, get_table. destruct (tables e !! table) as [t|] eqn:Ht;
    [|by intros [= <- <-]]. unfold slift. destruct (f (rows t)); [|by intros [= <- <-]..].
  intros [= <- <-]. by eapply same_put.
Qed.

Lemma same_mint table : same_tables (mint_row_id table).
Proof.
  intros e r e'. unfold mint_row_id, sbind, get_table. destruct (tables e !! table) as [t|] eqn:Ht;
    [|by intros [= <- <-]]. case_decide; [|by intros [= <- <-]].
  intros [= <- <-]. by eapply same_put.
Qed.

Lemma same_healthy : same_tables ensure_healthy.
Proof. intros e r e'. unfold ensure_healthy. by destruct (fault e); intros [= <- <-]. Qed.

Lemma same_check_tuple tuple : same_tables (check_tuple tuple).
Proof. unfold check_tuple. destruct (_ <? _)%Z; [apply same_fail|apply same_ret]. Qed.

Lemma same_charge wl t n : same_tables (charge_txn_memory wl t n).
Proof.
  intros e r e'. unfold charge_txn_memory. destruct wl; [|by intros [= <- <-]].
  destruct (txns (txd e) !! t); [|by intros [= <- <-]]. destruct (_ <? _)%Z; by intros [= <- <-].
Qed.

Lemma same_resident rl pb re n : same_tables (check_resident_memory rl pb re n).
Proof.
  intros e r e'. unfold check_resident_memory. destruct rl; [|by intros [= <- <-]].
  destruct (_ || _); by intros [= <- <-].
Qed.

Lemma same_push t op : same_tables (push_undo t op).
Proof. apply same_bind; [apply same_healthy|]. by intros _ e r e' [= <- <-]. Qed.

Lemma same_park v : same_tables (park v).
Proof.
  intros e r e'. unfold park. destruct (free (reclaim e)); [case_decide|]; by intros [= <- <-].
Qed.

Lemma same_newest table tid : same_tables (newest_version table tid).
Proof.
  apply same_bind; [apply same_bind; [apply same_get|intros; apply same_ret]|].
  intros [v|]; [|apply same_fail]. destruct (decode_row v) as [[m tu]|]; [apply same_ret|apply same_fail].
Qed.

Lemma same_scan view table : same_tables (scan_view view table).
Proof. intros e r e'. unfold scan_view. by destruct (tables e !! table); intros [= <- <-]. Qed.

Lemma same_undo t op : same_tables (undo_op t op).
Proof.
  destruct op; cbn.
  - intros e r e'. destruct (tables e !! table) as [tb|] eqn:Ht; [|by intros [= <- <-]].
    intros [= <- <-]. by eapply same_put.
  - apply same_bind; [|by intros _ e r e' [= <- <-]]. intros e r e'.
    destruct (tables e !! table); [apply same_rows|by intros [= <- <-]].
  - intros e r e'. destruct (tables e !! table) as [tb|]; [|by intros [= <- <-]].
    destruct (decode_row old) as [[m tu]|], (rows tb !! row_id) as [st|]; try by intros [= <- <-].
    destruct (decode_row st) as [[m' tu']|]; [apply same_rows|by intros [= <- <-]].
Qed.

Lemma same_undo_each t ops : same_tables (undo_each t ops).
Proof.
  induction ops; cbn; [apply same_ret|]. apply same_bind; [apply same_undo|done].
Qed.

Lemma same_abort t s : same_tables (abort t s).
Proof.
  intros e r e'. unfold abort. intros [= <- <-]. cbn. destruct (fault e); [done|].
  destruct (rollback_tail t (undo_log s) e) as [r1 e1] eqn:E. cbn.
  by apply (same_guarded _ (same_undo_each t (reverse (undo_log s)))) in E.
Qed.

Lemma same_take t : same_tables (take_txn t).
Proof. intros e r e'. unfold take_txn. by destruct (txns (txd e) !! t); intros [= <- <-]. Qed.

Lemma same_finish t : same_tables (finish_commit t).
Proof.
  intros e r e'. unfold finish_commit.
  destruct (match txns (txd e) !! t with Some _ => _ | None => _ end); by intros [= <- <-].
Qed.

#[export] Hint Resolve same_ret same_fail same_lift same_txns same_guarded same_get same_rows same_mint
  same_healthy same_check_tuple same_charge same_resident same_push same_park same_newest same_scan
  same_undo_each same_abort same_take same_finish : tables.

Ltac same_tables :=
  repeat first
    [ solve [eauto with tables] | progress intros | apply same_bind
    | match goal with |- context [match ?x with _ => _ end] => destruct x end ].

Lemma same_check t : same_tables (check_commit t).
Proof.
  intros e r e'. unfold check_commit. destruct (txns (txd e) !! t) as [s|]; [|by intros [= <- <-]].
  destruct (prepared s); by intros [= <- <-].
Qed.

Lemma same_take_abort t err :
  same_tables (let* state := take_txn t in let* _ := abort t state in sfail err : eng unit).
Proof. same_tables. Qed.

Lemma same_validate t : same_tables (validate_commit t).
Proof.
  apply same_bind; [apply same_healthy|]. intros _. apply same_bind; [apply same_check|].
  intros _ e r e'. destruct (serializable_read_conflict e t) as [[]| | |];
    [apply same_take_abort|by intros [= <- <-]|apply same_take_abort|by intros [= <- <-]..].
Qed.

Lemma same_stage t marker : same_tables (commit_stage t marker).
Proof.
  apply same_bind; [apply same_validate|]. intros _ e r e'.
  cbv zeta. match goal with |- (if ?b then _ else _) = _ -> _ => destruct b end; [apply same_finish|].
  destruct marker; [apply same_take_abort|by intros [= <- <-]].
Qed.

Lemma same_rollback t : same_tables (rollback t).
Proof.
  intros e r e'. unfold rollback. destruct (txns (txd e) !! t) as [s|]; [|by intros [= <- <-]].
  destruct (prepared s); [by intros [= <- <-]|]. revert e r e'. change (same_tables (let* state := take_txn t in abort t state)).
  same_tables.
Qed.

#[export] Hint Resolve same_validate same_stage same_rollback : tables.

Lemma perform_tables wl rl pb re a : same_tables (perform wl rl pb re a).
Proof.
  destruct a; cbn [perform]; unfold discard, rollback_to, rollback_tail, undo_ops, insert, update, delete,
    scan, scan_committed, commit, commit_finish; same_tables.
Qed.

Lemma purge_row_tables snap table r : same_tables (purge_row snap table r).
Proof.
  intros e x e'. unfold purge_row. destruct (tables e !! table) as [t|] eqn:Ht; [|by intros [= <- <-]].
  destruct (rows t !! r) as [st|]; [|by intros [= <- <-]].
  destruct (decode_row st) as [[m tu]|]; [|by intros [= <- <-]].
  destruct (_ && _); [|destruct (_ && _); [|by intros [= <- <-]]];
    destruct (free_chain _ _) as [u n].
  - intros [= <- <-]. by apply (same_put table t _ (set_reclaim u e)).
  - intros H%same_rows. exact H.
Qed.

Lemma purge_batch_tables snap table cursor : same_tables (purge_batch snap table cursor).
Proof.
  intros e x e'. unfold purge_batch. destruct (tables e !! table) as [t|]; [|by intros [= <- <-]].
  set (batch := take _ _). revert e x e'.
  assert (forall ids, same_tables (purge_rows snap table ids)) as Hr.
  { induction ids; cbn; [apply same_ret|]. apply same_bind; [apply purge_row_tables|done]. }
  intros e x e'. apply same_bind; [apply Hr|]. intros _. apply same_ret.
Qed.
