(* ===== verification/EngineThm.v ===== *)
(** * What the row engine guarantees

    The properties a session relies on: stable snapshots, atomic commit and
    rollback, no lost update, lock exclusion, and the reach and limit of the
    serializable check. *)

From S2P Require Import Prelude Core Mvcc Txn Engine EngineInv EngineOps EngineUndo EnginePurge EngineCommit EngineSys.
From stdpp Require Import base gmap list sets functions sorting strings.
From Stdlib Require Import ZArith Lia Strings.Byte.

Import BtreeEngine.

(** ** Locks *)

Lemma conflicts_own d txn id ex e :
  locks_ok d -> conflicts d txn id ex -> holders_of d id !! txn = Some e -> e = false /\ ex = true.
Proof.
  intros Hok (t & e' & Hne & Ht & Hc) He. pose proof (holders_excl d id Hok) as Hx.
  assert (e = false) as -> by (destruct e; [|done]; rewrite (Hx _ He), lookup_singleton_ne in Ht by done; done).
  split; [done|]. destruct Hc as [?| ->]; [done|]. by rewrite (Hx _ Ht), lookup_singleton_ne in He by done.
Qed.

(** A live transaction's lock request is granted exactly when no other
    holder conflicts with it: shared with shared only, exclusive with nothing.
    A grant gives the transaction a hold at least as strong as it asked for and
    keeps the lock table well formed; a refusal is a serialization conflict and
    changes nothing. *)
Theorem lock_granted_iff d txn id ex :
  locks_ok d -> is_Some (txns d !! txn) ->
  (~ conflicts d txn id ex /\
     exists d', acquire_lock txn id ex d = (Ok tt, d') /\ locks_ok d' /\ granted d' txn id ex) \/
  (conflicts d txn id ex /\ acquire_lock txn id ex d = (Err (SerializationConflict txn), d)).
Proof.
  intros Hok Hs. destruct (acquire_lock txn id ex d) as [r d'] eqn:E.
  destruct (acquire_cases d txn id ex r d' Hok E) as [->|[-> [[-> Hn]|[-> Hc]]]].
  - left. destruct (acquire_granted d txn id ex d' Hok E) as (H1 & H2 & _). split; [|by exists d'].
    intros Hc. rewrite acquire_refused in E; [done|done|done|done| |].
    + intros He. by destruct (conflicts_own d txn id ex true Hok Hc He).
    + intros He. by destruct (conflicts_own d txn id ex false Hok Hc He).
  - rewrite Hn in Hs. by destruct Hs.
  - by right.
Qed.

Section Theorems.
Context (wl rl : option Z) (pb : Engine -> Z) (re : Z -> Z -> Error).

Abbreviation step := (step wl rl pb re).
Abbreviation reachable := (reachable wl rl pb re).

(** Any number of steps, with the labels of those who took them. *)
Inductive steps : Engine * list PurgeSnapshot -> list Z -> Engine * list PurgeSnapshot -> Prop :=
| steps_nil w : steps w [] w
| steps_cons w a w' ls w'' : step w a w' -> steps w' ls w'' -> steps w (a :: ls) w''.

(** ** Snapshots *)

Lemma held_view d t s view : domain_ok d -> txns d !! t = Some s -> has_view s view -> view_ok d t view.
Proof.
  intros Hd Hs [->|[n Hn]]; [apply (do_txns _ Hd _ _ Hs)|]. by apply (to_saved _ _ _ (do_txns _ Hd _ _ Hs) n).
Qed.

Lemma own_view d t view : view_ok d t view -> sees view t = true.
Proof. intros [<- _ _]. apply sees_own. Qed.

(** A view does not see another transaction while that one is active or before it begins. *)
Lemma unseen_actor d t s view a :
  domain_ok d -> txns d !! t = Some s -> has_view s view -> a <> t ->
  a ∈ active_txns d \/ a = next_txn_id d -> sees view a = false.
Proof.
  intros Hd Hs Hv Hne Ha. apply not_true_iff_false. intros Hsee.
  destruct (view_ok_sees _ _ _ _ (held_view _ _ _ _ Hd Hs Hv) Hsee) as [?|[? ?]]; [done|].
  destruct Ha; [done|lia].
Qed.

Lemma step_held w a w' vs ss t s view :
  SysInv w vs ss -> step w a w' -> txns (txd w.1) !! t = Some s -> has_view s view -> a <> t ->
  exists vs' ss', SysInv w' vs' ss' /\ txns (txd w'.1) !! t = Some s /\
    forall k, resolve view (vs' k) = resolve view (vs k).
Proof.
  intros Hinv Hst Hs Hv Hne. destruct (step_inv wl rl pb re _ _ _ _ _ Hinv Hst) as (vs' & ss' & H1 & H2 & H3).
  pose proof (in_dom _ _ _ (proj1 Hinv)) as Hd.
  assert (t < next_txn_id (txd w.1))%Z as Hlt by (apply (do_ids _ Hd), (do_active _ Hd); eauto).
  exists vs', ss'. split_and!; [done|by rewrite (ev_txns _ _ _ H2) by done|].
  intros k. apply H3; [by eapply unseen_actor|]. intros _. left. by exists t, s.
Qed.

Lemma steps_held ls w w' vs ss t s view :
  SysInv w vs ss -> steps w ls w' -> txns (txd w.1) !! t = Some s -> has_view s view -> t ∉ ls ->
  exists vs' ss', SysInv w' vs' ss' /\ txns (txd w'.1) !! t = Some s /\
    forall k, resolve view (vs' k) = resolve view (vs k).
Proof.
  intros Hinv Hst. revert vs ss Hinv.
  induction Hst as [w|w a w1 ls w2 H1 H2 IH]; intros vs ss Hinv Hs Hv Hls; [by exists vs, ss|].
  apply not_elem_of_cons in Hls as [Ha Hls].
  destruct (step_held _ _ _ _ _ _ _ _ Hinv H1 Hs Hv ltac:(done)) as (v1 & s1 & I1 & Hs1 & E1).
  destruct (IH v1 s1 I1 Hs1 Hv Hls) as (v2 & s2 & I2 & Hs2 & E2).
  exists v2, s2. split_and!; [done|done|]. intros k. by rewrite E2.
Qed.

(** C2: Snapshot stability. Whatever other sessions and purge do, in any
    number of steps and any order, a live transaction goes on reading every row
    exactly as it did: under its current view and under the view it will go
    back to after a block of fresh reads. *)
Theorem snapshot_stable ids w ls w' t s view k :
  reachable ids w -> txns (txd w.1) !! t = Some s -> has_view s view ->
  steps w ls w' -> t ∉ ls ->
  txns (txd w'.1) !! t = Some s /\ read_row w'.1 view k = read_row w.1 view k.
Proof.
  intros Hr Hs Hv Hst Hls. apply reachable_inv in Hr as (vs & ss & Hinv).
  destruct (steps_held _ _ _ _ _ _ _ _ Hinv Hst Hs Hv Hls) as (vs' & ss' & Hinv' & Hs' & E).
  split; [done|].
  by rewrite (rep_read _ _ _ _ _ (in_rep _ _ _ (proj1 Hinv'))), (rep_read _ _ _ _ _ (in_rep _ _ _ (proj1 Hinv))), E.
Qed.


(** C18: Lock exclusion. In every reachable state two transactions never hold
    the same lock when one of them holds it exclusively, and every hold belongs
    to a live transaction that lists it, so ending a transaction frees it. *)
Theorem locks_exclusive ids w id t1 t2 x1 x2 :
  reachable ids w ->
  holders_of (txd w.1) id !! t1 = Some x1 -> holders_of (txd w.1) id !! t2 = Some x2 ->
  (t1 = t2 \/ (x1 = false /\ x2 = false)) /\
  exists s, txns (txd w.1) !! t1 = Some s /\ id ∈ held s.
Proof.
  intros Hr H1 H2. apply reachable_inv in Hr as (vs & ss & Hinv & _).
  pose proof (do_locks _ (in_dom _ _ _ Hinv)) as Hl. split.
  - destruct (decide (t1 = t2)) as [|Hne]; [by left|right].
    pose proof (holders_excl _ id Hl) as Hex. split.
    + destruct x1; [|done]. rewrite (Hex _ H1) in H2. by rewrite lookup_singleton_ne in H2.
    + destruct x2; [|done]. rewrite (Hex _ H2) in H1. by rewrite lookup_singleton_ne in H1.
  - unfold holders_of in H1. destruct (locks (txd w.1) !! id) as [[h]|] eqn:E.
    + by apply (lk_held _ Hl id h t1 x1).
    + by rewrite lookup_empty in H1.
Qed.

(** ** Writes *)

(** A write to [k] by [t] is noticed only at [k] and by views that see [t]. *)
Lemma write_elsewhere e e' vs ss ss' t k (l : list UndoVersion) :
  rep e vs ss -> rep e' (<[k := l]> vs) ss' -> stable t vs (<[k := l]> vs) ->
  forall view k', sees view t = false \/ k' <> k -> read_row e' view k' = read_row e view k'.
Proof.
  intros Hrep Hrep' Hstab view k' H. rewrite (rep_read _ _ _ _ _ Hrep'), (rep_read _ _ _ _ _ Hrep).
  destruct (decide (k' = k)) as [->|Hne]; [|by rewrite fn_lookup_insert_ne].
  destruct H as [H|H]; [|done]. f_equal. by apply Hstab.
Qed.

(** An insert that returns a row id used an address no transaction could
    read before; the writer reads the tuple back, under its view and under a
    view of the moment, and nobody who does not see the writer reads anything
    new. *)
Theorem insert_reads_back ids w t s table tuple tid e' :
  reachable ids w -> txns (txd w.1) !! t = Some s ->
  insert wl rl pb re t table tuple w.1 = (Ok tid, e') ->
  let k := (table, row_id_of tid) in
  (forall view, read_row w.1 view k = Ok None) /\
  read_row e' (pinned s) k = Ok (Some tuple) /\
  read_row e' (fresh_view (txd e') t) k = Ok (Some tuple) /\
  (forall view k', sees view t = false \/ k' <> k -> read_row e' view k' = read_row w.1 view k').
Proof.
  intros Hr Hs Hrun k. apply reachable_inv in Hr as (vs & ss & Hinv & _).
  pose proof (insert_outcome wl rl pb re _ _ _ t table tuple Hinv) as Ho. unfold outcome in Ho.
  rewrite Hrun in Ho. destruct Ho as (vs' & ss' & Hinv' & Hstab & Hot & Hnil & _ & ->). fold k in Hnil.
  pose proof (in_rep _ _ _ Hinv) as Hrep. pose proof (in_rep _ _ _ Hinv') as Hrep'. fold k in Hrep'.
  assert (forall view, sees view t = true -> read_row e' view k = Ok (Some tuple)) as Hown.
  { intros view Hsee. rewrite (rep_read _ _ _ _ _ Hrep'), fn_lookup_insert. cbn. by rewrite Hsee. }
  split_and!.
  - intros view. by rewrite (rep_read _ _ _ _ _ Hrep), Hnil.
  - by eapply Hown, own_view, do_txns; [apply Hinv|].
  - eapply Hown, own_view, fresh_view_ok.
  - exact (write_elsewhere _ _ _ _ _ _ _ _ Hrep Hrep' Hstab).
Qed.

(** What a successful update or delete found: the version it superseded is
    both what the writer's view reads and the latest committed one. *)
Lemma superseded e vs ss t s k v rest :
  Inv e vs ss -> txns (txd e) !! t = Some s -> vs k = v :: rest ->
  sees (pinned s) (xmin (u_meta v)) = true -> xmax (u_meta v) = NO_XMAX ->
  read_row e (pinned s) k = Ok (Some (u_tuple v)) /\
  read_row e (fresh_view (txd e) t) k = Ok (Some (u_tuple v)).
Proof.
  intros Hinv Hs Hk Hsee Hx. rewrite !(rep_read _ _ _ _ _ (in_rep _ _ _ Hinv)), Hk. cbn.
  rewrite Hsee, Hx. cbn. split; [done|].
  assert (sees (fresh_view (txd e) t) (xmin (u_meta v)) = true) as ->; [|done].
  apply fresh_view_sees. eapply view_ok_sees; [|exact Hsee]. eapply (do_txns _ (in_dom _ _ _ Hinv) _ _ Hs).
Qed.

(** C5: No lost update. An update succeeds only over the version that the
    writer's snapshot reads, when that is also the latest committed version (or
    the writer's own): had anyone else's change to the row committed since the
    snapshot, or were one in flight, it would have failed. Afterwards the writer
    reads the new tuple, and nobody who does not see the writer reads anything
    new. *)
Theorem update_no_lost_update ids w t s table tid tuple tid' e' :
  reachable ids w -> txns (txd w.1) !! t = Some s ->
  update wl rl pb re t table tid tuple w.1 = (Ok tid', e') ->
  let k := (table, row_id_of tid) in
  tid' = tid /\
  (exists old, read_row w.1 (pinned s) k = Ok (Some old) /\
     read_row w.1 (fresh_view (txd w.1) t) k = Ok (Some old)) /\
  read_row e' (pinned s) k = Ok (Some tuple) /\
  read_row e' (fresh_view (txd e') t) k = Ok (Some tuple) /\
  (forall view k', sees view t = false \/ k' <> k -> read_row e' view k' = read_row w.1 view k').
Proof.
  intros Hr Hs Hrun k. apply reachable_inv in Hr as (vs & ss & Hinv & _).
  pose proof (update_outcome wl rl pb re _ _ _ t table tid tuple Hinv) as Ho. unfold outcome in Ho.
  rewrite Hrun in Ho.
  destruct Ho as (vs' & ss' & Hinv' & Hstab & Hot & -> & _ & s0 & v & rest & i & Hs0 & Hk & Hsee & Hx & ->).
  simplify_eq. fold k in Hk, Hinv', Hstab.
  pose proof (in_rep _ _ _ Hinv) as Hrep. pose proof (in_rep _ _ _ Hinv') as Hrep'.
  assert (forall view, sees view t = true -> read_row e' view k = Ok (Some tuple)) as Hown.
  { intros view Hv. rewrite (rep_read _ _ _ _ _ Hrep'), fn_lookup_insert. cbn. by rewrite Hv. }
  split_and!; [done| | | |].
  - exists (u_tuple v). by eapply superseded.
  - by eapply Hown, own_view, do_txns; [apply Hinv|].
  - eapply Hown, own_view, fresh_view_ok.
  - exact (write_elsewhere _ _ _ _ _ _ _ _ Hrep Hrep' Hstab).
Qed.

(** C16: A delete, likewise, succeeds only over the version the writer's
    snapshot reads and that is still the latest committed one; afterwards the
    writer no longer reads the row, and everyone who does not see the writer
    still does. *)
Theorem delete_no_lost_update ids w t s table tid e' :
  reachable ids w -> txns (txd w.1) !! t = Some s ->
  delete wl t table tid w.1 = (Ok tt, e') ->
  let k := (table, row_id_of tid) in
  (exists old, read_row w.1 (pinned s) k = Ok (Some old) /\
     read_row w.1 (fresh_view (txd w.1) t) k = Ok (Some old)) /\
  read_row e' (pinned s) k = Ok None /\
  read_row e' (fresh_view (txd e') t) k = Ok None /\
  (forall view k', sees view t = false \/ k' <> k -> read_row e' view k' = read_row w.1 view k').
Proof.
  intros Hr Hs Hrun k. apply reachable_inv in Hr as (vs & ss & Hinv & _).
  pose proof (delete_outcome wl _ _ _ t table tid Hinv) as Ho. unfold outcome in Ho. rewrite Hrun in Ho.
  destruct Ho as (vs' & ss' & Hinv' & Hstab & Hot & _ & s0 & v & rest & Hs0 & Hk & Hsee & Hx & ->).
  simplify_eq. fold k in Hk, Hinv', Hstab.
  pose proof (in_rep _ _ _ Hinv) as Hrep. pose proof (in_rep _ _ _ Hinv') as Hrep'.
  assert (t <> NO_XMAX) as Hnz.
  { assert (1 <= t)%Z by (eapply do_ids; [apply Hinv|]; eapply do_active; [apply Hinv|eauto]).
    unfold NO_XMAX. lia. }
  assert (view_ok (txd w.1) t (pinned s)) as Hvo by (eapply do_txns; [apply Hinv|done]).
  assert (forall view, sees view t = true -> sees view (xmin (u_meta v)) = true ->
            read_row e' view k = Ok None) as Hown.
  { intros view Hv Hm. rewrite (rep_read _ _ _ _ _ Hrep'), fn_lookup_insert. cbn.
    rewrite Hm, Hv. destruct (Z.eqb_spec t NO_XMAX); [done|]. done. }
  split_and!.
  - exists (u_tuple v). by eapply superseded.
  - apply Hown; [by eapply own_view|done].
  - apply Hown; [eapply own_view, fresh_view_ok|]. apply fresh_view_sees.
    destruct (view_ok_sees _ _ _ _ Hvo Hsee) as [?|[Hlt Hna]]; [by left|right].
    split; [pose proof (ot_next _ _ _ Hot); lia|]. intros [?|?]%(ot_active _ _ _ Hot); [done|lia].
  - exact (write_elsewhere _ _ _ _ _ _ _ _ Hrep Hrep' Hstab).
Qed.

(** ** Ending a transaction *)

(** The view that differs from [view] only in not seeing [t]. *)
Definition hiding (t : Z) (view : ReadView) : ReadView :=
  MkView (own view) (active view ∪ {[t]}) (horizon view).

Lemma sees_hiding t view x :
  own view <> t -> sees (hiding t view) x = if decide (x = t) then false else sees view x.
Proof.
  intros Hne. unfold sees. cbn. case_decide as Hx.
  - subst x. apply orb_false_iff. split; [by apply Z.eqb_neq|].
    rewrite bool_decide_false by set_solver. by rewrite andb_false_r.
  - f_equal. f_equal. apply bool_decide_ext. set_solver.
Qed.

Lemma resolve_hiding t view vs :
  own view <> t -> Forall (fun v => xmin (u_meta v) <> t /\ xmax (u_meta v) <> t) vs ->
  resolve (hiding t view) vs = resolve view vs.
Proof.
  intros Hne. induction 1 as [|v vs [H1 H2] _ IH]; [done|]. cbn.
  rewrite !sees_hiding by done. by rewrite !decide_False, IH by done.
Qed.

(** What an aborted transaction leaves behind: nothing. *)
Definition as_if_never (e e' : Engine) (t : Z) : Prop :=
  (forall view k, own view <> t -> read_row e' view k = read_row e (hiding t view) k) /\
  txns (txd e') !! t = None /\ t ∉ active_txns (txd e') /\
  forall id, holders_of (txd e') id !! t = None.

Lemma aborted_as_if_never e e' vs vs' ss ss' t :
  Inv e vs ss -> Inv e' vs' ss' -> stable t vs vs' -> no_stamps vs' t ->
  t ∉ active_txns (txd e') -> (forall id, holders_of (txd e') id !! t = None) ->
  as_if_never e e' t.
Proof.
  intros Hinv Hinv' Hst Hns Hna Hlk. split_and!; [|by apply eq_None_not_Some; intros ?%(do_active _ (in_dom _ _ _ Hinv'))|done|done].
  intros view k Hne.
  rewrite (rep_read _ _ _ _ _ (in_rep _ _ _ Hinv')), (rep_read _ _ _ _ _ (in_rep _ _ _ Hinv)). f_equal.
  rewrite <- Hst.
  - symmetry. apply resolve_hiding; [done|]. apply Forall_forall. intros v. apply Hns.
  - rewrite sees_hiding by done. by rewrite decide_True.
Qed.

(** C7: Rollback leaves no trace. After it, every view of anyone else reads
    every row as it would have read it before with the transaction hidden, and
    the transaction holds no lock and is neither in the table nor active. *)
Theorem rollback_erases ids w t e' :
  reachable ids w -> t ∉ staged (txd w.1) -> rollback t w.1 = (Ok tt, e') -> as_if_never w.1 e' t.
Proof.
  intros Hr Hst Hrun. apply reachable_inv in Hr as (vs & ss & Hinv & _).
  pose proof (rollback_outcome _ _ _ t Hinv Hst) as Ho. unfold outcome in Ho. rewrite Hrun in Ho.
  destruct Ho as (vs' & ss' & Hinv' & Hstab & _ & Hns & Hna & Hlk). by eapply aborted_as_if_never.
Qed.

(** Rolling back always works: an unprepared live transaction that is not
    being committed has its rollback succeed, whatever it wrote. *)
Theorem rollback_succeeds ids w t s :
  reachable ids w -> txns (txd w.1) !! t = Some s -> prepared s = None -> t ∉ staged (txd w.1) ->
  exists e', rollback t w.1 = (Ok tt, e').
Proof.
  intros Hr Hs Hp Hst. apply reachable_inv in Hr as (vs & ss & Hinv & _).
  destruct (abort_outcome _ _ _ t s Hinv Hs Hst) as (e' & vs' & ss' & Hrun & _).
  exists e'. unfold rollback. by rewrite Hs, Hp.
Qed.

(** A view taken after [t] ended, as a transaction of its own, sees what [t] saw
    in a view taken just before. *)
Lemma fresh_after e e' vs ss ss' t k :
  Inv e vs ss -> Inv e' vs ss' -> others t (txd e) (txd e') -> t ∈ active_txns (txd e) ->
  t ∉ active_txns (txd e') ->
  resolve (fresh_view (txd e') (next_txn_id (txd e'))) (vs k) = resolve (fresh_view (txd e) t) (vs k).
Proof.
  intros Hinv Hinv' [O1 O2 O3 _ _] Ht Hna.
  assert (forall x, (x < next_txn_id (txd e))%Z ->
    sees (fresh_view (txd e') (next_txn_id (txd e'))) x = sees (fresh_view (txd e) t) x) as Hx.
  { intros x Hlt. apply eq_bool_prop_intro. rewrite !Is_true_true, !fresh_view_sees. split.
    - intros [?|[_ Hn]]; [lia|]. destruct (decide (x = t)) as [|Hne]; [by left|right]. split; [done|].
      intros Hact. apply Hn, (do_active _ (in_dom _ _ _ Hinv')). rewrite O3 by done.
      by apply (in_live _ _ _ Hinv).
    - intros H. right. split; [lia|]. destruct H as [->|[_ Hn]]; [done|].
      intros [?|?]%O2; [done|lia]. }
  apply resolve_ext, Forall_forall. intros v Hv.
  destruct (ho_stamps _ _ _ _ (in_hist _ _ _ Hinv) k v Hv) as [H1 H2].
  split; [apply Hx; lia|]. destruct H2; [by left|right; apply Hx; lia].
Qed.

(** C8: Commit publishes all of a transaction's writes at once. The next
    transaction to begin reads every row as the committer did at the end, while
    everyone already running keeps its view; the committer's locks are free. *)
Theorem commit_publishes ids w t s e' :
  reachable ids w -> txns (txd w.1) !! t = Some s -> t ∉ staged (txd w.1) ->
  commit t w.1 = (Ok tt, e') ->
  (forall k, read_row e' (fresh_view (txd e') (next_txn_id (txd e'))) k
           = read_row w.1 (fresh_view (txd w.1) t) k) /\
  (forall view k, read_row e' view k = read_row w.1 view k) /\
  (forall o, o <> t -> (o < next_txn_id (txd w.1))%Z -> txns (txd e') !! o = txns (txd w.1) !! o) /\
  t ∉ active_txns (txd e') /\ forall id, holders_of (txd e') id !! t = None.
Proof.
  intros Hr Hs Hst Hrun. apply reachable_inv in Hr as (vs & ss & Hinv & _).
  pose proof (commit_outcome _ _ _ t Hinv Hst) as Ho. unfold outcome in Ho. rewrite Hrun in Ho.
  destruct Ho as (vs' & ss' & Hinv' & _ & Hot & -> & Hna & Hlk & _).
  assert (t ∈ active_txns (txd w.1)) as Hact by (apply (do_active _ (in_dom _ _ _ Hinv)); eauto).
  pose proof (in_rep _ _ _ Hinv) as Hrep. pose proof (in_rep _ _ _ Hinv') as Hrep'.
  split_and!; [| |apply Hot|done|done].
  - intros k. rewrite (rep_read _ _ _ _ _ Hrep'), (rep_read _ _ _ _ _ Hrep). f_equal.
    by eapply fresh_after.
  - intros view k. by rewrite (rep_read _ _ _ _ _ Hrep'), (rep_read _ _ _ _ _ Hrep).
Qed.

(** A commit that the serializable check refuses is a rollback: the caller
    gets a serialization error and the transaction leaves nothing behind. *)
Theorem commit_refused ids w t s :
  reachable ids w -> txns (txd w.1) !! t = Some s -> prepared s = None -> t ∉ staged (txd w.1) ->
  serializable_read_conflict w.1 t = Ok true ->
  exists e', commit t w.1 = (Err (SerializationConflict t), e') /\ as_if_never w.1 e' t.
Proof.
  intros Hr Hs Hp Hst Hc. apply reachable_inv in Hr as (vs & ss & Hinv & _).
  destruct (abort_outcome _ _ _ t s Hinv Hs Hst)
    as (e' & vs' & ss' & Hrun & Hinv' & Hstab & _ & Hns & Hna & Hlk).
  exists e'. split; [|by eapply aborted_as_if_never].
  unfold commit, validate_commit, check_commit, ensure_healthy, sbind in *.
  rewrite (in_healthy _ _ _ Hinv), Hs, Hp, Hc. revert Hrun.
  destruct (take_txn t w.1) as [[st| | |] e1]; try done. by intros ->.
Qed.

(** ** Scans *)

Lemma row_ids_sorted m : StronglySorted Z.lt (row_ids m).
Proof.
  assert (NoDup (row_ids m)) as Hnd.
  { unfold row_ids. rewrite merge_sort_Permutation. apply NoDup_elements. }
  assert (StronglySorted Z.le (row_ids m)) as Hs by (apply StronglySorted_merge_sort; [intros x y z; lia|intros x y; lia]).
  revert Hnd. induction Hs as [|x l Hl IH Hx]; intros Hnd; [constructor|].
  apply NoDup_cons in Hnd as [Hni Hnd]. constructor; [by apply IH|].
  rewrite Forall_forall in Hx |- *. intros y Hy. specialize (Hx y Hy).
  assert (x <> y) by (intros ->; done). lia.
Qed.

Lemma scanned_sorted vs view table ids :
  StronglySorted Z.lt ids -> StronglySorted Z.lt ((fun p => row_id_of p.1) <$> scanned vs view table ids).
Proof.
  induction 1 as [|x l Hl IH Hx]; [constructor|]. unfold scanned in *. cbn [omap list_omap].
  destruct (resolve view (vs (table, x))) as [tuple|]; cbn; [|exact IH].
  constructor; [exact IH|]. apply Forall_forall. intros y Hy.
  apply list_elem_of_fmap in Hy as (p & -> & Hp). apply list_elem_of_omap in Hp as (r & Hr & Hp).
  destruct (resolve view (vs (table, r))); [|done]. cbn in Hp. simplify_eq. cbn.
  by eapply Forall_forall in Hx.
Qed.

Lemma elem_of_scanned vs view table ids r tuple :
  (tid_of r, tuple) ∈ scanned vs view table ids <-> r ∈ ids /\ resolve view (vs (table, r)) = Some tuple.
Proof.
  unfold scanned. rewrite list_elem_of_omap. split.
  - intros (r' & Hr' & Hp). destruct (resolve view (vs (table, r'))) eqn:E; [|done].
    cbn in Hp. injection Hp as -> ->. done.
  - intros [Hr E]. exists r. by rewrite E.
Qed.


End Theorems.

(** ** Runs on concrete inputs *)

#[local] Instance enabled_dec e a : Decision (enabled e a).
Proof. destruct a; cbn; apply _. Defined.

Definition panicked {A} (r : result A) : bool := match r with Panic => true | _ => false end.

(** A schedule of calls on an engine without memory ceilings. *)
Definition act : action -> eng unit := perform None None (fun _ => 0%Z) (fun _ _ => OutOfMemory "limit").

Fixpoint play (acts : list action) (e : Engine) : option Engine :=
  match acts with
  | [] => Some e
  | a :: acts =>
      if decide (enabled e a) then
        let '(r, e') := act a e in if panicked r then None else play acts e'
      else None
  end.

Abbreviation reached := (reachable None None (fun _ => 0%Z) (fun _ _ => OutOfMemory "limit")).

Lemma play_reaches ids acts e e' : reached ids (e, []) -> play acts e = Some e' -> reached ids (e', []).
Proof.
  revert e. induction acts as [|a acts IH]; intros e Hr; cbn; [by intros [= <-]|].
  case_decide as Hen; [|done]. destruct (act a e) as [r e1] eqn:E.
  destruct (panicked r) eqn:Hp; [done|]. apply IH. eapply reach_step; [exact Hr|].
  apply (step_act _ _ _ _ e [] a r e1 Hen E). by intros ->.
Qed.

Lemma play_initial ids acts e' : play acts (initial ids) = Some e' -> reached ids (e', []).
Proof. apply play_reaches. constructor. Qed.

Definition bs (n : nat) : bytes := replicate n x41.

(** Transaction 1 inserts a row of 3 bytes into table 1 and commits;
    transactions 2 and 3 begin. *)
Definition one_row : list action :=
  [ABegin RepeatableRead; AInsert 1 1 (bs 3); ACommit 1; ABegin RepeatableRead; ABegin Serializable].

Definition played (acts : list action) : Engine :=
  match play acts (initial {[1; 2]}%Z) with Some e => e | None => initial ∅ end.

Lemma played_reaches acts :
  (if play acts (initial {[1; 2]}%Z) then true else false) = true -> reached {[1; 2]}%Z (played acts, []).
Proof.
  unfold played. destruct (play acts (initial {[1; 2]}%Z)) as [e|] eqn:E; [|done].
  intros _. by eapply play_initial.
Qed.

Definition txn_of (e : Engine) (t : Z) : TxnState :=
  match txns (txd e) !! t with Some s => s | None => MkTxn [] [] Serializable (MkView 0 ∅ 0) ∅ ∅ [] ∅ 0 None None 0 end.

Lemma txn_of_live e t : (if txns (txd e) !! t then true else false) = true -> txns (txd e) !! t = Some (txn_of e t).
Proof. unfold txn_of. by destruct (txns (txd e) !! t). Qed.

Lemma act_step e snaps a :
  (if decide (enabled e a) then true else false) = true -> panicked (act a e).1 = false ->
  step None None (fun _ => 0%Z) (fun _ _ => OutOfMemory "limit") (e, snaps) (actor e a) ((act a e).2, snaps).
Proof.
  intros Hen Hp. destruct (decide (enabled e a)) as [H|]; [|done].
  eapply (step_act _ _ _ _ e snaps a (act a e).1); [done|by rewrite <- surjective_pairing|].
  intros E. by rewrite E in Hp.
Qed.

(** Transaction 3 updates the row and commits, and purge runs over the table. *)
Definition overtaken : Engine :=
  let e := (act (ACommit 3) (act (AUpdate 3 1 (tid_of 0) (bs 5)) (played one_row)).2).2 in
  (purge_batch (purge_snapshot e) 1 0 e).2.

Lemma overtaken_steps :
  steps None None (fun _ => 0%Z) (fun _ _ => OutOfMemory "limit") (played one_row, []) [3; 3; 0; 0]%Z
    (overtaken, [purge_snapshot (act (ACommit 3) (act (AUpdate 3 1 (tid_of 0) (bs 5)) (played one_row)).2).2]).
Proof.
  eapply steps_cons; [apply (act_step _ _ (AUpdate 3 1 (tid_of 0) (bs 5))); vm_compute; reflexivity|].
  eapply steps_cons; [apply (act_step _ _ (ACommit 3)); vm_compute; reflexivity|].
  eapply steps_cons; [apply step_snapshot|].
  eapply steps_cons; [|apply steps_nil].
  eapply (step_batch _ _ _ _ _ _ _ 1 0); [left|]. unfold overtaken. by rewrite <- surjective_pairing.
Qed.

Lemma snapshot_stable_witness :
  read_row overtaken (pinned (txn_of (played one_row) 2)) (1, 0)%Z
  = read_row (played one_row) (pinned (txn_of (played one_row) 2)) (1, 0)%Z /\
  read_row (played one_row) (pinned (txn_of (played one_row) 2)) (1, 0)%Z = Ok (Some (bs 3)).
Proof.
  split; [|vm_compute; reflexivity].
  refine (proj2 (snapshot_stable _ _ _ _ {[1; 2]}%Z (played one_row, []) _ (overtaken, _) 2
                   (txn_of (played one_row) 2) _ (1, 0)%Z _ _ _ overtaken_steps _)).
  - apply played_reaches. vm_compute. reflexivity.
  - apply txn_of_live. vm_compute. reflexivity.
  - by left.
  - set_solver by lia.
Defined.


(** Transactions 2 and 3 both lock the row for sharing. *)
Definition shared_row : list action :=
  one_row ++ [ALockRow 2 1 (tid_of 0) LShare; ALockRow 3 1 (tid_of 0) LShare].

Lemma locks_exclusive_witness :
  (2 = 3 \/ (false = false /\ false = false))%Z /\
  exists s, txns (txd (played shared_row)) !! 2%Z = Some s /\ LRow 1 0 0 ∈ held s.
Proof.
  apply (locks_exclusive None None (fun _ => 0%Z) (fun _ _ => OutOfMemory "limit") {[1; 2]}%Z
           (played shared_row, []) (LRow 1 0 0) 2 3 false false).
  - apply played_reaches. vm_compute. reflexivity.
  - vm_compute. reflexivity.
  - vm_compute. reflexivity.
Defined.

Abbreviation insert0 := (insert None None (fun _ => 0%Z) (fun _ _ => OutOfMemory "limit")).
Abbreviation update0 := (update None None (fun _ => 0%Z) (fun _ _ => OutOfMemory "limit")).

Lemma insert_reads_back_witness :
  let e' := (insert0 2 1 (bs 4) (played one_row)).2 in
  read_row e' (pinned (txn_of (played one_row) 2)) (1, 1)%Z = Ok (Some (bs 4)).
Proof.
  intros e'.
  refine (proj1 (proj2 (insert_reads_back None None (fun _ => 0%Z) (fun _ _ => OutOfMemory "limit")
    {[1; 2]}%Z (played one_row, []) 2 (txn_of (played one_row) 2) 1 (bs 4) (tid_of 1) e' _ _ _))).
  - apply played_reaches. vm_compute. reflexivity.
  - apply txn_of_live. vm_compute. reflexivity.
  - vm_compute. reflexivity.
Defined.

Lemma update_no_lost_update_witness :
  let e' := (update0 2 1 (tid_of 0) (bs 4) (played one_row)).2 in
  read_row e' (pinned (txn_of (played one_row) 2)) (1, 0)%Z = Ok (Some (bs 4)).
Proof.
  intros e'.
  refine (proj1 (proj2 (proj2 (update_no_lost_update None None (fun _ => 0%Z)
    (fun _ _ => OutOfMemory "limit") {[1; 2]}%Z (played one_row, []) 2 (txn_of (played one_row) 2)
    1 (tid_of 0) (bs 4) (tid_of 0) e' _ _ _)))).
  - apply played_reaches. vm_compute. reflexivity.
  - apply txn_of_live. vm_compute. reflexivity.
  - vm_compute. reflexivity.
Defined.

Lemma delete_no_lost_update_witness :
  let e' := (delete None 2 1 (tid_of 0) (played one_row)).2 in
  read_row e' (pinned (txn_of (played one_row) 2)) (1, 0)%Z = Ok None.
Proof.
  intros e'.
  refine (proj1 (proj2 (delete_no_lost_update None None (fun _ => 0%Z)
    (fun _ _ => OutOfMemory "limit") {[1; 2]}%Z (played one_row, []) 2 (txn_of (played one_row) 2)
    1 (tid_of 0) e' _ _ _))).
  - apply played_reaches. vm_compute. reflexivity.
  - apply txn_of_live. vm_compute. reflexivity.
  - vm_compute. reflexivity.
Defined.

(** Transaction 2 has updated the row and inserted another. *)
Definition two_writes : list action :=
  one_row ++ [AUpdate 2 1 (tid_of 0) (bs 7); AInsert 2 1 (bs 8)].

Lemma rollback_erases_witness :
  as_if_never (played two_writes) (rollback 2 (played two_writes)).2 2.
Proof.
  apply (rollback_erases None None (fun _ => 0%Z) (fun _ _ => OutOfMemory "limit") {[1; 2]}%Z
           (played two_writes, []) 2).
  - apply played_reaches. vm_compute. reflexivity.
  - apply (bool_decide_unpack _). vm_compute. exact I.
  - vm_compute. reflexivity.
Defined.

Lemma rollback_succeeds_witness : exists e', rollback 2 (played two_writes) = (Ok tt, e').
Proof.
  apply (rollback_succeeds None None (fun _ => 0%Z) (fun _ _ => OutOfMemory "limit") {[1; 2]}%Z
           (played two_writes, []) 2 (txn_of (played two_writes) 2)).
  - apply played_reaches. vm_compute. reflexivity.
  - apply txn_of_live. vm_compute. reflexivity.
  - vm_compute. reflexivity.
  - apply (bool_decide_unpack _). vm_compute. exact I.
Defined.

Lemma commit_publishes_witness :
  let e' := (commit 2 (played two_writes)).2 in
  read_row e' (fresh_view (txd e') (next_txn_id (txd e'))) (1, 0)%Z
  = read_row (played two_writes) (fresh_view (txd (played two_writes)) 2) (1, 0)%Z.
Proof.
  intros e'.
  refine (proj1 (commit_publishes None None (fun _ => 0%Z) (fun _ _ => OutOfMemory "limit")
    {[1; 2]}%Z (played two_writes, []) 2 (txn_of (played two_writes) 2) e' _ _ _ _) (1, 0)%Z).
  - apply played_reaches. vm_compute. reflexivity.
  - apply txn_of_live. vm_compute. reflexivity.
  - apply (bool_decide_unpack _). vm_compute. exact I.
  - vm_compute. reflexivity.
Defined.

(** Transaction 3, serializable, scans table 1 and writes table 2; transaction 2
    has changed the row it read and committed. *)
Definition stale_read : list action :=
  one_row ++ [AScan 3 1; AUpdate 2 1 (tid_of 0) (bs 7); ACommit 2; AInsert 3 2 (bs 1)].

Lemma commit_refused_witness :
  exists e', commit 3 (played stale_read) = (Err (SerializationConflict 3), e') /\
    as_if_never (played stale_read) e' 3.
Proof.
  apply (commit_refused None None (fun _ => 0%Z) (fun _ _ => OutOfMemory "limit")
    {[1; 2]}%Z (played stale_read, []) 3 (txn_of (played stale_read) 3)).
  - apply played_reaches. vm_compute. reflexivity.
  - apply txn_of_live. vm_compute. reflexivity.
  - vm_compute. reflexivity.
  - apply (bool_decide_unpack _). vm_compute. exact I.
  - vm_compute. reflexivity.
Defined.


Lemma lock_granted_iff_witness :
  acquire_lock 2 (LRow 1 0 0) true (txd (played shared_row)) =
  (Err (SerializationConflict 2), txd (played shared_row)).
Proof.
  destruct (lock_granted_iff (txd (played shared_row)) 2 (LRow 1 0 0) true) as [(_ & d' & E & _)|[_ E]].
  - assert (reached {[1; 2]}%Z (played shared_row, [])) as Hr by (apply played_reaches; vm_compute; reflexivity).
    apply reachable_inv in Hr as (vs & ss & Hinv & _). apply (do_locks _ (in_dom _ _ _ Hinv)).
  - vm_compute. eauto.
  - exfalso. assert ((acquire_lock 2 (LRow 1 0 0) true (txd (played shared_row))).1 = Err (SerializationConflict 2)) as E'
      by (vm_compute; reflexivity). by rewrite E in E'.
  - exact E.
Defined.

(** ** The limit of the serializable check

    Transactions 1 and 2 are serializable. Each scans the table the other
    inserts into, so no serial order explains both. *)

Definition skew (bystander : list action) : list action :=
  [ABegin Serializable; ABegin Serializable; AScan 1 1; AScan 2 2; AInsert 2 1 (bs 3); ACommit 2]
  ++ bystander ++ [AInsert 1 2 (bs 2)].

(** An uncommitted update of the row transaction 2 inserted. *)
Definition in_flight : list action := [ABegin RepeatableRead; AUpdate 3 1 (tid_of 0) (bs 4)].

