(* ===== verification/Tree.v ===== *)
(** * The clustered B-link tree ([nusadb-btree/src/tree.rs])

    The operations of [ClusteredTree] as page programs: the store is reached
    only through the port, and the root is the tree's root cell. A loop that
    follows links takes a fuel; how much is enough is part of the theorems in
    [TreeOps.v]. The interior path is a [Vec] read from its end: its head is the
    last element pushed. *)

From S2P Require Import Prelude Core Store Node.
From stdpp Require Import base list strings pretty.
From Stdlib Require Import ZArith Lia Strings.Byte.

Definition MAX_CHAINED : Z := 256 * 1024 * 1024.

Module ClusteredTree.

Definition tuple_too_large (len : nat) : Error :=
  Io InvalidInput ("nusadb-btree: tuple of " +:+ pretty len +:+
                   " bytes exceeds the maximum of " +:+ pretty MAX_CHAINED +:+ " bytes").

Definition corrupt (msg : string) : Error := Io InvalidData ("nusadb-btree: " +:+ msg).

(** The page ids of chains no row references any more. *)
Abbreviation Retired := (list Z).

Definition create : prog unit :=
  let! root := allocate_page in
  let! page := plift (init_leaf zero_page) in
  let! _ := write_page root page in
  set_root root.

(** ** Descent *)

(** One page per turn: the chase to the right and the step down are the two
    ways a turn continues. *)
Fixpoint descend_loop (fuel : nat) (k : Z) (path : list (Z * Page)) (at_ : Z)
    : prog (list (Z * Page) * Z * Page) :=
  match fuel with
  | O => Done Diverge
  | S fuel =>
      let! page := read_page at_ in
      let! high := plift (high_key page) in
      let! link := (if (high <=? k)%Z then plift (right_link page) else pret None) in
      match link with
      | Some link => descend_loop fuel k path link
      | None =>
          let! leaf := plift (is_leaf page) in
          if leaf then pret (path, at_, page)
          else let! next := plift (route page k) in descend_loop fuel k ((at_, page) :: path) next
      end
  end.

Definition descend (fuel : nat) (k : Z) : prog (list (Z * Page) * Z * Page) :=
  let! root := get_root in descend_loop fuel k [] root.

Fixpoint descend_read_loop (fuel : nat) (k : Z) (at_ : Z) : prog Page :=
  match fuel with
  | O => Done Diverge
  | S fuel =>
      let! page := read_page at_ in
      let! high := plift (high_key page) in
      let! link := (if (high <=? k)%Z then plift (right_link page) else pret None) in
      match link with
      | Some link => descend_read_loop fuel k link
      | None =>
          let! leaf := plift (is_leaf page) in
          if leaf then pret page
          else let! next := plift (route page k) in descend_read_loop fuel k next
      end
  end.

Definition descend_read (fuel : nat) (k : Z) : prog Page :=
  let! root := get_root in descend_read_loop fuel k root.

(** ** Overflow chains *)

Definition chain_len (total : nat) : nat :=
  let chained := total - OVERFLOW_INLINE_PREFIX in
  let pages := (chained + (OVERFLOW_PAYLOAD - 1)) / OVERFLOW_PAYLOAD in
  if decide (pages = 0) then 1 else pages.

(** [more] is how many pages the stub allows. *)
Fixpoint chain_pages_loop (more : nat) (at_ : option Z) : prog (list Z) :=
  match at_ with
  | None => pret []
  | Some id =>
      match more with
      | O => pfail (corrupt "overflow chain is longer than its stub promises")
      | S more =>
          let! page := read_page id in
          let! ovf := plift (is_overflow page) in
          if ovf then
            let! next := plift (overflow_next page) in
            let! rest := chain_pages_loop more next in
            pret (id :: rest)
          else pfail (corrupt "overflow chain points at a non-chain page")
      end
  end.

Definition chain_pages (first : Z) (total : nat) : prog (list Z) :=
  chain_pages_loop (chain_len total) (Some first).

Definition retired_chain (e : Entry) : prog Retired :=
  if overflow e then
    match decode_stub (stored e) with
    | None => pfail (corrupt "malformed overflow stub")
    | Some (_, total, first) => chain_pages first total
    end
  else pret [].

(** The payloads of the chain, in order. *)
Fixpoint payloads (more : nat) (at_ : option Z) (out : bytes) : prog bytes :=
  match at_ with
  | None => pret out
  | Some id =>
      match more with
      | O => pfail (corrupt "overflow chain is longer than its stub promises")
      | S more =>
          let! page := read_page id in
          let! ovf := plift (is_overflow page) in
          if ovf then
            let! payload := plift (overflow_payload page) in
            let! next := plift (overflow_next page) in
            payloads more next (out ++ payload)
          else pfail (corrupt "overflow chain points at a non-chain page")
      end
  end.

Definition materialize (stub : bytes) : prog bytes :=
  match decode_stub stub with
  | None => pfail (corrupt "malformed overflow stub")
  | Some (prefix, total, first) =>
      if decide (MAX_CHAINED < Z.of_nat total)%Z then
        pfail (corrupt "overflow stub promises more than a chain can hold")
      else
        let! out := payloads (chain_len total) (Some first) prefix in
        if decide (length out = total) then pret out
        else pfail (corrupt "overflow chain length does not match its stub")
  end.

Definition materialize_stored (stored : bytes) (ovf : bool) : prog bytes :=
  if ovf then materialize stored else pret stored.

(** [for id in ids { let _ = deallocate_page(id); }]. *)
Fixpoint discard_pages {A} (ids : list Z) (m : prog A) : prog A :=
  match ids with
  | [] => m
  | id :: ids => Dealloc id (fun _ => discard_pages ids m)
  end.

(** [bytes.chunks(n)]. *)
Fixpoint chunks_loop (fuel : nat) (n : nat) (l : bytes) : list bytes :=
  match fuel, l with
  | S fuel, _ :: _ => take n l :: chunks_loop fuel n (drop n l)
  | _, _ => []
  end.

Definition chunks (n : nat) (l : bytes) : list bytes := chunks_loop (length l) n l.

(** One page for each chunk, in order; a failure hands back those already taken. *)
Fixpoint alloc_chain (n : nat) (ids : list Z) : prog (list Z) :=
  match n with
  | O => pret ids
  | S n =>
      Alloc (fun r => match r with
                      | inl e => discard_pages ids (pfail e)
                      | inr id => alloc_chain n (ids ++ [id])
                      end)
  end.

(** The pages of [todo], last first; [ids] is every page of the chain. *)
Fixpoint write_links (ids : list Z) (todo : list (Z * bytes)) (next : option Z) : prog (option Z) :=
  match todo with
  | [] => pret next
  | (id, chunk) :: todo =>
      let! page := plift (init_overflow zero_page chunk next) in
      Write id page (fun r => match r with
                              | inl e => discard_pages ids (pfail e)
                              | inr _ => write_links ids todo (Some id)
                              end)
  end.

Definition write_chain (bytes : bytes) : prog Z :=
  let cs := chunks OVERFLOW_PAYLOAD bytes in
  let! ids := alloc_chain (length cs) [] in
  let! first := write_links ids (reverse (zip ids cs)) None in
  match first with
  | Some first => pret first
  | None => pfail (corrupt "an overflow chain needs at least one page")
  end.

Definition make_entry (k : Z) (tuple : bytes) : prog Entry :=
  if decide (length tuple <= MAX_TUPLE) then pret (MkEntry k tuple false)
  else if decide (MAX_CHAINED < Z.of_nat (length tuple))%Z then pfail (tuple_too_large (length tuple))
  else if decide (OVERFLOW_INLINE_PREFIX <= length tuple) then
    let! first := write_chain (drop OVERFLOW_INLINE_PREFIX tuple) in
    if decide (u32 (Z.of_nat (length tuple))) then
      pret (MkEntry k (encode_stub (take OVERFLOW_INLINE_PREFIX tuple)
                         (Z.of_nat (length tuple)) first) true)
    else pfail (tuple_too_large (length tuple))
  else pfail (corrupt "a chained value must carry its inline prefix").

(** ** Splits *)

(** [binary_search_by_key] on entries in key order: where the key is, or where
    it would go. *)
Fixpoint search (k : Z) (es : list Entry) (i : nat) : nat + nat :=
  match es with
  | [] => inr i
  | e :: es => if (key e <? k)%Z then search k es (S i)
               else if (key e =? k)%Z then inl i else inr i
  end.

Definition binary_search (k : Z) (es : list Entry) : nat + nat := search k es 0.

(** First-fit chunking by accumulated size. *)
Fixpoint pack (es current : list Entry) (used : nat) : list (list Entry) :=
  match es with
  | [] => if decide (current = []) then [] else [current]
  | e :: es =>
      let size := leaf_entry_size (stored e) in
      if decide (current <> [] /\ LEAF_CAPACITY < used + size)
      then current :: pack es [e] size
      else pack es (current ++ [e]) (used + size)
  end.

Fixpoint alloc_n (n : nat) : prog (list Z) :=
  match n with
  | O => pret []
  | S n => let! id := allocate_page in let! ids := alloc_n n in pret (id :: ids)
  end.

(** The nodes of a split leaf, right to left: each chunk is written with a link
    to its right neighbour, whose first key bounds it; the last one keeps the
    old link and high key. Yields the separators to publish, left to right. *)
Fixpoint write_chunks (todo : list (Z * list Entry)) (neighbour : option (Z * list Entry))
    (old_link : option Z) (old_high : Z) (publishes : list (Z * Z * Z)) : prog (list (Z * Z * Z)) :=
  match todo with
  | [] => pret publishes
  | (id, chunk) :: todo =>
      let! fresh := plift (init_leaf zero_page) in
      let '(link, high, publishes) :=
        match neighbour with
        | Some (right_id, right_chunk) =>
            let separator := match right_chunk with e :: _ => key e | [] => INF_KEY end in
            (Some right_id, separator, (id, separator, right_id) :: publishes)
        | None => (old_link, old_high, publishes)
        end in
      let! fresh := plift (set_right_link fresh link) in
      let! fresh := plift (set_high_key fresh high) in
      let! '(fresh, ok) := plift (write_leaf_entries fresh chunk) in
      if negb ok then pfail (corrupt "leaf split chunk failed to serialize")
      else
        let! _ := write_page id fresh in
        write_chunks todo (Some (id, chunk)) old_link old_high publishes
  end.

(** Walk right along the parents' level to the one that holds [child]. *)
Fixpoint find_parent (fuel : nat) (child : Z) (at_ : Z) : prog (Z * Page) :=
  match fuel with
  | O => Done Diverge
  | S fuel =>
      let! page := read_page at_ in
      let! entries := plift (interior_entries page) in
      let! rightmost := plift (rightmost_child page) in
      if existsb (fun p => (p.2 =? child)%Z) entries || (rightmost =? child)%Z
      then pret (at_, page)
      else
        let! link := plift (right_link page) in
        match link with
        | None => pfail (corrupt "split child missing from its parent chain")
        | Some link => find_parent fuel child link
        end
  end.

(** The refined slot: [(sep, left)] becomes [(separator, left), (sep, right)]. *)
Fixpoint refine_slot (entries : list (Z * Z)) (left_id separator right_id : Z)
    : option (list (Z * Z)) :=
  match entries with
  | [] => None
  | (sep, child) :: rest =>
      if (child =? left_id)%Z then Some ((separator, left_id) :: (sep, right_id) :: rest)
      else cons (sep, child) <$> refine_slot rest left_id separator right_id
  end.

(** Split an interior node whose [entries] no longer fit: the middle separator
    moves up, the entries above it go to a new right sibling, and the middle
    entry's child becomes the lower half's rightmost. Both halves are on disk
    when it returns the separator and the sibling to publish. *)
Definition split_interior (parent_id : Z) (page : Page) (entries : list (Z * Z)) : prog (Z * Z) :=
  let mid := length entries / 2 in
  match entries !! mid with
  | None => pfail (corrupt "interior split midpoint out of range")
  | Some (mid_sep, mid_child) =>
      let lower := take mid entries in
      let upper := drop (mid + 1) entries in
      let! new_right_id := allocate_page in
      let! rm := plift (rightmost_child page) in
      let! right := plift (init_interior zero_page rm) in
      let! link := plift (right_link page) in
      let! right := plift (set_right_link right link) in
      let! high := plift (high_key page) in
      let! right := plift (set_high_key right high) in
      let! '(right, ok) := plift (write_interior_entries right upper) in
      if negb ok then pfail (corrupt "interior split upper half failed to serialize")
      else
        let! left := plift (set_rightmost_child page mid_child) in
        let! left := plift (set_right_link left (Some new_right_id)) in
        let! left := plift (set_high_key left mid_sep) in
        let! '(left, ok) := plift (write_interior_entries left lower) in
        if negb ok then pfail (corrupt "interior split lower half failed to serialize")
        else
          let! _ := write_page new_right_id right in
          let! _ := write_page parent_id left in
          pret (mid_sep, new_right_id)
  end.

(** The parent's entries with the split child's slot refined. *)
Definition refine_parent (page : Page) (left_id separator right_id : Z)
    : prog (Page * list (Z * Z)) :=
  let! entries := plift (interior_entries page) in
  let! rightmost := plift (rightmost_child page) in
  match refine_slot entries left_id separator right_id with
  | Some entries => pret (page, entries)
  | None =>
      if negb (rightmost =? left_id)%Z then pfail (corrupt "split child missing from its parent")
      else
        let! page := plift (set_rightmost_child page right_id) in
        pret (page, entries ++ [(separator, left_id)])
  end.

Fixpoint publish_separator (fuel : nat) (path : list (Z * Page)) (left_id separator right_id : Z)
    : prog unit :=
  match path with
  | [] =>
      let! new_root := allocate_page in
      let! page := plift (init_interior zero_page right_id) in
      let! '(page, ok) := plift (write_interior_entries page [(separator, left_id)]) in
      if negb ok then pfail (corrupt "fresh root failed to serialize")
      else let! _ := write_page new_root page in set_root new_root
  | (parent, _) :: path =>
      let! '(parent_id, page) := find_parent fuel left_id parent in
      let! '(page, entries) := refine_parent page left_id separator right_id in
      let! '(page, ok) := plift (write_interior_entries page entries) in
      if ok then write_page parent_id page
      else
        let! '(mid_sep, new_right_id) := split_interior parent_id page entries in
        publish_separator fuel path parent_id mid_sep new_right_id
  end.

Fixpoint publish_all (fuel : nat) (path : list (Z * Page)) (publishes : list (Z * Z * Z)) : prog unit :=
  match publishes with
  | [] => pret tt
  | (l, separator, r) :: publishes =>
      let! _ := publish_separator fuel path l separator r in publish_all fuel path publishes
  end.

Definition write_leaf_or_split (fuel : nat) (path : list (Z * Page)) (leaf_id : Z) (leaf : Page)
    (entries : list Entry) : prog unit :=
  let! '(page, ok) := plift (write_leaf_entries leaf entries) in
  if ok then write_page leaf_id page
  else
    let cs := pack entries [] 0 in
    if decide (length cs < 2) then pfail (corrupt "leaf overflow produced no split point")
    else
      let! fresh := alloc_n (length cs - 1) in
      let ids := leaf_id :: fresh in
      let! old_link := plift (right_link page) in
      let! old_high := plift (high_key page) in
      let! publishes := write_chunks (reverse (zip ids cs)) None old_link old_high [] in
      publish_all fuel path publishes.

(** ** Operations *)

Definition fits_one_leaf (leaf : Page) (entries : list Entry) : result bool :=
  let? '(probe, ok) := write_leaf_entries leaf entries in Ok ok.

Definition discard_unpublished (e : Entry) : prog unit :=
  pcatch (let! ids := retired_chain e in discard_pages ids (pret tt)) (fun _ => pret tt).

(** [write_leaf_or_split], handing back the new entry's chain if a rewrite in
    place failed. *)
Definition write_or_discard (fuel : nat) (path : list (Z * Page)) (leaf_id : Z) (leaf : Page)
    (entries : list Entry) (unpublished : Entry) : prog unit :=
  let! fits := plift (fits_one_leaf leaf entries) in
  pcatch (write_leaf_or_split fuel path leaf_id leaf entries)
    (fun e =>
       let! _ := (if fits then discard_unpublished unpublished else pret tt) in pfail e).

Definition insert (fuel : nat) (k : Z) (tuple : bytes) : prog unit :=
  let! '(path, leaf_id, leaf) := descend fuel k in
  let! entries := plift (leaf_entries leaf) in
  match binary_search k entries with
  | inl _ => pfail (corrupt "duplicate row-id insert")
  | inr i =>
      let! entry := make_entry k tuple in
      write_or_discard fuel path leaf_id leaf (take i entries ++ entry :: drop i entries) entry
  end.

Definition update (fuel : nat) (k : Z) (tuple : bytes) : prog Retired :=
  let! '(path, leaf_id, leaf) := descend fuel k in
  let! entries := plift (leaf_entries leaf) in
  match binary_search k entries with
  | inr _ => pfail (corrupt "update of a missing row-id")
  | inl pos =>
      match entries !! pos with
      | None => pfail (corrupt "update slot out of range")
      | Some slot =>
          let! retired := retired_chain slot in
          let! entry := make_entry k tuple in
          let! _ := write_or_discard fuel path leaf_id leaf (<[pos := entry]> entries) entry in
          pret retired
      end
  end.

Definition delete (fuel : nat) (k : Z) : prog (option Retired) :=
  let! '(path, leaf_id, leaf) := descend fuel k in
  let! entries := plift (leaf_entries leaf) in
  match binary_search k entries with
  | inr _ => pret None
  | inl pos =>
      match entries !! pos with
      | None => Done Panic
      | Some removed =>
          let! retired := retired_chain removed in
          let! '(page, ok) := plift (write_leaf_entries leaf (take pos entries ++ drop (S pos) entries)) in
          if negb ok then pfail (corrupt "shrunken leaf failed to serialize")
          else let! _ := write_page leaf_id page in pret (Some retired)
      end
  end.

Definition update_prefix (fuel : nat) (k : Z) (prefix : bytes) : prog unit :=
  let! '(path, leaf_id, leaf) := descend fuel k in
  let! entries := plift (leaf_entries leaf) in
  match binary_search k entries with
  | inr _ => pfail (corrupt "prefix update of a missing row-id")
  | inl pos =>
      match entries !! pos with
      | None => pfail (corrupt "prefix update slot out of range")
      | Some slot =>
          if overflow slot && bool_decide (OVERFLOW_INLINE_PREFIX < length prefix) then
            pfail (corrupt "prefix update reaches into an overflow chain")
          else if decide (length prefix <= length (stored slot)) then
            let slot := MkEntry (key slot) (splice (stored slot) 0 prefix) (overflow slot) in
            let! '(page, ok) := plift (write_leaf_entries leaf (<[pos := slot]> entries)) in
            if negb ok then pfail (corrupt "same-size rewrite failed to serialize")
            else write_page leaf_id page
          else pfail (corrupt "prefix update exceeds the stored value")
      end
  end.

Definition get_stored (fuel : nat) (k : Z) : prog (option (bytes * bool)) :=
  let! leaf := descend_read fuel k in plift (leaf_find leaf k).

Definition get (fuel : nat) (k : Z) : prog (option bytes) :=
  let! found := get_stored fuel k in
  match found with
  | Some (stored, ovf) => let! v := materialize_stored stored ovf in pret (Some v)
  | None => pret None
  end.

(** ** Scans

    A visitor is a function on its captured state, run in the store since it
    may reassemble a chained value; its error ends the scan. *)

Definition leftmost_child (page : Page) : result Z :=
  let? entries := interior_entries page in
  match entries with
  | (sep, child) :: rest => Ok child
  | [] => rightmost_child page
  end.

Fixpoint leftmost_leaf (fuel : nat) (page : Page) : prog Page :=
  match fuel with
  | O => Done Diverge
  | S fuel =>
      let! leaf := plift (is_leaf page) in
      if leaf then pret page
      else
        let! child := plift (leftmost_child page) in
        let! page := read_page child in
        leftmost_leaf fuel page
  end.

Fixpoint visit {A} (f : A -> Z -> bytes -> bool -> prog A) (es : list Entry) (acc : A) : prog A :=
  match es with
  | [] => pret acc
  | e :: es => let! acc := f acc (key e) (stored e) (overflow e) in visit f es acc
  end.

Fixpoint scan_leaves {A} (fuel : nat) (f : A -> Z -> bytes -> bool -> prog A) (page : Page) (acc : A)
    : prog A :=
  match fuel with
  | O => Done Diverge
  | S fuel =>
      let! es := plift (leaf_entries page) in
      let! acc := visit f es acc in
      let! link := plift (right_link page) in
      match link with
      | None => pret acc
      | Some link => let! page := read_page link in scan_leaves fuel f page acc
      end
  end.

Definition scan_stored_with {A} (fuel : nat) (f : A -> Z -> bytes -> bool -> prog A) (acc : A) : prog A :=
  let! root := get_root in
  let! page := read_page root in
  let! page := leftmost_leaf fuel page in
  scan_leaves fuel f page acc.

Definition scan_with {A} (fuel : nat) (f : A -> Z -> bytes -> prog A) (acc : A) : prog A :=
  scan_stored_with fuel
    (fun acc k stored ovf =>
       if ovf then let! value := materialize stored in f acc k value else f acc k stored) acc.

Definition scan (fuel : nat) : prog (list (Z * bytes)) :=
  scan_with fuel (fun out k tuple => pret (out ++ [(k, tuple)])) [].

(** The visitor of [scan_from_stored_with] says whether to go on; entries
    before [start] are skipped in the first leaf only. *)
Fixpoint visit_from {A} (f : A -> Z -> bytes -> bool -> prog (A * bool)) (skip : option Z)
    (es : list Entry) (acc : A) : prog (A * bool) :=
  match es with
  | [] => pret (acc, true)
  | e :: es =>
      if match skip with Some start => (key e <? start)%Z | None => false end
      then visit_from f skip es acc
      else
        let! '(acc, go) := f acc (key e) (stored e) (overflow e) in
        if go then visit_from f skip es acc else pret (acc, false)
  end.

Fixpoint scan_from_leaves {A} (fuel : nat) (f : A -> Z -> bytes -> bool -> prog (A * bool))
    (skip : option Z) (page : Page) (acc : A) : prog A :=
  match fuel with
  | O => Done Diverge
  | S fuel =>
      let! es := plift (leaf_entries page) in
      let! '(acc, go) := visit_from f skip es acc in
      if go then
        let! link := plift (right_link page) in
        match link with
        | None => pret acc
        | Some link => let! page := read_page link in scan_from_leaves fuel f None page acc
        end
      else pret acc
  end.

Definition scan_from_stored_with {A} (fuel : nat) (start : Z)
    (f : A -> Z -> bytes -> bool -> prog (A * bool)) (acc : A) : prog A :=
  let! '(path, leaf_id, leaf) := descend fuel start in
  scan_from_leaves fuel f (Some start) leaf acc.

Definition scan_from_with {A} (fuel : nat) (start : Z) (f : A -> Z -> bytes -> prog (A * bool))
    (acc : A) : prog A :=
  scan_from_stored_with fuel start
    (fun acc k stored ovf =>
       if ovf then let! value := materialize stored in f acc k value else f acc k stored) acc.

(** ** Every page of the tree *)

Fixpoint stub_pages (es : list Entry) : prog (list Z) :=
  match es with
  | [] => pret []
  | e :: es =>
      if overflow e then
        match decode_stub (stored e) with
        | None => pfail (corrupt "malformed overflow stub")
        | Some (prefix, total, first) =>
            let! ids := chain_pages first total in
            let! rest := stub_pages es in
            pret (ids ++ rest)
        end
      else stub_pages es
  end.

(** One level, from its leftmost node; the first interior node names the head
    of the next level. *)
Fixpoint level_pages (fuel : nat) (at_ : Z) (next_level : option Z) (out : list Z)
    : prog (option Z * list Z) :=
  match fuel with
  | O => Done Diverge
  | S fuel =>
      let! page := read_page at_ in
      let out := out ++ [at_] in
      let! leaf := plift (is_leaf page) in
      let! out :=
        (if leaf then
           let! es := plift (leaf_entries page) in
           let! ids := stub_pages es in pret (out ++ ids)
         else pret out) in
      let! next_level :=
        match next_level with
        | Some n => pret (Some n)
        | None => if leaf then pret None else let! c := plift (leftmost_child page) in pret (Some c)
        end in
      let! link := plift (right_link page) in
      match link with
      | Some link => level_pages fuel link next_level out
      | None => pret (next_level, out)
      end
  end.

Fixpoint pages_loop (levels fuel : nat) (head : option Z) (out : list Z) : prog (list Z) :=
  match head, levels with
  | None, _ => pret out
  | Some _, O => Done Diverge
  | Some head, S levels =>
      let! '(next, out) := level_pages fuel head None out in pages_loop levels fuel next out
  end.

Definition pages (fuel : nat) : prog (list Z) :=
  let! root := get_root in pages_loop fuel fuel (Some root) [].

End ClusteredTree.
