(* ===== verification/TreeInv.v ===== *)
(** * The clustered tree: shape and footprint

    A tree on pages stands for an abstract tree: leaves with their rows, and
    levels of interior nodes above them. [footprint] says which page holds
    which node or chain link, byte for byte; [tree_ok] says what a tree between
    two operations satisfies. *)

From S2P Require Import Prelude Core Store Node NodeFacts Tree.
From stdpp Require Import base gmap list sets.
From Stdlib Require Import ZArith Lia Strings.Byte.

(** ** Rows *)

(** A row of a leaf: its key, its whole value, and the pages of its chain. *)
Record row := MkRow { r_key : Z; r_val : bytes; r_chain : list Z }.

Definition rest_chunks (v : bytes) : list bytes :=
  ClusteredTree.chunks OVERFLOW_PAYLOAD (drop OVERFLOW_INLINE_PREFIX v).

Definition entry_of (r : row) : Entry :=
  match r_chain r with
  | [] => MkEntry (r_key r) (r_val r) false
  | first :: _ =>
      MkEntry (r_key r)
        (encode_stub (take OVERFLOW_INLINE_PREFIX (r_val r)) (Z.of_nat (length (r_val r))) first) true
  end.

Definition page_id_ok (id : Z) : Prop := (0 <= id < U64_MAX)%Z.

(** Inline up to [MAX_TUPLE], chained beyond. *)
Record row_ok (r : row) : Prop := {
  ro_key : (0 <= r_key r < INF_KEY)%Z;
  ro_max : (Z.of_nat (length (r_val r)) <= MAX_CHAINED)%Z;
  ro_chain : length (r_chain r) =
    if decide (length (r_val r) <= MAX_TUPLE) then 0 else length (rest_chunks (r_val r));
  ro_ids : Forall page_id_ok (r_chain r) }.

(** The pages of a chain. *)
Fixpoint chain_fp (ids : list Z) (cs : list bytes) : list (Z * Page) :=
  match ids, cs with
  | id :: ids, c :: cs => (id, ovf_bytes c (head ids)) :: chain_fp ids cs
  | _, _ => []
  end.

Definition row_fp (r : row) : list (Z * Page) := chain_fp (r_chain r) (rest_chunks (r_val r)).

(** ** Nodes and levels *)

Record leaf := MkLeaf { l_id : Z; l_lo : Z; l_hi : Z; l_rows : list row }.
Record inner := MkInner { i_id : Z; i_lo : Z; i_hi : Z; i_seps : list (Z * Z); i_rm : Z }.

(** A node or a child slot: page, least key, first key beyond. *)
Abbreviation span := (Z * Z * Z)%type.

Definition lspan (l : leaf) : span := (l_id l, l_lo l, l_hi l).
Definition ispan (n : inner) : span := (i_id n, i_lo n, i_hi n).

Fixpoint slots (lo hi : Z) (seps : list (Z * Z)) (rm : Z) : list span :=
  match seps with
  | [] => [(rm, lo, hi)]
  | (s, c) :: seps => (c, lo, s) :: slots s hi seps rm
  end.

Definition slots_of (n : inner) : list span := slots (i_lo n) (i_hi n) (i_seps n) (i_rm n).

Definition span_ok (s : span) : Prop := page_id_ok s.1.1 /\ (0 <= s.1.2 < s.2)%Z /\ (s.2 <= INF_KEY)%Z.

Record inner_ok (n : inner) : Prop := {
  io_fits : inner_fits (length (i_seps n));
  io_slots : Forall span_ok (slots_of n) }.

Record leaf_ok (l : leaf) : Prop := {
  lo_rows : Forall row_ok (l_rows l);
  lo_keys : Forall (fun r => l_lo l <= r_key r < l_hi l)%Z (l_rows l);
  lo_sorted : sorted_keys (r_key <$> l_rows l);
  lo_fits : leaf_fits (entry_of <$> l_rows l) }.

Definition leaf_page (link : option Z) (l : leaf) : Page :=
  leaf_bytes link (l_hi l) (entry_of <$> l_rows l).
Definition inner_page (link : option Z) (n : inner) : Page :=
  inner_bytes link (i_hi n) (i_seps n) (i_rm n).

(** The pages of a level: each node links to the next; [tl] is the last link. *)
Fixpoint level_fp {N} (nid : N -> Z) (page : option Z -> N -> Page) (ns : list N) (tl : option Z)
    : list (Z * Page) :=
  match ns with
  | [] => []
  | n :: ns => (nid n, page (match ns with n' :: _ => Some (nid n') | [] => tl end) n)
               :: level_fp nid page ns tl
  end.

Abbreviation leaves_fp := (level_fp l_id leaf_page).
Abbreviation inners_fp := (level_fp i_id inner_page).

(** ** Trees *)

(** Interior levels are listed from the one above the leaves up to the root. *)
Record tree := MkTree { t_leaves : list leaf; t_ups : list (list inner) }.

(** Every level's slots are exactly the nodes of the level below, and the top
    level is the root alone. *)
Fixpoint stacked (ups : list (list inner)) (below : list span) (root : Z) : Prop :=
  match ups with
  | [] => below = [(root, 0, INF_KEY)%Z]
  | lvl :: ups =>
      concat (slots_of <$> lvl) = below /\ Forall inner_ok lvl /\ stacked ups (ispan <$> lvl) root
  end.

Definition ups_fp (ups : list (list inner)) : list (Z * Page) :=
  concat ((fun lvl => inners_fp lvl None) <$> ups).

Definition all_rows (t : tree) : list row := concat (l_rows <$> t_leaves t).

Definition rows_fp (rs : list row) : list (Z * Page) := concat (row_fp <$> rs).

Definition footprint (t : tree) : list (Z * Page) :=
  leaves_fp (t_leaves t) None ++ ups_fp (t_ups t) ++ rows_fp (all_rows t).

Record tree_ok (t : tree) (root : Z) : Prop := {
  tk_stacked : stacked (t_ups t) (lspan <$> t_leaves t) root;
  tk_root : page_id_ok root;
  tk_leaves : Forall leaf_ok (t_leaves t);
  tk_nodup : NoDup (footprint t).*1 }.

(** The store holds these pages. *)
Definition has (g : gmap Z Page) (l : list (Z * Page)) : Prop :=
  forall id p, (id, p) ∈ l -> g !! id = Some p.

Record stands_for (a : ast) (t : tree) : Prop := {
  sf_ok : tree_ok t (a_root a);
  sf_has : has (a_pages a) (footprint t) }.

(** What the tree stores. *)
Definition contents (t : tree) : list (Z * bytes) := (fun r => (r_key r, r_val r)) <$> all_rows t.

(** ** Footprints *)

Lemma has_app g l1 l2 : has g (l1 ++ l2) <-> has g l1 /\ has g l2.
Proof. unfold has. setoid_rewrite elem_of_app. naive_solver. Qed.

Lemma has_cons g id p l : has g ((id, p) :: l) <-> g !! id = Some p /\ has g l.
Proof.
  unfold has. setoid_rewrite elem_of_cons. split; [naive_solver|].
  intros [H1 H2] id' p' [E|?]; [by simplify_eq|auto].
Qed.

Lemma has_nil g : has g [].
Proof. intros id p H. by apply elem_of_nil in H. Qed.

#[export] Instance has_perm g : Proper ((≡ₚ) ==> iff) (has g).
Proof. intros l1 l2 E. unfold has. setoid_rewrite E. done. Qed.

Lemma has_put g l id p : has g l -> id ∉ l.*1 -> has (<[id := p]> g) l.
Proof.
  intros H Hn id' p' Hin. rewrite lookup_insert_ne; [by apply H|].
  intros ->. apply Hn, list_elem_of_fmap. by exists (id', p').
Qed.

Lemma has_fresh g l id : has g l -> g !! id = None -> id ∉ l.*1.
Proof. intros H Hn Hin. apply list_elem_of_fmap in Hin as ([id' p] & -> & Hin). apply H in Hin. cbn in Hn. congruence. Qed.

Section Levels.
Context {N : Type} (nid : N -> Z) (page : option Z -> N -> Page).

Definition first_id (ns : list N) (tl : option Z) : option Z :=
  match ns with n :: _ => Some (nid n) | [] => tl end.

Lemma level_fp_app ns1 ns2 tl :
  level_fp nid page (ns1 ++ ns2) tl =
  level_fp nid page ns1 (first_id ns2 tl) ++ level_fp nid page ns2 tl.
Proof.
  induction ns1 as [|n ns1 IH]; [done|]. cbn. f_equal; [|exact IH]. by destruct ns1.
Qed.

Lemma level_fp_ids ns tl : (level_fp nid page ns tl).*1 = nid <$> ns.
Proof. induction ns as [|n ns IH]; [done|]. cbn. by rewrite IH. Qed.

Lemma level_fp_at ns1 n ns2 tl :
  (nid n, page (first_id ns2 tl) n) ∈ level_fp nid page (ns1 ++ n :: ns2) tl.
Proof. rewrite level_fp_app. apply elem_of_app. right. left. Qed.
End Levels.

(** ** Contiguous levels *)

Fixpoint contig (l : Z) (sp : list span) (h : Z) : Prop :=
  match sp with
  | [] => l = h
  | (_, lo, hi) :: sp => lo = l /\ (lo < hi)%Z /\ contig hi sp h
  end.

Lemma contig_app l s1 s2 h : contig l (s1 ++ s2) h <-> exists m, contig l s1 m /\ contig m s2 h.
Proof.
  revert l. induction s1 as [|[[id lo] hi] s1 IH]; intros l; cbn; [naive_solver|].
  rewrite IH. naive_solver.
Qed.

Lemma contig_le l sp h : contig l sp h -> (l <= h)%Z.
Proof.
  revert l. induction sp as [|[[id lo] hi] sp IH]; intros l; cbn; [lia|].
  intros (-> & ? & ?%IH). lia.
Qed.

Lemma slots_contig lo hi seps rm : Forall span_ok (slots lo hi seps rm) -> contig lo (slots lo hi seps rm) hi.
Proof.
  revert lo. induction seps as [|[s c] seps IH]; intros lo H; cbn in *.
  - apply Forall_cons in H as [(_ & H & _) _]. cbn in H. lia.
  - apply Forall_cons in H as [(_ & H1 & _) H2]. cbn in H1. split_and!; [done|lia|auto].
Qed.

Lemma concat_slots_contig lvl l h :
  Forall inner_ok lvl -> contig l (ispan <$> lvl) h -> contig l (concat (slots_of <$> lvl)) h.
Proof.
  intros Hok. revert l. induction Hok as [|n lvl [_ Hs] _ IH]; intros l; [done|]. cbn.
  intros (<- & _ & Hc). apply contig_app. exists (i_hi n). split; [by apply slots_contig|auto].
Qed.

Lemma stacked_contig ups below root : stacked ups below root -> contig 0 below INF_KEY.
Proof.
  revert below. induction ups as [|lvl ups IH]; intros below; cbn [stacked].
  - intros ->. by cbn.
  - intros (<- & Hok & Hst). by eapply concat_slots_contig; [|apply IH].
Qed.

Lemma stacked_spans ups below root :
  stacked ups below root -> page_id_ok root -> Forall span_ok below.
Proof.
  destruct ups as [|lvl ups]; cbn.
  - intros -> Hr. repeat constructor; cbn; try done; unfold page_id_ok in Hr; lia.
  - intros (<- & Hok & _) _. apply Forall_concat, Forall_fmap.
    eapply Forall_impl; [exact Hok|]. by intros n [].
Qed.

(** The span that owns a key. *)
Lemma contig_owner l sp h k :
  contig l sp h -> (l <= k < h)%Z ->
  exists s1 id lo hi s2, sp = s1 ++ (id, lo, hi) :: s2 /\ (lo <= k < hi)%Z.
Proof.
  revert l. induction sp as [|[[id lo] hi] sp IH]; intros l; cbn; [lia|].
  intros (-> & Hlt & Hc) Hk. destruct (decide (k < hi)%Z).
  - exists [], id, l, hi, sp. split; [done|lia].
  - destruct (IH hi Hc ltac:(lia)) as (s1 & id' & lo' & hi' & s2 & -> & H).
    by exists ((id, l, hi) :: s1), id', lo', hi', s2.
Qed.

(** The child that [route] picks is the slot that owns the key. *)
Lemma pick_slot k lo hi seps rm :
  contig lo (slots lo hi seps rm) hi -> (lo <= k < hi)%Z ->
  exists lo' hi', (pick_child k seps rm, lo', hi') ∈ slots lo hi seps rm /\ (lo' <= k < hi')%Z.
Proof.
  revert lo. induction seps as [|[s c] seps IH]; intros lo; cbn.
  - intros _ Hk. exists lo, hi. split; [left|done].
  - intros (_ & Hlt & Hc) Hk. destruct (Z.ltb_spec k s).
    + exists lo, s. split; [left|lia].
    + destruct (IH s Hc ltac:(lia)) as (lo' & hi' & Hin & H'). exists lo', hi'. split; [by right|done].
Qed.
