(* ===== verification/TreeRead.v ===== *)
(** * The clustered tree: reads

    Descent finds the leaf that owns a key, a chained value is reassembled from
    its pages, and point reads and scans return what the tree stores. *)

From S2P Require Import Prelude Core Store Node NodeFacts Tree TreeInv.
From stdpp Require Import base gmap list sets sorting.
From Stdlib Require Import ZArith Lia Strings.Byte.

Import ClusteredTree.

(** One step of a page program whose next operation is known to succeed. *)
Ltac wp_step :=
  apply wp_bind;
  lazymatch goal with
  | |- wp (read_page _) _ _ _ => eapply wp_read; [eassumption|]
  | |- wp (plift _) _ _ _ => eapply wp_lift; [eassumption|]
  | |- wp get_root _ _ _ => apply wp_get_root
  | |- wp (pret _) _ _ _ => apply wp_ret
  end;
  cbv beta.

(** ** Reading nodes *)

Lemma page_id_u64 id : page_id_ok id -> u64 id.
Proof. unfold page_id_ok, u64, U64_MAX. lia. Qed.

Lemma span_hi_u64 s : span_ok s -> u64 s.2.
Proof. intros (_ & H1 & H2). unfold u64, INF_KEY, U64_MAX in *. lia. Qed.

Lemma slots_ids_ok lo hi seps rm :
  Forall span_ok (slots lo hi seps rm) -> Forall sep_ok seps /\ page_id_ok rm.
Proof.
  revert lo. induction seps as [|[s c] seps IH]; intros lo H; cbn in H; apply Forall_cons in H as [H1 H2].
  - split; [done|]. by destruct H1 as [? _].
  - destruct (IH s H2) as [IH1 IH2]. split; [|done]. constructor; [|done].
    split; [by apply (span_hi_u64 _ H1)|by apply page_id_u64, H1].
Qed.

Lemma first_id_ok {N} (nid : N -> Z) ns : Forall (fun n => page_id_ok (nid n)) ns -> link_ok (first_id nid ns None).
Proof. by destruct 1. Qed.

Record inner_reads (page : Page) (link : option Z) (n : inner) : Prop := {
  ir_high : high_key page = Ok (i_hi n);
  ir_link : right_link page = Ok link;
  ir_leaf : is_leaf page = Ok false;
  ir_entries : interior_entries page = Ok (i_seps n);
  ir_rm : rightmost_child page = Ok (i_rm n);
  ir_route : forall k, route page k = Ok (pick_child k (i_seps n) (i_rm n)) }.

Lemma inner_page_reads n link :
  inner_ok n -> span_ok (ispan n) -> link_ok link -> inner_reads (inner_page link n) link n.
Proof.
  intros [Hf Hs] Hsp Hl. destruct (slots_ids_ok _ _ _ _ Hs) as [Hseps Hrm].
  apply page_id_u64 in Hrm. pose proof (span_hi_u64 _ Hsp) as Hhi. cbn in Hhi. unfold inner_page.
  split; [by apply hdr_high_key|by apply hdr_right_link|done|by apply inner_bytes_entries|by apply inner_rightmost|].
  intros k. by apply inner_bytes_route.
Qed.

Record leaf_reads (page : Page) (link : option Z) (l : leaf) : Prop := {
  lr_high : high_key page = Ok (l_hi l);
  lr_link : right_link page = Ok link;
  lr_leaf : is_leaf page = Ok true;
  lr_entries : leaf_entries page = Ok (entry_of <$> l_rows l);
  lr_find : forall k, leaf_find page k = Ok (found (lookup_entry k (entry_of <$> l_rows l))) }.

Lemma key_entry_of r : key (entry_of r) = r_key r.
Proof. unfold entry_of. by destruct (r_chain r). Qed.

Lemma keys_entry_of (rs : list row) : key <$> (entry_of <$> rs) = r_key <$> rs.
Proof. rewrite <- list_fmap_compose. apply list_fmap_ext. intros i r _. apply key_entry_of. Qed.

Lemma leaf_page_reads l link :
  leaf_ok l -> span_ok (lspan l) -> link_ok link -> leaf_reads (leaf_page link l) link l.
Proof.
  intros [Hr Hk Hs Hf] Hsp Hl. pose proof (span_hi_u64 _ Hsp) as Hhi. cbn in Hhi. unfold leaf_page.
  assert (Forall (fun e => u64 (key e)) (entry_of <$> l_rows l)) as Hkeys.
  { apply Forall_fmap. eapply Forall_impl; [exact Hr|]. intros r [H _ _ _]. cbn.
    rewrite key_entry_of. unfold u64, INF_KEY, U64_MAX in *. lia. }
  split; [by apply hdr_high_key|by apply hdr_right_link|done|by apply leaf_bytes_entries|].
  intros k. apply leaf_bytes_find; [done|done|by rewrite keys_entry_of].
Qed.

(** ** Descent *)

(** The path names, level by level, the node that holds the slot below it. *)
Fixpoint holders (ups : list (list inner)) (path : list (Z * Page)) (child : Z) : Prop :=
  match ups, path with
  | [], [] => True
  | lvl :: ups, (p, _) :: path =>
      (exists n, n ∈ lvl /\ i_id n = p /\ child ∈ (slots_of n).*1.*1) /\ holders ups path p
  | _, _ => False
  end.

(** A node of a level, split out, with its span and its page. *)
Lemma level_node ups lvl g s1 id lo hi s2 root :
  Forall inner_ok lvl -> stacked ups (ispan <$> lvl) root -> page_id_ok root ->
  has g (inners_fp lvl None) -> ispan <$> lvl = s1 ++ (id, lo, hi) :: s2 ->
  exists l1 n l2, lvl = l1 ++ n :: l2 /\ ispan <$> l1 = s1 /\ ispan n = (id, lo, hi) /\
    g !! id = Some (inner_page (first_id i_id l2 None) n) /\ inner_ok n /\
    inner_reads (inner_page (first_id i_id l2 None) n) (first_id i_id l2 None) n.
Proof.
  intros Hok Hst Hr Hg Hsp. pose proof (stacked_spans _ _ _ Hst Hr) as Hspans.
  apply fmap_app_inv in Hsp as (l1 & l2 & -> & E2 & ->). symmetry in E2.
  apply fmap_cons_inv in E2 as (n & l2' & E & E3 & ->).
  assert (inner_ok n) as Hn by (rewrite Forall_app, Forall_cons in Hok; naive_solver).
  rewrite fmap_app, fmap_cons, Forall_app, Forall_cons in Hspans. destruct Hspans as (_ & Hsn & Hs2).
  exists l1, n, l2'. split_and!; [done|done|done| |done|].
  - injection E as -> _ _. apply Hg. apply (level_fp_at i_id inner_page).
  - apply inner_page_reads; [done|done|]. apply first_id_ok. rewrite Forall_fmap in Hs2.
    eapply Forall_impl; [exact Hs2|]. by intros m [? _].
Qed.

Lemma ups_fp_cons lvl ups : ups_fp (lvl :: ups) = inners_fp lvl None ++ ups_fp ups.
Proof. done. Qed.

Section Descend.
Context (a : ast) (I : ast -> Prop) (k : Z) (Hk : (0 <= k < INF_KEY)%Z).

(** From the root down to the level below [ups], one turn per level. *)
Lemma descend_down ups below root fuel Q :
  stacked ups below root -> page_id_ok root -> has (a_pages a) (ups_fp ups) ->
  (forall path id lo hi, (id, lo, hi) ∈ below -> (lo <= k < hi)%Z -> holders ups path id ->
     wp (descend_loop fuel k path id) a I (okq Q)) ->
  wp (descend_loop (length ups + fuel) k [] root) a I (okq Q).
Proof using Hk.
  revert below fuel. induction ups as [|lvl ups IH]; intros below fuel Hst Hr Hg HQ.
  - cbn in Hst. subst below. apply (HQ [] root 0%Z INF_KEY); [left|done|done].
  - destruct Hst as (<- & Hok & Hst). rewrite ups_fp_cons, has_app in Hg. destruct Hg as [Hg1 Hg2].
    cbn [length]. replace (S (length ups) + fuel) with (length ups + S fuel) by lia.
    apply (IH (ispan <$> lvl)); [done|done|done|]. intros path id lo hi Hin Hlo Hpath.
    apply list_elem_of_split in Hin as (s1 & s2 & Hsp).
    destruct (level_node _ _ _ _ _ _ _ _ _ Hok Hst Hr Hg1 Hsp) as (l1 & n & l2 & El & _ & E & Hp & [Hf Hs] & Hrd).
    assert (n ∈ lvl) as Hn by (rewrite El; apply elem_of_app; right; left).
    injection E as <- <- <-. destruct Hrd as [R1 R2 R3 R4 R5 R6]. cbn [descend_loop]. wp_step. wp_step.
    rewrite (proj2 (Z.leb_gt _ _)) by lia. wp_step. wp_step.
    apply wp_bind. eapply wp_lift; [apply R6|].
    destruct (pick_slot k _ _ _ _ (slots_contig _ _ _ _ Hs) Hlo) as (lo' & hi' & Hin' & Hlo').
    apply (HQ _ _ lo' hi'); [|done|].
    + apply list_elem_of_In, in_concat. exists (slots_of n). split; [|by apply list_elem_of_In].
      apply list_elem_of_In, list_elem_of_fmap. eauto.
    + cbn. split; [|done]. exists n. split_and!; [done|done|].
      apply list_elem_of_fmap. exists (pick_child k (i_seps n) (i_rm n), lo'). split; [done|].
      apply list_elem_of_fmap. by eexists (_, _, _).
Qed.
End Descend.

(** A leaf of the tree, split out, with its page. *)
Lemma leaf_node t a l1 l l2 :
  stands_for a t -> t_leaves t = l1 ++ l :: l2 ->
  leaf_ok l /\ span_ok (lspan l) /\ link_ok (first_id l_id l2 None) /\
  a_pages a !! l_id l = Some (leaf_page (first_id l_id l2 None) l) /\
  leaf_reads (leaf_page (first_id l_id l2 None) l) (first_id l_id l2 None) l.
Proof.
  intros [[Hst Hr Hlv _] Hg] E. pose proof (stacked_spans _ _ _ Hst Hr) as Hspans.
  unfold footprint in Hg. rewrite has_app in Hg. destruct Hg as [Hg _].
  rewrite E in *. rewrite Forall_app, Forall_cons in Hlv. destruct Hlv as (_ & Hl & _).
  rewrite fmap_app, fmap_cons, Forall_app, Forall_cons in Hspans. destruct Hspans as (_ & Hsn & Hs2).
  assert (link_ok (first_id l_id l2 None)) as Hlink.
  { apply first_id_ok. rewrite Forall_fmap in Hs2. eapply Forall_impl; [exact Hs2|]. by intros m [? _]. }
  split_and!; [done|done|done| |by apply leaf_page_reads]. apply Hg, (level_fp_at l_id leaf_page).
Qed.

Lemma descend_leaf t a I k fuel Q :
  stands_for a t -> (0 <= k < INF_KEY)%Z -> length (t_ups t) < fuel ->
  (forall path l1 l l2, t_leaves t = l1 ++ l :: l2 -> (l_lo l <= k < l_hi l)%Z ->
     holders (t_ups t) path (l_id l) -> Q (path, l_id l, leaf_page (first_id l_id l2 None) l) a) ->
  wp (descend fuel k) a I (okq Q).
Proof.
  intros Hsf Hk Hfuel HQ. unfold descend. wp_step.
  pose proof Hsf as [[Hst Hr Hlv _] Hg]. unfold footprint in Hg. rewrite !has_app in Hg.
  destruct Hg as (_ & Hg & _).
  replace fuel with (length (t_ups t) + S (fuel - length (t_ups t) - 1)) by lia.
  eapply descend_down; [done|done|done|done|]. intros path id lo hi Hin Hlo Hp.
  apply list_elem_of_split in Hin as (s1 & s2 & Hsp).
  apply fmap_app_inv in Hsp as (l1 & l2 & -> & E2 & E). symmetry in E2.
  apply fmap_cons_inv in E2 as (l & l2' & E' & -> & ->). injection E' as -> -> ->.
  destruct (leaf_node t a l1 l l2' Hsf E) as (Hl & Hspan & Hlink & Hpage & [R1 R2 R3 R4 R5]).
  cbn [descend_loop]. wp_step. wp_step. rewrite (proj2 (Z.leb_gt _ _)) by lia. wp_step. wp_step.
  apply wp_ret. by apply HQ with (l1 := l1).
Qed.

(** The latch-free descent walks the same pages. *)
Lemma descend_read_same fuel k path id a I (Q : Page -> ast -> Prop) :
  wp (descend_loop fuel k path id) a I (okq (fun x a' => Q x.2 a')) ->
  wp (descend_read_loop fuel k id) a I (okq Q).
Proof.
  revert path id. induction fuel as [|fuel IH]; intros path id; [done|]. cbn.
  intros (page & Hp & H). exists page. split; [done|]. destruct (high_key page); try done. cbn in *.
  destruct (_ <=? _)%Z; cbn in *.
  - destruct (right_link page) as [[link|]| | |]; try done; cbn in *; [eauto|].
    destruct (is_leaf page) as [[]| | |]; try done. cbn in *. destruct (route page k); try done. eauto.
  - destruct (is_leaf page) as [[]| | |]; try done. cbn in *. destruct (route page k); try done. eauto.
Qed.

(** ** Chains *)

Lemma chunks_loop_spec n fuel l :
  0 < n -> length l <= fuel ->
  concat (chunks_loop fuel n l) = l /\
  Forall (fun c => 0 < length c <= n) (chunks_loop fuel n l) /\
  length (chunks_loop fuel n l) = (length l + (n - 1)) / n.
Proof.
  intros Hn. revert l. induction fuel as [|fuel IH]; intros l Hf.
  - destruct l; [|cbn in Hf; lia]. cbn. split_and!; [done|done|]. rewrite Nat.div_small; lia.
  - destruct l as [|b l]; [cbn; split_and!; [done|done|]; rewrite Nat.div_small; lia|].
    cbn [chunks_loop]. set (l' := b :: l) in *.
    assert (0 < length l') as Hpos by (cbn; lia).
    destruct (IH (drop n l')) as (H1 & H2 & H3); [rewrite length_drop; lia|].
    cbn [concat length]. rewrite H1, H3, take_drop. split_and!; [done| |].
    + constructor; [rewrite length_take; lia|done].
    + rewrite length_drop. destruct (decide (n <= length l')) as [Hle|Hgt].
      * replace (length l' + (n - 1)) with (1 * n + (length l' - n + (n - 1))) by lia.
        rewrite Nat.div_add_l by lia. lia.
      * replace (length l' - n) with 0 by lia.
        rewrite (Nat.div_small (0 + (n - 1))) by lia.
        apply (Nat.div_unique _ _ 1 (length l' - 1)); lia.
Qed.

Lemma payload_pos : 0 < OVERFLOW_PAYLOAD.
Proof. len. Qed.

Lemma rest_chunks_spec v :
  concat (rest_chunks v) = drop OVERFLOW_INLINE_PREFIX v /\
  Forall (fun c => 0 < length c <= OVERFLOW_PAYLOAD) (rest_chunks v) /\
  length (rest_chunks v) = (length v - OVERFLOW_INLINE_PREFIX + (OVERFLOW_PAYLOAD - 1)) / OVERFLOW_PAYLOAD.
Proof.
  rewrite <- (length_drop v). apply (chunks_loop_spec _ _ _ payload_pos). done.
Qed.

Lemma chain_len_spec v : MAX_TUPLE < length v -> chain_len (length v) = length (rest_chunks v).
Proof.
  intros Hl. destruct (rest_chunks_spec v) as (H1 & _ & H2). unfold chain_len. rewrite <- H2.
  case_decide as H0; [|done]. exfalso. destruct (rest_chunks v); [|done].
  assert (length (drop OVERFLOW_INLINE_PREFIX v) = 0) as E by by rewrite <- H1.
  rewrite length_drop in E. len.
Qed.

Definition ids_ok (ids : list Z) : Prop := Forall page_id_ok ids.

Lemma head_link_ok ids : ids_ok ids -> link_ok (head ids).
Proof. by destruct 1. Qed.

(** A page of a chain. *)
Lemma chain_page g id ids c cs :
  has g (chain_fp (id :: ids) (c :: cs)) -> ids_ok ids -> length c <= OVERFLOW_PAYLOAD ->
  exists page, g !! id = Some page /\ is_overflow page = Ok true /\
    overflow_next page = Ok (head ids) /\ overflow_payload page = Ok c /\ has g (chain_fp ids cs).
Proof.
  cbn. rewrite has_cons. intros [Hp Hg] Hids Hc. eexists. split_and!; [done|done| |by apply ovf_payload|done].
  by apply ovf_next, head_link_ok.
Qed.

Lemma payloads_spec ids cs out a I :
  has (a_pages a) (chain_fp ids cs) -> ids_ok ids -> length ids = length cs ->
  Forall (fun c => 0 < length c <= OVERFLOW_PAYLOAD) cs ->
  wp (payloads (length ids) (head ids) out) a I (okq (fun r a' => a' = a /\ r = out ++ concat cs)).
Proof.
  revert cs out. induction ids as [|id ids IH]; intros cs out Hg Hids Hlen Hcs.
  - destruct cs; [|done]. cbn. by rewrite app_nil_r.
  - destruct cs as [|c cs]; [done|]. apply Forall_cons in Hcs as [Hc Hcs]. apply Forall_cons in Hids as [_ Hids].
    destruct (chain_page _ _ _ _ _ Hg Hids ltac:(lia)) as (page & Hp & R1 & R2 & R3 & Hg').
    cbn [length head payloads]. wp_step. wp_step. wp_step. wp_step.
    cbn [concat]. rewrite (assoc_L (++)). apply IH; [done|done|by injection Hlen|done].
Qed.

Lemma chain_pages_spec ids cs a I :
  has (a_pages a) (chain_fp ids cs) -> ids_ok ids -> length ids = length cs ->
  Forall (fun c => 0 < length c <= OVERFLOW_PAYLOAD) cs ->
  wp (chain_pages_loop (length ids) (head ids)) a I (okq (fun r a' => a' = a /\ r = ids)).
Proof.
  revert cs. induction ids as [|id ids IH]; intros cs Hg Hids Hlen Hcs; [done|].
  destruct cs as [|c cs]; [done|]. apply Forall_cons in Hcs as [Hc Hcs]. apply Forall_cons in Hids as [_ Hids].
  destruct (chain_page _ _ _ _ _ Hg Hids ltac:(lia)) as (page & Hp & R1 & R2 & R3 & Hg').
  cbn [length head chain_pages_loop]. wp_step. wp_step. wp_step. apply wp_bind.
  eapply wp_mono; [apply (IH cs); [done|done|by injection Hlen|done]|].
  intros [r| | |] a'; try done. intros [-> ->]. done.
Qed.

(** How a row's value sits in the tree. *)
Lemma row_cases r :
  row_ok r ->
  (r_chain r = [] /\ entry_of r = MkEntry (r_key r) (r_val r) false /\ row_fp r = [] /\
     length (r_val r) <= MAX_TUPLE) \/
  (exists first ids, r_chain r = first :: ids /\ ids_ok (first :: ids) /\
     entry_of r = MkEntry (r_key r) (encode_stub (take OVERFLOW_INLINE_PREFIX (r_val r))
                                       (Z.of_nat (length (r_val r))) first) true /\
     length (first :: ids) = length (rest_chunks (r_val r)) /\ MAX_TUPLE < length (r_val r) /\
     decode_stub (encode_stub (take OVERFLOW_INLINE_PREFIX (r_val r)) (Z.of_nat (length (r_val r))) first)
       = Some (take OVERFLOW_INLINE_PREFIX (r_val r), length (r_val r), first)).
Proof.
  intros [Hk Hm Hc Hi]. unfold entry_of, row_fp. destruct (r_chain r) as [|first ids] eqn:E.
  - left. split_and!; [done|done|done|]. cbn [length] in Hc. case_decide as Hd; [done|].
    destruct (rest_chunks_spec (r_val r)) as (H1 & _ & _).
    destruct (rest_chunks (r_val r)) eqn:Er; [|cbn in Hc; lia].
    assert (length (drop OVERFLOW_INLINE_PREFIX (r_val r)) = 0) as E0 by by rewrite <- H1.
    rewrite length_drop in E0. len.
  - right. exists first, ids. case_decide as Hd; [done|]. split_and!; [done|done|done|done|lia|].
    rewrite decode_encode_stub.
    + do 2 f_equal. f_equal. lia.
    + rewrite length_take_le; [done|]. clear -Hd. len.
    + unfold u32, MAX_CHAINED in *. lia.
    + apply Forall_cons in Hi as [? _]. by apply page_id_u64.
Qed.

Lemma materialize_row r a I :
  row_ok r -> has (a_pages a) (row_fp r) ->
  wp (materialize_stored (stored (entry_of r)) (overflow (entry_of r))) a I
    (okq (fun v a' => a' = a /\ v = r_val r)).
Proof.
  intros Hr Hg. unfold row_fp in Hg.
  destruct (row_cases r Hr) as [(_ & -> & _)|(first & ids & Ec & Hids & -> & Hlen & Hl & Hdec)]; [done|].
  destruct (rest_chunks_spec (r_val r)) as (H1 & H2 & _).
  cbn [materialize_stored stored overflow]. unfold materialize. rewrite Hdec.
  rewrite decide_False by (pose proof (ro_max _ Hr); lia).
  apply wp_bind. rewrite (chain_len_spec _ Hl), <- Hlen. rewrite Ec in Hg.
  eapply wp_mono; [apply (payloads_spec (first :: ids) (rest_chunks (r_val r))); done|].
  intros [out| | |] a'; try done. intros [-> ->]. cbn [okq]. rewrite H1, take_drop.
  by rewrite decide_True.
Qed.

Lemma retired_row r a I :
  row_ok r -> has (a_pages a) (row_fp r) ->
  wp (retired_chain (entry_of r)) a I (okq (fun ids a' => a' = a /\ ids = r_chain r)).
Proof.
  intros Hr Hg. unfold row_fp in Hg.
  destruct (row_cases r Hr) as [(-> & -> & _)|(first & ids & Ec & Hids & -> & Hlen & Hl & Hdec)]; [done|].
  destruct (rest_chunks_spec (r_val r)) as (_ & H2 & _).
  unfold retired_chain. cbn [overflow stored]. rewrite Hdec. unfold chain_pages.
  rewrite (chain_len_spec _ Hl), <- Hlen. rewrite Ec in *.
  by apply (chain_pages_spec (first :: ids) (rest_chunks (r_val r))).
Qed.

(** ** Contents *)

Definition rows_of (t : tree) : gmap Z bytes := list_to_map (contents t).

(** The keys of contiguous leaves are in order. *)
Lemma leaves_sorted ls l h :
  contig l (lspan <$> ls) h -> Forall leaf_ok ls ->
  sorted_keys (r_key <$> concat (l_rows <$> ls)) /\
  Forall (fun r => l <= r_key r < h)%Z (concat (l_rows <$> ls)).
Proof.
  intros Hc Hok. revert l Hc. induction Hok as [|lf ls [H1 H2 H3 H4] Hok IH]; intros l Hc.
  - cbn. split; [constructor|done].
  - cbn in Hc. destruct Hc as (<- & Hlt & Hc). destruct (IH _ Hc) as [IH1 IH2].
    pose proof (contig_le _ _ _ Hc) as Hle. cbn. rewrite fmap_app. split.
    + apply StronglySorted_app. split_and!; [|done|done].
      intros x y Hx Hy. apply list_elem_of_fmap in Hx as (rx & -> & Hx).
      apply list_elem_of_fmap in Hy as (ry & -> & Hy).
      eapply Forall_forall in H2; [|exact Hx]. eapply Forall_forall in IH2; [|exact Hy]. lia.
    + apply Forall_app. split; (eapply Forall_impl; [eassumption|]); cbn; intros; lia.
Qed.

Lemma contents_keys t : (contents t).*1 = r_key <$> all_rows t.
Proof. unfold contents. by rewrite <- list_fmap_compose. Qed.

Lemma contents_sorted t root : tree_ok t root -> sorted_keys (contents t).*1.
Proof.
  intros [Hst _ Hlv _]. rewrite contents_keys.
  by eapply leaves_sorted; [eapply stacked_contig|].
Qed.

Lemma sorted_NoDup ks : sorted_keys ks -> NoDup ks.
Proof.
  induction 1 as [|k ks _ IH Hk]; constructor; [|done].
  intros Hin. eapply Forall_forall in Hk; [|exact Hin]. lia.
Qed.

Lemma rows_of_spec t root k v :
  tree_ok t root -> rows_of t !! k = Some v <-> exists r, r ∈ all_rows t /\ r_key r = k /\ r_val r = v.
Proof.
  intros Hok. unfold rows_of. rewrite <- elem_of_list_to_map
    by by eapply sorted_NoDup, contents_sorted.
  unfold contents. rewrite list_elem_of_fmap. split.
  - intros (r & E & Hr). injection E as -> ->. eauto.
  - intros (r & Hr & <- & <-). eauto.
Qed.

(** A key is stored in the leaf that owns it or nowhere. *)
Lemma owner_rows t root l1 l l2 r :
  tree_ok t root -> t_leaves t = l1 ++ l :: l2 -> (l_lo l <= r_key r < l_hi l)%Z ->
  r ∈ all_rows t <-> r ∈ l_rows l.
Proof.
  intros [Hst _ Hlv _] E Hk. unfold all_rows. rewrite E in *. rewrite fmap_app, concat_app. cbn.
  rewrite !elem_of_app. apply stacked_contig in Hst. rewrite fmap_app, fmap_cons in Hst.
  apply contig_app in Hst as (m & Hc1 & <- & Hlt & Hc2).
  rewrite Forall_app, Forall_cons in Hlv. destruct Hlv as (Hl1 & _ & Hl2).
  split; [|auto]. intros [H|[H|H]]; [|done|].
  - eapply leaves_sorted in Hc1 as [_ Hc1]; [|done]. eapply Forall_forall in Hc1; [|exact H]. lia.
  - eapply leaves_sorted in Hc2 as [_ Hc2]; [|done]. eapply Forall_forall in Hc2; [|exact H]. lia.
Qed.

Fixpoint lookup_row (k : Z) (rs : list row) : option row :=
  match rs with
  | [] => None
  | r :: rs => if (r_key r =? k)%Z then Some r else lookup_row k rs
  end.

Lemma lookup_entry_of k rs : lookup_entry k (entry_of <$> rs) = entry_of <$> lookup_row k rs.
Proof.
  induction rs as [|r rs IH]; [done|]. cbn. rewrite key_entry_of. by destruct (_ =? _)%Z.
Qed.

Lemma lookup_row_Some k rs r : lookup_row k rs = Some r -> r ∈ rs /\ r_key r = k.
Proof.
  induction rs as [|r' rs IH]; [done|]. cbn. destruct (Z.eqb_spec (r_key r') k) as [E|].
  - intros [= ->]. split; [left|done].
  - intros [? ?]%IH. split; [by right|done].
Qed.

Lemma lookup_row_None k rs r : lookup_row k rs = None -> r ∈ rs -> r_key r <> k.
Proof.
  induction rs as [|r' rs IH]; [intros _ H; by apply elem_of_nil in H|]. cbn.
  destruct (Z.eqb_spec (r_key r') k) as [E|Hne]; [done|]. intros H [->|Hin]%elem_of_cons; auto.
Qed.

(** What the owner leaf says of a key is what the tree says. *)
Lemma owner_lookup t root l1 l l2 k :
  tree_ok t root -> t_leaves t = l1 ++ l :: l2 -> (l_lo l <= k < l_hi l)%Z ->
  rows_of t !! k = r_val <$> lookup_row k (l_rows l).
Proof.
  intros Hok E Hk. destruct (lookup_row k (l_rows l)) as [r|] eqn:Hr; cbn.
  - apply lookup_row_Some in Hr as [Hin <-]. apply (rows_of_spec t root); [done|].
    exists r. split_and!; [|done|done]. by apply (owner_rows t root l1 l l2).
  - destruct (rows_of t !! k) as [v|] eqn:Hv; [|done]. apply (rows_of_spec t root) in Hv as (r & Hin & <- & _); [|done].
    apply (owner_rows t root l1 l l2) in Hin; [|done..]. by destruct (lookup_row_None _ _ _ Hr Hin).
Qed.

Lemma row_pages t a r : stands_for a t -> r ∈ all_rows t -> has (a_pages a) (row_fp r).
Proof.
  intros [_ Hg] Hr. unfold footprint in Hg. rewrite !has_app in Hg. destruct Hg as (_ & _ & Hg).
  intros id p Hin. apply Hg. unfold rows_fp. apply list_elem_of_In, in_concat. exists (row_fp r).
  split; [|by apply list_elem_of_In]. apply list_elem_of_In, list_elem_of_fmap. eauto.
Qed.

Lemma all_rows_ok t root : tree_ok t root -> Forall row_ok (all_rows t).
Proof.
  intros [_ _ Hlv _]. unfold all_rows. apply Forall_concat, Forall_fmap.
  eapply Forall_impl; [exact Hlv|]. by intros l [].
Qed.

(** ** Point reads *)

Lemma get_spec t a I k fuel :
  stands_for a t -> (0 <= k < INF_KEY)%Z -> length (t_ups t) < fuel ->
  wp (get fuel k) a I (okq (fun r a' => a' = a /\ r = rows_of t !! k)).
Proof.
  intros Hsf Hk Hf. unfold get, get_stored, descend_read. apply wp_bind, wp_bind, wp_bind, wp_get_root.
  eapply (descend_read_same _ _ []).
  pose proof (descend_leaf t a I k fuel) as Hd. unfold descend in Hd.
  specialize (Hd (fun x a' => wp (plift (leaf_find x.2 k)) a' I
    (okq (fun found a' => wp match found with
       | Some (stored, ovf) => let! v := materialize_stored stored ovf in pret (Some v)
       | None => pret None end a' I (okq (fun r a' => a' = a /\ r = rows_of t !! k)))))).
  eapply Hd; [done|done|done|]. clear Hd. intros path l1 l l2 E Hlo _. cbn [snd].
  destruct (leaf_node t a l1 l l2 Hsf E) as (Hl & _ & _ & _ & [_ _ _ _ R5]).
  eapply wp_lift; [apply R5|]. rewrite lookup_entry_of.
  rewrite (owner_lookup t (a_root a) l1 l l2 k) by (done || apply Hsf).
  destruct (lookup_row k (l_rows l)) as [r|] eqn:Hr; [|done]. cbn [found fmap option_fmap option_map].
  apply lookup_row_Some in Hr as [Hin Hkey].
  assert (r ∈ all_rows t) as Hall.
  { apply (owner_rows t (a_root a) l1 l l2); [apply Hsf|done|lia|done]. }
  apply wp_bind. eapply wp_mono; [apply materialize_row|].
  - eapply Forall_forall; [by apply lo_rows|done].
  - by eapply row_pages.
  - intros [v| | |] a'; try done. intros [-> ->]. done.
Qed.

(** ** Scans *)

Lemma leftmost_child_spec page link n :
  inner_reads page link n -> exists lo hi rest,
  leftmost_child page = Ok ((match i_seps n with (_, c) :: _ => c | [] => i_rm n end)) /\
  slots_of n = ((match i_seps n with (_, c) :: _ => c | [] => i_rm n end), lo, hi) :: rest.
Proof.
  intros [_ _ _ R4 R5 _]. unfold leftmost_child, slots_of. rewrite R4. cbn.
  destruct (i_seps n) as [|[s c] seps]; cbn; eauto 6.
Qed.

(** The leftmost descent: from the root, down [ups], to the first node below. *)
Lemma leftmost_down ups below root fuel a I (Q : Page -> ast -> Prop) :
  stacked ups below root -> page_id_ok root -> has (a_pages a) (ups_fp ups) ->
  (forall id lo hi rest, below = (id, lo, hi) :: rest ->
     wp (let! page := read_page id in leftmost_leaf fuel page) a I (okq Q)) ->
  wp (let! page := read_page root in leftmost_leaf (length ups + fuel) page) a I (okq Q).
Proof.
  revert below fuel. induction ups as [|lvl ups IH]; intros below fuel Hst Hr Hg HQ.
  - cbn in Hst. by eapply HQ.
  - destruct Hst as (<- & Hok & Hst). rewrite ups_fp_cons, has_app in Hg. destruct Hg as [Hg1 Hg2].
    cbn [length]. replace (S (length ups) + fuel) with (length ups + S fuel) by lia.
    apply (IH (ispan <$> lvl)); [done|done|done|]. intros id lo hi rest Hsp.
    destruct (level_node _ _ _ [] _ _ _ _ _ Hok Hst Hr Hg1 Hsp) as (l1 & n & l2 & -> & E1 & E & Hp & Hn' & Hrd).
    apply fmap_nil_inv in E1 as ->.
    destruct (leftmost_child_spec _ _ _ Hrd) as (lo' & hi' & rest' & Hc & Hs).
    wp_step. cbn [leftmost_leaf]. apply wp_bind. eapply wp_lift; [apply Hrd|]. cbn match.
    apply wp_bind. eapply wp_lift; [exact Hc|].
    eapply (HQ _ lo' hi' (rest' ++ concat (slots_of <$> l2))). cbn. by rewrite Hs.
Qed.

Section Scan.
Context {A : Type} (f : A -> Z -> bytes -> bool -> prog A) (upd : A -> row -> A).
Context (t : tree) (a : ast) (I : ast -> Prop) (Hsf : stands_for a t).
Context (Hf : forall acc r, r ∈ all_rows t ->
  wp (f acc (key (entry_of r)) (stored (entry_of r)) (overflow (entry_of r))) a I
    (okq (fun acc' a' => a' = a /\ acc' = upd acc r))).

Lemma visit_spec rs acc :
  (forall r, r ∈ rs -> r ∈ all_rows t) ->
  wp (visit f (entry_of <$> rs) acc) a I (okq (fun acc' a' => a' = a /\ acc' = foldl upd acc rs)).
Proof using Hf.
  revert acc. induction rs as [|r rs IH]; intros acc Hin; [done|]. cbn [visit fmap list_fmap].
  apply wp_bind. eapply wp_mono; [apply Hf, Hin; left|].
  intros [acc'| | |] a'; try done. intros [-> ->]. apply IH. intros r' Hr'. apply Hin. by right.
Qed.

Lemma in_all_rows l1 l l2 r : t_leaves t = l1 ++ l :: l2 -> r ∈ l_rows l -> r ∈ all_rows t.
Proof using.
  intros E Hr. unfold all_rows. rewrite E, fmap_app, concat_app. cbn. rewrite !elem_of_app. auto.
Qed.

Lemma scan_leaves_spec l1 l l2 acc fuel :
  t_leaves t = l1 ++ l :: l2 -> length (l :: l2) <= fuel ->
  wp (scan_leaves fuel f (leaf_page (first_id l_id l2 None) l) acc) a I
    (okq (fun acc' a' => a' = a /\ acc' = foldl upd acc (concat (l_rows <$> l :: l2)))).
Proof using Hf Hsf.
  revert l1 l acc fuel. induction l2 as [|l' l2 IH]; intros l1 l acc fuel E Hfuel;
    (destruct fuel as [|fuel]; [cbn in Hfuel; lia|]);
    destruct (leaf_node t a l1 l _ Hsf E) as (Hl & _ & _ & _ & [_ R2 _ R4 _]);
    cbn [scan_leaves]; (apply wp_bind; eapply wp_lift; [exact R4|]); apply wp_bind;
    (eapply wp_mono; [apply visit_spec; intros r Hr; by eapply in_all_rows|]);
    (intros [acc'| | |] a'; try done); intros [-> ->]; (apply wp_bind; eapply wp_lift; [exact R2|]).
  - cbn. split; [done|]. by rewrite app_nil_r.
  - cbn [first_id]. rewrite (cons_middle l l1), (assoc_L (++)) in E.
    destruct (leaf_node t a (l1 ++ [l]) l' l2 Hsf E) as (_ & _ & _ & Hp & _).
    apply wp_bind. eapply wp_read; [exact Hp|].
    eapply wp_mono; [apply (IH (l1 ++ [l]) l'); [done|cbn in *; lia]|].
    intros [acc'| | |] a'; try done. intros [-> ->]. cbn. split; [done|].
    rewrite <- foldl_app. cbn. done.
Qed.

Lemma scan_stored_spec acc fuel :
  length (t_ups t) + length (t_leaves t) <= fuel ->
  wp (scan_stored_with fuel f acc) a I (okq (fun acc' a' => a' = a /\ acc' = foldl upd acc (all_rows t))).
Proof using Hf Hsf.
  intros Hfuel. pose proof Hsf as [[Hst Hr Hlv _] Hg]. unfold footprint in Hg. rewrite !has_app in Hg.
  destruct Hg as (_ & Hg & _).
  assert (exists l ls, t_leaves t = l :: ls) as (l & ls & E).
  { pose proof (stacked_contig _ _ _ Hst) as Hc. destruct (t_leaves t) as [|l ls]; [done|eauto]. }
  unfold scan_stored_with. apply wp_bind, wp_get_root.
  assert (wp (let! page := read_page (a_root a) in leftmost_leaf fuel page) a I
            (okq (fun page a' => a' = a /\ page = leaf_page (first_id l_id ls None) l))) as Hleft.
  { replace fuel with (length (t_ups t) + S (fuel - length (t_ups t) - 1))
      by (rewrite E in Hfuel; cbn in Hfuel; lia).
    eapply leftmost_down; [done|done|done|]. intros id lo hi rest Hsp. rewrite E in Hsp.
    cbn in Hsp. injection Hsp as <- _ _ _.
    destruct (leaf_node t a [] l ls Hsf E) as (_ & _ & _ & Hp & [_ _ R3 _ _]).
    wp_step. cbn [leftmost_leaf]. wp_step. by apply wp_ret. }
  cbn in Hleft |- *. destruct Hleft as (page & Hp & Hleft). exists page. split; [done|].
  apply wp_bind. eapply wp_mono; [exact Hleft|]. intros [page'| | |] a'; try done. intros [-> ->].
  unfold all_rows. rewrite E. apply (scan_leaves_spec []); [done|]. rewrite E in Hfuel. lia.
Qed.
End Scan.

Lemma foldl_snoc {A B} (g : A -> B) out rs :
  foldl (fun out r => out ++ [g r]) out rs = out ++ (g <$> rs).
Proof.
  revert out. induction rs as [|r rs IH]; intros out; cbn; [by rewrite app_nil_r|].
  by rewrite IH, <- (assoc_L (++)).
Qed.

Lemma scan_spec t a I fuel :
  stands_for a t -> length (t_ups t) + length (t_leaves t) <= fuel ->
  wp (scan fuel) a I (okq (fun out a' => a' = a /\ out = contents t)).
Proof.
  intros Hsf Hfuel. unfold scan, scan_with.
  eapply wp_mono; [apply (scan_stored_spec _ (fun out r => out ++ [(r_key r, r_val r)]) t); [done| |done]|].
  - intros out r Hr.
    pose proof (materialize_row r a I) as Hm. unfold materialize_stored in Hm. rewrite key_entry_of.
    assert (row_ok r) as Hok by (eapply Forall_forall; [eapply all_rows_ok, Hsf|done]).
    specialize (Hm Hok (row_pages _ _ _ Hsf Hr)). destruct (overflow (entry_of r)).
    + apply wp_bind. eapply wp_mono; [exact Hm|]. intros [v| | |] a'; try done. by intros [-> ->].
    + destruct Hm as [_ Hm]. cbn. by rewrite Hm.
  - intros [out| | |] a'; try done. intros [-> ->]. cbn. split; [done|].
    apply (foldl_snoc (fun r => (r_key r, r_val r)) [] (all_rows t)).
Qed.

(** ** Resumable scans *)

Fixpoint fold_until {A} (upd : A -> row -> A * bool) (acc : A) (rs : list row) : A * bool :=
  match rs with
  | [] => (acc, true)
  | r :: rs => let '(acc, go) := upd acc r in if go then fold_until upd acc rs else (acc, false)
  end.

Lemma fold_until_app {A} (upd : A -> row -> A * bool) acc l1 l2 :
  fold_until upd acc (l1 ++ l2) =
  let '(acc, go) := fold_until upd acc l1 in if go then fold_until upd acc l2 else (acc, false).
Proof.
  revert acc. induction l1 as [|r l1 IH]; intros acc; [done|]. cbn.
  destruct (upd acc r) as [acc' []]; [apply IH|done].
Qed.

Lemma filter_all {A} (P : A -> Prop) `{forall x, Decision (P x)} l : Forall P l -> filter P l = l.
Proof. induction 1; [done|]. by rewrite filter_cons_True, IHForall. Qed.

Lemma filter_none {A} (P : A -> Prop) `{forall x, Decision (P x)} l :
  Forall (fun x => ~ P x) l -> filter P l = [].
Proof. induction 1; [done|]. by rewrite filter_cons_False, IHForall. Qed.

Section ScanFrom.
Context {A : Type} (f : A -> Z -> bytes -> bool -> prog (A * bool)) (upd : A -> row -> A * bool).
Context (t : tree) (a : ast) (I : ast -> Prop) (Hsf : stands_for a t).
Context (Hf : forall acc r, r ∈ all_rows t ->
  wp (f acc (key (entry_of r)) (stored (entry_of r)) (overflow (entry_of r))) a I
    (okq (fun x a' => a' = a /\ x = upd acc r))).

Definition kept (skip : option Z) (rs : list row) : list row :=
  match skip with Some start => filter (fun r => start <= r_key r)%Z rs | None => rs end.

Lemma visit_from_spec skip rs acc :
  (forall r, r ∈ rs -> r ∈ all_rows t) ->
  wp (visit_from f skip (entry_of <$> rs) acc) a I
    (okq (fun x a' => a' = a /\ x = fold_until upd acc (kept skip rs))).
Proof using Hf.
  revert acc. induction rs as [|r rs IH]; intros acc Hin.
  - cbn. by destruct skip.
  - assert (forall r, r ∈ rs -> r ∈ all_rows t) as Hin' by (intros r' Hr'; apply Hin; by right).
    cbn [visit_from fmap list_fmap]. rewrite key_entry_of.
    assert (wp (let! '(acc, go) := f acc (r_key r) (stored (entry_of r)) (overflow (entry_of r)) in
                if go then visit_from f skip (entry_of <$> rs) acc else pret (acc, false)) a I
              (okq (fun x a' => a' = a /\ x = fold_until upd acc (r :: kept skip rs)))) as Hgo.
    { apply wp_bind. pose proof (Hf acc r (Hin r ltac:(left))) as H. rewrite key_entry_of in H.
      eapply wp_mono; [exact H|]. intros [[acc' go]| | |] a'; try done. intros [-> E].
      cbn [fold_until]. rewrite <- E. destruct go; [by apply IH|done]. }
    destruct skip as [start|]; cbn [kept] in *; [|exact Hgo].
    destruct (Z.ltb_spec (r_key r) start).
    + rewrite filter_cons_False by lia. by apply IH.
    + rewrite filter_cons_True by lia. exact Hgo.
Qed.

Lemma scan_from_leaves_spec l1 l l2 skip acc fuel :
  t_leaves t = l1 ++ l :: l2 -> length (l :: l2) <= fuel ->
  wp (scan_from_leaves fuel f skip (leaf_page (first_id l_id l2 None) l) acc) a I
    (okq (fun x a' => a' = a /\
       x = (fold_until upd acc (kept skip (l_rows l) ++ concat (l_rows <$> l2))).1)).
Proof using Hf Hsf.
  revert l1 l skip acc fuel. induction l2 as [|l' l2 IH]; intros l1 l skip acc fuel E Hfuel;
    (destruct fuel as [|fuel]; [cbn in Hfuel; lia|]);
    destruct (leaf_node t a l1 l _ Hsf E) as (Hl & _ & _ & _ & [_ R2 _ R4 _]);
    cbn [scan_from_leaves]; (apply wp_bind; eapply wp_lift; [exact R4|]); apply wp_bind;
    (eapply wp_mono; [apply visit_from_spec; intros r Hr; by eapply in_all_rows|]);
    (intros [[acc' go]| | |] a'; try done); intros [-> Eu]; rewrite fold_until_app, <- Eu;
    (destruct go; [|done]); (apply wp_bind; eapply wp_lift; [exact R2|]); [done|].
  cbn [first_id]. rewrite (cons_middle l l1), (assoc_L (++)) in E.
  destruct (leaf_node t a (l1 ++ [l]) l' l2 Hsf E) as (_ & _ & _ & Hp & _).
  apply wp_bind. eapply wp_read; [exact Hp|]. apply (IH (l1 ++ [l]) l' None); [done|cbn in *; lia].
Qed.

Lemma scan_from_stored_spec start acc fuel :
  (0 <= start < INF_KEY)%Z -> length (t_ups t) + length (t_leaves t) <= fuel ->
  wp (scan_from_stored_with fuel start f acc) a I
    (okq (fun x a' => a' = a /\
       x = (fold_until upd acc (filter (fun r => start <= r_key r)%Z (all_rows t))).1)).
Proof using Hf Hsf.
  intros Hk Hfuel. unfold scan_from_stored_with. apply wp_bind.
  assert (0 < length (t_leaves t)) as Hpos.
  { pose proof (stacked_contig _ _ _ (tk_stacked _ _ (sf_ok _ _ Hsf))) as Hc.
    destruct (t_leaves t); [done|cbn; lia]. }
  eapply descend_leaf; [done|done|lia|]. intros path l1 l l2 E Hlo _. cbn beta iota.
  eapply wp_mono; [apply (scan_from_leaves_spec l1 l l2); [done|rewrite E, length_app in Hfuel; lia]|].
  intros [x| | |] a'; try done. intros [-> ->]. split; [done|]. do 2 f_equal.
  destruct Hsf as [[Hst _ Hlv _] _]. apply stacked_contig in Hst. unfold all_rows. rewrite E in *.
  rewrite fmap_app, fmap_cons in Hst. apply contig_app in Hst as (m & Hc1 & <- & Hlt & Hc2).
  rewrite Forall_app, Forall_cons in Hlv. destruct Hlv as (Hl1 & _ & Hl2).
  apply leaves_sorted in Hc1 as [_ Hc1]; [|done]. apply leaves_sorted in Hc2 as [_ Hc2]; [|done].
  rewrite fmap_app, concat_app, filter_app. cbn. rewrite filter_app.
  rewrite (filter_none _ (concat (l_rows <$> l1))), (filter_all _ (concat (l_rows <$> l2))); [done| |].
  - eapply Forall_impl; [exact Hc2|]. cbn. lia.
  - eapply Forall_impl; [exact Hc1|]. cbn. lia.
Qed.
End ScanFrom.
