(* ===== verification/TreeChain.v ===== *)
(** * The clustered tree: writing chains and packing leaves

    A chained value is written to fresh pages before anything refers to it, and
    the entries of an overfull leaf are packed into chunks that each fit a
    page. *)

From S2P Require Import Prelude Core Store Node NodeFacts Tree TreeInv TreeRead.
From stdpp Require Import base gmap list sets sorting.
From Stdlib Require Import ZArith Lia Strings.Byte.

Import ClusteredTree.

(** No condition on the states between two operations. *)
Abbreviation anyway := (fun _ : ast => True).

(** [a'] is [a] with the fresh pages [l]. *)
Record extends (a a' : ast) (l : list (Z * Page)) : Prop := {
  ex_root : a_root a' = a_root a;
  ex_nodup : NoDup l.*1;
  ex_fresh : forall id, id ∈ l.*1 -> a_pages a !! id = None;
  ex_has : has (a_pages a') l;
  ex_rest : forall id, id ∉ l.*1 -> a_pages a' !! id = a_pages a !! id }.

Lemma extends_has a a' l l0 : extends a a' l -> has (a_pages a) l0 -> has (a_pages a') l0.
Proof.
  intros [_ _ Hf _ Hr] H id p Hin. rewrite Hr; [by apply H|].
  intros Hid%Hf. apply H in Hin. congruence.
Qed.

Lemma extends_refl a : extends a a [].
Proof. split; cbn; [done|constructor|intros id H; by apply elem_of_nil in H|apply has_nil|done]. Qed.

(** ** Allocation *)

Record allocated (a a' : ast) (ids : list Z) : Prop := {
  al_root : a_root a' = a_root a;
  al_nodup : NoDup ids;
  al_ok : ids_ok ids;
  al_fresh : forall id, id ∈ ids -> a_pages a !! id = None;
  al_live : forall id, id ∈ ids -> is_Some (a_pages a' !! id);
  al_rest : forall id, id ∉ ids -> a_pages a' !! id = a_pages a !! id }.

Lemma allocated_nil a : allocated a a [].
Proof. split; try done; [constructor|constructor|intros id H; by apply elem_of_nil in H..]. Qed.

Lemma allocated_cons a id page a' ids :
  a_pages a !! id = None -> page_id_ok id -> allocated (a_put a id page) a' ids ->
  allocated a a' (id :: ids).
Proof.
  intros Hf Hid [H1 H2 H3 H4 H5 H6]. cbn in *.
  assert (id ∉ ids) as Hni.
  { intros Hin. apply H4 in Hin. by rewrite lookup_insert_eq in Hin. }
  split; [done|by constructor|by constructor| | |].
  - intros id' [->|Hin]%elem_of_cons; [done|]. specialize (H4 id' Hin).
    by apply lookup_insert_None in H4 as [? _].
  - intros id' [->|Hin]%elem_of_cons; [|auto]. rewrite H6, lookup_insert_eq by done. eauto.
  - intros id' [Hne Hin]%not_elem_of_cons. by rewrite H6, lookup_insert_ne.
Qed.

Lemma allocated_trans a a1 a2 ids1 ids2 :
  allocated a a1 ids1 -> allocated a1 a2 ids2 -> allocated a a2 (ids1 ++ ids2).
Proof.
  intros [A1 A2 A3 A4 A5 A6] [B1 B2 B3 B4 B5 B6].
  assert (forall id, id ∈ ids1 -> id ∉ ids2) as Hd.
  { intros id H1 H2. apply B4 in H2. apply A5 in H1 as [? ?]. congruence. }
  split; [congruence| | | | |].
  - apply NoDup_app. split_and!; done.
  - by apply Forall_app.
  - intros id [H|H]%elem_of_app; [auto|]. specialize (B4 id H). rewrite A6 in B4; [done|].
    intros H1. by apply (Hd id).
  - intros id [H|H]%elem_of_app; [|auto]. rewrite B6 by auto. auto.
  - intros id [H1 H2]%not_elem_of_app. by rewrite B6, A6.
Qed.

Lemma alloc_chain_spec n ids0 a :
  wp (alloc_chain n ids0) a anyway
    (okq (fun r a' => exists ids, r = ids0 ++ ids /\ length ids = n /\ allocated a a' ids)).
Proof.
  revert ids0 a. induction n as [|n IH]; intros ids0 a.
  - cbn. exists []. split_and!; [by rewrite app_nil_r|done|apply allocated_nil].
  - cbn. intros id page Hf Hid Hl. split; [done|].
    eapply wp_mono; [apply IH|]. intros [r| | |] a'; try done.
    intros (ids & -> & <- & Ha). exists (id :: ids).
    split_and!; [by rewrite <- (assoc_L (++))|done|by eapply allocated_cons].
Qed.

Lemma alloc_n_spec n a :
  wp (alloc_n n) a anyway (okq (fun ids a' => length ids = n /\ allocated a a' ids)).
Proof.
  revert a. induction n as [|n IH]; intros a.
  - cbn. split; [done|apply allocated_nil].
  - cbn. intros id page Hf Hid Hl. split; [done|]. apply wp_bind.
    eapply wp_mono; [apply IH|]. intros [ids| | |] a'; try done. intros [<- Ha]. cbn.
    split; [done|]. by eapply allocated_cons.
Qed.

(** ** Writing a chain *)

Lemma chain_fp_ids ids cs : length ids = length cs -> (chain_fp ids cs).*1 = ids.
Proof.
  revert cs. induction ids as [|id ids IH]; intros [|c cs] H; try done. cbn. f_equal. apply IH. by injection H.
Qed.

(** Pages overwritten, the rest left alone. *)
Definition rewrites (a a' : ast) (ids : list Z) : Prop :=
  a_root a' = a_root a /\ forall id, id ∉ ids -> a_pages a' !! id = a_pages a !! id.

Lemma write_links_spec all ids1 cs1 ids2 cs2 a :
  length ids1 = length cs1 -> NoDup (ids1 ++ ids2) -> ids_ok ids2 -> length ids2 = length cs2 ->
  (forall id, id ∈ ids1 -> is_Some (a_pages a !! id)) ->
  Forall (fun c => 0 < length c <= OVERFLOW_PAYLOAD) cs1 -> ids_ok ids1 ->
  has (a_pages a) (chain_fp ids2 cs2) ->
  wp (write_links all (reverse (zip ids1 cs1)) (head ids2)) a anyway
    (okq (fun r a' => r = head (ids1 ++ ids2) /\ rewrites a a' ids1 /\
       has (a_pages a') (chain_fp (ids1 ++ ids2) (cs1 ++ cs2)))).
Proof.
  revert cs1 ids2 cs2 a. induction ids1 as [|id ids1 IH] using rev_ind;
    intros cs1 ids2 cs2 a Hl Hnd Hok2 Hl2 Hlive Hcs Hok1 Hg.
  - destruct cs1; [|done]. cbn. split_and!; [done|by split|done].
  - rewrite length_app in Hl. destruct (exists_last (l := cs1)) as (cs1' & c & ->);
      [intros ->; cbn in Hl; lia|].
    rewrite length_app in Hl. cbn in Hl. assert (length ids1 = length cs1') as Hl1 by lia.
    rewrite zip_with_app by done. cbn [zip_with]. rewrite reverse_app. cbn [reverse rev_append app].
    apply Forall_app in Hcs as [Hcs Hc]. apply Forall_singleton in Hc as [_ Hc].
    unfold ids_ok in Hok1. rewrite Forall_app, Forall_singleton in Hok1. destruct Hok1 as [Hok1 Hid].
    rewrite <- (assoc_L (++)) in Hnd |- *. cbn [app] in Hnd |- *.
    change (reverse [(id, c)]) with [(id, c)]. cbn [app write_links].
    apply wp_bind. eapply wp_lift; [apply init_overflow_bytes; [apply length_zero_page|exact Hc]|].
    cbn [wp]. split_and!; [apply Hlive, elem_of_app; right; left|by apply length_ovf_bytes|done|].
    assert (id ∉ ids1 /\ id ∉ ids2) as [Hn1 Hn2].
    { apply NoDup_app in Hnd as (_ & Hd & Hnd). apply NoDup_cons in Hnd as [? _].
      split; [|done]. intros Hin. apply (Hd id Hin). left. }
    eapply wp_mono; [apply (IH cs1' (id :: ids2) (c :: cs2))|].
    + done.
    + done.
    + constructor; assumption.
    + cbn. by rewrite Hl2.
    + intros id' Hin. cbn. rewrite lookup_insert_is_Some. right.
      split; [intros ->; done|]. apply Hlive, elem_of_app. by left.
    + done.
    + done.
    + cbn. rewrite has_cons. split; [apply lookup_insert_eq|]. apply has_put; [done|].
      by rewrite chain_fp_ids.
    + intros [r| | |] a'; try done. intros (-> & [Hr1 Hr2] & Hhas). cbn in *.
      split_and!; [done| |by rewrite <- (assoc_L (++))]. split; [done|].
      intros id' [H1 H2]%not_elem_of_app. rewrite Hr2 by done. rewrite lookup_insert_ne; [done|].
      intros ->. apply H2. left.
Qed.

Lemma write_chain_spec v a :
  MAX_TUPLE < length v ->
  wp (write_chain (drop OVERFLOW_INLINE_PREFIX v)) a anyway
    (okq (fun first a' => exists ids, head ids = Some first /\ length ids = length (rest_chunks v) /\
       ids_ok ids /\ extends a a' (chain_fp ids (rest_chunks v)))).
Proof.
  intros Hl. unfold write_chain. fold (rest_chunks v).
  destruct (rest_chunks_spec v) as (H1 & H2 & H3).
  apply wp_bind. eapply wp_mono; [apply alloc_chain_spec|].
  intros [r| | |] a1; try done. intros (ids & -> & Hlen & [A1 A2 A3 A4 A5 A6]). cbn [app okq].
  apply wp_bind. eapply wp_mono.
  { apply (write_links_spec ids ids (rest_chunks v) [] [] a1); [done|by rewrite app_nil_r|constructor|done|assumption..|].
    apply has_nil. }
  intros [r| | |] a2; try done. intros (-> & [R1 R2] & Hg). rewrite !app_nil_r in *. cbn [okq].
  destruct (head ids) as [first|] eqn:Eh.
  - apply wp_ret. exists ids. split_and!; [done|done|done|].
    split; rewrite ?chain_fp_ids by done; [congruence|assumption..|].
    intros id Hid. by rewrite R2, A6.
  - destruct ids; [|done]. cbn [length] in Hlen. destruct (rest_chunks v); [|done].
    assert (length (drop OVERFLOW_INLINE_PREFIX v) = 0) as E0 by by rewrite <- H1.
    rewrite length_drop in E0. clear -Hl E0. len.
Qed.

Lemma make_entry_spec k v a :
  (0 <= k < INF_KEY)%Z -> (Z.of_nat (length v) <= MAX_CHAINED)%Z ->
  wp (make_entry k v) a anyway
    (okq (fun e a' => exists r, e = entry_of r /\ r_key r = k /\ r_val r = v /\ row_ok r /\
       extends a a' (row_fp r))).
Proof.
  intros Hk Hm. unfold make_entry. case_decide as Hd.
  - apply wp_ret. exists (MkRow k v []). split_and!; [done|done|done| |apply extends_refl].
    split; [done|done|by cbn; rewrite decide_True|constructor].
  - rewrite decide_False by lia.
    rewrite decide_True by (clear -Hd; len).
    apply wp_bind. eapply wp_mono; [apply write_chain_spec; lia|].
    intros [first| | |] a1; try done. intros (ids & Hh & Hlen & Hok & Hex). cbn [okq].
    rewrite decide_True by (unfold u32, MAX_CHAINED in *; lia).
    apply wp_ret. exists (MkRow k v ids). destruct ids as [|first' ids]; [done|]. injection Hh as ->.
    split_and!; [done|done|done| |done].
    split; [done|done|by cbn [r_chain r_val]; rewrite decide_False|done].
Qed.

(** ** Entry sizes *)

Lemma entry_of_size r : row_ok r -> length (stored (entry_of r)) <= MAX_TUPLE.
Proof.
  intros Hr. destruct (row_cases r Hr) as [(_ & -> & _ & H)|(first & ids & _ & _ & -> & _ & Hl & _)]; [done|].
  cbn [stored]. unfold encode_stub. rewrite !length_app, length_take, !le_bytes_length.
  pose proof (Nat.le_min_l OVERFLOW_INLINE_PREFIX (length (r_val r))) as Hmin.
  generalize dependent (Nat.min OVERFLOW_INLINE_PREFIX (length (r_val r))). clear. intros n Hn. len.
Qed.

Lemma entry_of_fits r : row_ok r -> leaf_fits [entry_of r].
Proof.
  intros H%entry_of_size. unfold leaf_fits, entries_size. cbn [sum_list_with].
  unfold MAX_TUPLE, LEAF_CAPACITY in *. autounfold with consts in *. lia.
Qed.

(** ** Packing *)

(** The chunks hold the entries in order, each is nonempty and fits a page, and
    no chunk has room for the first entry of the next. *)
Fixpoint tight (cs : list (list Entry)) : Prop :=
  match cs with
  | c :: ((c' :: _) as cs') => LEAF_CAPACITY < entries_size (c ++ take 1 c') /\ tight cs'
  | _ => True
  end.

Lemma entries_size_snoc es e :
  entries_size (es ++ [e]) = entries_size es + leaf_entry_size (stored e).
Proof. rewrite entries_size_app. unfold entries_size at 2. cbn. unfold leaf_entry_size. lia. Qed.

Lemma pack_spec es cur :
  leaf_fits cur -> Forall (fun e => leaf_fits [e]) es -> cur ++ es <> [] ->
  exists suf cs, pack es cur (entries_size cur) = (cur ++ suf) :: cs /\
    concat ((cur ++ suf) :: cs) = cur ++ es /\
    Forall (fun c => c <> [] /\ leaf_fits c) ((cur ++ suf) :: cs) /\ tight ((cur ++ suf) :: cs).
Proof.
  revert cur. induction es as [|e es IH]; intros cur Hcur Hes Hne.
  - rewrite app_nil_r in Hne. cbn. rewrite decide_False by done. exists [], [].
    rewrite app_nil_r. split_and!; [done|apply app_nil_r|by apply Forall_singleton|done].
  - apply Forall_cons in Hes as [He Hes]. cbn [pack]. case_decide as Hd.
    + destruct Hd as [Hc Hsz].
      destruct (IH [e] He Hes ltac:(done)) as (suf & cs & E & Hcat & Hall & Ht).
      assert (entries_size [e] = leaf_entry_size (stored e)) as Ee
        by (unfold entries_size, leaf_entry_size; cbn; lia).
      rewrite <- Ee, E. exists [], (([e] ++ suf) :: cs). rewrite app_nil_r.
      split_and!; [done| |by constructor|].
      * cbn [concat] in Hcat |- *. by rewrite Hcat.
      * split; [|done]. cbn [app take]. rewrite take_0, entries_size_app. lia.
    + assert (leaf_fits (cur ++ [e])) as Hfit.
      { destruct (decide (cur = [])) as [->|Hc]; [done|]. unfold leaf_fits.
        rewrite entries_size_snoc. assert (~ LEAF_CAPACITY < entries_size cur + leaf_entry_size (stored e)); [|lia].
        intros ?. by apply Hd. }
      destruct (IH (cur ++ [e]) Hfit Hes) as (suf & cs & E & Hcat & Hall & Ht); [by destruct cur|].
      rewrite entries_size_snoc in E. rewrite E. exists (e :: suf), cs.
      rewrite <- !(assoc_L (++)) in *. done.
Qed.

Lemma entries_size_take n es : entries_size (take n es) <= entries_size es.
Proof. rewrite <- (take_drop n es) at 2. rewrite entries_size_app. lia. Qed.

Lemma tight_size cs : tight cs -> LEAF_CAPACITY * (length cs / 2) <= entries_size (concat cs).
Proof.
  revert cs. fix IH 1. intros [|c [|c' cs]] Ht; [cbn; lia|cbn; lia|].
  destruct Ht as [H1 H2]. specialize (IH cs). cbn [concat length]. rewrite !entries_size_app.
  replace (S (S (length cs))) with (1 * 2 + length cs) by lia. rewrite Nat.div_add_l by lia.
  rewrite entries_size_app in H1. pose proof (entries_size_take 1 c').
  assert (tight cs) as H3 by (destruct cs; [done|apply H2]). specialize (IH H3). lia.
Qed.

(** Strictly more than one page's worth for each pair. *)
Lemma tight_size_lt cs : tight cs -> 2 <= length cs -> LEAF_CAPACITY * (length cs / 2) < entries_size (concat cs).
Proof.
  destruct cs as [|c [|c' cs]]; cbn [length]; [lia|lia|]. intros [H1 H2] _.
  assert (tight cs) as H3 by (destruct cs; [done|apply H2]). apply tight_size in H3.
  rewrite entries_size_app in H1. pose proof (entries_size_take 1 c').
  cbn [concat]. rewrite !entries_size_app.
  replace (S (S (length cs))) with (1 * 2 + length cs) by lia. rewrite Nat.div_add_l by lia. lia.
Qed.

Record packed (es : list Entry) (cs : list (list Entry)) : Prop := {
  pk_concat : concat cs = es;
  pk_chunks : Forall (fun c => c <> [] /\ leaf_fits c) cs;
  pk_two : 2 <= length cs;
  pk_three : length cs <= 3 }.

(** Entries that overflow one leaf and come to at most two pages' worth. *)
Lemma pack_overfull es :
  Forall (fun e => leaf_fits [e]) es -> ~ leaf_fits es -> entries_size es <= 2 * LEAF_CAPACITY ->
  packed es (pack es [] 0).
Proof.
  intros Hes Hov Hsz. assert (es <> []) as Hne by (intros ->; apply Hov; unfold leaf_fits; cbn; lia).
  destruct (pack_spec es [] ltac:(unfold leaf_fits; cbn; lia) Hes Hne) as (suf & cs & E & Hc & Hall & Ht).
  change (entries_size []) with 0 in E. cbn [app] in *. rewrite E.
  assert (2 <= length (suf :: cs)) as H2.
  { destruct cs as [|]; [|cbn; lia]. cbn [concat] in Hc. rewrite app_nil_r in Hc. subst suf.
    apply Forall_cons in Hall as [[_ ?] _]. done. }
  split; [done|done|done|].
  pose proof (tight_size_lt _ Ht H2) as Hlt. rewrite Hc in Hlt.
  destruct (decide (length (suf :: cs) <= 3)) as [|Hgt]; [done|]. exfalso.
  assert (2 <= length (suf :: cs) / 2) as Hd by (apply Nat.div_le_lower_bound; lia).
  pose proof (Nat.mul_le_mono_l _ _ LEAF_CAPACITY Hd). lia.
Qed.

(** A leaf's worth of entries and one more that takes at most half a leaf never
    needs a third chunk. *)
Lemma pack_half es1 e es2 :
  Forall (fun e => leaf_fits [e]) (es1 ++ e :: es2) -> leaf_fits (es1 ++ es2) ->
  2 * entries_size [e] <= LEAF_CAPACITY -> length (pack (es1 ++ e :: es2) [] 0) <= 2.
Proof.
  intros Hes Hold Hhalf. unfold leaf_fits in Hold. rewrite entries_size_app in Hold.
  assert (es1 ++ e :: es2 <> []) as Hne by (by destruct es1).
  destruct (pack_spec _ [] ltac:(unfold leaf_fits; cbn; lia) Hes Hne) as (c0 & cs & E & Hc & Hall & Ht).
  change (entries_size []) with 0 in E. cbn [app] in *. rewrite E.
  destruct cs as [|c1 [|c2 cs]]; cbn [length]; [lia|lia|exfalso].
  apply Forall_cons in Hall as [_ Hall]. apply Forall_cons in Hall as [[Hc1 _] _].
  destruct Ht as (T1 & T2 & _). destruct c1 as [|f c1]; [done|]. cbn [take] in T1.
  rewrite take_0 in T1. rewrite entries_size_app in T1, T2. pose proof (entries_size_take 1 c2) as Hk2.
  cbn [concat] in Hc. assert (entries_size (c0 ++ (f :: c1) ++ c2) <= entries_size (es1 ++ e :: es2)) as Htot.
  { rewrite <- Hc, !entries_size_app. lia. }
  rewrite (cons_middle e es1 es2), !entries_size_app in Htot.
  apply app_eq_app in Hc as (m & [[-> Hm]|[-> Hm]]); destruct m as [|x m]; cbn [app] in Hm;
    injection Hm; intros; subst; repeat rewrite ?entries_size_app, ?entries_size_cons in *;
    change (entries_size []) with 0 in *; lia.
Qed.

(** Nor does one appended past a leaf's worth, whatever its size. *)
Lemma pack_snoc es e :
  Forall (fun e => leaf_fits [e]) (es ++ [e]) -> leaf_fits es -> length (pack (es ++ [e]) [] 0) <= 2.
Proof.
  intros Hes Hold. unfold leaf_fits in Hold.
  assert (es ++ [e] <> []) as Hne by (by destruct es).
  destruct (pack_spec _ [] ltac:(unfold leaf_fits; cbn; lia) Hes Hne) as (c0 & cs & E & Hc & Hall & Ht).
  change (entries_size []) with 0 in E. cbn [app] in *. rewrite E.
  destruct cs as [|c1 [|c2 cs]]; cbn [length]; [lia|lia|exfalso].
  apply Forall_cons in Hall as [_ Hall]. apply Forall_cons in Hall as [[Hc1 _] Hall].
  apply Forall_cons in Hall as [[Hc2 _] _]. destruct Ht as [T1 _].
  destruct c1 as [|f c1]; [done|]. cbn [take concat] in *. rewrite take_0 in T1.
  assert (exists y ys, c2 ++ concat cs = ys ++ [y]) as (y & ys & Ey).
  { destruct (c2 ++ concat cs) as [|? ?] eqn:Ey using rev_ind; [by destruct c2|eauto]. }
  rewrite Ey, !(assoc_L (++)) in Hc. apply app_inj_tail in Hc as [<- _].
  repeat rewrite ?entries_size_app, ?entries_size_cons in *. change (entries_size []) with 0 in *. lia.
Qed.
