(* ===== verification/TreeSplit.v ===== *)
(** * The clustered tree: splitting a leaf

    The chunks of an overfull leaf are written right to left as a run of leaves
    that link to each other; the separators between them are then published in
    the interior levels, which may split in turn. *)

From S2P Require Import Prelude Core Store Node NodeFacts Tree TreeInv TreeRead TreeChain.
From stdpp Require Import base gmap list sets sorting strings.
From Stdlib Require Import ZArith Lia Strings.Byte.

Import ClusteredTree.

(** ** The run of leaves a split leaf becomes *)

Definition first_key (rc : list row) : Z := match rc with r :: _ => r_key r | [] => INF_KEY end.

Definition bound (rcs : list (list row)) (hi : Z) : Z :=
  match rcs with rc :: _ => first_key rc | [] => hi end.

Fixpoint run_leaves (lo : Z) (ids : list Z) (rcs : list (list row)) (hi : Z) : list leaf :=
  match ids, rcs with
  | id :: ids, rc :: rcs => MkLeaf id lo (bound rcs hi) rc :: run_leaves (bound rcs hi) ids rcs hi
  | _, _ => []
  end.

Fixpoint run_pubs (ids : list Z) (rcs : list (list row)) : list (Z * Z * Z) :=
  match ids, rcs with
  | id :: ((id' :: _) as ids), _ :: ((rc' :: _) as rcs) => (id, first_key rc', id') :: run_pubs ids rcs
  | _, _ => []
  end.

Fixpoint run_fp (ids : list Z) (rcs : list (list row)) (hi : Z) (tl : option Z) : list (Z * Page) :=
  match ids, rcs with
  | id :: ids, rc :: rcs =>
      (id, leaf_bytes (match ids with id' :: _ => Some id' | [] => tl end) (bound rcs hi)
             (entry_of <$> rc)) :: run_fp ids rcs hi tl
  | _, _ => []
  end.

Lemma run_leaves_fp lo ids rcs hi tl :
  length ids = length rcs -> leaves_fp (run_leaves lo ids rcs hi) tl = run_fp ids rcs hi tl.
Proof.
  revert lo rcs. induction ids as [|id ids IH]; intros lo [|rc rcs] Hl; try done.
  cbn [length] in Hl. injection Hl as Hl.
  cbn [run_leaves level_fp run_fp]. rewrite IH by done. f_equal. f_equal. unfold leaf_page. cbn [l_hi l_rows].
  f_equal. by destruct ids, rcs.
Qed.

Lemma run_fp_ids ids rcs hi tl : length ids = length rcs -> (run_fp ids rcs hi tl).*1 = ids.
Proof.
  revert rcs. induction ids as [|id ids IH]; intros [|rc rcs] Hl; try done.
  cbn. f_equal. apply IH. by injection Hl.
Qed.

Definition chunk_of (rc : list row) : list Entry := entry_of <$> rc.

Lemma fresh_leaf_ok link high es Q (a : ast) (k : Page -> prog Q) P :
  leaf_fits es ->
  wp (k (leaf_bytes link high es)) a anyway (okq P) ->
  wp (let! fresh := plift (init_leaf zero_page) in
      let! fresh := plift (set_right_link fresh link) in
      let! fresh := plift (set_high_key fresh high) in
      let! '(fresh, ok) := plift (write_leaf_entries fresh es) in
      if negb ok then pfail (corrupt "leaf split chunk failed to serialize") else k fresh)
    a anyway (okq P).
Proof.
  intros Hfit Hk.
  apply wp_bind. eapply wp_lift; [apply init_leaf_bytes, length_zero_page|].
  apply wp_bind. eapply wp_lift; [apply (hdr_set_right_link KIND_LEAF None)|].
  apply wp_bind. eapply wp_lift; [apply (hdr_set_high_key KIND_LEAF link)|].
  apply wp_bind. eapply wp_lift; [apply write_leaf_ok; [|exact Hfit]|exact Hk].
  rewrite length_app. unfold zeros, enc_entries. cbn [fmap list_fmap concat length].
  rewrite length_replicate. unfold entries_size. cbn [sum_list_with]. lia.
Qed.

Lemma write_chunks_spec ids1 rcs1 ids2 rcs2 tl hi a :
  length ids1 = length rcs1 -> length ids2 = length rcs2 -> NoDup (ids1 ++ ids2) ->
  (forall id, id ∈ ids1 -> is_Some (a_pages a !! id)) ->
  Forall (fun rc => leaf_fits (chunk_of rc)) rcs1 ->
  has (a_pages a) (run_fp ids2 rcs2 hi tl) ->
  wp (write_chunks (reverse (zip ids1 (chunk_of <$> rcs1))) (head (zip ids2 (chunk_of <$> rcs2))) tl hi
        (run_pubs ids2 rcs2)) a anyway
    (okq (fun pubs a' => pubs = run_pubs (ids1 ++ ids2) (rcs1 ++ rcs2) /\ rewrites a a' ids1 /\
       has (a_pages a') (run_fp (ids1 ++ ids2) (rcs1 ++ rcs2) hi tl))).
Proof.
  revert rcs1 ids2 rcs2 a. induction ids1 as [|id ids1 IH] using rev_ind;
    intros rcs1 ids2 rcs2 a Hl1 Hl2 Hnd Hlive Hfit Hg.
  - destruct rcs1; [|done]. cbn. split_and!; [done|by split|done].
  - rewrite length_app in Hl1. destruct (exists_last (l := rcs1)) as (rcs1' & rc & ->);
      [intros ->; cbn in Hl1; lia|].
    rewrite length_app in Hl1. cbn in Hl1. assert (length ids1 = length rcs1') as Hl by lia.
    rewrite Forall_app, Forall_singleton in Hfit. destruct Hfit as [Hfit Hrc].
    rewrite fmap_app, zip_with_app by by rewrite length_fmap. cbn [zip_with fmap list_fmap].
    rewrite reverse_app. change (reverse [(id, chunk_of rc)]) with [(id, chunk_of rc)]. cbn [app write_chunks].
    assert ((rcs1' ++ [rc]) ++ rcs2 = rcs1' ++ rc :: rcs2) as -> by by rewrite <- (assoc_L (++)).
    assert ((ids1 ++ [id]) ++ ids2 = ids1 ++ id :: ids2) as Ei by by rewrite <- (assoc_L (++)).
    rewrite Ei in Hnd |- *. clear Ei.
    assert (id ∉ ids1 /\ id ∉ ids2) as [Hn1 Hn2].
    { apply NoDup_app in Hnd as (_ & Hd & Hnd). apply NoDup_cons in Hnd as [? _].
      split; [|done]. intros Hin. apply (Hd id Hin). left. }
    (* the node just written, with its neighbour *)
    assert (forall link high,
      link = (match ids2 with id' :: _ => Some id' | [] => tl end) -> high = bound rcs2 hi ->
      wp (let! _ := write_page id (leaf_bytes link high (chunk_of rc)) in
          write_chunks (reverse (zip ids1 (chunk_of <$> rcs1'))) (Some (id, chunk_of rc)) tl hi
            (run_pubs (id :: ids2) (rc :: rcs2))) a anyway
        (okq (fun pubs a' => pubs = run_pubs (ids1 ++ id :: ids2) (rcs1' ++ rc :: rcs2) /\
           rewrites a a' (ids1 ++ [id]) /\
           has (a_pages a') (run_fp (ids1 ++ id :: ids2) (rcs1' ++ rc :: rcs2) hi tl)))) as Hnode.
    { intros link high -> ->. apply wp_bind. apply wp_write.
      - apply Hlive, elem_of_app. right. left.
      - by apply length_leaf_bytes.
      - done.
      - eapply wp_mono; [apply (IH rcs1' (id :: ids2) (rc :: rcs2))|].
        + done.
        + cbn. by rewrite Hl2.
        + done.
        + intros id' Hin. cbn. rewrite lookup_insert_is_Some. right.
          split; [intros ->; done|]. apply Hlive, elem_of_app. by left.
        + done.
        + cbn [run_fp]. rewrite has_cons. split; [apply lookup_insert_eq|]. apply has_put; [done|].
          by rewrite run_fp_ids.
        + intros [r| | |] a'; try done. intros (-> & [Hr1 Hr2] & Hhas). cbn in Hr1, Hr2.
          split_and!; [done| |done]. split; [done|].
          intros id' [H1 H2]%not_elem_of_app. rewrite Hr2 by done. rewrite lookup_insert_ne; [done|].
          intros ->. apply H2. left. }
    destruct ids2 as [|id2 ids2], rcs2 as [|rc2 rcs2]; try done.
    + cbn [zip_with head fmap list_fmap]. apply fresh_leaf_ok; [done|]. by apply Hnode.
    + cbn [zip_with head fmap list_fmap].
      apply (fresh_leaf_ok (Some id2) (match chunk_of rc2 with e :: _ => key e | [] => INF_KEY end)); [done|].
      assert (match chunk_of rc2 with e :: _ => key e | [] => INF_KEY end = first_key rc2) as ->.
      { destruct rc2; [done|]. cbn. apply key_entry_of. }
      by apply Hnode.
Qed.

(** ** Slots *)

Definition slot_ids (sp : list span) : list Z := sp.*1.*1.

Lemma slot_ids_app s1 s2 : slot_ids (s1 ++ s2) = slot_ids s1 ++ slot_ids s2.
Proof. unfold slot_ids. by rewrite !fmap_app. Qed.

(** Refining the slot of [l] at the separator [s]. *)
Lemma refine_slot_spec l s r seps lo hi rm A llo lhi B :
  slots lo hi seps rm = A ++ (l, llo, lhi) :: B -> l ∉ slot_ids A ->
  match refine_slot seps l s r with
  | Some seps' =>
      slots lo hi seps' rm = A ++ (l, llo, s) :: (r, s, lhi) :: B /\ length seps' = S (length seps)
  | None => rm = l /\ slots lo hi (seps ++ [(s, l)]) r = A ++ (l, llo, s) :: (r, s, lhi) :: B
  end.
Proof.
  revert lo A. induction seps as [|[sp c] seps IH]; intros lo A E Hn; cbn in E.
  - destruct A as [|x A]; cbn in E; simplify_eq; [done|]. by destruct A.
  - destruct A as [|x A]; cbn in E.
    + injection E as -> -> -> <-. cbn. by rewrite Z.eqb_refl.
    + injection E as <- E. cbn in Hn. apply not_elem_of_cons in Hn as [Hne Hn].
      cbn [refine_slot]. destruct (Z.eqb_spec c l) as [->|_]; [done|].
      specialize (IH sp A E Hn). destruct (refine_slot seps l s r) as [seps'|]; cbn.
      * destruct IH as [-> ->]. done.
      * destruct IH as [-> IH]. split; [done|]. by rewrite IH.
Qed.

Lemma holds_slot l seps lo hi rm :
  existsb (fun p => (p.2 =? l)%Z) seps || (rm =? l)%Z = bool_decide (l ∈ slot_ids (slots lo hi seps rm)).
Proof.
  revert lo. induction seps as [|[s c] seps IH]; intros lo; cbn.
  - apply eq_bool_prop_intro. rewrite !Is_true_true, bool_decide_eq_true, Z.eqb_eq, list_elem_of_singleton. naive_solver.
  - rewrite <- orb_assoc, (IH s). apply eq_bool_prop_intro.
    rewrite !Is_true_true, orb_true_iff, !bool_decide_eq_true, Z.eqb_eq, elem_of_cons. naive_solver.
Qed.

Lemma split_slots m lo hi seps rm ms mc :
  seps !! m = Some (ms, mc) ->
  slots lo hi seps rm = slots lo ms (take m seps) mc ++ slots ms hi (drop (m + 1) seps) rm.
Proof.
  revert lo seps. induction m as [|m IH]; intros lo [|[s c] seps]; cbn; try done.
  - intros [= -> ->]. done.
  - intros H. by rewrite (IH s _ H).
Qed.

(** A slot is found in one place only. *)
Lemma slot_unique X s Y X' s' Y' :
  X ++ s :: Y = X' ++ s' :: Y' -> s.1.1 = s'.1.1 -> NoDup (slot_ids (X ++ s :: Y)) ->
  X = X' /\ s = s' /\ Y = Y'.
Proof.
  revert X'. induction X as [|x X IH]; intros [|x' X'] E Hid Hnd; cbn in E.
  - by injection E.
  - injection E as <- E. exfalso. unfold slot_ids in Hnd. cbn in Hnd. apply NoDup_cons in Hnd as [Hn _].
    apply Hn. rewrite E, !fmap_app. cbn. rewrite Hid. apply elem_of_app. right. left.
  - injection E as -> E. exfalso. unfold slot_ids in Hnd. cbn in Hnd. apply NoDup_cons in Hnd as [Hn _].
    apply Hn. rewrite <- Hid, !fmap_app. cbn. apply elem_of_app. right. left.
  - injection E as <- E. apply NoDup_cons in Hnd as [_ Hnd]. by destruct (IH X' E Hid Hnd) as (-> & -> & ->).
Qed.

Lemma elem_of_slot_ids l sp : l ∈ slot_ids sp -> exists A lo hi B, sp = A ++ (l, lo, hi) :: B.
Proof.
  unfold slot_ids. intros H. apply list_elem_of_fmap in H as ([l' lo] & -> & H). cbn.
  apply list_elem_of_fmap in H as ([[l'' lo'] hi] & E & H). cbn in E. injection E as -> ->.
  apply list_elem_of_split in H as (A & B & ->). eauto.
Qed.

(** ** Reading a level *)

Definition level_reads (g : gmap Z Page) (lvl : list inner) : Prop :=
  forall l1 n l2, lvl = l1 ++ n :: l2 ->
    g !! i_id n = Some (inner_page (first_id i_id l2 None) n) /\ inner_ok n /\ span_ok (ispan n) /\
    link_ok (first_id i_id l2 None) /\
    inner_reads (inner_page (first_id i_id l2 None) n) (first_id i_id l2 None) n.

Lemma level_reads_of ups lvl g root :
  Forall inner_ok lvl -> stacked ups (ispan <$> lvl) root -> page_id_ok root ->
  has g (inners_fp lvl None) -> level_reads g lvl.
Proof.
  intros Hok Hst Hr Hg l1 n l2 ->. pose proof (stacked_spans _ _ _ Hst Hr) as Hspans.
  rewrite Forall_app, Forall_cons in Hok. destruct Hok as (_ & Hn & _).
  rewrite fmap_app, fmap_cons, Forall_app, Forall_cons in Hspans. destruct Hspans as (_ & Hsn & Hs2).
  assert (link_ok (first_id i_id l2 None)) as Hlink.
  { apply first_id_ok. rewrite Forall_fmap in Hs2. eapply Forall_impl; [exact Hs2|]. by intros m [? _]. }
  split_and!; [|done|done|done|by apply inner_page_reads]. apply Hg, (level_fp_at i_id inner_page).
Qed.

(** The walk right stops at the node that holds the child. *)
Lemma find_parent_spec lvl l1 m1 n m2 child start fuel a I Q :
  level_reads (a_pages a) lvl -> lvl = l1 ++ m1 ++ n :: m2 ->
  first_id i_id (m1 ++ [n]) None = Some start ->
  child ∈ slot_ids (slots_of n) -> Forall (fun m => child ∉ slot_ids (slots_of m)) m1 ->
  length m1 < fuel ->
  Q (i_id n, inner_page (first_id i_id m2 None) n) a ->
  wp (find_parent fuel child start) a I (okq Q).
Proof.
  intros Hrd. revert l1 start fuel. induction m1 as [|m m1 IH]; intros l1 start fuel E Hs Hc Hm Hf HQ;
    (destruct fuel as [|fuel]; [lia|]); cbn in Hs; injection Hs as <-.
  - destruct (Hrd l1 n m2 E) as (Hp & _ & _ & _ & [_ R2 _ R4 R5 _]).
    cbn [find_parent]. wp_step. wp_step. wp_step.
    rewrite (holds_slot child _ (i_lo n) (i_hi n)), bool_decide_true by done. by apply wp_ret.
  - apply Forall_cons in Hm as [Hm1 Hm]. cbn [app] in E.
    destruct (Hrd l1 m (m1 ++ n :: m2) E) as (Hp & _ & _ & _ & [_ R2 _ R4 R5 _]).
    cbn [find_parent]. wp_step. wp_step. wp_step.
    rewrite (holds_slot child _ (i_lo m) (i_hi m)), bool_decide_false by done. wp_step.
    cbn in Hf. destruct m1 as [|m' m1]; cbn [first_id app].
    + apply (IH (l1 ++ [m])); [by rewrite <- (assoc_L (++))|done|done|done|cbn in *; lia|done].
    + apply (IH (l1 ++ [m])); [by rewrite <- (assoc_L (++))|done|done|done|cbn in *; lia|done].
Qed.

(** ** Publishing a separator *)

Lemma inner_set_link link high seps rm link' :
  set_right_link (inner_bytes link high seps rm) link' = Ok (inner_bytes link' high seps rm).
Proof. apply (hdr_set_right_link KIND_INTERIOR link). Qed.

Lemma inner_set_high link high seps rm high' :
  set_high_key (inner_bytes link high seps rm) high' = Ok (inner_bytes link high' seps rm).
Proof. apply (hdr_set_high_key KIND_INTERIOR link). Qed.

Record published (a a' : ast) (ups ups' : list (list inner)) : Prop := {
  pb_root : page_id_ok (a_root a');
  pb_has : has (a_pages a') (ups_fp ups');
  pb_nodup : NoDup (ups_fp ups').*1;
  pb_new : forall id, id ∈ (ups_fp ups').*1 -> id ∈ (ups_fp ups).*1 \/ a_pages a !! id = None;
  pb_rest : forall id p, a_pages a !! id = Some p -> id ∉ (ups_fp ups).*1 -> a_pages a' !! id = Some p }.

(** Where the next separator of the same split goes: to the node the path names
    or its right neighbour; [m] more separators fit there, or the path is exact
    all the way up. *)
Definition near (m : nat) (ups : list (list inner)) (path : list (Z * Page)) (child : Z) : Prop :=
  match ups, path with
  | [], [] => True
  | lvl :: ups, (p, _) :: path =>
      exists l1 m1 n m2, lvl = l1 ++ m1 ++ n :: m2 /\ first_id i_id (m1 ++ [n]) None = Some p /\
        child ∈ slot_ids (slots_of n) /\ length m1 <= 1 /\
        ((m1 = [] /\ holders ups path p) \/ inner_fits (length (i_seps n) + m))
  | _, _ => False
  end.

Lemma holders_near m ups path child : holders ups path child -> near m ups path child.
Proof.
  destruct ups as [|lvl ups], path as [|[p pg] path]; cbn; try done.
  intros ((n & Hn & <- & Hc) & Hh). apply list_elem_of_split in Hn as (l1 & l2 & ->).
  exists l1, [], n, l2. split_and!; [done|done|done|cbn; lia|by left].
Qed.

(** The refined node: its slots, with [l]'s cut in two. *)
Record refined (n : inner) (l s r : Z) (seps' : list (Z * Z)) (rm' : Z) : Prop := {
  rf_slots : forall A lo hi B, slots_of n = A ++ (l, lo, hi) :: B ->
    slots (i_lo n) (i_hi n) seps' rm' = A ++ (l, lo, s) :: (r, s, hi) :: B;
  rf_len : length seps' = S (length (i_seps n)) }.

Lemma refine_parent_spec n link l s r a I Q :
  inner_ok n -> inner_reads (inner_page link n) link n ->
  l ∈ slot_ids (slots_of n) -> NoDup (slot_ids (slots_of n)) ->
  (forall seps' rm', refined n l s r seps' rm' ->
     Q (inner_bytes link (i_hi n) (i_seps n) rm', seps') a) ->
  wp (refine_parent (inner_page link n) l s r) a I (okq Q).
Proof.
  intros Hok [_ _ _ R4 R5 _] Hl Hnd Hk. unfold refine_parent. wp_step. wp_step.
  apply elem_of_slot_ids in Hl as (A & lo & hi & B' & E).
  assert (forall A' lo' hi' B'', slots_of n = A' ++ (l, lo', hi') :: B'' ->
            A' = A /\ lo' = lo /\ hi' = hi /\ B'' = B') as Hu.
  { intros A' lo' hi' B'' E'. rewrite E in Hnd. destruct (slot_unique A (l, lo, hi) B' A' (l, lo', hi') B'') as (-> & [= <- <-] & ->);
      [congruence|done|done|done]. }
  assert (l ∉ slot_ids A) as HA.
  { rewrite E, slot_ids_app in Hnd. apply NoDup_app in Hnd as (_ & Hd & _). intros Hin.
    apply (Hd l Hin). left. }
  pose proof (refine_slot_spec l s r (i_seps n) (i_lo n) (i_hi n) (i_rm n) A lo hi B' E HA) as Hr.
  destruct (refine_slot (i_seps n) l s r) as [seps'|].
  - destruct Hr as [Hr1 Hr2]. apply wp_ret. apply Hk. split; [|done].
    intros A' lo' hi' B'' E'. by destruct (Hu _ _ _ _ E') as (-> & -> & -> & ->).
  - destruct Hr as [Hr1 Hr2]. rewrite Hr1, Z.eqb_refl. cbn [negb]. apply wp_bind.
    eapply wp_lift; [apply inner_set_rightmost|]. apply wp_ret. apply Hk.
    split; [|rewrite length_app; cbn; lia].
    intros A' lo' hi' B'' E'. by destruct (Hu _ _ _ _ E') as (-> & -> & -> & ->).
Qed.

Section Level.
Context (L : list inner) (n : inner) (R : list inner) (ups : list (list inner)) (a : ast).
Context (Hg : has (a_pages a) (ups_fp ((L ++ n :: R) :: ups))).
Context (Hnd : NoDup (ups_fp ((L ++ n :: R) :: ups)).*1).

Lemma ups_ids : (ups_fp ((L ++ n :: R) :: ups)).*1 =
  (i_id <$> L) ++ i_id n :: (i_id <$> R) ++ (ups_fp ups).*1.
Proof using.
  rewrite ups_fp_cons, fmap_app, level_fp_ids, fmap_app, fmap_cons. by rewrite <- (assoc_L (++)).
Qed.

Lemma level_distinct :
  NoDup (i_id <$> L) /\ NoDup (i_id <$> R) /\ NoDup (ups_fp ups).*1 /\
  i_id n ∉ (i_id <$> L) /\ i_id n ∉ (i_id <$> R) /\ i_id n ∉ (ups_fp ups).*1 /\
  (forall id, id ∈ (i_id <$> L) -> id ∉ (i_id <$> R) /\ id ∉ (ups_fp ups).*1) /\
  (forall id, id ∈ (i_id <$> R) -> id ∉ (ups_fp ups).*1).
Proof using Hnd.
  clear Hg. rewrite ups_ids in Hnd. apply NoDup_app in Hnd as (H1 & H2 & H3).
  apply NoDup_cons in H3 as [H3 H4]. apply NoDup_app in H4 as (H4 & H5 & H6).
  apply not_elem_of_app in H3 as [H3 H7]. split_and!; try done.
  - intros Hin. apply (H2 _ Hin). left.
  - intros id Hin. specialize (H2 id Hin). set_solver.
Qed.

(** One node rewritten in place. *)
Lemma published_put n' :
  i_id n' = i_id n -> page_id_ok (a_root a) ->
  published a (a_put a (i_id n) (inner_page (first_id i_id R None) n'))
    ((L ++ n :: R) :: ups) ((L ++ n' :: R) :: ups).
Proof using Hg Hnd.
  intros Hid Hr. destruct level_distinct as (D1 & D2 & D3 & D4 & D5 & D6 & D7 & D8).
  assert ((ups_fp ((L ++ n' :: R) :: ups)).*1 = (ups_fp ((L ++ n :: R) :: ups)).*1) as Hids.
  { rewrite !ups_fp_cons, !fmap_app, !level_fp_ids, !fmap_app, !fmap_cons. by rewrite Hid. }
  split; [done| |by rewrite Hids|intros id; rewrite Hids; auto|].
  - rewrite ups_fp_cons, has_app, level_fp_app, has_app in Hg |- *. cbn [level_fp first_id] in Hg |- *.
    rewrite has_cons in Hg |- *. destruct Hg as ((G1 & G2 & G3) & G4). rewrite Hid. cbn [a_pages a_put].
    split_and!; [|apply lookup_insert_eq| |].
    + apply has_put; [done|by rewrite level_fp_ids].
    + apply has_put; [done|by rewrite level_fp_ids].
    + by apply has_put.
  - intros id p Hp Hn. rewrite ups_ids in Hn. cbn. rewrite lookup_insert_ne; [done|]. set_solver.
Qed.

(** One node split in two, and the levels above changed after that. *)
Lemma published_split nl nr page0 a2 ups2 :
  i_id nl = i_id n -> a_pages a !! i_id nr = None ->
  let a1 := a_put (a_put (a_put a (i_id nr) page0) (i_id nr) (inner_page (first_id i_id R None) nr))
              (i_id n) (inner_page (Some (i_id nr)) nl) in
  has (a_pages a1) (ups_fp ups) /\
  (published a1 a2 ups ups2 -> published a a2 ((L ++ n :: R) :: ups) ((L ++ nl :: nr :: R) :: ups2)).
Proof using Hg Hnd.
  intros Hid Hfresh a1. destruct level_distinct as (D1 & D2 & D3 & D4 & D5 & D6 & D7 & D8).
  pose proof (has_fresh _ _ _ Hg Hfresh) as Hnr. rewrite ups_ids in Hnr.
  apply not_elem_of_app in Hnr as [N1 Hnr]. apply not_elem_of_cons in Hnr as [N2 Hnr].
  apply not_elem_of_app in Hnr as [N3 N4].
  rewrite ups_fp_cons, has_app, level_fp_app, has_app in Hg. cbn [level_fp first_id] in Hg.
  rewrite has_cons in Hg. destruct Hg as ((G1 & G2 & G3) & G4).
  assert (forall l, has (a_pages a) l -> i_id n ∉ l.*1 -> i_id nr ∉ l.*1 -> has (a_pages a1) l) as Hkeep.
  { intros l H H1 H2. apply has_put; [|done]. apply has_put; [|done]. by apply has_put. }
  split; [by apply Hkeep|]. intros [P1 P2 P3 P4 P5].
  assert (has (a_pages a1) (inners_fp (L ++ nl :: nr :: R) None)) as Hlvl.
  { rewrite level_fp_app, has_app. cbn [level_fp first_id]. rewrite !has_cons, Hid.
    split_and!; [apply Hkeep; [done|by rewrite level_fp_ids..]|apply lookup_insert_eq| |].
    - cbn. rewrite lookup_insert_ne by done. apply lookup_insert_eq.
    - apply Hkeep; [done|by rewrite level_fp_ids..]. }
  assert ((inners_fp (L ++ nl :: nr :: R) None).*1 = (i_id <$> L) ++ i_id n :: i_id nr :: (i_id <$> R)) as Eids.
  { rewrite level_fp_ids, fmap_app, !fmap_cons. by rewrite Hid. }
  assert (forall id, id ∈ (inners_fp (L ++ nl :: nr :: R) None).*1 -> id ∉ (ups_fp ups).*1) as Hout.
  { intros id. rewrite Eids. set_solver. }
  assert (forall id, a_pages a1 !! id = None -> a_pages a !! id = None) as Hnone.
  { intros id. cbn. rewrite !lookup_insert_None. naive_solver. }
  split; [done| | | |].
  - rewrite ups_fp_cons, has_app. split; [|done]. intros id p Hin. apply P5; [by apply Hlvl|].
    apply Hout, list_elem_of_fmap. by exists (id, p).
  - rewrite ups_fp_cons, fmap_app. apply NoDup_app. split_and!; [|intros id Hin Hin2|done].
    + rewrite Eids. apply NoDup_app. split_and!; [done|set_solver|]. rewrite !NoDup_cons. set_solver.
    + destruct (P4 id Hin2) as [?|Hn]; [by eapply Hout|]. apply list_elem_of_fmap in Hin as ([id' p] & -> & Hin).
      apply Hlvl in Hin. cbn [fst] in Hn. congruence.
  - intros id. rewrite ups_fp_cons, fmap_app, elem_of_app, Eids, ups_ids. intros [Hin|Hin].
    + apply elem_of_app in Hin as [Hin|[->|[->|Hin]%elem_of_cons]%elem_of_cons]; [left; set_solver..|by right|left; set_solver].
    + destruct (P4 id Hin) as [?|Hn]; [left; set_solver|right; auto].
  - intros id p Hp Hn. rewrite ups_ids in Hn. apply P5; [|set_solver]. cbn.
    rewrite !lookup_insert_ne; [done|intros <-; congruence|intros <-; congruence|set_solver].
Qed.
End Level.

Lemma half_fits n : inner_fits n -> ~ inner_fits (S n) -> n = 510.
Proof. unfold inner_fits. autounfold with consts. unfold PAGE_SIZE. lia. Qed.

Lemma fits_small n : n <= 510 -> inner_fits n.
Proof. unfold inner_fits. autounfold with consts. unfold PAGE_SIZE. lia. Qed.

Lemma fits_le n m : m <= n -> inner_fits n -> inner_fits m.
Proof. unfold inner_fits. autounfold with consts. lia. Qed.

(** The slots of a level with one node replaced. *)
Lemma concat_slots_mid L n R :
  concat (slots_of <$> L ++ n :: R) = concat (slots_of <$> L) ++ slots_of n ++ concat (slots_of <$> R).
Proof. by rewrite fmap_app, concat_app. Qed.

(** Growing a root over the two halves of the old one. *)
Lemma publish_root left sep right fuel a :
  page_id_ok (a_root a) -> left = a_root a -> page_id_ok right -> (0 < sep < INF_KEY)%Z ->
  wp (publish_separator fuel [] left sep right) a anyway
    (okq (fun _ a' => exists ups',
       stacked ups' [(left, 0, sep); (right, sep, INF_KEY)]%Z (a_root a') /\ published a a' [] ups')).
Proof.
  intros Hr -> Hright Hsep. cbn [publish_separator]. apply wp_bind, wp_alloc. intros id page Hf Hid Hl.
  split; [done|]. apply wp_bind. eapply wp_lift; [apply init_interior_bytes, length_zero_page|].
  apply wp_bind. eapply wp_lift; [apply write_interior_ok; apply fits_small; cbn; lia|]. cbn [negb].
  apply wp_bind, wp_write; [cbn; rewrite lookup_insert_eq; eauto| |done|].
  { apply length_inner_bytes, fits_small. cbn. lia. }
  apply wp_set_root; [done|]. cbn [a_root a_pages a_put].
  set (n := MkInner id 0 INF_KEY [(sep, a_root a)] right). exists [[n]]. split.
  - cbn. split_and!; [done| |done]. apply Forall_singleton. split; [apply fits_small; cbn; lia|].
    unfold page_id_ok, INF_KEY in *. repeat constructor; cbn; unfold page_id_ok, INF_KEY; lia.
  - split; cbn.
    + done.
    + rewrite has_cons. split; [by rewrite lookup_insert_eq|apply has_nil].
    + apply NoDup_singleton.
    + intros id' ->%list_elem_of_singleton. by right.
    + intros id' p Hp _. rewrite !lookup_insert_ne; [done|congruence|congruence].
Qed.

(** Splitting a node: its two halves are on their pages. *)
Lemma split_interior_spec n link rm' seps' a I Q :
  inner_fits (length (i_seps n)) -> length seps' = 511 -> span_ok (ispan n) ->
  Forall span_ok (slots (i_lo n) (i_hi n) seps' rm') -> link_ok link ->
  is_Some (a_pages a !! i_id n) -> (forall a, I a) ->
  (forall nl nr page0, i_id nl = i_id n -> page_id_ok (i_id nr) -> a_pages a !! i_id nr = None ->
     i_lo nl = i_lo n -> i_hi nl = i_lo nr -> i_hi nr = i_hi n -> 
     slots_of nl ++ slots_of nr = slots (i_lo n) (i_hi n) seps' rm' ->
     length (i_seps nl) <= 255 -> length (i_seps nr) <= 255 ->
     Q (i_hi nl, i_id nr)
       (a_put (a_put (a_put a (i_id nr) page0) (i_id nr) (inner_page link nr)) (i_id n)
          (inner_page (Some (i_id nr)) nl))) ->
  wp (split_interior (i_id n) (inner_bytes link (i_hi n) (i_seps n) rm') seps') a I (okq Q).
Proof.
  intros Hfit Hlen Hsp Hslots Hlink Hlive HI HQ. unfold split_interior. rewrite Hlen.
  change (511 / 2) with 255.
  destruct (seps' !! 255) as [[ms mc]|] eqn:Em; [|apply lookup_ge_None in Em; lia].
  pose proof (split_slots 255 (i_lo n) (i_hi n) seps' rm' ms mc Em) as Es.
  rewrite Es, Forall_app in Hslots. destruct Hslots as [Hs1 Hs2].
  destruct (slots_ids_ok _ _ _ _ Hs2) as [_ Hrm]. pose proof (span_hi_u64 _ Hsp) as Hhi. cbn in Hhi.
  assert (inner_fits (length (take 255 seps'))) as F1 by (apply fits_small; rewrite length_take; lia).
  assert (inner_fits (length (drop (255 + 1) seps'))) as F2 by (apply fits_small; rewrite length_drop; lia).
  apply wp_bind, wp_alloc. intros id page0 Hf Hid Hl. split; [done|].
  apply wp_bind. eapply wp_lift; [apply inner_rightmost; [done|by apply page_id_u64]|].
  apply wp_bind. eapply wp_lift; [apply init_interior_bytes, length_zero_page|].
  apply wp_bind. eapply wp_lift; [by apply (hdr_right_link KIND_INTERIOR)|].
  apply wp_bind. eapply wp_lift; [apply inner_set_link|].
  apply wp_bind. eapply wp_lift; [by apply (hdr_high_key KIND_INTERIOR)|].
  apply wp_bind. eapply wp_lift; [apply inner_set_high|].
  apply wp_bind. eapply wp_lift; [apply write_interior_ok; [apply fits_small; cbn; lia|done]|]. cbn [negb].
  apply wp_bind. eapply wp_lift; [apply inner_set_rightmost|].
  apply wp_bind. eapply wp_lift; [apply inner_set_link|].
  apply wp_bind. eapply wp_lift; [apply inner_set_high|].
  apply wp_bind. eapply wp_lift; [by apply write_interior_ok|]. cbn [negb].
  apply wp_bind, wp_write; [cbn; rewrite lookup_insert_eq; eauto|by apply length_inner_bytes|done|].
  apply wp_bind, wp_write; [|by apply length_inner_bytes|done|].
  { cbn. rewrite !lookup_insert_is_Some. destruct (decide (id = i_id n)); [by left|right].
    split; [done|]. right. by split. }
  apply wp_ret.
  apply (HQ (MkInner (i_id n) (i_lo n) ms (take 255 seps') mc)
            (MkInner id ms (i_hi n) (drop (255 + 1) seps') rm') page0); try done; cbn.
  - rewrite length_take. lia.
  - rewrite length_drop. lia.
Qed.

Definition publish_goal (fuel : nat) (ups : list (list inner)) : Prop :=
  forall path left sep right S1 lo hi S2 m a,
  stacked ups (S1 ++ (left, lo, hi) :: S2) (a_root a) -> page_id_ok (a_root a) ->
  has (a_pages a) (ups_fp ups) -> NoDup (ups_fp ups).*1 ->
  NoDup (slot_ids (S1 ++ (left, lo, hi) :: S2)) ->
  (lo < sep < hi)%Z -> page_id_ok right -> near m ups path left -> 1 <= m <= 100 ->
  wp (publish_separator fuel path left sep right) a anyway
    (okq (fun _ a' => exists ups',
       stacked ups' (S1 ++ (left, lo, sep) :: (right, sep, hi) :: S2) (a_root a') /\
       published a a' ups ups' /\ (ups <> [] -> near (m - 1) ups' path right))).

(** The refined slots are well formed. *)
Lemma refined_ok n l s r seps' rm' A lo hi B :
  refined n l s r seps' rm' -> inner_ok n -> slots_of n = A ++ (l, lo, hi) :: B ->
  (lo < s < hi)%Z -> page_id_ok r ->
  Forall span_ok (slots (i_lo n) (i_hi n) seps' rm').
Proof.
  intros [Hs _] [_ Hok] E Hlt Hr. rewrite (Hs _ _ _ _ E). rewrite E in Hok.
  rewrite !Forall_app, !Forall_cons in Hok |- *. destruct Hok as (HA & (H1 & H2 & H3) & HB).
  cbn in H1, H2, H3.
  assert (span_ok (l, lo, s) /\ span_ok (r, s, hi)) as [? ?].
  { unfold span_ok. cbn. split; (split; [done|]); lia. }
  by rewrite Forall_cons.
Qed.

Section PublishStep.
Context (fuel : nat) (l1 m1 R : list inner) (n : inner) (ups : list (list inner)) (a : ast) (m : nat).
Let L := l1 ++ m1.
Context (path : list (Z * Page)) (p : Z) (pg : Page) (Hstart : first_id i_id (m1 ++ [n]) None = Some p).
Context (Hm1 : length m1 <= 1) (Hm : 1 <= m <= 100).
Context (Hst : stacked ups (ispan <$> L ++ n :: R) (a_root a)) (Hroot : page_id_ok (a_root a)).
Context (Hok : Forall inner_ok (L ++ n :: R)).
Context (Hg : has (a_pages a) (ups_fp ((L ++ n :: R) :: ups))).
Context (Hnd : NoDup (ups_fp ((L ++ n :: R) :: ups)).*1).
Context (left sep right : Z) (A B : list span) (lo hi : Z) (seps' : list (Z * Z)) (rm' : Z).
Context (Hslots : slots_of n = A ++ (left, lo, hi) :: B) (Hsep : (lo < sep < hi)%Z).
Context (Hright : page_id_ok right) (Hrf : refined n left sep right seps' rm').

Let target := concat (slots_of <$> L) ++ (A ++ (left, lo, sep) :: (right, sep, hi) :: B) ++ concat (slots_of <$> R).

Lemma right_in : right ∈ slot_ids (slots (i_lo n) (i_hi n) seps' rm').
Proof using Hrf Hslots.
  rewrite (rf_slots _ _ _ _ _ _ Hrf _ _ _ _ Hslots), slot_ids_app. apply elem_of_app. right. right. left.
Qed.

Lemma node_ok : inner_ok n /\ span_ok (ispan n).
Proof using Hok Hst Hroot.
  pose proof (stacked_spans _ _ _ Hst Hroot) as Hspans.
  rewrite fmap_app, fmap_cons, Forall_app, Forall_cons in Hspans.
  rewrite Forall_app, Forall_cons in Hok. by destruct Hspans as (_ & ? & _), Hok as (_ & ? & _).
Qed.

(** The refined entries fit: one page is rewritten. *)
Lemma place_fits :
  inner_fits (length seps') ->
  ((m1 = [] /\ holders ups path p) \/ inner_fits (length (i_seps n) + m)) ->
  let n' := MkInner (i_id n) (i_lo n) (i_hi n) seps' rm' in
  let a' := a_put a (i_id n) (inner_page (first_id i_id R None) n') in
  exists ups', stacked ups' target (a_root a') /\ published a a' ((L ++ n :: R) :: ups) ups' /\
    near (m - 1) ups' ((p, pg) :: path) right.
Proof using Hst Hroot Hok Hg Hnd Hslots Hsep Hright Hrf Hm1 Hm Hstart.
  intros Hfit Hroom n' a'. destruct node_ok as [Hn Hsp]. exists ((L ++ n' :: R) :: ups). split_and!.
  - cbn [stacked]. split_and!.
    + rewrite concat_slots_mid. unfold slots_of at 2. cbn [i_lo i_hi i_seps i_rm n'].
      by rewrite (rf_slots _ _ _ _ _ _ Hrf _ _ _ _ Hslots).
    + rewrite Forall_app, Forall_cons in Hok |- *. destruct Hok as (H1 & _ & H2). split_and!; [done| |done].
      split; [done|].
      exact (refined_ok n left sep right seps' rm' A lo hi B Hrf Hn Hslots Hsep Hright).
    + rewrite fmap_app, fmap_cons in Hst |- *. exact Hst.
  - by apply published_put.
  - cbn. exists l1, m1, n', R. split_and!; [by unfold L; rewrite <- (assoc_L (++))| |exact right_in|done|].
    + by destruct m1.
    + destruct Hroom as [?|Hroom]; [by left|right]. cbn. rewrite (rf_len _ _ _ _ _ _ Hrf).
      by replace (S (length (i_seps n)) + (m - 1)) with (length (i_seps n) + m) by lia.
Qed.

(** They do not: the node splits and the levels above take a separator. *)
Lemma place_split nl nr page0 a2 ups2 :
  m1 = [] -> i_id nl = i_id n -> a_pages a !! i_id nr = None -> page_id_ok (i_id nr) ->
  i_lo nl = i_lo n -> i_hi nl = i_lo nr -> i_hi nr = i_hi n ->
  slots_of nl ++ slots_of nr = slots (i_lo n) (i_hi n) seps' rm' ->
  length (i_seps nl) <= 255 -> length (i_seps nr) <= 255 ->
  stacked ups2 ((ispan <$> L) ++ (i_id n, i_lo n, i_hi nl) :: (i_id nr, i_hi nl, i_hi n) :: (ispan <$> R))
    (a_root a2) ->
  published (a_put (a_put (a_put a (i_id nr) page0) (i_id nr) (inner_page (first_id i_id R None) nr))
              (i_id n) (inner_page (Some (i_id nr)) nl)) a2 ups ups2 ->
  exists ups', stacked ups' target (a_root a2) /\ published a a2 ((L ++ n :: R) :: ups) ups' /\
    near (m - 1) ups' ((p, pg) :: path) right.
Proof using Hst Hroot Hok Hg Hnd Hslots Hsep Hright Hrf Hm Hm1 Hstart.
  intros Em1 Hid Hf Hnr E1 E2 E3 Es F1 F2 Hst2 Hpub. destruct node_ok as [Hn Hsp].
  pose proof right_in as Hin. unfold target, L in *. subst m1.
  cbn in Hstart. injection Hstart as <-. rewrite app_nil_r in *.
  assert (Forall span_ok (slots_of nl ++ slots_of nr)) as Hall
    by (rewrite Es; exact (refined_ok n left sep right seps' rm' A lo hi B Hrf Hn Hslots Hsep Hright)).
  rewrite Forall_app in Hall. destruct Hall as [Hl Hr].
  exists ((l1 ++ nl :: nr :: R) :: ups2). split_and!.
  - cbn [stacked]. split_and!.
    + rewrite concat_slots_mid. cbn [fmap list_fmap concat]. rewrite (assoc_L (++) (slots_of nl)), Es.
      by rewrite (rf_slots _ _ _ _ _ _ Hrf _ _ _ _ Hslots).
    + rewrite Forall_app, Forall_cons in Hok. destruct Hok as (H1 & _ & H2).
      rewrite Forall_app, Forall_cons, Forall_cons.
      split_and!; [done|split; [apply fits_small; lia|done]|split; [apply fits_small; lia|done]|done].
    + rewrite fmap_app, !fmap_cons. unfold ispan at 2 3. by rewrite Hid, E1, <- E2, E3.
  - by apply (published_split l1 n R ups a Hg Hnd nl nr page0).
  - rewrite <- Es, slot_ids_app in Hin. cbn [near].
    apply elem_of_app in Hin as [Hin|Hin].
    + exists l1, [], nl, (nr :: R). split_and!; [done|by cbn; rewrite Hid|done|cbn; lia|].
      right. apply fits_small. lia.
    + exists l1, [nl], nr, R. split_and!; [done|by cbn; rewrite Hid|done|cbn; lia|].
      right. apply fits_small. lia.
Qed.
End PublishStep.

Lemma inner_ids_nodup ups lvl :
  NoDup (ups_fp (lvl :: ups)).*1 -> NoDup (slot_ids (ispan <$> lvl)) /\ NoDup (ups_fp ups).*1.
Proof.
  rewrite ups_fp_cons, fmap_app, level_fp_ids. intros (H1 & _ & H2)%NoDup_app. split; [|done].
  unfold slot_ids. by rewrite <- !list_fmap_compose.
Qed.

(** The slot to refine, found in the node that holds it. *)
Lemma locate_slot L n R S1 left lo hi S2 :
  concat (slots_of <$> L ++ n :: R) = S1 ++ (left, lo, hi) :: S2 ->
  NoDup (slot_ids (S1 ++ (left, lo, hi) :: S2)) -> left ∈ slot_ids (slots_of n) ->
  exists A B, slots_of n = A ++ (left, lo, hi) :: B /\
    S1 = concat (slots_of <$> L) ++ A /\ S2 = B ++ concat (slots_of <$> R) /\
    NoDup (slot_ids (slots_of n)) /\ Forall (fun m => left ∉ slot_ids (slots_of m)) L.
Proof.
  rewrite concat_slots_mid. intros E Hnd Hin.
  apply elem_of_slot_ids in Hin as (A & lo' & hi' & B & En). rewrite <- E in Hnd.
  assert (NoDup (slot_ids (slots_of n))) as Hn.
  { rewrite !slot_ids_app in Hnd. apply NoDup_app in Hnd as (_ & _ & Hnd). by apply NoDup_app in Hnd as (? & _ & _). }
  rewrite En, <- (assoc_L (++)), (assoc_L (++) (concat _)) in E. cbn [app] in E.
  rewrite En, <- (assoc_L (++)), (assoc_L (++) (concat _)) in Hnd. cbn [app] in Hnd.
  destruct (slot_unique _ _ _ _ (left, lo, hi) _ E eq_refl Hnd) as (<- & [= -> ->] & <-).
  exists A, B. split_and!; [done|done|done|done|]. apply Forall_forall. intros m Hm Hl.
  rewrite slot_ids_app in Hnd. apply NoDup_app in Hnd as (_ & Hd & _). apply (Hd left); [|left].
  rewrite slot_ids_app. apply elem_of_app. left. unfold slot_ids in *.
  apply list_elem_of_fmap in Hl as (x & -> & Hx). apply list_elem_of_fmap_2.
  apply list_elem_of_fmap in Hx as (y & -> & Hy). apply list_elem_of_fmap_2.
  apply list_elem_of_In, in_concat. exists (slots_of m). split; [|by apply list_elem_of_In].
  by apply list_elem_of_In, list_elem_of_fmap_2.
Qed.

Lemma slots_lt lo hi seps rm : Forall span_ok (slots lo hi seps rm) -> (lo < hi)%Z.
Proof.
  intros H%slots_contig. destruct seps as [|[s c] seps]; cbn in H; [lia|].
  destruct H as (_ & H1 & H2%contig_le). lia.
Qed.

Lemma publish_spec fuel ups : 2 <= fuel -> publish_goal fuel ups.
Proof.
  intros Hfuel. induction ups as [|lvl ups IH];
    intros path left sep right S1 lo hi S2 m a Hst Hr Hg Hnd Hids Hsep Hright Hnear Hm;
    destruct path as [|[p pg] path]; try done.
  - cbn in Hst. destruct S1 as [|x S1]; cbn in Hst; simplify_eq; [|by destruct S1].
    eapply wp_mono; [by apply publish_root|]. intros [u| | |] a'; try done.
    intros (ups' & H1 & H2). exists ups'. by split_and!.
  - destruct Hst as (Hcat & Hok & Hst). cbn in Hnear.
    destruct Hnear as (l1 & m1 & n & R & -> & Hstart & Hin & Hm1 & Hroom).
    rewrite (assoc_L (++)) in *.
    destruct (locate_slot _ _ _ _ _ _ _ _ Hcat Hids Hin) as (A & B & En & -> & -> & Hnn & Hout).
    assert (level_reads (a_pages a) ((l1 ++ m1) ++ n :: R)) as Hrd.
    { eapply level_reads_of; [done|done|done|]. rewrite ups_fp_cons, has_app in Hg. apply Hg. }
    destruct (Hrd _ _ _ eq_refl) as (Hp & Hn & Hsp & Hlink & Hreads).
    cbn [publish_separator]. apply wp_bind.
    eapply (find_parent_spec _ l1 m1 n R); [done|by rewrite (assoc_L (++))|done|done| |lia|].
    { rewrite Forall_app in Hout. apply Hout. }
    apply wp_bind. eapply refine_parent_spec; [done|done|done|done|]. intros seps' rm' Hrf.
    assert (forall a', (exists ups', stacked ups' (concat (slots_of <$> l1 ++ m1) ++
        (A ++ (left, lo, sep) :: (right, sep, hi) :: B) ++ concat (slots_of <$> R)) (a_root a') /\
        published a a' (((l1 ++ m1) ++ n :: R) :: ups) ups' /\ near (m - 1) ups' ((p, pg) :: path) right) ->
      exists ups', stacked ups' ((concat (slots_of <$> l1 ++ m1) ++ A) ++ (left, lo, sep) ::
        (right, sep, hi) :: B ++ concat (slots_of <$> R)) (a_root a') /\
        published a a' (((l1 ++ m1) ++ n :: R) :: ups) ups' /\
        (((l1 ++ m1) ++ n :: R) :: ups <> [] -> near (m - 1) ups' ((p, pg) :: path) right)) as Hdone.
    { intros a' (ups' & H1 & H2 & H3). exists ups'. rewrite <- !(assoc_L (++)) in H1.
      cbn [app] in H1. rewrite <- (assoc_L (++)). by split_and!. }
    pose proof (io_fits _ Hn) as Hfit. apply wp_bind.
    destruct (decide (inner_fits (length seps'))) as [Hf|Hf].
    + eapply wp_lift; [by apply write_interior_ok|]. apply wp_write; [eauto|by apply length_inner_bytes|done|].
      apply Hdone. by apply (place_fits l1 m1 R n ups a m path p pg).
    + eapply wp_lift; [by apply write_interior_full|].
      rewrite (rf_len _ _ _ _ _ _ Hrf) in Hf.
      destruct Hroom as [[Em1 Hh]|Hroom]; [|destruct Hf; eapply fits_le, Hroom; lia].
      pose proof (half_fits _ Hfit Hf) as E510.
      apply wp_bind. eapply split_interior_spec; [done|by rewrite (rf_len _ _ _ _ _ _ Hrf), E510|done| |done|eauto|done|].
      { by eapply refined_ok. }
      assert (Forall span_ok (slots (i_lo n) (i_hi n) seps' rm')) as Hall by by eapply refined_ok.
      intros nl nr page0 E1 E2 E3 E4 E5 E6 E7 E8 E9.
      destruct (published_split (l1 ++ m1) n R ups a Hg Hnd nl nr page0 a [] E1 E3) as [Hg1 _].
      destruct (inner_ids_nodup _ _ Hnd) as [Hi1 Hi2].
      rewrite fmap_app, fmap_cons in Hst, Hi1.
      assert (p = i_id n) as -> by (subst m1; cbn in Hstart; congruence).
      eapply wp_mono; [apply (IH path (i_id n) (i_hi nl) (i_id nr) (ispan <$> l1 ++ m1) (i_lo n) (i_hi n) (ispan <$> R) 1)|].
      * exact Hst.
      * done.
      * exact Hg1.
      * done.
      * exact Hi1.
      * rewrite <- E7, Forall_app in Hall. destruct Hall as [Ha1%slots_lt Ha2%slots_lt]. lia.
      * done.
      * by apply holders_near.
      * lia.
      * intros [u| | |] a2; try done. intros (ups2 & H1 & H2 & _). apply Hdone.
        eapply (place_split l1 m1 R n ups a m path (i_id n) pg) with (nl := nl) (nr := nr); try done.
        by rewrite fmap_app, fmap_cons.
Qed.
