(* ===== verification/TreeWrite.v ===== *)
(** * The clustered tree: rewriting a leaf

    A leaf is written back with new rows: in place when they fit, otherwise as
    a run of leaves whose separators reach the interior levels one by one. *)

From S2P Require Import Prelude Core Store Node NodeFacts Tree TreeInv TreeRead TreeChain TreeSplit.
From stdpp Require Import base gmap list sets sorting strings.
From Stdlib Require Import ZArith Lia Strings.Byte.

Import ClusteredTree.

(** ** The run is a piece of a level *)

Lemma chunks_of_rows (cs : list (list Entry)) (rs : list row) :
  concat cs = entry_of <$> rs -> exists rcs, concat rcs = rs /\ chunk_of <$> rcs = cs.
Proof.
  revert rs. induction cs as [|c cs IH]; intros rs E; cbn in E.
  - symmetry in E. apply fmap_nil_inv in E as ->. by exists [].
  - symmetry in E. apply fmap_app_inv in E as (r1 & r2 & -> & E2 & ->). 
    destruct (IH r2 E2) as (rcs & <- & <-). by exists (r1 :: rcs).
Qed.

Lemma sorted_app_lt ks1 k ks2 :
  sorted_keys (ks1 ++ k :: ks2) -> Forall (fun x => x < k)%Z ks1 /\ Forall (fun x => k < x)%Z ks2.
Proof.
  intros H. apply StronglySorted_app in H as (H1 & _ & H2).
  apply StronglySorted_inv in H2 as [_ H2]. split; [|done].
  apply Forall_forall. intros x Hx. apply H1; [done|left].
Qed.

Lemma run_ok lo hi ids rcs :
  length ids = length rcs -> rcs <> [] -> Forall (fun rc => rc <> [] /\ leaf_fits (chunk_of rc)) rcs ->
  Forall row_ok (concat rcs) -> sorted_keys (r_key <$> concat rcs) ->
  Forall (fun r => lo <= r_key r < hi)%Z (concat rcs) ->
  Forall leaf_ok (run_leaves lo ids rcs hi) /\ contig lo (lspan <$> run_leaves lo ids rcs hi) hi.
Proof.
  revert lo ids. induction rcs as [|rc rcs IH]; intros lo [|id ids] Hl Hne Hc Hr Hs Hk; try done.
  cbn [concat] in Hr, Hs, Hk. rewrite Forall_app in Hr, Hk. rewrite fmap_app in Hs.
  apply Forall_cons in Hc as [[Hrc Hfit] Hc]. destruct Hr as [Hr1 Hr2], Hk as [Hk1 Hk2].
  apply StronglySorted_app in Hs as Hs'. destruct Hs' as (Hord & Hs1 & Hs2).
  cbn [run_leaves]. destruct rcs as [|rc' rcs].
  - destruct ids; [|done]. cbn. destruct rc as [|r rc]; [done|]. split.
    + apply Forall_singleton. by split.
    + apply Forall_cons in Hk1 as [? _]. split_and!; [done|lia|done].
  - assert (exists r' rest, rc' = r' :: rest) as (r' & rest & ->).
    { apply Forall_cons in Hc as [[Hn _] _]. destruct rc'; [done|eauto]. }
    change (bound ((r' :: rest) :: rcs) hi) with (r_key r').
    cbn [concat app] in Hs, Hk2. rewrite fmap_cons in Hs. apply sorted_app_lt in Hs as [Hlt Hgt].
    rewrite Forall_fmap in Hlt, Hgt.
    destruct (IH (r_key r') ids) as [IH1 IH2]; [by injection Hl|done|done|done|done| |].
    { apply Forall_cons. apply Forall_cons in Hk2 as [Hk2 Hk3]. split; [cbn; lia|].
      rewrite Forall_forall in Hk3, Hgt |- *. intros x Hx. specialize (Hk3 x Hx). specialize (Hgt x Hx).
      cbn in Hgt. lia. }
    split.
    + constructor; [|done]. split; [done| |done|done]. cbn.
      rewrite Forall_forall in Hk1, Hlt |- *. intros x Hx. specialize (Hk1 x Hx). specialize (Hlt x Hx).
      cbn in Hlt. lia.
    + cbn. split_and!; [done| |done]. destruct rc as [|r rc]; [done|].
      apply Forall_cons in Hk1 as [? _]. apply Forall_cons in Hlt as [? _]. cbn in *. lia.
Qed.

Lemma run_leaves_ids lo ids rcs hi : length ids = length rcs -> l_id <$> run_leaves lo ids rcs hi = ids.
Proof.
  revert lo rcs. induction ids as [|id ids IH]; intros lo [|rc rcs] Hl; try done.
  cbn. f_equal. apply IH. by injection Hl.
Qed.

Lemma run_leaves_rows lo ids rcs hi :
  length ids = length rcs -> concat (l_rows <$> run_leaves lo ids rcs hi) = concat rcs.
Proof.
  revert lo rcs. induction ids as [|id ids IH]; intros lo [|rc rcs] Hl; try done.
  cbn. f_equal. apply IH. by injection Hl.
Qed.

(** ** Publishing the separators of a run *)

Lemma published_refl a ups :
  page_id_ok (a_root a) -> has (a_pages a) (ups_fp ups) -> NoDup (ups_fp ups).*1 -> published a a ups ups.
Proof. intros. split; auto. Qed.

Lemma published_trans a a1 a2 ups ups1 ups2 :
  published a a1 ups ups1 -> published a1 a2 ups1 ups2 -> published a a2 ups ups2.
Proof.
  intros [A1 A2 A3 A4 A5] [B1 B2 B3 B4 B5]. split; [done|done|done| |].
  - intros id Hid. destruct (B4 id Hid) as [H|H]; [auto|].
    destruct (decide (id ∈ (ups_fp ups).*1)) as [|Hn]; [by left|right].
    destruct (a_pages a !! id) as [p|] eqn:E; [|done]. rewrite (A5 _ _ E Hn) in H. done.
  - intros id p Hp Hn. apply B5; [by apply A5|]. intros H%A4. destruct H as [?|?]; [done|congruence].
Qed.

Lemma publish_all_spec fuel path hi ids rcs : 2 <= fuel ->
  forall ups S1 lo S2 id0 a, head ids = Some id0 ->
  length ids = length rcs -> length ids <= 100 ->
  contig lo (lspan <$> run_leaves lo ids rcs hi) hi ->
  stacked ups (S1 ++ (id0, lo, hi) :: S2) (a_root a) -> page_id_ok (a_root a) ->
  has (a_pages a) (ups_fp ups) -> NoDup (ups_fp ups).*1 ->
  NoDup (slot_ids S1 ++ ids ++ slot_ids S2) -> ids_ok ids ->
  (2 <= length ids -> near (length ids - 1) ups path id0) -> (ups = [] -> length ids <= 2) ->
  wp (publish_all fuel path (run_pubs ids rcs)) a anyway
    (okq (fun _ a' => exists ups',
       stacked ups' (S1 ++ (lspan <$> run_leaves lo ids rcs hi) ++ S2) (a_root a') /\
       published a a' ups ups')).
Proof.
  intros Hfuel. revert rcs. induction ids as [|id ids IH];
    intros rcs ups S1 lo S2 id0 a Hh Hl Hmax Hc Hst Hr Hg Hnd Hids Hok Hnear Hroot; [done|].
  injection Hh as <-. destruct rcs as [|rc rcs]; [done|]. destruct ids as [|id' ids], rcs as [|rc' rcs]; try done.
  - apply wp_ret. exists ups. split; [exact Hst|by apply published_refl].
  - set (k := first_key rc'). cbn [run_pubs publish_all]. cbn in Hc. destruct Hc as (_ & Hlt & _ & Hlt2 & Hc).
    fold k in Hlt, Hlt2, Hc. pose proof (contig_le _ _ _ Hc) as Hle.
    apply Forall_cons in Hok as [Hid Hok]. apply wp_bind.
    eapply wp_mono; [apply (publish_spec fuel ups Hfuel path id k id' S1 lo hi S2 (S (length ids)))|].
    + done.
    + done.
    + done.
    + done.
    + rewrite slot_ids_app. cbn.
      apply NoDup_app in Hids as (N1 & N2 & N3). apply NoDup_app in N3 as (N3 & N4 & N5).
      apply NoDup_app. split_and!; [done|set_solver|]. apply NoDup_cons. split; [|done].
      apply N4. left.
    + fold k. lia.
    + by apply Forall_cons in Hok as [? _].
    + specialize (Hnear ltac:(cbn; lia)). cbn in Hnear. exact Hnear.
    + cbn in Hmax. lia.
    + intros [u| | |] a1; try done. intros (ups1 & Hst1 & Hpub & Hnear1).
      eapply wp_mono; [apply (IH (rc' :: rcs) ups1 (S1 ++ [(id, lo, k)]) k S2 id')|].
      * done.
      * cbn in Hl |- *. lia.
      * cbn in Hmax |- *. lia.
      * cbn. split_and!; [done|exact Hlt2|exact Hc].
      * by rewrite <- (assoc_L (++)).
      * apply Hpub.
      * apply Hpub.
      * apply Hpub.
      * rewrite slot_ids_app, <- (assoc_L (++)). exact Hids.
      * done.
      * cbn [length]. intros H2. replace (S (length ids) - 1) with (S (length ids) - 1) by lia.
        apply Hnear1. intros ->. specialize (Hroot eq_refl). cbn in Hroot. lia.
      * intros ->. destruct (decide (ups = [])) as [->|Hne].
        -- specialize (Hroot eq_refl). cbn in *. lia.
        -- specialize (Hnear1 Hne). specialize (Hnear ltac:(cbn; lia)).
           destruct path; [|done]. by destruct ups.
      * intros [u'| | |] a2; try done. intros (ups2 & Hst2 & Hpub2). exists ups2.
        split; [|by eapply published_trans]. cbn. cbn in Hst2. fold k. by rewrite <- (assoc_L (++)) in Hst2.
Qed.

(** ** Rewriting one leaf *)

(** The store after leaf [l] was rewritten with rows [rs]: the tree has them in
    its place, it took no page but its own and fresh ones, and no page outside
    its nodes was written. *)
Record rewritten (a : ast) (L1 : list leaf) (l : leaf) (L2 : list leaf) (ups : list (list inner))
    (rs : list row) (a' : ast) (t' : tree) : Prop := {
  rw_stands : stands_for a' t';
  rw_rows : all_rows t' = concat (l_rows <$> L1) ++ rs ++ concat (l_rows <$> L2);
  rw_owns : forall id, id ∈ (footprint t').*1 -> a_pages a !! id = None \/
    id ∈ (l_id <$> L1 ++ l :: L2) \/ id ∈ (ups_fp ups).*1 \/ id ∈ (rows_fp (all_rows t')).*1;
  rw_frame : forall id p, a_pages a !! id = Some p ->
    id ∉ l_id <$> L1 ++ l :: L2 -> id ∉ (ups_fp ups).*1 -> a_pages a' !! id = Some p }.

Section Rewrite.
Context (a : ast) (L1 : list leaf) (l : leaf) (L2 : list leaf) (ups : list (list inner)) (rs : list row).
Let rows1 := concat (l_rows <$> L1).
Let rows2 := concat (l_rows <$> L2).
Let allrows := rows1 ++ rs ++ rows2.
Let link := first_id l_id L2 None.
Context (Hst : stacked ups (lspan <$> L1 ++ l :: L2) (a_root a)) (Hroot : page_id_ok (a_root a)).
Context (HL1 : Forall leaf_ok L1) (HL2 : Forall leaf_ok L2).
Context (Hrs : Forall row_ok rs) (Hkeys : Forall (fun r => l_lo l <= r_key r < l_hi l)%Z rs).
Context (Hsorted : sorted_keys (r_key <$> rs)).
Context (Hgl : has (a_pages a) (leaves_fp (L1 ++ l :: L2) None)).
Context (Hgu : has (a_pages a) (ups_fp ups)) (Hgr : has (a_pages a) (rows_fp allrows)).
Context (Hnd : NoDup ((l_id <$> L1 ++ l :: L2) ++ (ups_fp ups).*1 ++ (rows_fp allrows).*1)).

(** The tree once leaf [l] is replaced by [run], with the levels above it
    [ups']. *)
Lemma replaced a' run ups' :
  first_id l_id run None = Some (l_id l) ->
  concat (l_rows <$> run) = rs -> Forall leaf_ok run ->
  stacked ups' ((lspan <$> L1) ++ (lspan <$> run) ++ (lspan <$> L2)) (a_root a') ->
  page_id_ok (a_root a') ->
  has (a_pages a') (leaves_fp run link) -> has (a_pages a') (ups_fp ups') ->
  NoDup (l_id <$> run) -> NoDup (ups_fp ups').*1 ->
  (forall id, id ∈ l_id <$> run -> id = l_id l \/ a_pages a !! id = None) ->
  (forall id, id ∈ (ups_fp ups').*1 -> id ∈ (ups_fp ups).*1 \/ (a_pages a !! id = None /\ id ∉ l_id <$> run)) ->
  (forall id p, a_pages a !! id = Some p -> id <> l_id l -> id ∉ (ups_fp ups).*1 -> a_pages a' !! id = Some p) ->
  rewritten a L1 l L2 ups rs a' (MkTree (L1 ++ run ++ L2) ups').
Proof using HL1 HL2 Hgl Hgr Hgu Hnd.
  intros Hfirst Hcat Hrun Hst' Hroot' Hglr Hgu' Hn1 Hn2 Hnew Hups Hkeep.
  assert (all_rows (MkTree (L1 ++ run ++ L2) ups') = allrows) as Eall.
  { unfold all_rows. cbn [t_leaves]. by rewrite !fmap_app, !concat_app, Hcat. }
  split; [|done| |]; cycle 1.
  { intros id. unfold footprint. rewrite Eall. cbn [t_leaves t_ups].
    rewrite !fmap_app, level_fp_ids, !fmap_app, fmap_cons, !elem_of_app, elem_of_cons.
    intros [[H|[H|H]]|[H|H]]; auto 6; [destruct (Hnew id H); auto 6|destruct (Hups id H) as [?|[? _]]; auto]. }
  { intros id p Hp Hni Hnu. apply Hkeep; [done| |done]. intros ->. apply Hni.
    rewrite fmap_app, fmap_cons. apply elem_of_app. right. left. }
  rewrite fmap_app, fmap_cons in Hnd.
  apply NoDup_app in Hnd as (N1 & N2 & N3). apply NoDup_app in N1 as (N1 & N4 & N5).
  apply NoDup_cons in N5 as [N5 N6]. apply NoDup_app in N3 as (N7 & N8 & N9).
  rewrite level_fp_app, has_app in Hgl. cbn [level_fp first_id] in Hgl. rewrite has_cons in Hgl.
  destruct Hgl as (G1 & G2 & G3).
  (* every other page of the tree is live in [a], and kept *)
  assert (forall l0, has (a_pages a) l0 -> l_id l ∉ l0.*1 -> (forall id, id ∈ l0.*1 -> id ∉ (ups_fp ups).*1) ->
    has (a_pages a') l0 /\ (forall id, id ∈ l0.*1 -> id ∉ l_id <$> run) /\ (forall id, id ∈ l0.*1 -> id ∉ (ups_fp ups').*1))
    as Hother.
  { intros l0 H0 Hl0 Hu0. split_and!.
    - intros id p Hin. assert (id ∈ l0.*1) by (apply list_elem_of_fmap; by exists (id, p)).
      apply Hkeep; [by apply H0|intros ->; done|auto].
    - intros id Hin Hr. apply Hnew in Hr as [->|Hr]; [done|]. by apply (has_fresh _ _ id H0 Hr).
    - intros id Hin Hr. apply Hups in Hr as [Hr|[Hr _]]; [by eapply Hu0|].
      by apply (has_fresh _ _ id H0 Hr). }
  assert (forall id, id ∈ l_id <$> L1 -> id <> l_id l /\ id ∉ l_id <$> L2) as F1.
  { intros id Hin. specialize (N4 id Hin). apply not_elem_of_cons in N4. done. }
  assert (forall id, id ∈ l_id <$> L1 \/ id = l_id l \/ id ∈ l_id <$> L2 ->
            id ∉ (ups_fp ups).*1 /\ id ∉ (rows_fp allrows).*1) as F2.
  { intros id Hin. apply not_elem_of_app, N2. rewrite elem_of_app, elem_of_cons. done. }
  destruct (Hother (leaves_fp L1 (Some (l_id l)))) as (A1 & A2 & A3); [done|rewrite level_fp_ids..|].
  { intros Hin. by destruct (F1 _ Hin). }
  { intros id Hin. apply F2. auto. }
  destruct (Hother (leaves_fp L2 None)) as (B1 & B2 & B3); [done|rewrite level_fp_ids..|].
  { done. }
  { intros id Hin. apply F2. auto. }
  destruct (Hother (rows_fp allrows)) as (C1 & C2 & C3); [done| |intros id Hin Hu; by apply (N8 id)|].
  { apply F2. auto. }
  rewrite level_fp_ids in A2, A3, B2, B3.
  assert (forall id, id ∈ l_id <$> run -> id ∉ (ups_fp ups').*1) as Hru.
  { intros id Hin Hu. destruct (Hups id Hu) as [Hu'|[_ ?]]; [|done].
    destruct (Hnew id Hin) as [->|Hf].
    - destruct (F2 (l_id l)) as [F _]; [auto|done].
    - by apply (has_fresh _ _ id Hgu Hf). }
  split.
  - split; cbn [t_leaves t_ups]; [by rewrite !fmap_app|done|by rewrite !Forall_app|].
    unfold footprint. rewrite Eall. cbn [t_leaves t_ups]. rewrite !fmap_app, level_fp_ids, !fmap_app.
    apply NoDup_app. split_and!.
    + apply NoDup_app. split_and!; [done| |apply NoDup_app; split_and!; [done| |done]].
      * intros id Hin. apply not_elem_of_app. split; [by apply A2|by apply F1].
      * intros id Hin Hin2. by apply (B2 id).
    + intros id Hin. apply not_elem_of_app. rewrite !elem_of_app in Hin.
      destruct Hin as [Hin|[Hin|Hin]].
      * split; [by apply A3|apply F2; auto].
      * split; [by apply Hru|]. intros Hr. by apply (C2 id).
      * split; [by apply B3|apply F2; auto].
    + apply NoDup_app. split_and!; [done| |done]. intros id Hin Hr. by apply (C3 id).
  - unfold footprint. rewrite Eall. cbn [t_leaves t_ups]. rewrite !has_app.
    rewrite level_fp_app, level_fp_app, !has_app. fold link. split_and!; [|done|done|done|done].
    destruct run; [done|]. cbn [app first_id] in *. injection Hfirst as ->. done.
Qed.

Context (Hl : leaf_ok l) (Hspan : span_ok (lspan l)) (Hlink : link_ok link).

Lemma leaf_body : exists body, length body = LEAF_CAPACITY /\
  leaf_page link l = hdr KIND_LEAF (link_val link) (l_hi l) (length (entry_of <$> l_rows l)) ++ body.
Proof using Hl.
  eexists. split; [|done]. pose proof (lo_fits _ Hl) as Hf. pose proof (length_leaf_bytes link (l_hi l) _ Hf) as Hlen.
  unfold leaf_bytes in Hlen. rewrite length_app, length_hdr in Hlen. unfold LEAF_CAPACITY, LEAF_ENTRIES in *. lia.
Qed.

Lemma live_leaf : a_pages a !! l_id l = Some (leaf_page link l).
Proof using Hgl. apply Hgl, (level_fp_at l_id leaf_page). Qed.

(** In place. *)
Lemma replaced_here :
  leaf_fits (entry_of <$> rs) ->
  exists t', rewritten a L1 l L2 ups rs (a_put a (l_id l) (leaf_bytes link (l_hi l) (entry_of <$> rs))) t'.
Proof using Hst Hroot HL1 HL2 Hrs Hkeys Hsorted Hgl Hgu Hgr Hnd.
  intros Hfit. eexists. apply (replaced _ [MkLeaf (l_id l) (l_lo l) (l_hi l) rs] ups).
  - done.
  - cbn. apply app_nil_r.
  - apply Forall_singleton. by split.
  - rewrite fmap_app, fmap_cons in Hst. exact Hst.
  - done.
  - cbn. rewrite has_cons. split; [apply lookup_insert_eq|apply has_nil].
  - apply has_put; [done|]. rewrite fmap_app, fmap_cons in Hnd.
    apply NoDup_app in Hnd as (_ & N2 & _). specialize (N2 (l_id l)).
    rewrite elem_of_app, elem_of_cons in N2. specialize (N2 ltac:(auto)).
    by apply not_elem_of_app in N2 as [? _].
  - apply NoDup_singleton.
  - apply NoDup_app in Hnd as (_ & _ & N). by apply NoDup_app in N as (? & _ & _).
  - intros id ->%list_elem_of_singleton. by left.
  - auto.
  - intros id p Hp Hne _. cbn. by rewrite lookup_insert_ne.
Qed.

(** The bytes of the rewritten leaf. *)
Lemma write_here : leaf_fits (entry_of <$> rs) ->
  write_leaf_entries (leaf_page link l) (entry_of <$> rs) =
  Ok (leaf_bytes link (l_hi l) (entry_of <$> rs), true).
Proof using Hl. intros Hfit. destruct leaf_body as (body & Hb & ->). by apply write_leaf_ok. Qed.

Lemma rewrite_fits fuel path :
  leaf_fits (entry_of <$> rs) ->
  wp (write_leaf_or_split fuel path (l_id l) (leaf_page link l) (entry_of <$> rs)) a anyway
    (okq (fun _ a' => exists t', rewritten a L1 l L2 ups rs a' t')).
Proof using Hst Hroot HL1 HL2 Hrs Hkeys Hsorted Hgl Hgu Hgr Hnd Hl.
  intros Hfit. unfold write_leaf_or_split. apply wp_bind. eapply wp_lift; [by apply write_here|].
  apply wp_write; [rewrite live_leaf; eauto|by apply length_leaf_bytes|done|]. by apply replaced_here.
Qed.

(** The separators of a run that is on its pages. *)
Lemma publish_run fuel path fresh rcs a2 :
  concat rcs = rs -> Forall (fun rc => rc <> [] /\ leaf_fits (chunk_of rc)) rcs ->
  rcs <> [] -> length rcs <= 3 -> length (l_id l :: fresh) = length rcs ->
  (forall id, id ∈ fresh -> a_pages a !! id = None) -> NoDup (l_id l :: fresh) -> ids_ok fresh ->
  a_root a2 = a_root a -> has (a_pages a2) (run_fp (l_id l :: fresh) rcs (l_hi l) link) ->
  (forall id p, a_pages a !! id = Some p -> id <> l_id l -> a_pages a2 !! id = Some p) ->
  (ups = [] -> length rcs <= 2) -> holders ups path (l_id l) -> 2 <= fuel ->
  wp (publish_all fuel path (run_pubs (l_id l :: fresh) rcs)) a2 anyway
    (okq (fun _ a' => exists t', rewritten a L1 l L2 ups rs a' t')).
Proof using Hst Hroot HL1 HL2 Hrs Hkeys Hsorted Hgl Hgu Hgr Hnd Hspan.
  intros Hcat Hfits Hne H3 Hlen Hfresh Hnid Hok Hr2 Hrun Hkeep Hrt Hpath Hfuel. set (ids := l_id l :: fresh) in *.
  destruct (run_ok (l_lo l) (l_hi l) ids rcs) as [Hrok Hcontig]; [done|done|done|by rewrite Hcat..|].
  pose proof Hnd as Hnd'. rewrite fmap_app, fmap_cons in Hnd'.
  apply NoDup_app in Hnd' as (N1 & N2 & N3). apply NoDup_app in N1 as (N1 & N4 & N5).
  apply NoDup_cons in N5 as [N5 N6]. apply NoDup_app in N3 as (N7 & _ & _).
  assert (l_id l ∉ (ups_fp ups).*1) as Hlu.
  { specialize (N2 (l_id l)). rewrite elem_of_app, elem_of_cons in N2. specialize (N2 ltac:(auto)).
    by apply not_elem_of_app in N2 as [? _]. }
  assert (forall ls, has (a_pages a) ls -> forall id, id ∈ fresh -> id ∉ ls.*1) as Hnf.
  { intros ls H id Hin. apply (has_fresh _ _ _ H). auto. }
  pose proof Hgl as Hgl'. rewrite level_fp_app, has_app in Hgl'. cbn [level_fp first_id] in Hgl'.
  rewrite has_cons in Hgl'. destruct Hgl' as (G1 & G2 & G3). pose proof (Hnf _ G1) as F1. pose proof (Hnf _ G3) as F3.
  rewrite level_fp_ids in F1, F3.
  assert (has (a_pages a2) (ups_fp ups)) as Hgu2.
  { intros id p Hin. apply Hkeep; [by apply Hgu|]. intros ->. apply Hlu, list_elem_of_fmap. by exists (l_id l, p). }
  eapply wp_mono; [apply (publish_all_spec fuel path (l_hi l) ids rcs Hfuel ups (lspan <$> L1) (l_lo l) (lspan <$> L2) (l_id l))|].
  - done.
  - done.
  - lia.
  - done.
  - rewrite Hr2. rewrite fmap_app, fmap_cons in Hst. exact Hst.
  - by rewrite Hr2.
  - done.
  - done.
  - unfold slot_ids. rewrite <- !list_fmap_compose. apply NoDup_app. split_and!; [done| |].
    + intros id Hin. specialize (N4 id Hin). apply not_elem_of_cons in N4 as [N4a N4b].
      apply not_elem_of_app. split; [|done]. apply not_elem_of_cons. split; [done|]. intros Hf. by apply (F1 id).
    + apply NoDup_app. split_and!; [done| |done]. intros id [->|Hin]%elem_of_cons; [done|by apply F3].
  - constructor; [apply Hspan|done].
  - intros _. by apply holders_near.
  - intros Hu. rewrite Hlen. auto.
  - intros [u| | |] a3; try done. intros (ups' & Hst' & [B1 B2 B3 B4 B5]).
    exists (MkTree (L1 ++ run_leaves (l_lo l) ids rcs (l_hi l) ++ L2) ups').
    assert (forall id, id ∈ ids -> id ∉ (ups_fp ups).*1) as Hiu.
    { intros id [->|Hin]%elem_of_cons; [done|by apply (Hnf _ Hgu)]. }
    assert (forall id, a_pages a2 !! id = None -> a_pages a !! id = None /\ id ∉ ids) as Hdead.
    { intros id Hn. assert (id ∉ ids) as Hni.
      { rewrite <- (run_fp_ids ids rcs (l_hi l) link) by done. by apply (has_fresh _ _ _ Hrun). }
      split; [|done]. destruct (a_pages a !! id) as [p|] eqn:E; [|done].
      rewrite (Hkeep id p E) in Hn; [done|]. intros ->. apply Hni. left. }
    apply replaced; rewrite ?run_leaves_ids by done; try done.
    + destruct rcs; [done|]. done.
    + by rewrite run_leaves_rows.
    + rewrite run_leaves_fp by done. intros id p Hin. apply B5; [by apply Hrun|]. apply Hiu.
      rewrite <- (run_fp_ids ids rcs (l_hi l) link) by done. apply list_elem_of_fmap. by exists (id, p).
    + intros id [->|Hin]%elem_of_cons; [by left|right; auto].
    + intros id Hin. destruct (B4 id Hin) as [?|Hn]; [by left|right; auto].
    + intros id p Hp Hidl Hn. apply B5; [by apply Hkeep|done].
Qed.

(** As a run of leaves. *)
Lemma rewrite_split fuel path :
  ~ leaf_fits (entry_of <$> rs) -> entries_size (entry_of <$> rs) <= 2 * LEAF_CAPACITY ->
  (ups = [] -> length (pack (entry_of <$> rs) [] 0) <= 2) ->
  holders ups path (l_id l) -> 2 <= fuel ->
  wp (write_leaf_or_split fuel path (l_id l) (leaf_page link l) (entry_of <$> rs)) a anyway
    (okq (fun _ a' => exists t', rewritten a L1 l L2 ups rs a' t')).
Proof using Hst Hroot HL1 HL2 Hrs Hkeys Hsorted Hgl Hgu Hgr Hnd Hl Hspan Hlink.
  intros Hov Hsz Hrt Hpath Hfuel. unfold write_leaf_or_split.
  apply wp_bind. eapply wp_lift; [by apply write_leaf_full|].
  assert (packed (entry_of <$> rs) (pack (entry_of <$> rs) [] 0)) as [P1 P2 P3 P4].
  { apply pack_overfull; [|done|done]. apply Forall_fmap. eapply Forall_impl; [exact Hrs|]. apply entry_of_fits. }
  rewrite decide_False by lia.
  destruct (chunks_of_rows _ _ P1) as (rcs & Hrcs & Ecs). rewrite <- Ecs in *. rewrite length_fmap in *.
  apply wp_bind. eapply wp_mono; [apply alloc_n_spec|]. intros [fresh| | |] a1; try done.
  intros [Hlen Hal]. cbn [okq].
  destruct (leaf_page_reads l link Hl Hspan Hlink) as [R1 R2 _ _ _]. wp_step. wp_step.
  set (ids := l_id l :: fresh). assert (length ids = length rcs) as Hids by (cbn; lia).
  assert (l_id l ∉ fresh) as Hnl.
  { intros Hin. apply (al_fresh _ _ _ Hal) in Hin. rewrite live_leaf in Hin. done. }
  assert (NoDup ids) as Hnid by (constructor; [done|apply Hal]).
  assert (forall id, id ∈ ids -> is_Some (a_pages a1 !! id)) as Hlive.
  { intros id [->|Hin]%elem_of_cons; [|by apply Hal]. rewrite (al_rest _ _ _ Hal), live_leaf by done. eauto. }
  rewrite Forall_fmap in P2.
  apply wp_bind. eapply wp_mono.
  { apply (write_chunks_spec ids rcs [] [] link (l_hi l) a1); [done|done|by rewrite app_nil_r|done| |apply has_nil].
    eapply Forall_impl; [exact P2|]. by intros rc [_ ?]. }
  intros [pubs| | |] a2; try done. rewrite !app_nil_r. intros (-> & [Hr2 Hrest2] & Hrun). cbn [okq].
  assert (forall id p, a_pages a !! id = Some p -> id <> l_id l -> a_pages a2 !! id = Some p) as Hkeep2.
  { intros id p Hp Hne. assert (id ∉ fresh) as Hnf.
    { intros Hin. apply (al_fresh _ _ _ Hal) in Hin. congruence. }
    rewrite Hrest2 by (by apply not_elem_of_cons). by rewrite (al_rest _ _ _ Hal). }
  apply (publish_run fuel path fresh rcs a2); try done.
  - eapply Forall_impl; [exact P2|]. intros rc [Hc ?]. split; [|done]. intros ->. by apply Hc.
  - intros ->. cbn in P3. lia.
  - by destruct Hal.
  - by destruct Hal.
  - rewrite Hr2. by destruct Hal.
Qed.

Lemma rewrite_spec fuel path e :
  entries_size (entry_of <$> rs) <= 2 * LEAF_CAPACITY ->
  (ups = [] -> length (pack (entry_of <$> rs) [] 0) <= 2) ->
  holders ups path (l_id l) -> 2 <= fuel ->
  wp (write_or_discard fuel path (l_id l) (leaf_page link l) (entry_of <$> rs) e) a anyway
    (okq (fun _ a' => exists t', rewritten a L1 l L2 ups rs a' t')).
Proof using Hst Hroot HL1 HL2 Hrs Hkeys Hsorted Hgl Hgu Hgr Hnd Hl Hspan Hlink.
  intros. unfold write_or_discard, fits_one_leaf. destruct (decide (leaf_fits (entry_of <$> rs))) as [Hf|Hf].
  - rewrite write_here by done. apply wp_bind. eapply wp_lift; [done|]. by apply wp_catch, rewrite_fits.
  - rewrite write_leaf_full by done. apply wp_bind. eapply wp_lift; [done|]. by apply wp_catch, rewrite_split.
Qed.
End Rewrite.
