(* ===== verification/TreeOps.v ===== *)
(** * The clustered tree: its operations

    What [create], [insert], [update], [delete] and [update_prefix] do to a tree
    on pages, stated on the map from keys to values it stands for. *)

From S2P Require Import Prelude Core Store Node NodeFacts Tree TreeInv TreeRead TreeChain TreeSplit TreeWrite.
From stdpp Require Import base gmap list sets sorting strings.
From Stdlib Require Import ZArith Lia Strings.Byte.

Import ClusteredTree.

Lemma wp_conseq {A} (m : prog A) a I (Q : A -> ast -> Prop) (R : result A -> ast -> Prop) :
  wp m a I (okq Q) -> (forall x a', Q x a' -> R (Ok x) a') -> wp m a I R.
Proof. intros H HR. eapply wp_mono; [exact H|]. intros [x| | |] a' Hx; [by apply HR|destruct Hx..]. Qed.

(** ** The search in a leaf *)

Inductive found_at (k : Z) (rs : list row) : nat + nat -> Prop :=
| found_hit P r S : rs = P ++ r :: S -> r_key r = k -> found_at k rs (inl (length P))
| found_miss P S : rs = P ++ S -> Forall (fun r => r_key r < k)%Z P -> Forall (fun r => k < r_key r)%Z S ->
    found_at k rs (inr (length P)).

Lemma search_found k P rs :
  sorted_keys (r_key <$> P ++ rs) -> Forall (fun r => r_key r < k)%Z P ->
  found_at k (P ++ rs) (search k (entry_of <$> rs) (length P)).
Proof.
  revert P. induction rs as [|r rs IH]; intros P Hs HP; cbn [search fmap list_fmap].
  - by eapply (found_miss k _ P []).
  - rewrite key_entry_of. destruct (Z.ltb_spec (r_key r) k) as [Hlt|Hge].
    + specialize (IH (P ++ [r])). rewrite length_app, <- (assoc_L (++)) in IH. cbn [length app] in IH.
      rewrite Nat.add_1_r in IH. apply IH; [done|]. apply Forall_app. by rewrite Forall_singleton.
    + destruct (Z.eqb_spec (r_key r) k) as [<-|Hne]; [by eapply found_hit|].
      eapply found_miss; [done|done|]. rewrite fmap_app, fmap_cons in Hs.
      apply sorted_app_lt in Hs as [_ Hs]. rewrite Forall_fmap in Hs. constructor; [lia|].
      eapply Forall_impl; [exact Hs|]. cbn. lia.
Qed.

Lemma binary_search_rows k rs :
  sorted_keys (r_key <$> rs) -> found_at k rs (binary_search k (entry_of <$> rs)).
Proof. intros Hs. by apply (search_found k []). Qed.

(** The entries of a leaf with one put in, replaced or taken out. *)
Lemma cut_rows P S :
  take (length P) (entry_of <$> P ++ S) = entry_of <$> P /\ drop (length P) (entry_of <$> P ++ S) = entry_of <$> S.
Proof. rewrite fmap_app. split; [apply take_app_length'|apply drop_app_length']; by rewrite length_fmap. Qed.

Lemma put_between P r S :
  take (length P) (entry_of <$> P ++ S) ++ entry_of r :: drop (length P) (entry_of <$> P ++ S) =
  entry_of <$> P ++ r :: S.
Proof. destruct (cut_rows P S) as [-> ->]. by rewrite fmap_app, fmap_cons. Qed.

Lemma entry_at P r S : (entry_of <$> P ++ r :: S) !! length P = Some (entry_of r).
Proof. rewrite list_lookup_fmap, list_lookup_middle; done. Qed.

Lemma put_over P r S r' :
  <[length P := entry_of r']> (entry_of <$> P ++ r :: S) = entry_of <$> P ++ r' :: S.
Proof.
  rewrite !fmap_app, !fmap_cons. by rewrite insert_app_r_alt, length_fmap, Nat.sub_diag by by rewrite length_fmap.
Qed.

Lemma take_out P r S :
  take (length P) (entry_of <$> P ++ r :: S) ++ drop (length P + 1) (entry_of <$> P ++ r :: S) = entry_of <$> P ++ S.
Proof.
  destruct (cut_rows P (r :: S)) as [-> E]. rewrite <- drop_drop, E, fmap_app. done.
Qed.

(** Keys stay in order around the searched one. *)
Lemma sorted_around k P S :
  sorted_keys (r_key <$> P ++ S) -> Forall (fun r => r_key r < k)%Z P -> Forall (fun r => k < r_key r)%Z S ->
  forall r, r_key r = k -> sorted_keys (r_key <$> P ++ r :: S).
Proof.
  rewrite !fmap_app. intros (_ & H1 & H2)%StronglySorted_app HP HS r Hr. rewrite fmap_app, fmap_cons.
  apply StronglySorted_app. rewrite <- Hr in HP, HS. split_and!; [|done|].
  - intros x y (rx & -> & Hx)%list_elem_of_fmap Hy. eapply Forall_forall in HP; [|exact Hx].
    apply elem_of_cons in Hy as [->|(ry & -> & Hy)%list_elem_of_fmap]; [done|].
    eapply Forall_forall in HS; [|exact Hy]. lia.
  - constructor; [done|]. by apply Forall_fmap.
Qed.

Lemma sorted_swap k P r S r' : r_key r = k -> r_key r' = k ->
  sorted_keys (r_key <$> P ++ r :: S) -> sorted_keys (r_key <$> P ++ r' :: S).
Proof. intros H1 H2. rewrite !fmap_app, !fmap_cons. by rewrite H1, H2. Qed.

Lemma sorted_drop P r S : sorted_keys (r_key <$> P ++ r :: S) -> sorted_keys (r_key <$> P ++ S).
Proof.
  rewrite !fmap_app, fmap_cons. intros (H1 & H2 & H3)%StronglySorted_app.
  apply StronglySorted_inv in H3 as [H3 _]. apply StronglySorted_app. split_and!; [|done|done].
  intros x y Hx Hy. apply H1; [done|by right].
Qed.

(** ** One row of a leaf gives way to another *)

Record swap (a a1 : ast) (olds news : list row) : Prop := {
  sw_root : a_root a1 = a_root a;
  sw_keep : forall id p, a_pages a !! id = Some p -> a_pages a1 !! id = Some p;
  sw_has : has (a_pages a1) (rows_fp news);
  sw_nodup : NoDup (rows_fp news).*1;
  sw_ids : forall id, id ∈ (rows_fp news).*1 -> a_pages a !! id = None \/ id ∈ (rows_fp olds).*1 }.

Lemma rows_fp_app rs1 rs2 : rows_fp (rs1 ++ rs2) = rows_fp rs1 ++ rows_fp rs2.
Proof. unfold rows_fp. by rewrite fmap_app, concat_app. Qed.

Lemma rows_fp_one r : rows_fp [r] = row_fp r.
Proof. unfold rows_fp. cbn. apply app_nil_r. Qed.

(** A well-formed row's pages are its chain. *)
Lemma row_fp_ids r : row_ok r -> (row_fp r).*1 = r_chain r.
Proof.
  intros Hr. unfold row_fp. destruct (row_cases r Hr) as [(-> & _)|(first & ids & -> & _ & _ & Hl & _)]; [done|].
  by apply chain_fp_ids.
Qed.

Lemma swap_new a a1 olds r : extends a a1 (row_fp r) -> swap a a1 olds [r].
Proof.
  intros Hx. pose proof Hx as [H1 H2 H3 H4 H5]. split; rewrite ?rows_fp_one; try done; [|by auto].
  intros id p Hp. rewrite H5; [done|]. intros Hid%H3. congruence.
Qed.

Lemma swap_none a olds : swap a a olds [].
Proof. split; [done|done|apply has_nil|constructor|]. intros id H. by apply elem_of_nil in H. Qed.

(** What rewriting leaf [l] of [t] with rows [rs] needs. *)
Record ready (a : ast) (ups : list (list inner)) (L1 : list leaf) (l : leaf) (L2 : list leaf) (rs : list row)
    : Prop := {
  rd_stacked : stacked ups (lspan <$> L1 ++ l :: L2) (a_root a);
  rd_root : page_id_ok (a_root a);
  rd_L1 : Forall leaf_ok L1;
  rd_L2 : Forall leaf_ok L2;
  rd_leaves : has (a_pages a) (leaves_fp (L1 ++ l :: L2) None);
  rd_ups : has (a_pages a) (ups_fp ups);
  rd_rows : has (a_pages a) (rows_fp (concat (l_rows <$> L1) ++ rs ++ concat (l_rows <$> L2)));
  rd_nodup : NoDup ((l_id <$> L1 ++ l :: L2) ++ (ups_fp ups).*1 ++
               (rows_fp (concat (l_rows <$> L1) ++ rs ++ concat (l_rows <$> L2))).*1) }.

(** The middle of a duplicate-free list gives way to members of it or fresh
    ones. *)
Lemma nodup_swap {A} (X P O S F : list A) :
  NoDup (X ++ P ++ O ++ S) -> NoDup F ->
  (forall x, x ∈ F -> (x ∉ X ++ P ++ O ++ S) \/ x ∈ O) -> NoDup (X ++ P ++ F ++ S).
Proof.
  intros HN HF Hf.
  assert (Permutation (X ++ P ++ O ++ S) (O ++ X ++ P ++ S)) as E1 by solve_Permutation.
  assert (Permutation (X ++ P ++ F ++ S) (F ++ X ++ P ++ S)) as E2 by solve_Permutation.
  rewrite E1 in HN. rewrite E2. apply NoDup_app in HN as (HO & Hd & HN).
  apply NoDup_app. split_and!; [done| |done]. intros x Hx Hin.
  destruct (Hf x Hx) as [Hn|Hn]; [|by apply (Hd x)]. apply Hn. rewrite E1. apply elem_of_app. by right.
Qed.

Lemma ready_swap t a a1 L1 l L2 P olds news S :
  stands_for a t -> t_leaves t = L1 ++ l :: L2 -> l_rows l = P ++ olds ++ S -> swap a a1 olds news ->
  ready a1 (t_ups t) L1 l L2 (P ++ news ++ S).
Proof.
  intros [[Hst Hr Hlv Hnd] Hg] E El [S1 S2 S3 S4 S5].
  assert (forall l0, has (a_pages a) l0 -> has (a_pages a1) l0) as Hkeep by (intros l0 H0 id p Hin; auto).
  pose proof (fun id H => has_fresh _ _ id Hg H) as Hfr.
  unfold footprint in *. unfold all_rows in *. rewrite E in *.
  rewrite fmap_app, fmap_cons, concat_app in Hg, Hnd, Hfr. cbn [concat] in Hg, Hnd, Hfr. rewrite El in Hg, Hnd, Hfr.
  rewrite !rows_fp_app in Hg, Hnd, Hfr. rewrite !fmap_app, level_fp_ids in Hnd, Hfr.
  rewrite !has_app in Hg. destruct Hg as (G1 & G2 & G3 & (G4 & G5 & G6) & G7).
  rewrite Forall_app, Forall_cons in Hlv. destruct Hlv as (HL1 & _ & HL2).
  split; [by rewrite S1|by rewrite S1|done|done|auto|auto| |].
  - rewrite !rows_fp_app, !has_app. split_and!; auto.
  - rewrite !rows_fp_app, !fmap_app in *. 
    pose proof (nodup_swap ((l_id <$> L1 ++ l :: L2) ++ (ups_fp (t_ups t)).*1)
      ((rows_fp (concat (l_rows <$> L1))).*1 ++ (rows_fp P).*1) (rows_fp olds).*1
      ((rows_fp S).*1 ++ (rows_fp (concat (l_rows <$> L2))).*1) (rows_fp news).*1) as Hsw.
    rewrite !fmap_app in Hsw. rewrite <- !(assoc_L (++)) in *. apply Hsw; [done|done|].
    intros x Hx. destruct (S5 x Hx) as [Hn|?]; [left|by right]. by apply Hfr.
Qed.

(** ** The map a tree stands for *)

Definition row_map (rs : list row) : gmap Z bytes := list_to_map ((fun r => (r_key r, r_val r)) <$> rs).

Lemma rows_of_map t : rows_of t = row_map (all_rows t).
Proof. done. Qed.

Lemma row_map_app rs1 rs2 : row_map (rs1 ++ rs2) = row_map rs1 ∪ row_map rs2.
Proof. unfold row_map. by rewrite fmap_app, list_to_map_app. Qed.

Lemma row_map_other k rs : Forall (fun r => r_key r <> k) rs -> row_map rs !! k = None.
Proof.
  intros H. apply not_elem_of_list_to_map. rewrite <- list_fmap_compose.
  intros (r & E & Hr)%list_elem_of_fmap. eapply Forall_forall in H; [|exact Hr]. cbn in E. congruence.
Qed.

(** Rows in order, at one of them. *)
Lemma sorted_others P r S : sorted_keys (r_key <$> P ++ r :: S) ->
  Forall (fun x => r_key x <> r_key r) P /\ Forall (fun x => r_key x <> r_key r) S.
Proof.
  rewrite fmap_app, fmap_cons. intros [H1 H2]%sorted_app_lt. rewrite Forall_fmap in H1, H2.
  split; eapply Forall_impl; [exact H1| |exact H2|]; cbn; lia.
Qed.

Lemma row_map_at P r S : sorted_keys (r_key <$> P ++ r :: S) ->
  row_map (P ++ r :: S) = <[r_key r := r_val r]> (row_map (P ++ S)) /\ row_map (P ++ S) !! r_key r = None.
Proof.
  intros [HP HS]%sorted_others. rewrite !row_map_app. split.
  - change (row_map (r :: S)) with (<[r_key r := r_val r]> (row_map S)).
    by rewrite insert_union_r by by apply row_map_other.
  - apply lookup_union_None. split; by apply row_map_other.
Qed.

(** ** Writing a row back *)

(** A value whose stored form takes at most half of a leaf: short, or chained. *)
Definition half_leaf (v : bytes) : Prop :=
  2 * leaf_entry_size v <= LEAF_CAPACITY \/ MAX_TUPLE < length v.

Lemma half_leaf_size r : row_ok r -> half_leaf (r_val r) -> 2 * entries_size [entry_of r] <= LEAF_CAPACITY.
Proof.
  intros Hr Hh. rewrite entries_size_cons. change (entries_size []) with 0.
  destruct (row_cases r Hr) as [(_ & -> & _ & H)|(first & ids & _ & _ & -> & _ & Hl & _)].
  - cbn [stored]. destruct Hh as [Hh|Hh]; [|lia]. unfold leaf_entry_size in Hh. lia.
  - cbn [stored]. unfold encode_stub. rewrite !length_app, length_take, !le_bytes_length.
    pose proof (Nat.le_min_l OVERFLOW_INLINE_PREFIX (length (r_val r))) as Hmin.
    generalize dependent (Nat.min OVERFLOW_INLINE_PREFIX (length (r_val r))). clear. intros n Hn. len.
Qed.

Lemma entries_fit rs : Forall row_ok rs -> Forall (fun e => leaf_fits [e]) (entry_of <$> rs).
Proof. intros H. apply Forall_fmap. eapply Forall_impl; [exact H|]. intros r Hr. by apply entry_of_fits. Qed.

Section Leaf.
Context (t : tree) (a : ast) (L1 : list leaf) (l : leaf) (L2 : list leaf) (k : Z).
Context (Hsf : stands_for a t) (E : t_leaves t = L1 ++ l :: L2) (Hk : (l_lo l <= k < l_hi l)%Z).
Let link := first_id l_id L2 None.
Let around rs := concat (l_rows <$> L1) ++ rs ++ concat (l_rows <$> L2).

Lemma here_ok : leaf_ok l /\ span_ok (lspan l) /\ link_ok link.
Proof using Hsf E. destruct (leaf_node t a L1 l L2 Hsf E) as (? & ? & ? & _). done. Qed.

Lemma around_all : all_rows t = around (l_rows l).
Proof using E. unfold all_rows, around. by rewrite E, fmap_app, concat_app. Qed.

Lemma around_sorted : sorted_keys (r_key <$> all_rows t).
Proof using Hsf. rewrite <- contents_keys. apply contents_sorted with (a_root a), Hsf. Qed.

Lemma around_map P S r rs :
  rs = P ++ r :: S -> sorted_keys (r_key <$> around rs) ->
  row_map (around rs) = <[r_key r := r_val r]> (row_map (around (P ++ S))) /\
  row_map (around (P ++ S)) !! r_key r = None.
Proof using.
  intros ->. unfold around. rewrite <- !(assoc_L (++)). rewrite !(assoc_L (++) (concat (l_rows <$> L1))).
  cbn [app]. apply row_map_at.
Qed.

Lemma rewrite_row a1 P olds r S fuel path e :
  l_rows l = P ++ olds ++ S -> swap a a1 olds [r] -> row_ok r -> r_key r = k ->
  sorted_keys (r_key <$> P ++ r :: S) ->
  (t_ups t = [] -> S = [] \/ half_leaf (r_val r)) ->
  holders (t_ups t) path (l_id l) -> 2 <= fuel ->
  wp (write_or_discard fuel path (l_id l) (leaf_page link l) (entry_of <$> P ++ r :: S) e) a1 anyway
    (okq (fun _ a' => exists t', rewritten a1 L1 l L2 (t_ups t) (P ++ r :: S) a' t')).
Proof using Hsf E Hk.
  intros El Hsw Hr Hrk Hso Hroom Hh Hf. destruct here_ok as (Hl & Hsp & Hli).
  pose proof (ready_swap t a a1 L1 l L2 P olds [r] S Hsf E El Hsw) as [R1 R2 R3 R4 R5 R6 R7 R8].
  pose proof Hl as [K1 K2 K3 K4]. rewrite El in K1, K2, K4. rewrite !Forall_app in K1, K2.
  assert (Forall row_ok (P ++ r :: S)) as Hrs.
  { rewrite Forall_app, Forall_cons. naive_solver. }
  assert (leaf_fits ((entry_of <$> P) ++ (entry_of <$> S))) as Hold.
  { unfold leaf_fits in *. rewrite !fmap_app, !entries_size_app in K4. rewrite entries_size_app. lia. }
  pose proof (entries_fit _ Hrs) as Hfit. rewrite fmap_app, fmap_cons in Hfit.
  eapply (rewrite_spec a1 L1 l L2 (t_ups t) (P ++ r :: S)); try done.
  - rewrite Forall_app, Forall_cons, Hrk. naive_solver.
  - rewrite fmap_app, fmap_cons. unfold leaf_fits in *. rewrite entries_size_app in *.
    rewrite (entries_size_app [_] (_ <$> _) : entries_size (entry_of r :: _) = _).
    pose proof (entry_of_fits r Hr) as Hone. unfold leaf_fits in Hone. lia.
  - intros Hu. rewrite fmap_app, fmap_cons. destruct (Hroom Hu) as [->|Hh2].
    + apply pack_snoc; [done|]. by rewrite app_nil_r in Hold.
    + apply pack_half; [done|done|by apply half_leaf_size].
Qed.

(** A rewrite that does not outgrow the leaf. *)
Lemma rewrite_row_here a1 P olds news S :
  l_rows l = P ++ olds ++ S -> swap a a1 olds news -> Forall row_ok news -> Forall (fun r => r_key r = k) news ->
  sorted_keys (r_key <$> P ++ news ++ S) -> leaf_fits (entry_of <$> P ++ news ++ S) ->
  write_leaf_entries (leaf_page link l) (entry_of <$> P ++ news ++ S) =
    Ok (leaf_bytes link (l_hi l) (entry_of <$> P ++ news ++ S), true) /\
  (exists p, a_pages a1 !! l_id l = Some p) /\
  exists t', rewritten a1 L1 l L2 (t_ups t) (P ++ news ++ S)
    (a_put a1 (l_id l) (leaf_bytes link (l_hi l) (entry_of <$> P ++ news ++ S))) t'.
Proof using Hsf E Hk.
  intros El Hsw Hn Hnk Hso Hfit. destruct here_ok as (Hl & Hsp & Hli).
  pose proof (ready_swap t a a1 L1 l L2 P olds news S Hsf E El Hsw) as [R1 R2 R3 R4 R5 R6 R7 R8].
  pose proof Hl as [K1 K2 K3 K4]. rewrite El in K1, K2. rewrite !Forall_app in K1, K2.
  split_and!; [by apply write_here|eexists; by eapply live_leaf|].
  apply (replaced_here a1 L1 l L2 (t_ups t) (P ++ news ++ S)); try done.
  - rewrite !Forall_app. naive_solver.
  - rewrite !Forall_app. split_and!; [apply K2| |apply K2]. eapply Forall_impl; [exact Hnk|]. cbn. intros r ->. done.
Qed.

(** A page of the old row is no longer the tree's, unless the new row has it;
    it is still allocated. *)
Lemma dropped a1 P olds news S a' t' id :
  l_rows l = P ++ olds ++ S -> swap a a1 olds news -> rewritten a1 L1 l L2 (t_ups t) (P ++ news ++ S) a' t' ->
  id ∈ (rows_fp olds).*1 -> id ∉ (rows_fp news).*1 -> id ∉ (footprint t').*1 /\ is_Some (a_pages a' !! id).
Proof using Hsf E.
  intros El Hsw [_ Eall Hown Hframe] Hid Hnew. destruct Hsf as [[_ _ _ Hnd] Hg].
  unfold footprint in Hnd. rewrite around_all in Hnd. unfold around in Hnd. rewrite El, E in Hnd.
  rewrite !rows_fp_app, !fmap_app, level_fp_ids in Hnd.
  apply NoDup_app in Hnd as (_ & N1 & Hnd). apply NoDup_app in Hnd as (_ & N2 & Hnd).
  apply NoDup_app in Hnd as (_ & N3 & Hnd). rewrite <- !(assoc_L (++)) in Hnd. apply NoDup_app in Hnd as (_ & N4 & Hnd).
  apply NoDup_app in Hnd as (_ & N5 & _). specialize (N5 id Hid). apply not_elem_of_app in N5 as [N5 N6].
  assert (id ∉ l_id <$> L1 ++ l :: L2) as H1 by (intros H; apply (N1 id H); rewrite !elem_of_app; auto 6).
  assert (id ∉ (ups_fp (t_ups t)).*1) as H2 by (intros H; apply (N2 id H); rewrite !elem_of_app; auto 6).
  assert (exists p, a_pages a1 !! id = Some p) as [p Hp].
  { apply list_elem_of_fmap in Hid as ([i p] & -> & Hi). exists p. apply (sw_keep _ _ _ _ Hsw), Hg.
    unfold footprint. rewrite around_all. unfold around. rewrite El, !rows_fp_app, !elem_of_app. auto 8. }
  split; [|exists p; by apply Hframe]. intros Hin. destruct (Hown id Hin) as [H|[H|[H|H]]]; [congruence|done|done|].
  rewrite Eall, !rows_fp_app, !fmap_app, !elem_of_app in H. destruct H as [H|[[H|[H|H]]|H]]; try done.
  - apply (N3 id H). rewrite !elem_of_app. auto 6.
  - apply (N4 id H). rewrite !elem_of_app. auto 6.
Qed.
End Leaf.

(** ** The operations *)

Lemma stored_row t a r : stands_for a t -> r ∈ all_rows t -> rows_of t !! r_key r = Some (r_val r).
Proof. intros Hsf Hr. apply (rows_of_spec t (a_root a)); [apply Hsf|eauto]. Qed.

Lemma leaf_rows_in t L1 l L2 r : t_leaves t = L1 ++ l :: L2 -> r ∈ l_rows l -> r ∈ all_rows t.
Proof. intros E Hr. rewrite (around_all t L1 l L2 E), !elem_of_app. auto. Qed.

(** One descent and one search serve every writer. *)
Lemma locate {A} (K : list (Z * Page) * Z * Page -> prog A) t a k fuel I Q :
  stands_for a t -> (0 <= k < INF_KEY)%Z -> length (t_ups t) < fuel ->
  (forall path L1 l L2 o, t_leaves t = L1 ++ l :: L2 -> (l_lo l <= k < l_hi l)%Z -> leaf_ok l ->
     holders (t_ups t) path (l_id l) -> found_at k (l_rows l) o ->
     binary_search k (entry_of <$> l_rows l) = o ->
     leaf_entries (leaf_page (first_id l_id L2 None) l) = Ok (entry_of <$> l_rows l) ->
     wp (K (path, l_id l, leaf_page (first_id l_id L2 None) l)) a I Q) ->
  wp (pbind (descend fuel k) K) a I Q.
Proof.
  intros Hsf Hk Hf HQ. apply wp_bind. eapply descend_leaf; [done|done|done|].
  intros path L1 l L2 E Hlo Hp. destruct (leaf_node t a L1 l L2 Hsf E) as (Hl & _ & _ & _ & [_ _ _ R4 _]).
  eapply HQ; [done|done|done|done| |done|done]. apply binary_search_rows, Hl.
Qed.

Ltac locate_key :=
  eapply locate; [eassumption|eassumption|eassumption|];
  intros path L1 l L2 o E Hlo Hl Hp Ho Hb R4; cbn beta iota;
  apply wp_bind; eapply wp_lift; [exact R4|]; rewrite Hb; clear Hb R4.

(** Room at a leaf that is the root: the new row is the last one, or it takes
    at most half of the leaf. *)
Definition roomy (t : tree) (k : Z) (v : bytes) : Prop :=
  t_ups t = [] -> map_Forall (fun k' _ => k' <= k)%Z (rows_of t) \/ half_leaf v.

Lemma roomy_last t a L1 l L2 k v S :
  stands_for a t -> t_leaves t = L1 ++ l :: L2 -> roomy t k v -> (forall r, r ∈ S -> r ∈ l_rows l) ->
  Forall (fun r => k < r_key r)%Z S -> t_ups t = [] -> S = [] \/ half_leaf v.
Proof.
  intros Hsf E Hroom HS Hgt Hu. destruct (Hroom Hu) as [Hall|?]; [left|by right].
  destruct S as [|s S]; [done|]. apply Forall_cons in Hgt as [Hgt _].
  pose proof (stored_row t a s Hsf ltac:(by eapply leaf_rows_in, HS, list_elem_of_here)) as Hs.
  apply Hall in Hs. lia.
Qed.

(** A search that misses says the tree does not have the key. *)
Lemma missed t a L1 l L2 k P S :
  stands_for a t -> t_leaves t = L1 ++ l :: L2 -> (l_lo l <= k < l_hi l)%Z -> l_rows l = P ++ S ->
  Forall (fun r => r_key r < k)%Z P -> Forall (fun r => k < r_key r)%Z S -> rows_of t !! k = None.
Proof.
  intros Hsf E Hk El HP HS. rewrite (owner_lookup t (a_root a) L1 l L2 k) by (done || apply Hsf).
  destruct (lookup_row k (l_rows l)) as [r|] eqn:Hr; [|done]. apply lookup_row_Some in Hr as [Hin Hr].
  rewrite El in Hin. apply elem_of_app in Hin as [Hin|Hin]; exfalso.
  - eapply Forall_forall in HP; [|exact Hin]. lia.
  - eapply Forall_forall in HS; [|exact Hin]. lia.
Qed.

(** A search that hits says what it stores. *)
Lemma hit t a L1 l L2 k P r S :
  stands_for a t -> t_leaves t = L1 ++ l :: L2 -> l_rows l = P ++ r :: S -> r_key r = k ->
  rows_of t !! k = Some (r_val r) /\ r ∈ all_rows t.
Proof.
  intros Hsf E El <-. assert (r ∈ all_rows t) as Hin; [|split; [by eapply stored_row|done]].
  eapply leaf_rows_in; [done|]. rewrite El. apply elem_of_app. right. left.
Qed.

(** An operation took the tree [t] of [a] to [t'] of [a']: the new tree owns
    pages of the old one and fresh ones, and every other page is untouched. *)
Record became (t : tree) (a : ast) (t' : tree) (a' : ast) : Prop := {
  bc_stands : stands_for a' t';
  bc_owns : forall id, id ∈ (footprint t').*1 -> id ∈ (footprint t).*1 \/ a_pages a !! id = None;
  bc_frame : forall id p, a_pages a !! id = Some p -> id ∉ (footprint t).*1 -> a_pages a' !! id = Some p }.

Lemma swap_became t a a1 L1 l L2 P olds news S a' t' :
  stands_for a t -> t_leaves t = L1 ++ l :: L2 -> l_rows l = P ++ olds ++ S -> swap a a1 olds news ->
  rewritten a1 L1 l L2 (t_ups t) (P ++ news ++ S) a' t' -> became t a t' a'.
Proof.
  intros Hsf E El [S1 S2 S3 S4 S5] [R1 R2 R3 R4].
  assert ((footprint t).*1 = (l_id <$> L1 ++ l :: L2) ++ (ups_fp (t_ups t)).*1 ++
    (rows_fp (concat (l_rows <$> L1) ++ (P ++ olds ++ S) ++ concat (l_rows <$> L2))).*1) as Efp.
  { unfold footprint. rewrite (around_all t L1 l L2 E), El, E, !fmap_app, level_fp_ids. by rewrite fmap_app. }
  split; [done| |].
  - intros id Hin. rewrite Efp, !elem_of_app. destruct (R3 id Hin) as [H|[H|[H|H]]]; auto.
    + right. destruct (a_pages a !! id) eqn:Ea; [|done]. apply S2 in Ea. congruence.
    + rewrite R2 in H. rewrite !rows_fp_app, !fmap_app, !elem_of_app in *.
      destruct H as [H|[[H|[H|H]]|H]]; auto 8. destruct (S5 id H); auto 8.
  - intros id p Hp Hn. rewrite Efp in Hn. apply not_elem_of_app in Hn as [Hn1 Hn2].
    apply not_elem_of_app in Hn2 as [Hn2 _]. apply R4; [by apply S2|done|done].
Qed.

(** ... and the map with it. *)
Lemma swap_put t a a1 L1 l L2 P olds r S a' t' :
  stands_for a t -> t_leaves t = L1 ++ l :: L2 -> l_rows l = P ++ olds ++ S ->
  Forall (fun o => r_key o = r_key r) olds -> length olds <= 1 ->
  rewritten a1 L1 l L2 (t_ups t) (P ++ r :: S) a' t' -> rows_of t' = <[r_key r := r_val r]> (rows_of t).
Proof.
  intros Hsf E El Hold Hlen [R1 R2 _ _]. rewrite !rows_of_map, (around_all t L1 l L2 E), El.
  pose proof (around_sorted t' a' R1) as Hso'. rewrite R2 in Hso' |- *.
  destruct (around_map L1 L2 P S r _ eq_refl Hso') as [-> _]. destruct olds as [|o [|o2 olds]]; [done| |cbn in Hlen; lia].
  rewrite Forall_singleton in Hold. pose proof (around_sorted t a Hsf) as Hso.
  rewrite (around_all t L1 l L2 E), El in Hso. cbn [app] in Hso |- *.
  destruct (around_map L1 L2 P S o _ eq_refl Hso) as [-> _]. by rewrite Hold, insert_insert_eq.
Qed.

Lemma insert_spec t a k v fuel :
  stands_for a t -> (0 <= k < INF_KEY)%Z -> (Z.of_nat (length v) <= MAX_CHAINED)%Z ->
  rows_of t !! k = None -> roomy t k v -> length (t_ups t) < fuel -> 2 <= fuel ->
  wp (insert fuel k v) a anyway
    (okq (fun _ a' => exists t', became t a t' a' /\ rows_of t' = <[k := v]> (rows_of t))).
Proof.
  intros Hsf Hk Hv Hno Hroom Hf Hf2. unfold insert.
  locate_key. destruct Ho as [P r S El Hr|P S El HP HS].
  { destruct (hit t a L1 l L2 k P r S) as [? _]; [done..|congruence]. }
  apply wp_bind. eapply wp_conseq; [by apply make_entry_spec|]. intros e a1 (r & -> & Hrk & Hrv & Hr & Hx).
  cbn [okq]. rewrite El, put_between.
  assert (sorted_keys (r_key <$> P ++ r :: S)) as Hso.
  { eapply sorted_around; [|done..]. rewrite <- El. apply Hl. }
  eapply wp_conseq; [eapply (rewrite_row t a L1 l L2 k Hsf E Hlo a1 P [] r S); try done|].
  - by apply swap_new.
  - rewrite Hrv. eapply roomy_last; try done. intros s Hs. rewrite El. apply elem_of_app. by right.
  - intros u a' (t' & Hrw). exists t'. rewrite <- Hrk, <- Hrv. split.
    + by eapply (swap_became _ _ _ _ _ _ P [] [r] S); [..|apply swap_new|].
    + eapply (swap_put _ _ _ _ _ _ P [] r S); try done. cbn. lia.
Qed.

(** A value beyond the limit, a key already present: refused, nothing written. *)
Lemma make_entry_large k v a I :
  (MAX_CHAINED < Z.of_nat (length v))%Z ->
  wp (make_entry k v) a I (fun r a' => a' = a /\ r = Err (tuple_too_large (length v))).
Proof.
  intros H. unfold make_entry. rewrite decide_False, decide_True; [done|done|].
  intros Hm. assert (Z.of_nat MAX_TUPLE <= MAX_CHAINED)%Z by (vm_compute; done). lia.
Qed.

Lemma wp_bind_fail {A B} (m : prog A) (f : A -> prog B) a I e (Q : result B -> ast -> Prop) :
  wp m a I (fun r a' => a' = a /\ r = Err e) -> Q (Err e) a -> wp (pbind m f) a I Q.
Proof.
  intros H HQ. revert H. generalize a at 1 3 as a0. intros a0. revert a0.
  induction m as [r|id k IH|id page k IH|k IH|id k IH|k IH|root k IH]; simpl; intros a0 H.
  - destruct H as [-> ->]. exact HQ.
  - destruct H as (page & Hp & H). eauto.
  - destruct H as (? & ? & ? & H). auto.
  - intros id page ? ? ?. destruct (H id page) as [? H']; auto.
  - destruct H as (? & ? & H). auto.
  - auto.
  - destruct H. auto.
Qed.

Lemma insert_large t a k v fuel :
  stands_for a t -> (0 <= k < INF_KEY)%Z -> rows_of t !! k = None -> (MAX_CHAINED < Z.of_nat (length v))%Z ->
  length (t_ups t) < fuel ->
  wp (insert fuel k v) a anyway (fun r a' => a' = a /\ r = Err (tuple_too_large (length v))).
Proof.
  intros Hsf Hk Hno Hv Hf. unfold insert. locate_key. destruct Ho as [P r S El Hr|P S El HP HS].
  - destruct (hit t a L1 l L2 k P r S) as [? _]; [done..|congruence].
  - by eapply wp_bind_fail; [apply make_entry_large|].
Qed.

Lemma insert_duplicate t a k v old fuel :
  stands_for a t -> (0 <= k < INF_KEY)%Z -> rows_of t !! k = Some old -> length (t_ups t) < fuel ->
  wp (insert fuel k v) a anyway (fun r a' => a' = a /\ r = Err (corrupt "duplicate row-id insert")).
Proof.
  intros Hsf Hk Hold Hf. unfold insert.
  locate_key. destruct Ho as [P r S El Hr|P S El HP HS]; [by split|].
  rewrite (missed t a L1 l L2 k P S) in Hold; done.
Qed.

(** ** Update *)

Lemma update_spec t a k v old fuel :
  stands_for a t -> (0 <= k < INF_KEY)%Z -> (Z.of_nat (length v) <= MAX_CHAINED)%Z ->
  rows_of t !! k = Some old -> roomy t k v -> length (t_ups t) < fuel -> 2 <= fuel ->
  wp (update fuel k v) a anyway
    (okq (fun retired a' => exists t', became t a t' a' /\ rows_of t' = <[k := v]> (rows_of t) /\
       exists r, r ∈ all_rows t /\ r_key r = k /\ retired = r_chain r /\
         forall id, id ∈ retired -> id ∉ (footprint t').*1 /\ is_Some (a_pages a' !! id))).
Proof.
  intros Hsf Hk Hv Hold Hroom Hf Hf2. unfold update. locate_key.
  destruct Ho as [P r S El Hr|P S El HP HS]; [|by rewrite (missed t a L1 l L2 k P S) in Hold].
  destruct (hit t a L1 l L2 k P r S) as [_ Hin]; [done..|].
  assert (row_ok r) as Hrok by (eapply Forall_forall; [eapply all_rows_ok, Hsf|done]).
  rewrite El, entry_at. apply wp_bind.
  eapply wp_conseq; [apply retired_row; [done|by eapply row_pages]|]. intros retired ? [-> ->]. cbn [okq].
  apply wp_bind. eapply wp_conseq; [by apply make_entry_spec|]. intros e a1 (r' & -> & Hrk & Hrv & Hr' & Hx).
  cbn [okq]. rewrite put_over. apply wp_bind.
  assert (swap a a1 [r] [r']) as Hsw by by apply swap_new.
  eapply wp_conseq; [eapply (rewrite_row t a L1 l L2 k Hsf E Hlo a1 P [r] r' S); try done|].
  - eapply sorted_swap; [exact Hr|done|]. rewrite <- El. apply Hl.
  - rewrite Hrv. eapply roomy_last; try done; [intros s Hs; rewrite El; apply elem_of_app; right; by right|].
    pose proof (lo_sorted _ Hl) as Hso. rewrite El, fmap_app, fmap_cons in Hso.
    apply sorted_app_lt in Hso as [_ Hso]. rewrite Forall_fmap, Hr in Hso. exact Hso.
  - intros u a' (t' & Hrw). cbn [okq]. apply wp_ret. exists t'. rewrite <- Hrv. split_and!.
    + by eapply (swap_became _ _ _ _ _ _ P [r] [r'] S).
    + rewrite <- Hrk. eapply (swap_put _ _ _ _ _ _ P [r] r' S); try done.
      rewrite Forall_singleton. congruence.
    + exists r. split_and!; [done..|]. intros id Hid.
      assert (id ∈ (rows_fp [r]).*1) as Hid' by by rewrite rows_fp_one, row_fp_ids.
      eapply (dropped t a L1 l L2 Hsf E a1 P [r] [r'] S); try done. rewrite rows_fp_one. intros Hn.
      apply (ex_fresh _ _ _ Hx) in Hn. revert Hn. rewrite rows_fp_one in Hid'.
      apply list_elem_of_fmap in Hid' as ([i p] & -> & Hip). cbn [fst]. rewrite (row_pages t a r Hsf Hin _ _ Hip). done.
Qed.

Lemma update_missing t a k v fuel :
  stands_for a t -> (0 <= k < INF_KEY)%Z -> rows_of t !! k = None -> length (t_ups t) < fuel ->
  wp (update fuel k v) a anyway (fun r a' => a' = a /\ r = Err (corrupt "update of a missing row-id")).
Proof.
  intros Hsf Hk Hno Hf. unfold update. locate_key. destruct Ho as [P r S El Hr|P S El HP HS]; [|by split].
  destruct (hit t a L1 l L2 k P r S) as [? _]; [done..|congruence].
Qed.

Lemma update_large t a k v old fuel :
  stands_for a t -> (0 <= k < INF_KEY)%Z -> rows_of t !! k = Some old -> (MAX_CHAINED < Z.of_nat (length v))%Z ->
  length (t_ups t) < fuel ->
  wp (update fuel k v) a anyway (fun r a' => a' = a /\ r = Err (tuple_too_large (length v))).
Proof.
  intros Hsf Hk Hold Hv Hf. unfold update. locate_key.
  destruct Ho as [P r S El Hr|P S El HP HS]; [|by rewrite (missed t a L1 l L2 k P S) in Hold].
  destruct (hit t a L1 l L2 k P r S) as [_ Hin]; [done..|].
  rewrite El, entry_at. apply wp_bind. eapply wp_conseq; [apply retired_row; [|by eapply row_pages]|].
  - eapply Forall_forall; [eapply all_rows_ok, Hsf|done].
  - intros retired ? [-> ->]. cbn [okq]. by eapply wp_bind_fail; [apply make_entry_large|].
Qed.

(** ** Delete *)

Lemma delete_spec t a k old fuel :
  stands_for a t -> (0 <= k < INF_KEY)%Z -> rows_of t !! k = Some old -> length (t_ups t) < fuel ->
  wp (delete fuel k) a anyway
    (okq (fun removed a' => exists t', became t a t' a' /\ rows_of t' = base.delete k (rows_of t) /\
       exists r, r ∈ all_rows t /\ r_key r = k /\ removed = Some (r_chain r) /\
         forall id, id ∈ r_chain r -> id ∉ (footprint t').*1 /\ is_Some (a_pages a' !! id))).
Proof.
  intros Hsf Hk Hold Hf. unfold delete. locate_key.
  destruct Ho as [P r S El Hr|P S El HP HS]; [|by rewrite (missed t a L1 l L2 k P S) in Hold].
  destruct (hit t a L1 l L2 k P r S) as [_ Hin]; [done..|].
  assert (row_ok r) as Hrok by (eapply Forall_forall; [eapply all_rows_ok, Hsf|done]).
  rewrite El, entry_at. apply wp_bind.
  eapply wp_conseq; [apply retired_row; [done|by eapply row_pages]|]. intros retired ? [-> ->]. cbn [okq].
  rewrite <- Nat.add_1_r, take_out.
  pose proof (sorted_drop P r S) as Hso. rewrite <- El in Hso. specialize (Hso (lo_sorted _ Hl)).
  assert (leaf_fits (entry_of <$> P ++ S)) as Hfit.
  { pose proof (lo_fits _ Hl) as Hfit. unfold leaf_fits in *. rewrite El in Hfit.
    rewrite !fmap_app, fmap_cons, ?entries_size_app, ?entries_size_cons in *. lia. }
  destruct (rewrite_row_here t a L1 l L2 k Hsf E Hlo a P [r] [] S) as (Hw & Hlive & t' & Hrw);
    [done|apply swap_none|constructor|constructor|done|done|].
  apply wp_bind. eapply wp_lift; [exact Hw|]. cbn beta iota. cbn [negb]. apply wp_bind.
  apply wp_write; [exact Hlive|by apply length_leaf_bytes|done|]. apply wp_ret. exists t'. split_and!.
  - by eapply (swap_became _ _ _ _ _ _ P [r] [] S); [..|apply swap_none|].
  - destruct Hrw as [R1 R2 _ _]. rewrite !rows_of_map, R2, (around_all t L1 l L2 E), El.
    pose proof (around_sorted t a Hsf) as Hso1. rewrite (around_all t L1 l L2 E), El in Hso1.
    destruct (around_map L1 L2 P S r _ eq_refl Hso1) as [-> Hn]. rewrite <- Hr.
    by rewrite delete_insert_id.
  - exists r. split_and!; [done..|]. intros id Hid.
    eapply (dropped t a L1 l L2 Hsf E a P [r] [] S); try done; [apply swap_none| |by intros ?%elem_of_nil].
    by rewrite rows_fp_one, row_fp_ids.
Qed.

Lemma delete_missing t a k fuel :
  stands_for a t -> (0 <= k < INF_KEY)%Z -> rows_of t !! k = None -> length (t_ups t) < fuel ->
  wp (delete fuel k) a anyway (fun r a' => a' = a /\ r = Ok None).
Proof.
  intros Hsf Hk Hno Hf. unfold delete. locate_key. destruct Ho as [P r S El Hr|P S El HP HS]; [|by split].
  destruct (hit t a L1 l L2 k P r S) as [? _]; [done..|congruence].
Qed.

(** ** Rewriting a value's prefix in place *)

Definition with_prefix (r : row) (p : bytes) : row := MkRow (r_key r) (splice (r_val r) 0 p) (r_chain r).

Lemma splice_app_l {A} (l1 l2 p : list A) : length p <= length l1 -> splice (l1 ++ l2) 0 p = splice l1 0 p ++ l2.
Proof.
  intros H. unfold splice. rewrite !take_0. cbn [app plus]. rewrite drop_app_le by done. by rewrite (assoc_L (++)).
Qed.

Lemma take_splice {A} (l p : list A) n :
  length p <= n -> n <= length l -> take n (splice l 0 p) = splice (take n l) 0 p.
Proof.
  intros H Hn. rewrite <- (take_drop n l) at 1. rewrite splice_app_l by (rewrite length_take; lia).
  apply take_app_length'. rewrite length_splice; rewrite length_take; lia.
Qed.

Lemma with_prefix_spec r p :
  row_ok r -> length p <= length (r_val r) ->
  (MAX_TUPLE < length (r_val r) -> length p <= OVERFLOW_INLINE_PREFIX) ->
  length p <= length (stored (entry_of r)) /\ row_ok (with_prefix r p) /\ row_fp (with_prefix r p) = row_fp r /\
  entry_of (with_prefix r p) = MkEntry (r_key r) (splice (stored (entry_of r)) 0 p) (overflow (entry_of r)).
Proof.
  intros Hr Hl Hp0. assert (length (splice (r_val r) 0 p) = length (r_val r)) as Elen by by apply length_splice.
  assert (MAX_TUPLE < length (r_val r) -> rest_chunks (splice (r_val r) 0 p) = rest_chunks (r_val r)) as Erest.
  { intros Hm. specialize (Hp0 Hm). unfold rest_chunks. rewrite drop_splice_after; [done|cbn; lia|].
    revert Hm. unfold MAX_TUPLE. autounfold with consts. lia. }
  unfold row_fp, with_prefix.
  destruct (row_cases r Hr) as [(Ec & Ee & _ & Hm)|(first & ids & Ec & Hids & Ee & Hlen & Hm & _)];
    rewrite Ee; cbn [stored overflow r_key r_val r_chain]; unfold entry_of; rewrite Ec; cbn [r_key r_val r_chain];
    pose proof Hr as [K1 K2 K3 K4].
  - split_and!; [done| |done|done]. split; cbn [r_key r_val r_chain]; rewrite ?Elen; [done|done| |constructor].
    by rewrite decide_True.
  - specialize (Hp0 Hm) as Hp.
    assert (length (take OVERFLOW_INLINE_PREFIX (r_val r)) = OVERFLOW_INLINE_PREFIX) as Et.
    { rewrite length_take. revert Hm. unfold MAX_TUPLE. autounfold with consts. lia. }
    split_and!; [| |by rewrite Erest|].
    + unfold encode_stub. rewrite length_app. lia.
    + split; cbn [r_key r_val r_chain]; rewrite ?Elen, ?Erest by done; [done|done|by rewrite decide_False by lia|done].
    + rewrite Elen. unfold encode_stub. rewrite splice_app_l by lia.
      rewrite take_splice; [done|done|]. rewrite length_take in Et. lia.
Qed.

Lemma overflow_long r : row_ok r -> overflow (entry_of r) = true <-> MAX_TUPLE < length (r_val r).
Proof.
  intros Hr. destruct (row_cases r Hr) as [(_ & -> & _ & Hm)|(first & ids & _ & _ & -> & _ & Hm & _)]; cbn [overflow].
  - split; [done|lia].
  - done.
Qed.

Lemma update_prefix_spec t a k p old fuel :
  stands_for a t -> (0 <= k < INF_KEY)%Z -> rows_of t !! k = Some old ->
  length p <= length old -> (MAX_TUPLE < length old -> length p <= OVERFLOW_INLINE_PREFIX) ->
  length (t_ups t) < fuel ->
  wp (update_prefix fuel k p) a anyway
    (okq (fun _ a' => exists t', became t a t' a' /\ rows_of t' = <[k := splice old 0 p]> (rows_of t))).
Proof.
  intros Hsf Hk Hold Hpl Hp24 Hf. unfold update_prefix. locate_key.
  destruct Ho as [P r S El Hr|P S El HP HS]; [|by rewrite (missed t a L1 l L2 k P S) in Hold].
  destruct (hit t a L1 l L2 k P r S) as [Hv Hin]; [done..|]. rewrite Hold in Hv. injection Hv as ->.
  assert (row_ok r) as Hrok by (eapply Forall_forall; [eapply all_rows_ok, Hsf|done]).
  destruct (with_prefix_spec r p Hrok Hpl Hp24) as (W1 & W2 & W3 & W4). set (r' := with_prefix r p) in *.
  rewrite El, entry_at. destruct (overflow (entry_of r) && _) eqn:Hov.
  { apply andb_true_iff in Hov as [Ho Hov%bool_decide_eq_true]. apply overflow_long in Ho; [|done]. lia. }
  rewrite decide_True by done. rewrite key_entry_of, <- W4, put_over.
  assert (leaf_fits (entry_of <$> P ++ r' :: S)) as Hfit.
  { pose proof (lo_fits _ Hl) as Hfit. unfold leaf_fits in *. rewrite El in Hfit.
    rewrite !fmap_app, !fmap_cons, ?entries_size_app, ?entries_size_cons in *. rewrite W4. cbn [stored].
    rewrite length_splice by lia. lia. }
  assert (swap a a [r] [r']) as Hsw.
  { split; rewrite ?rows_fp_one, ?W3; [done|done|by eapply row_pages| |by right].
    destruct Hsf as [[_ _ _ Hnd] _]. unfold footprint in Hnd. rewrite (around_all t L1 l L2 E), El in Hnd.
    rewrite !fmap_app, !rows_fp_app, !fmap_app in Hnd. do 2 apply NoDup_app in Hnd as (_ & _ & Hnd).
    apply NoDup_app in Hnd as (_ & _ & Hnd). apply NoDup_app in Hnd as (Hnd & _).
    apply NoDup_app in Hnd as (_ & _ & Hnd). change (r :: S) with ([r] ++ S) in Hnd.
    rewrite rows_fp_app, fmap_app, rows_fp_one in Hnd. by apply NoDup_app in Hnd as (? & _). }
  assert (sorted_keys (r_key <$> P ++ r' :: S)) as Hso.
  { eapply sorted_swap; [exact Hr|done|]. rewrite <- El. apply Hl. }
  destruct (rewrite_row_here t a L1 l L2 k Hsf E Hlo a P [r] [r'] S) as (Hw & Hlive & t' & Hrw);
    [done|done|by constructor|by constructor|done|done|].
  apply wp_bind. eapply wp_lift; [exact Hw|]. cbn beta iota. cbn [negb].
  apply wp_write; [exact Hlive|by apply length_leaf_bytes|done|]. exists t'. split.
  - by eapply (swap_became _ _ _ _ _ _ P [r] [r'] S).
  - rewrite <- Hr. by eapply (swap_put _ _ _ _ _ _ P [r] r' S); [..|by constructor|done|].
Qed.

(** What [update_prefix] answers when it writes nothing. *)
Definition prefix_refusal (m : gmap Z bytes) (k : Z) (p : bytes) : option string :=
  match m !! k with
  | None => Some "prefix update of a missing row-id"
  | Some old =>
      if decide (MAX_TUPLE < length old /\ OVERFLOW_INLINE_PREFIX < length p)
      then Some "prefix update reaches into an overflow chain"
      else if decide (length p <= length old) then None
      else Some "prefix update exceeds the stored value"
  end.

Lemma update_prefix_refused t a k p msg fuel :
  stands_for a t -> (0 <= k < INF_KEY)%Z -> prefix_refusal (rows_of t) k p = Some msg -> length (t_ups t) < fuel ->
  wp (update_prefix fuel k p) a anyway (fun r a' => a' = a /\ r = Err (corrupt msg)).
Proof.
  intros Hsf Hk Href Hf. unfold update_prefix. locate_key. unfold prefix_refusal in Href.
  destruct Ho as [P r S El Hr|P S El HP HS].
  2: { rewrite (missed t a L1 l L2 k P S) in Href by done. injection Href as <-. done. }
  destruct (hit t a L1 l L2 k P r S) as [Hv Hin]; [done..|]. rewrite Hv in Href.
  assert (row_ok r) as Hrok by (eapply Forall_forall; [eapply all_rows_ok, Hsf|done]).
  rewrite El, entry_at. pose proof (overflow_long r Hrok) as Hlong.
  destruct (overflow (entry_of r)) eqn:Hov; cbn [andb].
  - specialize (proj1 Hlong eq_refl) as Hm. case_bool_decide as Hpl.
    + rewrite decide_True in Href by done. injection Href as <-. done.
    + rewrite decide_False in Href by lia. case_decide as Hle; [done|]. exfalso. apply Hle.
      transitivity OVERFLOW_INLINE_PREFIX; [lia|]. revert Hm. unfold MAX_TUPLE. autounfold with consts. lia.
  - rewrite decide_False in Href by (intros [? _]; by apply Hlong in H).
    destruct (row_cases r Hrok) as [(_ & -> & _ & _)|(first & ids & _ & _ & Ee & _)]; [|by rewrite Ee in Hov].
    cbn [stored]. destruct (decide (length p <= length (r_val r))); [discriminate Href|].
    injection Href as <-. by split.
Qed.

(** ** Creation *)

Definition empty_tree (id : Z) : tree := MkTree [MkLeaf id 0 INF_KEY []] [].

Lemma empty_stands g id :
  page_id_ok id -> g !! id = Some (leaf_bytes None INF_KEY []) -> stands_for (Ast g id) (empty_tree id).
Proof.
  intros Hid Hg. split.
  - split; [done|done| |].
    + apply Forall_singleton. split; cbn; try constructor. unfold leaf_fits. cbn. lia.
    + cbn. apply NoDup_singleton.
  - cbn. rewrite has_cons. split; [exact Hg|apply has_nil].
Qed.

Lemma create_spec a :
  wp create a anyway (okq (fun _ a' => exists id, a_pages a !! id = None /\ stands_for a' (empty_tree id) /\
    forall i p, a_pages a !! i = Some p -> a_pages a' !! i = Some p)).
Proof.
  unfold create. apply wp_bind, wp_alloc. intros id page Hn Hid Hl. split; [done|].
  apply wp_bind. eapply wp_lift; [apply init_leaf_bytes, length_zero_page|].
  apply wp_bind. apply wp_write; [cbn; rewrite lookup_insert_eq; eauto|apply length_leaf_bytes; unfold leaf_fits; cbn; lia|done|].
  apply wp_set_root; [done|]. exists id. split_and!; [done| |].
  - apply empty_stands; [done|]. cbn. apply lookup_insert_eq.
  - intros i p Hi. cbn. rewrite !lookup_insert_ne by congruence. done.
Qed.
