(* ===== verification/TreePages.v ===== *)
(** * The clustered tree: the walk over its pages

    [pages] lists every page of a tree, level by level from the root, with the
    chains of the rows: what a dropped table gives back to the store. *)

From S2P Require Import Prelude Core Store Node NodeFacts Tree TreeInv TreeRead TreeOps.
From stdpp Require Import base gmap list sets.
From Stdlib Require Import ZArith Lia Strings.Byte.

Import ClusteredTree.

Lemma stub_pages_spec rs a I :
  Forall row_ok rs -> has (a_pages a) (rows_fp rs) ->
  wp (stub_pages (entry_of <$> rs)) a I (okq (fun ids a' => a' = a /\ ids = concat (r_chain <$> rs))).
Proof.
  induction 1 as [|r rs Hr _ IH]; intros Hg; [done|].
  change (rows_fp (r :: rs)) with (row_fp r ++ rows_fp rs) in Hg. apply has_app in Hg as [Hg1 Hg2]. specialize (IH Hg2).
  pose proof (retired_row r a I Hr Hg1) as Hret. unfold retired_chain in Hret.
  cbn [stub_pages fmap list_fmap concat]. destruct (row_cases r Hr) as [(-> & -> & _)|(first & ids & Ec & _ & Ee & _)].
  - exact IH.
  - rewrite Ee in *. cbn [overflow stored] in *. destruct (decode_stub _) as [[[p total] f]|]; [|by destruct Hret].
    apply wp_bind. eapply wp_conseq; [exact Hret|]. intros x a' [-> ->]. cbn [okq].
    apply wp_bind. eapply wp_conseq; [exact IH|]. intros x a' [-> ->]. done.
Qed.

Definition next_or (next : option Z) (child : Z) : option Z :=
  match next with Some n => Some n | None => Some child end.

Definition first_child (n : inner) : Z := match i_seps n with (_, c) :: _ => c | [] => i_rm n end.

Lemma inner_at ups lvl g l1 n l2 root :
  Forall inner_ok lvl -> stacked ups (ispan <$> lvl) root -> page_id_ok root ->
  has g (inners_fp lvl None) -> lvl = l1 ++ n :: l2 ->
  g !! i_id n = Some (inner_page (first_id i_id l2 None) n) /\
  inner_reads (inner_page (first_id i_id l2 None) n) (first_id i_id l2 None) n.
Proof.
  intros Hok Hst Hr Hg ->. pose proof (stacked_spans _ _ _ Hst Hr) as Hspans.
  rewrite Forall_app, Forall_cons in Hok. destruct Hok as (_ & Hn & _).
  rewrite fmap_app, fmap_cons, Forall_app, Forall_cons in Hspans. destruct Hspans as (_ & Hsn & Hs2).
  split; [apply Hg, (level_fp_at i_id inner_page)|]. apply inner_page_reads; [done|done|]. apply first_id_ok.
  rewrite Forall_fmap in Hs2. eapply Forall_impl; [exact Hs2|]. by intros m [? _].
Qed.

Lemma level_pages_inner a I ups root lvl l1 n l2 next out fuel :
  Forall inner_ok lvl -> stacked ups (ispan <$> lvl) root -> page_id_ok root ->
  has (a_pages a) (inners_fp lvl None) -> lvl = l1 ++ n :: l2 -> length (n :: l2) <= fuel ->
  wp (level_pages fuel (i_id n) next out) a I
    (okq (fun x a' => a' = a /\ x = (next_or next (first_child n), out ++ (i_id <$> n :: l2)))).
Proof.
  intros Hok Hst Hr Hg. revert l1 n next out fuel.
  induction l2 as [|n' l2 IH]; intros l1 n next out fuel E Hf; (destruct fuel as [|fuel]; [cbn in Hf; lia|]);
    destruct (inner_at _ _ _ _ _ _ _ Hok Hst Hr Hg E) as [Hp Hrd];
    destruct (leftmost_child_spec _ _ _ Hrd) as (lo & hi & rest & Hc & _); destruct Hrd as [R1 R2 R3 R4 R5 R6];
    cbn [level_pages]; (apply wp_bind; eapply wp_read; [exact Hp|]);
    (apply wp_bind; eapply wp_lift; [exact R3|]); cbn beta iota; (apply wp_bind; apply wp_ret);
    apply wp_bind; (eapply (wp_conseq _ _ _ (fun x a' => a' = a /\ x = next_or next (first_child n)));
      [destruct next; [by apply wp_ret|]; apply wp_bind; eapply wp_lift; [exact Hc|by apply wp_ret]|]);
    intros x a' [-> ->]; cbn [okq]; (apply wp_bind; eapply wp_lift; [exact R2|]); cbn [first_id].
  - by apply wp_ret.
  - rewrite (cons_middle n l1), (assoc_L (++)) in E.
    eapply wp_conseq; [apply (IH (l1 ++ [n]) n'); [done|cbn in *; lia]|].
    intros x a' [-> ->]. split; [done|]. rewrite fmap_cons, <- (assoc_L (++)). by destruct next.
Qed.

Definition leaf_pages (l : leaf) : list Z := l_id l :: concat (r_chain <$> l_rows l).

Lemma level_pages_leaves t a I l1 l l2 out fuel :
  stands_for a t -> t_leaves t = l1 ++ l :: l2 -> length (l :: l2) <= fuel ->
  wp (level_pages fuel (l_id l) None out) a I
    (okq (fun x a' => a' = a /\ x = (None, out ++ concat (leaf_pages <$> l :: l2)))).
Proof.
  intros Hsf. revert l1 l out fuel.
  induction l2 as [|l' l2 IH]; intros l1 l out fuel E Hf; (destruct fuel as [|fuel]; [cbn in Hf; lia|]);
    destruct (leaf_node t a l1 l _ Hsf E) as (Hl & _ & _ & Hp & [_ R2 R3 R4 _]);
    cbn [level_pages]; (apply wp_bind; eapply wp_read; [exact Hp|]);
    (apply wp_bind; eapply wp_lift; [exact R3|]); cbn beta iota; apply wp_bind, wp_bind;
    (eapply wp_lift; [exact R4|]); apply wp_bind;
    (eapply wp_conseq; [apply stub_pages_spec; [apply Hl|]|]);
    try (intros i p Hi; apply (sf_has _ _ Hsf); unfold footprint; rewrite (around_all t l1 l _ E), !rows_fp_app, !elem_of_app;
         by auto 8);
    intros x a' [-> ->]; cbn [okq]; apply wp_ret, wp_bind, wp_ret, wp_bind; (eapply wp_lift; [exact R2|]); cbn [first_id].
  - apply wp_ret. split; [done|]. unfold leaf_pages. cbn. by rewrite app_nil_r, <- (assoc_L (++)).
  - rewrite (cons_middle l l1), (assoc_L (++)) in E.
    eapply wp_conseq; [apply (IH (l1 ++ [l]) l'); [done|cbn in *; lia]|].
    intros x a' [-> ->]. split; [done|]. rewrite fmap_cons. cbn [concat]. unfold leaf_pages at 2.
    by rewrite <- !(assoc_L (++)).
Qed.

(** The interior levels, from the root down. *)
Lemma pages_down a I ups below root levels fuel out (Q : list Z -> ast -> Prop) :
  stacked ups below root -> page_id_ok root -> has (a_pages a) (ups_fp ups) ->
  Forall (fun lvl => length lvl <= fuel) ups ->
  (forall id lo hi rest out', below = (id, lo, hi) :: rest -> Permutation out' (out ++ (ups_fp ups).*1) ->
     wp (pages_loop levels fuel (Some id) out') a I (okq Q)) ->
  wp (pages_loop (length ups + levels) fuel (Some root) out) a I (okq Q).
Proof.
  revert below levels. induction ups as [|lvl ups IH]; intros below levels Hst Hr Hg Hf HQ.
  - cbn in Hst. eapply HQ; [done|]. by rewrite app_nil_r.
  - destruct Hst as (<- & Hok & Hst). rewrite ups_fp_cons, has_app in Hg. destruct Hg as [Hg1 Hg2].
    apply Forall_cons in Hf as [Hf1 Hf2].
    cbn [length]. replace (S (length ups) + levels) with (length ups + S levels) by lia.
    apply (IH (ispan <$> lvl)); [done|done|done|done|]. intros id lo hi rest out' Hsp Hperm.
    apply fmap_cons_inv in Hsp as (n & l2 & E & -> & ->). injection E as -> _ _.
    cbn [pages_loop]. apply wp_bind.
    eapply wp_conseq; [apply (level_pages_inner a I ups root (n :: l2) [] n l2); try done|].
    intros x a' [-> ->]. cbn [okq next_or].
    destruct (inner_at _ _ _ [] _ _ _ Hok Hst Hr Hg1 eq_refl) as [_ Hrd].
    destruct (leftmost_child_spec _ _ _ Hrd) as (lo' & hi' & rest' & _ & Hs). fold (first_child n) in Hs.
    eapply (HQ _ lo' hi'); [by cbn; rewrite Hs|].
    rewrite Hperm, ups_fp_cons, fmap_app, level_fp_ids, <- (assoc_L (++)). apply Permutation_app_head, Permutation_app_comm.
Qed.

Lemma leaf_pages_all ls : Forall leaf_ok ls ->
  Permutation (concat (leaf_pages <$> ls)) ((l_id <$> ls) ++ (rows_fp (concat (l_rows <$> ls))).*1).
Proof.
  induction 1 as [|l ls Hl _ IH]; [done|]. cbn [fmap list_fmap concat]. rewrite IH, rows_fp_app, fmap_app. constructor.
  replace (rows_fp (l_rows l)).*1 with (concat (r_chain <$> l_rows l)); [solve_Permutation|].
  induction (lo_rows _ Hl) as [|r rs Hr _ IH2]; [done|].
  change (rows_fp (r :: rs)) with (row_fp r ++ rows_fp rs). cbn. by rewrite fmap_app, IH2, row_fp_ids.
Qed.

Lemma level_sizes ups below root :
  stacked ups below root ->
  length ups <= length (ups_fp ups) /\ Forall (fun lvl => length lvl <= length (ups_fp ups)) ups.
Proof.
  revert below. induction ups as [|lvl ups IH]; intros below Hst; [done|].
  destruct Hst as (_ & _ & Hst). pose proof (stacked_contig _ _ _ Hst) as Hc. destruct (IH _ Hst) as [IH1 IH2].
  rewrite ups_fp_cons, length_app.
  assert (length (inners_fp lvl None) = length lvl) as El.
  { rewrite <- (length_fmap fst), level_fp_ids. apply length_fmap. }
  rewrite El. destruct lvl as [|n lvl]; [done|]. cbn [length]. split; [lia|]. constructor; [cbn; lia|].
  eapply Forall_impl; [exact IH2|]. cbn. lia.
Qed.

Lemma pages_spec t a I fuel :
  stands_for a t -> length (footprint t) <= fuel ->
  wp (pages fuel) a I (okq (fun out a' => a' = a /\ Permutation out (footprint t).*1)).
Proof.
  intros Hsf Hf. pose proof Hsf as [[Hst Hr Hlv _] Hg]. unfold pages. apply wp_bind, wp_get_root.
  unfold footprint in Hf, Hg. rewrite !has_app in Hg. destruct Hg as (_ & Hg & _).
  rewrite !length_app in Hf. destruct (level_sizes _ _ _ Hst) as [Hup Hlvls].
  assert (length (leaves_fp (t_leaves t) None) = length (t_leaves t)) as El.
  { rewrite <- (length_fmap fst), level_fp_ids. apply length_fmap. }
  rewrite El in Hf. assert (exists l ls, t_leaves t = l :: ls) as (l & ls & E).
  { pose proof (stacked_contig _ _ _ Hst) as Hc. destruct (t_leaves t) as [|l ls]; [done|eauto]. }
  replace fuel with (length (t_ups t) + S (fuel - length (t_ups t) - 1)) at 1 by (rewrite E in Hf; cbn in Hf; lia).
  eapply pages_down; [done|done|done|eapply Forall_impl; [exact Hlvls|]; cbn; lia|].
  intros id lo hi rest out Hsp Hperm. rewrite E in Hsp. cbn in Hsp. injection Hsp as <- _ _ _.
  cbn [pages_loop]. apply wp_bind.
  eapply wp_conseq; [apply (level_pages_leaves t a I [] l ls); [done|done|rewrite E in Hf; cbn in *; lia]|].
  intros x a' [-> ->]. cbn [okq]. destruct (fuel - length (t_ups t) - 1); apply wp_ret; (split; [done|]);
    rewrite Hperm, <- E, leaf_pages_all by done; unfold footprint; rewrite !fmap_app, level_fp_ids; cbn [app];
    unfold all_rows; solve_Permutation.
Qed.
