(* ===== verification/TreeThm.v ===== *)
(** * What the clustered tree guarantees

    On any store that meets the contract of the port, the tree answers as a
    finite map from keys to values does; its pages are its own; what an update
    retires can be given back. Where the code falls short of that, a run shows
    it. *)

From S2P Require Import Prelude Core Store Node NodeFacts Tree TreeInv TreeRead TreeChain TreeOps TreePages.
From stdpp Require Import base gmap list sets sorting strings.
From Stdlib Require Import ZArith Lia Strings.Byte.

Import ClusteredTree.

(** ** Requests and the map's answers *)

Inductive request :=
| RGet (k : Z) | RInsert (k : Z) (v : bytes) | RUpdate (k : Z) (v : bytes) | RDelete (k : Z)
| RPrefix (k : Z) (p : bytes) | RScan | RScanFrom (start : Z) (limit : nat).

Inductive reply := Unit | Found (o : option bytes) | Removed (b : bool) | Rows (l : list (Z * bytes)).

(** A visitor that stops once it has [limit] rows. *)
Definition up_to (limit : nat) (out : list (Z * bytes)) (k : Z) (v : bytes) : prog (list (Z * bytes) * bool) :=
  let out := out ++ [(k, v)] in pret (out, bool_decide (length out < limit)).

Definition perform (fuel : nat) (q : request) : prog reply :=
  match q with
  | RGet k => let! o := get fuel k in pret (Found o)
  | RInsert k v => let! _ := insert fuel k v in pret Unit
  | RUpdate k v => let! _ := update fuel k v in pret Unit
  | RDelete k => let! o := delete fuel k in pret (Removed (bool_decide (is_Some o)))
  | RPrefix k p => let! _ := update_prefix fuel k p in pret Unit
  | RScan => let! l := scan fuel in pret (Rows l)
  | RScanFrom start limit => let! l := scan_from_with fuel start (up_to limit) [] in pret (Rows l)
  end.

(** The rows of a map in key order. *)
Definition listing (m : gmap Z bytes) (l : list (Z * bytes)) : Prop := sorted_keys l.*1 /\ list_to_map l = m.

(** What a map answers, and the map after it. *)
Definition serves (q : request) (m : gmap Z bytes) (r : result reply) (m' : gmap Z bytes) : Prop :=
  match q with
  | RGet k => r = Ok (Found (m !! k)) /\ m' = m
  | RInsert k v =>
      if m !! k then r = Err (corrupt "duplicate row-id insert") /\ m' = m
      else if decide (MAX_CHAINED < Z.of_nat (length v))%Z then r = Err (tuple_too_large (length v)) /\ m' = m
      else r = Ok Unit /\ m' = <[k := v]> m
  | RUpdate k v =>
      if m !! k then
        if decide (MAX_CHAINED < Z.of_nat (length v))%Z then r = Err (tuple_too_large (length v)) /\ m' = m
        else r = Ok Unit /\ m' = <[k := v]> m
      else r = Err (corrupt "update of a missing row-id") /\ m' = m
  | RDelete k => r = Ok (Removed (bool_decide (is_Some (m !! k)))) /\ m' = base.delete k m
  | RPrefix k p =>
      match prefix_refusal m k p with
      | Some msg => r = Err (corrupt msg) /\ m' = m
      | None => exists old, m !! k = Some old /\ r = Ok Unit /\ m' = <[k := splice old 0 p]> m
      end
  | RScan => exists l, listing m l /\ r = Ok (Rows l) /\ m' = m
  | RScanFrom start limit => exists l, listing m l /\ m' = m /\
      r = Ok (Rows (take (Nat.max 1 limit) (filter (fun kv => start <= kv.1)%Z l)))
  end.

Definition request_ok (t : tree) (q : request) : Prop :=
  match q with
  | RGet k | RDelete k | RPrefix k _ | RScanFrom k _ => (0 <= k < INF_KEY)%Z
  | RInsert k v | RUpdate k v => (0 <= k < INF_KEY)%Z /\ roomy t k v
  | RScan => True
  end.

(** ** Serving a request *)

Lemma became_refl t a : stands_for a t -> became t a t a.
Proof. intros H. split; [done|by left|done]. Qed.

Section Serve.
Context (t : tree) (a : ast) (fuel : nat).
Context (Hsf : stands_for a t) (Hfuel : 2 + length (t_ups t) + length (t_leaves t) <= fuel).

Definition served (q : request) (r : result reply) (a' : ast) : Prop :=
  exists t', became t a t' a' /\ serves q (rows_of t) r (rows_of t').

Lemma served_same q r : serves q (rows_of t) r (rows_of t) -> served q r a.
Proof using Hsf. intros H. exists t. split; [by apply became_refl|done]. Qed.

Lemma wp_refused {A} (m : prog A) (f : A -> prog reply) q e :
  wp m a anyway (fun r a' => a' = a /\ r = Err e) -> serves q (rows_of t) (Err e) (rows_of t) ->
  wp (pbind m f) a anyway (served q).
Proof using Hsf. intros Hm Hs. eapply wp_bind_fail; [exact Hm|]. by apply served_same. Qed.

Lemma listing_contents : listing (rows_of t) (contents t).
Proof using Hsf. split; [by eapply contents_sorted, Hsf|done]. Qed.

Lemma fold_up_to limit out rs :
  length out < limit \/ out = [] ->
  (fold_until (fun out r => let out := out ++ [(r_key r, r_val r)] in (out, bool_decide (length out < limit))) out rs).1
  = out ++ take (Nat.max 1 limit - length out) ((fun r => (r_key r, r_val r)) <$> rs).
Proof.
  revert out. induction rs as [|r rs IH]; intros out Hout; cbn [fold_until fmap list_fmap fst].
  - by rewrite take_nil, app_nil_r.
  - cbn zeta. assert (length (out ++ [(r_key r, r_val r)]) = S (length out)) as El by (rewrite length_app; cbn; lia).
    case_bool_decide as Hd.
    + rewrite IH by auto. rewrite El, <- (assoc_L (++)) in *. cbn [app].
      replace (Nat.max 1 limit - length out) with (S (Nat.max 1 limit - S (length out))) by lia. done.
    + cbn [fst]. rewrite El in Hd. assert (Nat.max 1 limit - length out = 1) as -> by (destruct Hout as [?| ->]; cbn in *; lia).
      cbn [take firstn]. by rewrite take_0.
Qed.

Lemma filter_from start (rs : list row) :
  filter (fun kv => start <= kv.1)%Z ((fun r => (r_key r, r_val r)) <$> rs) =
  (fun r => (r_key r, r_val r)) <$> filter (fun r => start <= r_key r)%Z rs.
Proof.
  induction rs as [|r rs IH]; [done|]. rewrite fmap_cons, !filter_cons. cbn [fst].
  destruct (decide (start <= r_key r)%Z); [|done]. by rewrite fmap_cons, IH.
Qed.

Lemma serve_scan_from start limit :
  (0 <= start < INF_KEY)%Z -> wp (perform fuel (RScanFrom start limit)) a anyway (served (RScanFrom start limit)).
Proof using Hsf Hfuel.
  intros Hk. cbn [perform]. apply wp_bind. unfold scan_from_with.
  eapply wp_conseq; [apply (scan_from_stored_spec _
    (fun out r => let out := out ++ [(r_key r, r_val r)] in (out, bool_decide (length out < limit))) t a anyway Hsf)|].
  - intros out r Hr. assert (row_ok r) as Hok by (eapply Forall_forall; [eapply all_rows_ok, Hsf|done]).
    pose proof (materialize_row r a anyway Hok (row_pages _ _ _ Hsf Hr)) as Hm. unfold materialize_stored in Hm.
    rewrite key_entry_of. destruct (overflow (entry_of r)).
    + apply wp_bind. eapply wp_conseq; [exact Hm|]. by intros v a' [-> ->].
    + destruct Hm as [_ Hm]. cbn. by rewrite Hm.
  - exact Hk.
  - lia.
  - intros x a' [-> ->]. cbn [okq]. apply served_same. exists (contents t). split; [apply listing_contents|].
    split; [done|]. rewrite fold_up_to by auto. cbn [app length]. rewrite Nat.sub_0_r. do 2 f_equal.
    unfold contents. by rewrite filter_from.
Qed.

Lemma serve q : request_ok t q -> wp (perform fuel q) a anyway (served q).
Proof using Hsf Hfuel.
  intros Hq. destruct q as [k|k v|k v|k|k p| |start limit]; [| | | | | |by apply serve_scan_from]; cbn [perform request_ok] in *.
  - apply wp_bind. eapply wp_conseq; [apply (get_spec t); [done|done|lia]|]. intros x a' [-> ->]. by apply served_same.
  - destruct Hq as [Hk Hroom]. destruct (rows_of t !! k) as [old|] eqn:Hold.
    { eapply wp_refused; [eapply insert_duplicate; [done|done|done|lia]|]. cbn [serves]. by rewrite Hold. }
    destruct (decide (MAX_CHAINED < Z.of_nat (length v))%Z) as [Hl|Hl].
    { eapply wp_refused; [eapply insert_large; [done|done|done|done|lia]|]. cbn [serves]. by rewrite Hold, decide_True. }
    apply wp_bind. eapply wp_conseq; [eapply (insert_spec t); try done; lia|].
    intros u a' (t' & Hb & Hm). cbn [okq]. exists t'. split; [done|]. cbn [serves]. by rewrite Hold, decide_False.
  - destruct Hq as [Hk Hroom]. destruct (rows_of t !! k) as [old|] eqn:Hold.
    2: { eapply wp_refused; [eapply update_missing; [done|done|done|lia]|]. cbn [serves]. by rewrite Hold. }
    destruct (decide (MAX_CHAINED < Z.of_nat (length v))%Z) as [Hl|Hl].
    { eapply wp_refused; [eapply update_large; [done|done|done|done|lia]|]. cbn [serves]. by rewrite Hold, decide_True. }
    apply wp_bind. eapply wp_conseq; [eapply (update_spec t); try done; lia|].
    intros u a' (t' & Hb & Hm & _). cbn [okq]. exists t'. split; [done|]. cbn [serves]. by rewrite Hold, decide_False.
  - destruct (rows_of t !! k) as [old|] eqn:Hold; apply wp_bind.
    + eapply wp_conseq; [eapply (delete_spec t); try done; lia|].
      intros u a' (t' & Hb & Hm & r & _ & _ & -> & _). cbn [okq]. exists t'. split; [done|]. cbn [serves].
      by rewrite Hold, !bool_decide_eq_true_2.
    + eapply wp_mono; [eapply (delete_missing t); try done; lia|]. intros r a' [-> ->]. cbn [okq].
      apply served_same. cbn [serves]. rewrite Hold, !bool_decide_eq_false_2 by (by intros []).
      split; [done|]. by rewrite delete_id.
  - destruct (prefix_refusal (rows_of t) k p) as [msg|] eqn:Href.
    { eapply wp_refused; [eapply update_prefix_refused; [done|done|done|lia]|]. cbn [serves]. by rewrite Href. }
    unfold prefix_refusal in Href. destruct (rows_of t !! k) as [old|] eqn:Hold; [|done].
    destruct (decide (MAX_TUPLE < length old /\ _)) as [|Hn]; [done|]. destruct (decide (length p <= length old)); [|done].
    apply wp_bind. eapply wp_conseq; [eapply (update_prefix_spec t); try done; lia|].
    intros u a' (t' & Hb & Hm). cbn [okq]. exists t'. split; [done|]. cbn [serves].
    unfold prefix_refusal. rewrite Hold, decide_False, decide_True by done. by exists old.
  - apply wp_bind. eapply wp_conseq; [eapply (scan_spec t); [done|lia]|]. intros x a' [-> ->].
    apply served_same. exists (contents t). split; [apply listing_contents|done].
Qed.
End Serve.

(** ** Giving pages back *)

Definition without (g : gmap Z Page) (ids : list Z) : gmap Z Page := foldl (fun g id => base.delete id g) g ids.

Lemma without_in g ids id : id ∈ ids \/ g !! id = None -> without g ids !! id = None.
Proof.
  revert g. induction ids as [|i ids IH]; intros g Hin; cbn.
  - destruct Hin as [?%elem_of_nil|?]; done.
  - apply IH. destruct Hin as [[->|?]%elem_of_cons|Hn]; [right; apply lookup_delete_eq|by left|right].
    destruct (decide (i = id)) as [->|]; [apply lookup_delete_eq|by rewrite lookup_delete_ne].
Qed.

Lemma without_out g ids id : id ∉ ids -> without g ids !! id = g !! id.
Proof.
  revert g. induction ids as [|i ids IH]; intros g Hn; cbn; [done|].
  apply not_elem_of_cons in Hn as [? ?]. by rewrite IH, lookup_delete_ne.
Qed.

Lemma discard_spec {A} ids (m : prog A) a I Q :
  NoDup ids -> (forall id, id ∈ ids -> is_Some (a_pages a !! id)) -> (forall a, I a) ->
  wp m (Ast (without (a_pages a) ids) (a_root a)) I Q -> wp (discard_pages ids m) a I Q.
Proof.
  intros Hnd Hlive HI. revert a Hlive. induction Hnd as [|id ids Hid _ IH]; intros a Hlive Hm; [by destruct a|].
  cbn. split_and!; [apply Hlive; left|apply HI|]. apply IH; [|exact Hm].
  intros i Hi. cbn. rewrite lookup_delete_ne by (by intros ->). apply Hlive. by right.
Qed.

Lemma stands_without a t ids :
  stands_for a t -> (forall id, id ∈ ids -> id ∉ (footprint t).*1) ->
  stands_for (Ast (without (a_pages a) ids) (a_root a)) t.
Proof.
  intros [Hok Hg] Hn. split; [done|]. intros id p Hin. cbn. rewrite without_out; [by apply Hg|].
  intros Hid. apply (Hn id Hid), list_elem_of_fmap. by exists (id, p).
Qed.

Lemma chain_nodup a t r : stands_for a t -> r ∈ all_rows t -> NoDup (r_chain r).
Proof.
  intros Hsf Hr. assert (row_ok r) as Hok by (eapply Forall_forall; [eapply all_rows_ok, Hsf|done]).
  rewrite <- row_fp_ids by done. pose proof (tk_nodup _ _ (sf_ok _ _ Hsf)) as Hnd. unfold footprint in Hnd.
  rewrite !fmap_app in Hnd. do 2 apply NoDup_app in Hnd as (_ & _ & Hnd).
  apply list_elem_of_split in Hr as (P & Q & Er). rewrite Er in Hnd. rewrite rows_fp_app, fmap_app in Hnd.
  apply NoDup_app in Hnd as (_ & _ & Hnd). change (rows_fp (r :: Q)) with (row_fp r ++ rows_fp Q) in Hnd.
  rewrite fmap_app in Hnd. by apply NoDup_app in Hnd as (? & _).
Qed.

Definition reclaimed (t : tree) (k : Z) (v : bytes) (r : result (list Z)) (a' : ast) : Prop :=
  match r with
  | Ok retired => exists t', stands_for a' t' /\ rows_of t' = <[k := v]> (rows_of t) /\
      (exists r, r ∈ all_rows t /\ r_key r = k /\ retired = r_chain r) /\
      forall id, id ∈ retired -> a_pages a' !! id = None
  | _ => False
  end.

Lemma update_reclaim_spec t a k v old fuel :
  stands_for a t -> (0 <= k < INF_KEY)%Z -> (Z.of_nat (length v) <= MAX_CHAINED)%Z ->
  rows_of t !! k = Some old -> roomy t k v -> 2 + length (t_ups t) <= fuel ->
  wp (let! retired := update fuel k v in discard_pages retired (pret retired)) a anyway (reclaimed t k v).
Proof.
  intros Hsf Hk Hv Hold Hroom Hf. apply wp_bind. eapply wp_conseq; [eapply (update_spec t); try done; lia|].
  intros retired a' (t' & [Hb _ _] & Hm & r & Hr & Hrk & -> & Hret). cbn [okq].
  apply discard_spec; [by apply (chain_nodup a t)|by apply Hret|done|]. exists t'. split_and!.
  - apply stands_without; [done|]. intros id Hid. by apply Hret.
  - done.
  - by exists r.
  - intros id Hid. apply without_in. by left.
Qed.

(** ** The theorems *)

Section Claims.
Context {S : Type} `{StoreLaws S}.


(** A new tree is empty: [create] allocates one page, makes it the root,
    and the tree stands for the empty map; every page of the store is kept. *)
Theorem create_empty s g root :
  rep s g ->
  exhausted (w_store (snd (run create (World s root)))) \/
  exists s' g' id, run create (World s root) = (Ok tt, World s' id) /\ rep s' g' /\ g !! id = None /\
    stands_for (Ast g' id) (empty_tree id) /\ rows_of (empty_tree id) = ∅ /\ g ⊆ g'.
Proof.
  intros Hrep. destruct (run_sound _ _ _ s g root Hrep (create_spec (Ast g root))) as [?|Hr]; [by left|right].
  destruct Hr as ([[]| | |] & s' & g' & root' & Hrun & Hrep' & Hok); try done.
  destruct Hok as (id & Hn & Hsf & Hkeep). assert (root' = id) as ->.
  { pose proof (tk_stacked _ _ (sf_ok _ _ Hsf)) as Hst. by injection Hst as ->. }
  exists s', g', id. split_and!; try done. apply map_subseteq_spec. exact Hkeep.
Qed.

(** What an update retires can be given back: after freeing the pages
    [update] returns, the tree still stands for the updated map and none of
    those pages is allocated; nothing the tree needs was among them. *)
Theorem update_reclaims s g root t k v old fuel :
  rep s g -> stands_for (Ast g root) t -> (0 <= k < INF_KEY)%Z -> (Z.of_nat (length v) <= MAX_CHAINED)%Z ->
  rows_of t !! k = Some old -> roomy t k v -> 2 + length (t_ups t) <= fuel ->
  let m := (let! retired := update fuel k v in discard_pages retired (pret retired)) in
  exhausted (w_store (snd (run m (World s root)))) \/
  exists retired s' g' root' t', run m (World s root) = (Ok retired, World s' root') /\ rep s' g' /\
    stands_for (Ast g' root') t' /\ rows_of t' = <[k := v]> (rows_of t) /\
    (exists r, r ∈ all_rows t /\ r_key r = k /\ retired = r_chain r) /\
    forall id, id ∈ retired -> g' !! id = None.
Proof.
  intros Hrep Hsf Hk Hv Hold Hroom Hf m. destruct (run_sound m anyway (reclaimed t k v) s g root Hrep) as [?|Hr];
    [by eapply update_reclaim_spec| |right]; [by left|].
  destruct Hr as ([retired| | |] & s' & g' & root' & Hrun & Hrep' & Hok); try done.
  destruct Hok as (t' & Hsf' & Hm & Hret & Hgone). by exists retired, s', g', root', t'.
Qed.

(** [pages] lists every page of the tree exactly once: the nodes of every
    level and the chain of every long row, and nothing else. *)
Theorem pages_exact s g root t fuel :
  rep s g -> stands_for (Ast g root) t -> length (footprint t) <= fuel ->
  exhausted (w_store (snd (run (pages fuel) (World s root)))) \/
  exists out s', run (pages fuel) (World s root) = (Ok out, World s' root) /\ rep s' g /\
    NoDup out /\ forall id, id ∈ out <-> id ∈ (footprint t).*1.
Proof.
  intros Hrep Hsf Hf.
  destruct (run_sound _ anyway _ s g root Hrep (pages_spec t _ _ fuel Hsf Hf)) as [?|Hr]; [by left|right].
  destruct Hr as ([out| | |] & s' & g' & root' & Hrun & Hrep' & Hok); try done. destruct Hok as [E Hp].
  injection E as -> ->. exists out, s'. split_and!; [done|done| |].
  - rewrite Hp. apply Hsf.
  - intros id. by rewrite Hp.
Qed.
End Claims.

(** ** A tree with one long row *)

Definition fill (n : nat) (b : byte) : bytes := repeat b n.

Definition long_row : row := MkRow 5 (fill 9000 x01) [1; 2]%Z.
Definition long_tree : tree := MkTree [MkLeaf 0 0 INF_KEY [long_row]] [].
Definition long_store : MemPageStore.t := MemPageStore.Mk (footprint long_tree).*2 [].
Definition long_pages : gmap Z Page := list_to_map (footprint long_tree).

Lemma long_row_ok : row_ok long_row.
Proof.
  split; [done|by apply Z.leb_le; vm_compute|by vm_compute|].
  repeat constructor; by vm_compute.
Qed.

Lemma long_tree_ok : tree_ok long_tree 0.
Proof.
  split; [done|by vm_compute| |].
  - apply Forall_singleton. split.
    + apply Forall_singleton, long_row_ok.
    + by repeat constructor.
    + by repeat constructor.
    + apply Nat.leb_le. by vm_compute.
  - apply (bool_decide_unpack _). by vm_compute.
Qed.

Lemma long_stands : stands_for (Ast long_pages 0) long_tree.
Proof.
  split; [exact long_tree_ok|]. intros id p Hin. by apply elem_of_list_to_map; [apply long_tree_ok|].
Qed.

Lemma mem_pages ps g :
  (forall id p, g !! id = Some p <-> MemPageStore.slot (MemPageStore.Mk ps []) id = Some p) ->
  Forall (fun p => length p = PAGE_SIZE) ps -> MemLaws.mem_rep (MemPageStore.Mk ps []) g.
Proof.
  intros Hg Hsz. split; cbn.
  - intros id p. rewrite Hg. split; [intros ->|by intros [? _]]. split; [done|apply not_elem_of_nil].
  - by intros id ?%elem_of_nil.
  - constructor.
  - intros id p Hs. unfold MemPageStore.slot in Hs. destruct (id <? 0)%Z; [done|].
    by eapply Forall_lookup_1 in Hsz.
Qed.

Lemma slot_numbered (l : list (Z * Page)) id p n :
  l.*1 = Z.of_nat <$> seq n (length l) -> (Z.of_nat n <= id)%Z -> (id, p) ∈ l <-> l.*2 !! (Z.to_nat id - n) = Some p.
Proof.
  revert n. induction l as [|[i q] l IH]; intros n E Hid.
  - cbn. split; [by intros ?%elem_of_nil|done].
  - cbn in E. injection E as -> E. rewrite elem_of_cons. destruct (decide (id = Z.of_nat n)) as [->|Hne].
    + rewrite Nat2Z.id, Nat.sub_diag. cbn. split; [|intros [= ->]; by left].
      intros [[= ->]|Hin]; [done|]. exfalso.
      assert (Z.of_nat n ∈ l.*1) as Hn by (apply list_elem_of_fmap; by exists (Z.of_nat n, p)).
      rewrite E in Hn. apply list_elem_of_fmap in Hn as (m & Hm & Hin'). apply elem_of_seq in Hin'. lia.
    + replace (Z.to_nat id - n) with (S (Z.to_nat id - S n)) by lia. cbn. rewrite <- (IH (S n)) by (done || lia).
      split; [intros [[= ? ?]|?]; [congruence|done]|by right].
Qed.

Lemma mem_numbered (l : list (Z * Page)) :
  l.*1 = Z.of_nat <$> seq 0 (length l) -> NoDup l.*1 -> Forall (fun p => length p = PAGE_SIZE) l.*2 ->
  MemLaws.mem_rep (MemPageStore.Mk l.*2 []) (list_to_map l).
Proof.
  intros E Hnd Hsz. apply mem_pages; [|done]. intros id p. rewrite <- elem_of_list_to_map by done.
  unfold MemPageStore.slot. cbn [MemPageStore.pages]. destruct (Z.ltb_spec id 0) as [Hneg|Hpos].
  - split; [|done]. intros Hin. assert (id ∈ l.*1) as Hn by (apply list_elem_of_fmap; by exists (id, p)).
    rewrite E in Hn. apply list_elem_of_fmap in Hn as (m & -> & _). lia.
  - rewrite (slot_numbered l id p 0) by (done || lia). by rewrite Nat.sub_0_r.
Qed.

Lemma long_rep : rep long_store long_pages.
Proof.
  apply mem_numbered; [by vm_compute|apply long_tree_ok|]. apply (bool_decide_unpack _). by vm_compute.
Qed.

(** ** Witnesses *)


Lemma create_empty_witness :
  exists s' g' id, run create (World MemPageStore.default 0) = (Ok tt, World s' id) /\ rep s' g' /\
    (∅ : gmap Z Page) !! id = None /\ stands_for (Ast g' id) (empty_tree id) /\ rows_of (empty_tree id) = ∅ /\ ∅ ⊆ g'.
Proof.
  destruct (create_empty MemPageStore.default ∅ 0) as [He|Hr].
  - exact MemLaws.mem_rep_default.
  - exfalso. revert He. apply Z.nle_gt, Z.ltb_lt. by vm_compute.
  - exact Hr.
Defined.

Lemma update_reclaims_witness :
  let m := (let! retired := update 10 5 [x02] in discard_pages retired (pret retired)) in
  exists retired s' g' root' t', run m (World long_store 0) = (Ok retired, World s' root') /\ rep s' g' /\
    stands_for (Ast g' root') t' /\ rows_of t' = <[5%Z := [x02]]> (rows_of long_tree) /\
    (exists r, r ∈ all_rows long_tree /\ r_key r = 5%Z /\ retired = r_chain r) /\
    forall id, id ∈ retired -> g' !! id = None.
Proof.
  destruct (update_reclaims long_store long_pages 0 long_tree 5 [x02] (fill 9000 x01) 10) as [He|Hr].
  - exact long_rep.
  - exact long_stands.
  - done.
  - done.
  - by vm_compute.
  - intros _. right. left. apply Nat.leb_le. by vm_compute.
  - cbn. lia.
  - exfalso. revert He. apply Z.nle_gt, Z.ltb_lt. by vm_compute.
  - exact Hr.
Defined.

Lemma pages_exact_witness :
  exists out s', run (pages 10) (World long_store 0) = (Ok out, World s' 0%Z) /\ rep s' long_pages /\
    NoDup out /\ forall id, id ∈ out <-> id ∈ (footprint long_tree).*1.
Proof.
  destruct (pages_exact long_store long_pages 0 long_tree 10) as [He|Hr].
  - exact long_rep.
  - exact long_stands.
  - apply Nat.leb_le. by vm_compute.
  - exfalso. revert He. apply Z.nle_gt, Z.ltb_lt. by vm_compute.
  - exact Hr.
Defined.

(** A root leaf with a long, a short and a long row. *)
Definition three_rows : prog unit :=
  let! _ := create in
  let! _ := insert 10 1 (fill 4000 x01) in
  let! _ := insert 10 2 (fill 10 x02) in
  insert 10 3 (fill 4000 x03).

