(* ===== verification/FormatThm.v ===== *)
(** * The on-page and on-row formats

    What is written to a leaf, an interior node, an overflow page, a stub or a
    row header is what is read back; what does not fit is refused and leaves
    the page as it was. *)

From S2P Require Import Prelude Core Node NodeFacts Mvcc.
From stdpp Require Import base list strings.
From Stdlib Require Import ZArith Lia Strings.Byte.

(** ** Nodes *)

(** A leaf built from scratch. *)
Definition build_leaf (page : Page) (link : option Z) (high : Z) (es : list Entry) : result (Page * bool) :=
  let? page := init_leaf page in
  let? page := set_right_link page link in
  let? page := set_high_key page high in
  write_leaf_entries page es.

Lemma build_leaf_bytes page link high es :
  length page = PAGE_SIZE -> leaf_fits es -> build_leaf page link high es = Ok (leaf_bytes link high es, true).
Proof.
  intros Hp Hf. unfold build_leaf. rewrite init_leaf_bytes by done. cbn [rbind].
  unfold leaf_bytes at 1. change NO_LINK with (link_val None). rewrite hdr_set_right_link. cbn [rbind].
  rewrite hdr_set_high_key. cbn [rbind]. apply write_leaf_ok; [|done]. unfold zeros. cbn. len.
Qed.

(** A leaf page reads back what was written to it: its kind, its right
    link, its high key and its entries in order, and a search finds exactly the
    entry with the key sought, whatever the page held before. Entries that do
    not fit are refused and the page is left as it was. *)
Theorem leaf_roundtrip page link high es :
  length page = PAGE_SIZE -> link_ok link -> u64 high -> Forall (fun e => u64 (key e)) es ->
  sorted_keys (key <$> es) ->
  (leaf_fits es -> exists page', build_leaf page link high es = Ok (page', true) /\ length page' = PAGE_SIZE /\
     is_leaf page' = Ok true /\ right_link page' = Ok link /\ high_key page' = Ok high /\
     leaf_entries page' = Ok es /\ forall k, leaf_find page' k = Ok (found (lookup_entry k es))) /\
  (~ leaf_fits es -> write_leaf_entries page es = Ok (page, false)).
Proof.
  intros Hp Hl Hh Hk Hs. split; [|by apply write_leaf_full]. intros Hf. exists (leaf_bytes link high es).
  split_and!; [by apply build_leaf_bytes|by apply length_leaf_bytes|done|by apply hdr_right_link|by apply hdr_high_key| |].
  - by apply leaf_bytes_entries.
  - intros k. by apply leaf_bytes_find.
Qed.

Definition build_interior (page : Page) (link : option Z) (high : Z) (seps : list (Z * Z)) (rm : Z)
    : result (Page * bool) :=
  let? page := init_interior page rm in
  let? page := set_right_link page link in
  let? page := set_high_key page high in
  write_interior_entries page seps.

(** An interior page reads back its separators, its rightmost child, its
    right link and its high key, and routes a key to the child of the first
    separator above it. 510 separators fit a page; more are refused. *)
Theorem interior_roundtrip page link high seps rm :
  length page = PAGE_SIZE -> link_ok link -> u64 high -> u64 rm -> Forall sep_ok seps ->
  (length seps <= 510 -> exists page', build_interior page link high seps rm = Ok (page', true) /\
     length page' = PAGE_SIZE /\ is_leaf page' = Ok false /\ right_link page' = Ok link /\
     high_key page' = Ok high /\ rightmost_child page' = Ok rm /\ interior_entries page' = Ok seps /\
     forall k, route page' k = Ok (pick_child k seps rm)) /\
  (510 < length seps -> write_interior_entries page seps = Ok (page, false)).
Proof.
  intros Hp Hl Hh Hr Hs. split.
  2: { intros Hn. apply write_interior_full. rewrite inner_fits_iff. lia. }
  intros Hf. apply inner_fits_iff in Hf. exists (inner_bytes link high seps rm).
  split_and!; [|by apply length_inner_bytes|done|by apply hdr_right_link| |by apply inner_rightmost| |].
  - unfold build_interior. rewrite init_interior_bytes by done. cbn [rbind].
    unfold inner_bytes at 1. change NO_LINK with (link_val None). rewrite hdr_set_right_link. cbn [rbind].
    rewrite hdr_set_high_key. cbn [rbind]. apply (write_interior_ok link high [] rm seps); [|done].
    apply inner_fits_iff. cbn. lia.
  - by apply hdr_high_key.
  - by apply inner_bytes_entries.
  - intros k. by apply inner_bytes_route.
Qed.

(** ** Overflow pages and stubs *)

(** A page of an overflow chain reads back its payload and its successor,
    and a stub its inline prefix, the value's length and the chain's first
    page. *)
Theorem overflow_roundtrip page payload next prefix total first :
  length page = PAGE_SIZE -> length payload <= OVERFLOW_PAYLOAD -> link_ok next ->
  length prefix = OVERFLOW_INLINE_PREFIX -> u32 total -> u64 first ->
  (exists page', init_overflow page payload next = Ok page' /\ length page' = PAGE_SIZE /\
     is_overflow page' = Ok true /\ overflow_next page' = Ok next /\ overflow_payload page' = Ok payload) /\
  length (encode_stub prefix total first) = OVERFLOW_STUB /\
  decode_stub (encode_stub prefix total first) = Some (prefix, Z.to_nat total, first).
Proof.
  intros Hp Hl Hn Hpre Ht Hf. split_and!; [|unfold encode_stub; len|by apply decode_encode_stub].
  exists (ovf_bytes payload next).
  split_and!; [by apply init_overflow_bytes|by apply length_ovf_bytes|done|by apply ovf_next|by apply ovf_payload].
Qed.

(** ** Row headers *)

(** The row codec is exact: decoding succeeds precisely on the encodings
    of a header with 64-bit fields, and gives that header and that tuple. *)
Theorem row_codec_exact value m tuple :
  decode_row value = Some (m, tuple) <-> value = encode_row m tuple /\ meta_ok m.
Proof.
  split; [apply decode_row_inv|]. intros [-> Hm]. by apply decode_encode_row.
Qed.

(** ** Clearing version links *)

(** The entry without its link to an older version. *)
Definition unlinked (e : Entry) : Entry :=
  if decide (META <= length (stored e))
  then MkEntry (key e) (splice (stored e) 16 (le_bytes 8 NO_UNDO)) (overflow e) else e.

Lemma unlinked_same e :
  key (unlinked e) = key e /\ overflow (unlinked e) = overflow e /\ length (stored (unlinked e)) = length (stored e).
Proof.
  unfold unlinked. case_decide as Hd; [|done]. cbn [key overflow stored]. split_and!; [done|done|].
  apply length_splice. unfold META in Hd. len.
Qed.

Lemma enc_unlinked e : enc_entry (unlinked e) =
  le_bytes 8 (key e) ++ le_bytes 2 (entry_len_field e) ++ stored (unlinked e).
Proof.
  destruct (unlinked_same e) as (E1 & E2 & E3). unfold enc_entry, entry_len_field. by rewrite E1, E2, E3.
Qed.

Lemma splice_inside {A} (x s y p : list A) n :
  n + length p <= length s -> splice (x ++ s ++ y) (length x + n) p = x ++ splice s n p ++ y.
Proof.
  intros H. unfold splice. rewrite <- Nat.add_assoc, take_app_add, drop_app_add.
  rewrite take_app_le, drop_app_le by lia. by rewrite <- !app_assoc.
Qed.

Lemma clear_links_enc es x y :
  Forall entry_ok es ->
  clear_links (x ++ enc_entries es ++ y) (length es) (length x) = Ok (x ++ enc_entries (unlinked <$> es) ++ y).
Proof.
  intros Hok. revert x. induction Hok as [|e es He Hok IH]; intros x; [done|].
  cbn [clear_links length]. change (enc_entries (e :: es)) with (enc_entry e ++ enc_entries es).
  change (enc_entries (unlinked <$> e :: es)) with (enc_entry (unlinked e) ++ enc_entries (unlinked <$> es)).
  rewrite <- (app_assoc (enc_entry e)), <- (app_assoc (enc_entry (unlinked e))).
  rewrite (entry_len_enc _ _ e (enc_entries es ++ y)) by (done || apply drop_app_length). cbn [rbind].
  assert ((if decide (24 <= length (stored e)) then _ else _) = (x ++ enc_entry (unlinked e)) ++ enc_entries es ++ y) as ->.
  2: { replace (length x + LEAF_ENTRY_HEADER + length (stored e)) with (length (x ++ enc_entry (unlinked e))).
       - rewrite IH. by rewrite <- app_assoc.
       - rewrite length_app, length_enc_entry. destruct (unlinked_same e) as (_ & _ & ->). lia. }
  rewrite enc_unlinked. unfold unlinked. change META with 24.
  destruct (decide (24 <= length (stored e))) as [Hd|Hd]; cbn [stored].
  - assert (length (x ++ enc_entry e ++ enc_entries es ++ y) >= length x + LEAF_ENTRY_HEADER + 24) as Hlen.
    { rewrite !length_app, length_enc_entry. lia. }
    unfold get_range. rewrite decide_True by lia.
    set (h := x ++ le_bytes 8 (key e) ++ le_bytes 2 (entry_len_field e)).
    replace (x ++ enc_entry e ++ enc_entries es ++ y) with (h ++ stored e ++ enc_entries es ++ y)
      by (unfold h, enc_entry; by rewrite <- !app_assoc).
    replace (length x + LEAF_ENTRY_HEADER + 16) with (length h + 16) by (unfold h; len).
    rewrite splice_inside by len. unfold h. by rewrite <- !app_assoc.
  - unfold enc_entry. by rewrite <- !app_assoc.
Qed.

Lemma unlinked_size es : entries_size (unlinked <$> es) = entries_size es.
Proof.
  induction es as [|e es IH]; [done|]. rewrite fmap_cons, !entries_size_cons, IH.
  by destruct (unlinked_same e) as (_ & _ & ->).
Qed.

(** What the header of a row becomes. *)
Lemma unlinked_row m tuple : splice (encode_row m tuple) 16 (le_bytes 8 NO_UNDO) =
  encode_row (MkMeta (xmin m) (xmax m) NO_UNDO) tuple.
Proof.
  unfold encode_row, splice. cbn [xmin xmax undo].
  rewrite (app_assoc (le_bytes 8 (xmin m))), take_app_length' by len.
  rewrite (app_assoc (_ ++ _) (le_bytes 8 (undo m))), drop_app_length' by len. by rewrite <- !app_assoc.
Qed.

(** Clearing the version links of a leaf keeps its keys, its links and
    the rows' creators, deleters and values, and makes every row the oldest
    version of itself: an entry that holds a row decodes to the same header but
    for its undo link, which is none. Other pages are left as they are. *)
Theorem clear_undo_links_exact page link high es :
  length page = PAGE_SIZE -> link_ok link -> u64 high -> Forall (fun e => u64 (key e)) es -> leaf_fits es ->
  (forall page', build_leaf page link high es = Ok (page', true) ->
   exists page'', clear_undo_links page' = Ok page'' /\ length page'' = PAGE_SIZE /\
     right_link page'' = Ok link /\ high_key page'' = Ok high /\ leaf_entries page'' = Ok (unlinked <$> es)) /\
  (forall e m tuple, decode_row (stored e) = Some (m, tuple) ->
   decode_row (stored (unlinked e)) = Some (MkMeta (xmin m) (xmax m) NO_UNDO, tuple)) /\
  (is_leaf page = Ok false -> clear_undo_links page = Ok page).
Proof.
  intros Hp Hl Hh Hk Hf. assert (leaf_fits (unlinked <$> es)) as Hf' by (unfold leaf_fits; by rewrite unlinked_size).
  split_and!.
  - intros page' E. rewrite build_leaf_bytes in E by done. injection E as <-.
    exists (leaf_bytes link high (unlinked <$> es)).
    split_and!; [|by apply length_leaf_bytes|by apply hdr_right_link|by apply hdr_high_key|].
    + unfold clear_undo_links. change (is_leaf (leaf_bytes link high es)) with (Ok (E:=Error) true). cbn [rbind].
      unfold leaf_bytes at 1. rewrite hdr_count by by apply leaf_fits_length. cbn [rbind].
      unfold leaf_bytes. rewrite unlinked_size, length_fmap.
      change LEAF_ENTRIES with 19. rewrite <- (length_hdr KIND_LEAF link high (length es)). apply clear_links_enc, leaf_fits_ok; done.
    + apply leaf_bytes_entries; [done|]. apply Forall_fmap. eapply Forall_impl; [exact Hk|].
      intros e He. cbn. by destruct (unlinked_same e) as (-> & _).
  - intros e m tuple Hd. apply decode_row_inv in Hd as [E Hm]. unfold unlinked. rewrite decide_True; cbn [stored].
    + rewrite E, unlinked_row. apply decode_encode_row. destruct Hm as (? & ? & _). split_and!; [done|done|by vm_compute].
    + rewrite E, length_encode_row. lia.
  - intros E. unfold clear_undo_links. by rewrite E.
Qed.

(** ** Visibility *)

(** What a snapshot sees of a row: following the undo chain from the leaf
    yields the newest version whose creator the snapshot sees, unless the
    snapshot sees its deleter, and nothing when there is none. The walk ends on
    every well-formed chain, with no bound other than the arena's size. *)
Theorem visible_tuple_resolves m tuple arena view ss vs :
  chain arena (undo m) ss vs -> visible_tuple m tuple arena view = Ok (resolve view (MkUndo m tuple :: vs)).
Proof. apply visible_tuple_chain. Qed.

(** ** Witnesses *)

Definition sample_entries : list Entry :=
  [MkEntry 3 (encode_row (MkMeta 7 0 4) [x01; x02]) false; MkEntry 9 [x05] false].

Lemma leaf_roundtrip_witness :
  exists page', build_leaf zero_page (Some 6%Z) 20 sample_entries = Ok (page', true) /\ length page' = PAGE_SIZE /\
     is_leaf page' = Ok true /\ right_link page' = Ok (Some 6%Z) /\ high_key page' = Ok 20%Z /\
     leaf_entries page' = Ok sample_entries /\
     forall k, leaf_find page' k = Ok (found (lookup_entry k sample_entries)).
Proof.
  destruct (leaf_roundtrip zero_page (Some 6%Z) 20 sample_entries) as [H _].
  - apply length_zero_page.
  - done.
  - done.
  - by repeat constructor.
  - by repeat constructor.
  - apply H. apply Nat.leb_le. by vm_compute.
Defined.

Lemma interior_roundtrip_witness :
  exists page', build_interior zero_page None INF_KEY [(4, 1); (8, 2)]%Z 3 = Ok (page', true) /\
     length page' = PAGE_SIZE /\ is_leaf page' = Ok false /\ right_link page' = Ok None /\
     high_key page' = Ok INF_KEY /\ rightmost_child page' = Ok 3%Z /\ interior_entries page' = Ok [(4, 1); (8, 2)]%Z /\
     forall k, route page' k = Ok (pick_child k [(4, 1); (8, 2)]%Z 3).
Proof.
  destruct (interior_roundtrip zero_page None INF_KEY [(4, 1); (8, 2)]%Z 3) as [H _].
  - apply length_zero_page.
  - done.
  - done.
  - done.
  - by repeat constructor.
  - apply H. cbn. lia.
Defined.

Lemma overflow_roundtrip_witness :
  (exists page', init_overflow zero_page [x01; x02] (Some 4%Z) = Ok page' /\ length page' = PAGE_SIZE /\
     is_overflow page' = Ok true /\ overflow_next page' = Ok (Some 4%Z) /\ overflow_payload page' = Ok [x01; x02]) /\
  length (encode_stub (replicate 24 x07) 9000 2) = OVERFLOW_STUB /\
  decode_stub (encode_stub (replicate 24 x07) 9000 2) = Some (replicate 24 x07, Z.to_nat 9000, 2%Z).
Proof.
  apply overflow_roundtrip; [apply length_zero_page|apply Nat.leb_le; by vm_compute|done|done|done|done].
Defined.

Lemma clear_undo_links_exact_witness :
  exists page'', clear_undo_links (leaf_bytes None INF_KEY sample_entries) = Ok page'' /\
    length page'' = PAGE_SIZE /\ right_link page'' = Ok None /\ high_key page'' = Ok INF_KEY /\
    leaf_entries page'' = Ok (unlinked <$> sample_entries).
Proof.
  destruct (clear_undo_links_exact zero_page None INF_KEY sample_entries) as [H _].
  - apply length_zero_page.
  - done.
  - done.
  - by repeat constructor.
  - apply Nat.leb_le. by vm_compute.
  - apply H. apply build_leaf_bytes; [apply length_zero_page|]. apply Nat.leb_le. by vm_compute.
Defined.

(** A reader that began while transaction 2 was writing sees the version before. *)
Lemma visible_tuple_resolves_witness :
  visible_tuple (MkMeta 2 0 0) [x09] [Some (MkUndo (MkMeta 1 0 NO_UNDO) [x08])] (MkView 9 {[2%Z]} 9) = Ok (Some [x08]).
Proof.
  rewrite (visible_tuple_resolves _ _ _ _ [0] [MkUndo (MkMeta 1 0 NO_UNDO) [x08]]).
  - by vm_compute.
  - apply (chain_cons _ 0%Z (MkUndo (MkMeta 1 0 NO_UNDO) [x08])); [done|done|done|constructor].
Defined.
