(* ===== verification/Codec.v ===== *)
(** * Byte codecs: cursors, strings and length-prefixed vectors

    What the log and record codecs are written with: Rust's checked slice reads
    ([bytes.get(at..at + n)?]), [String::from_utf8], saturating [u32] lengths,
    counted loops over a [&mut usize] cursor, and the two classes the codec
    theorems are proved against: [Reads] (a reader undoes its writer wherever the
    written bytes stand) and [Sound] (a reader only ever returns values of its
    type's range). *)

From S2P Require Import Prelude.
From stdpp Require Import base list strings.
From Stdlib Require Import ZArith Lia Strings.Byte.

(** ** Integers of the format *)

Definition U32_MAX : Z := 4294967295.

(** [u32::try_from(n).unwrap_or(u32::MAX)]. *)
Definition u32_sat (n : nat) : Z := Z.min (Z.of_nat n) U32_MAX.

Definition u8 (z : Z) : Prop := (0 <= z < 256)%Z.
Definition i64 (z : Z) : Prop := (-9223372036854775808 <= z < 9223372036854775808)%Z.

(** [i64::from_le_bytes] on the unsigned value of the bytes. *)
Definition to_i64 (v : Z) : Z :=
  if (v <? 9223372036854775808)%Z then v else (v - 18446744073709551616)%Z.

(** [u8::from(bool)]. *)
Definition bool_byte (b : bool) : byte := if b then "001"%byte else "000"%byte.

Definition read_u16_at (v : bytes) (at_ : nat) : option Z :=
  s ← get_range v at_ (at_ + 2); Some (le_val s).
Definition read_u32_at (v : bytes) (at_ : nat) : option Z :=
  s ← get_range v at_ (at_ + 4); Some (le_val s).
Definition read_u64 (v : bytes) (at_ : nat) : option Z :=
  s ← get_range v at_ (at_ + 8); Some (le_val s).
Definition read_i64 (v : bytes) (at_ : nat) : option Z :=
  s ← get_range v at_ (at_ + 8); Some (to_i64 (le_val s)).

(** [match byte { 0 => false, 1 => true, _ => return None }]. *)
Definition strict_bool (b : byte) : option bool :=
  match b with "000"%byte => Some false | "001"%byte => Some true | _ => None end.

(** ** Strings

    A Rust [String] is its bytes; [utf8_valid] is the well-formedness
    [String::from_utf8] checks: shortest forms only, no surrogates, nothing past
    U+10FFFF. *)

Definition between (lo hi z : Z) : bool := ((lo <=? z) && (z <=? hi))%Z.
Definition continuation (b : byte) : bool := between 128 191 (b2z b).

Definition utf8_two (b0 : Z) (b1 : byte) : bool := between 194 223 b0 && continuation b1.
Definition utf8_three (b0 : Z) (b1 b2 : byte) : bool :=
  (((b0 =? 224)%Z && between 160 191 (b2z b1))
   || ((b0 =? 237)%Z && between 128 159 (b2z b1))
   || ((between 225 236 b0 || between 238 239 b0) && continuation b1))
  && continuation b2.
Definition utf8_four (b0 : Z) (b1 b2 b3 : byte) : bool :=
  (((b0 =? 240)%Z && between 144 191 (b2z b1))
   || ((b0 =? 244)%Z && between 128 143 (b2z b1))
   || (between 241 243 b0 && continuation b1))
  && continuation b2 && continuation b3.

Fixpoint utf8_valid (l : bytes) : bool :=
  match l with
  | [] => true
  | b0 :: r0 =>
      if (b2z b0 <? 128)%Z then utf8_valid r0
      else
        match r0 with
        | [] => false
        | b1 :: r1 =>
            if utf8_two (b2z b0) b1 then utf8_valid r1
            else
              match r1 with
              | [] => false
              | b2 :: r2 =>
                  if utf8_three (b2z b0) b1 b2 then utf8_valid r2
                  else
                    match r2 with
                    | [] => false
                    | b3 :: r3 =>
                        if utf8_four (b2z b0) b1 b2 b3 then utf8_valid r3 else false
                    end
              end
        end
  end.

(** [String::from_utf8(bytes).ok()]. *)
Definition from_utf8 (l : bytes) : option bytes :=
  if utf8_valid l then Some l else None.

(** ** Loops over a cursor *)

(** [for _ in 0..n { out.push(read(bytes, at)?) }]. *)
Fixpoint read_n {A} (rd : bytes -> nat -> option (A * nat)) (n : nat) (v : bytes) (at_ : nat)
    : option (list A * nat) :=
  match n with
  | O => Some ([], at_)
  | S n =>
      '(x, at_) ← rd v at_;
      '(xs, at_) ← read_n rd n v at_;
      Some (x :: xs, at_)
  end.

(** The counted form every list of the format has: a [u32] count, then the items. *)
Definition read_vec {A} (rd : bytes -> nat -> option (A * nat)) (v : bytes) (at_ : nat)
    : option (list A * nat) :=
  n ← read_u32_at v at_;
  read_n rd (Z.to_nat n) v (at_ + 4).

Definition push_vec {A} (enc : A -> bytes) (xs : list A) : bytes :=
  le_bytes 4 (u32_sat (length xs)) ++ concat (enc <$> xs).

(** A length that the [u32] prefix holds unsaturated. *)
Definition fits_u32 {A} (l : list A) : Prop := u32 (Z.of_nat (length l)).

Definition wf_vec {A} (wf : A -> Prop) (xs : list A) : Prop := fits_u32 xs /\ Forall wf xs.

(** ** Cursors *)

(** The cursor [at_] of [v] stands before [rest]. *)
Definition cursor (v : bytes) (at_ : nat) (rest : bytes) : Prop :=
  at_ <= length v /\ drop at_ v = rest.

Lemma cursor_start v : cursor v 0 v.
Proof. split; [lia|done]. Qed.

Lemma cursor_adv v a a' e rest :
  cursor v a (e ++ rest) -> a' = a + length e -> cursor v a' rest.
Proof.
  intros [Ha Hd] ->. split; [|by eapply drop_prefix].
  assert (length (drop a v) = length (e ++ rest)) as Hl by by rewrite Hd.
  rewrite length_drop, length_app in Hl. lia.
Qed.

Lemma cursor_range v a b e rest :
  cursor v a (e ++ rest) -> b = a + length e -> get_range v a b = Some e.
Proof. intros [Ha Hd] Hb. by eapply get_range_prefix. Qed.

Lemma cursor_byte v a b rest : cursor v a (b :: rest) -> v !! a = Some b.
Proof.
  intros [_ Hd]. rewrite <- (Nat.add_0_r a), <- lookup_drop. by rewrite Hd.
Qed.

Lemma cursor_cons v a b rest : cursor v a (b :: rest) -> cursor v (a + 1) rest.
Proof. intros H. by apply (cursor_adv v a _ [b]). Qed.

Lemma cursor_end v a : cursor v a [] -> a = length v.
Proof.
  intros [Ha Hd]. apply (f_equal length) in Hd. rewrite length_drop in Hd. simpl in Hd. lia.
Qed.

Lemma cursor_pos v a b rest : cursor v a (b :: rest) -> a < length v.
Proof.
  intros [Ha Hd]. apply (f_equal length) in Hd. rewrite length_drop in Hd. simpl in Hd. lia.
Qed.

(** Fixed-width reads at a cursor. *)
Lemma cursor_u16 v a x rest :
  cursor v a (le_bytes 2 x ++ rest) -> u16 x -> read_u16_at v a = Some x.
Proof.
  intros H Hx. unfold read_u16_at. rewrite (cursor_range _ _ _ _ _ H) by len.
  simpl. by rewrite le_val_bytes_u16.
Qed.
Lemma cursor_u32 v a x rest :
  cursor v a (le_bytes 4 x ++ rest) -> u32 x -> read_u32_at v a = Some x.
Proof.
  intros H Hx. unfold read_u32_at. rewrite (cursor_range _ _ _ _ _ H) by len.
  simpl. by rewrite le_val_bytes_u32.
Qed.
Lemma cursor_u64 v a x rest :
  cursor v a (le_bytes 8 x ++ rest) -> u64 x -> read_u64 v a = Some x.
Proof.
  intros H Hx. unfold read_u64. rewrite (cursor_range _ _ _ _ _ H) by len.
  simpl. by rewrite le_val_bytes_u64.
Qed.

Transparent le_bytes.
Lemma le_bytes_mod n z : le_bytes n (z mod 256 ^ Z.of_nat n) = le_bytes n z.
Proof.
  revert z. induction n as [|n IH]; intros z; [done|]. cbn [le_bytes].
  rewrite Nat2Z.inj_succ, Z.pow_succ_r by lia. f_equal.
  - unfold z2b. f_equal. f_equal. f_equal.
    rewrite Z.rem_mul_r by lia.
    by rewrite (Z.mul_comm 256), Z_mod_plus_full, Z.mod_mod by lia.
  - rewrite <- (IH (z / 256)%Z), Z.rem_mul_r by lia. f_equal.
    rewrite Z.add_comm, (Z.mul_comm 256), Z.div_add_l by lia.
    rewrite (Z.div_small (z mod 256)) by (apply Z.mod_pos_bound; lia). lia.
Qed.
Opaque le_bytes.

Lemma to_i64_bytes x : i64 x -> to_i64 (le_val (le_bytes 8 x)) = x.
Proof.
  unfold i64. intros Hx. rewrite <- le_bytes_mod.
  pose proof (Z.mod_pos_bound x 18446744073709551616 ltac:(lia)).
  change (256 ^ Z.of_nat 8)%Z with 18446744073709551616%Z.
  rewrite le_val_bytes by (change (256 ^ Z.of_nat 8)%Z with 18446744073709551616%Z; lia).
  unfold to_i64. destruct (Z.ltb_spec (x mod 18446744073709551616) 9223372036854775808).
  - destruct (decide (0 <= x)%Z); [by rewrite Z.mod_small by lia|].
    rewrite <- (Z_mod_plus_full x 1), Z.mod_small in * by lia. lia.
  - destruct (decide (0 <= x)%Z); [rewrite Z.mod_small in * by lia; lia|].
    rewrite <- (Z_mod_plus_full x 1), Z.mod_small in * by lia. lia.
Qed.

Lemma cursor_i64 v a x rest :
  cursor v a (le_bytes 8 x ++ rest) -> i64 x -> read_i64 v a = Some x.
Proof.
  intros H Hx. unfold read_i64. rewrite (cursor_range _ _ _ _ _ H) by len.
  simpl. by rewrite to_i64_bytes.
Qed.

Lemma get_range_length {A} (v s : list A) a b : get_range v a b = Some s -> length s = b - a.
Proof.
  unfold get_range. case_decide; intros; simplify_eq. rewrite length_take, length_drop. lia.
Qed.

Lemma read_u16_range v a x : read_u16_at v a = Some x -> u16 x.
Proof.
  unfold read_u16_at. intros (s & Hs & [= <-])%bind_Some. apply le_val_u16.
  apply get_range_length in Hs. lia.
Qed.
Lemma read_u32_range v a x : read_u32_at v a = Some x -> u32 x.
Proof.
  unfold read_u32_at. intros (s & Hs & [= <-])%bind_Some. apply get_range_length in Hs.
  pose proof (le_val_range s) as Hr. replace (length s) with 4 in Hr by lia. done.
Qed.
Lemma read_u64_range v a x : read_u64 v a = Some x -> u64 x.
Proof.
  unfold read_u64. intros (s & Hs & [= <-])%bind_Some. apply le_val_u64.
  apply get_range_length in Hs. lia.
Qed.
Lemma read_i64_range v a x : read_i64 v a = Some x -> i64 x.
Proof.
  unfold read_i64. intros (s & Hs & [= <-])%bind_Some. apply get_range_length in Hs.
  pose proof (le_val_u64 s ltac:(lia)) as Hr. unfold u64 in Hr. unfold to_i64, i64.
  destruct (Z.ltb_spec (le_val s) 9223372036854775808); lia.
Qed.

Lemma u32_sat_fits {A} (l : list A) : fits_u32 l -> u32_sat (length l) = Z.of_nat (length l).
Proof. unfold fits_u32, u32, u32_sat, U32_MAX. lia. Qed.

Lemma strict_bool_byte b : strict_bool (bool_byte b) = Some b.
Proof. by destruct b. Qed.

(** ** The two contracts of a reader *)

(** Wherever the bytes [enc x] stand, reading there gives [x] and moves the
    cursor past them. *)
Class Reads {A} (wf : A -> Prop) (enc : A -> bytes) (rd : bytes -> nat -> option (A * nat)) : Prop :=
  reads : forall v a x rest,
    wf x -> cursor v a (enc x ++ rest) -> rd v a = Some (x, a + length (enc x)).

(** Whatever the bytes, a value that is read is in range. *)
Class Sound {A} (wf : A -> Prop) (rd : bytes -> nat -> option (A * nat)) : Prop :=
  sound : forall v a x a', rd v a = Some (x, a') -> wf x.

#[global] Hint Mode Reads - - - ! : typeclass_instances.
#[global] Hint Mode Sound - - ! : typeclass_instances.

Lemma reads_n {A} wf enc (rd : bytes -> nat -> option (A * nat)) `{!Reads wf enc rd} v a xs rest :
  Forall wf xs -> cursor v a (concat (enc <$> xs) ++ rest) ->
  read_n rd (length xs) v a = Some (xs, a + length (concat (enc <$> xs))).
Proof.
  intros Hxs. revert a. induction Hxs as [|x xs Hx Hxs IH]; intros a C; cbn [length read_n].
  { by rewrite Nat.add_0_r. }
  rewrite fmap_cons in *. cbn [concat] in *. rewrite <- app_assoc in C.
  rewrite (reads v a x _ Hx C). simpl.
  apply (cursor_adv _ _ (a + length (enc x))) in C; [|done].
  rewrite (IH _ C). simpl. rewrite length_app. by rewrite Nat.add_assoc.
Qed.

#[global] Instance reads_vec {A} wf enc (rd : bytes -> nat -> option (A * nat)) :
  Reads wf enc rd -> Reads (wf_vec wf) (push_vec enc) (read_vec rd).
Proof.
  intros HR v a xs rest [Hf Hxs] C. unfold push_vec, read_vec in *.
  rewrite u32_sat_fits in * by done. rewrite <- app_assoc in C.
  rewrite (cursor_u32 _ _ _ _ C Hf). simpl. rewrite Nat2Z.id.
  apply (cursor_adv _ _ (a + 4)) in C; [|by len].
  rewrite (reads_n _ _ _ _ _ _ _ Hxs C). do 2 f_equal.
  rewrite length_app, le_bytes_length. lia.
Qed.

Lemma sound_n {A} wf (rd : bytes -> nat -> option (A * nat)) `{!Sound wf rd} n v a xs a' :
  read_n rd n v a = Some (xs, a') -> length xs = n /\ Forall wf xs.
Proof.
  revert a xs a'. induction n as [|n IH]; intros a xs a'; cbn [read_n].
  - intros [= <- <-]. split; [done|constructor].
  - intros ([x a1] & Hx & ([ys a2] & Hys & [= <- <-])%bind_Some)%bind_Some.
    apply IH in Hys as [Hl Hf]. apply sound in Hx. split; [simpl; lia|by constructor].
Qed.

#[global] Instance sound_vec {A} wf (rd : bytes -> nat -> option (A * nat)) :
  Sound wf rd -> Sound (wf_vec wf) (read_vec rd).
Proof.
  intros HS v a xs a'. unfold read_vec. intros (n & Hn & Hxs)%bind_Some.
  apply read_u32_range in Hn. destruct (sound_n wf rd _ _ _ _ _ Hxs) as [Hl Hf].
  split; [|done]. unfold fits_u32, u32 in *. lia.
Qed.

(** ** Tactics

    [rd] reads the next field at the cursor hypothesis; [rds] reads them all. *)
Ltac cursor_norm C := repeat first [rewrite <- app_assoc in C | progress cbn [app] in C].

Ltac wf_side := first [eassumption | lia | done | unfold u8, u16, u32, u64, i64 in *; lia].

Ltac rd :=
  match goal with
  | C : cursor ?v ?a (?b :: ?r) |- context [?v !! ?a] =>
      rewrite (cursor_byte v a b r C); cbn [mbind option_bind];
      apply cursor_cons in C; cbn [Nat.add] in C |- *
  | C : cursor ?v ?a (le_bytes 2 ?x ++ ?r) |- context [read_u16_at ?v ?a] =>
      rewrite (cursor_u16 v a x r C) by wf_side; cbn [mbind option_bind];
      apply (cursor_adv _ _ (a + 2)) in C; [cbn [Nat.add] in C |- *|by len]
  | C : cursor ?v ?a (le_bytes 4 ?x ++ ?r) |- context [read_u32_at ?v ?a] =>
      rewrite (cursor_u32 v a x r C) by wf_side; cbn [mbind option_bind];
      apply (cursor_adv _ _ (a + 4)) in C; [cbn [Nat.add] in C |- *|by len]
  | C : cursor ?v ?a (le_bytes 8 ?x ++ ?r) |- context [read_u64 ?v ?a] =>
      rewrite (cursor_u64 v a x r C) by wf_side; cbn [mbind option_bind];
      apply (cursor_adv _ _ (a + 8)) in C; [cbn [Nat.add] in C |- *|by len]
  | C : cursor ?v ?a (le_bytes 8 ?x ++ ?r) |- context [read_i64 ?v ?a] =>
      rewrite (cursor_i64 v a x r C) by wf_side; cbn [mbind option_bind];
      apply (cursor_adv _ _ (a + 8)) in C; [cbn [Nat.add] in C |- *|by len]
  | C : cursor ?v ?a (?e ++ ?r) |- context [?f ?v ?a] =>
      let H := fresh in
      pose proof (reads (rd := f) v a) as H; specialize (fun w => H _ r w C) as H;
      rewrite H by wf_side; clear H; cbn [mbind option_bind];
      eapply cursor_adv in C; [|reflexivity]; cbn [Nat.add] in C |- *
  end; rewrite ?strict_bool_byte; cbn [mbind option_bind].

(** Stand at the start of [X], naming it [v]. *)
Ltac at_start X v C :=
  let Hv := fresh in
  assert (exists v, v = X /\ cursor v 0 X) as (v & Hv & C)
    by (eexists; split; [reflexivity|apply cursor_start]);
  rewrite <- Hv; clear Hv.
