(* ===== verification/Catalog.v ===== *)
(** * Catalog types of [nusadb-core] ([engine.rs])

    Column types, table, index and sequence definitions, statistics and
    constraint actions, with the conversions the source defines on them. A Rust
    [String] is its bytes; the [wf_] predicates say that a value is one the Rust
    type holds: every integer within its width and every string valid UTF-8. *)

From S2P Require Import Prelude Codec.
From stdpp Require Import base list strings.
From Stdlib Require Import ZArith Lia Strings.Byte.

Module Elem.
Inductive ArrayElem : Set :=
| Bool | Int | Float | Numeric | Text | Date | Time | Timestamp | TimestampTz | Uuid.
#[global] Instance ArrayElem_eq_dec : EqDecision ArrayElem.
Proof. solve_decision. Defined.
End Elem.

Module RangeOf.
Inductive RangeKind : Set := Int | Num | Date | Ts | TsTz.
#[global] Instance RangeKind_eq_dec : EqDecision RangeKind.
Proof. solve_decision. Defined.
End RangeOf.

Definition range_tag (k : RangeOf.RangeKind) : byte :=
  match k with
  | RangeOf.Int => "000" | RangeOf.Num => "001" | RangeOf.Date => "002" | RangeOf.Ts => "003" | RangeOf.TsTz => "004"
  end%byte.

Definition range_from_tag (t : byte) : option RangeOf.RangeKind :=
  match t with
  | "000" => Some RangeOf.Int | "001" => Some RangeOf.Num | "002" => Some RangeOf.Date | "003" => Some RangeOf.Ts
  | "004" => Some RangeOf.TsTz | _ => None
  end%byte.

Definition is_discrete (k : RangeOf.RangeKind) : bool :=
  match k with RangeOf.Int | RangeOf.Date => true | _ => false end.

Definition range_name (k : RangeOf.RangeKind) : string :=
  match k with
  | RangeOf.Int => "int4range" | RangeOf.Num => "numrange" | RangeOf.Date => "daterange" | RangeOf.Ts => "tsrange"
  | RangeOf.TsTz => "tstzrange"
  end.

Module Geom.
Inductive GeomKind : Set := Point | Box | Circle | Lseg | Line | Path | Polygon.
#[global] Instance GeomKind_eq_dec : EqDecision GeomKind.
Proof. solve_decision. Defined.
End Geom.

Definition geom_tag (k : Geom.GeomKind) : byte :=
  match k with
  | Geom.Point => "000" | Geom.Box => "001" | Geom.Circle => "002" | Geom.Lseg => "003" | Geom.Line => "004"
  | Geom.Path => "005" | Geom.Polygon => "006"
  end%byte.

Definition geom_from_tag (t : byte) : option Geom.GeomKind :=
  match t with
  | "000" => Some Geom.Point | "001" => Some Geom.Box | "002" => Some Geom.Circle | "003" => Some Geom.Lseg
  | "004" => Some Geom.Line | "005" => Some Geom.Path | "006" => Some Geom.Polygon | _ => None
  end%byte.

Definition geom_name (k : Geom.GeomKind) : string :=
  match k with
  | Geom.Point => "point" | Geom.Box => "box" | Geom.Circle => "circle" | Geom.Lseg => "lseg" | Geom.Line => "line"
  | Geom.Path => "path" | Geom.Polygon => "polygon"
  end.

Module Ty.
Inductive ColumnType : Set :=
| Bool | Int | SmallInt | BigInt | Float | Real | Text
| VarChar (n : Z) | Char (n : Z)
| Bytes | Timestamp | Date | Time | TimestampTz | TimeTz | Uuid | Macaddr | Macaddr8 | Inet | Cidr
| Bit (n : Z) | VarBit (n : option Z)
| Range (kind : RangeOf.RangeKind)
| Numeric (precision scale : Z)
| Json | Jsonb | Interval
| Array (elem : Elem.ArrayElem)
| Vector (n : Z)
| Geometry (kind : Geom.GeomKind)
| Tsvector | Tsquery | Xml | Enum.
#[global] Instance ColumnType_eq_dec : EqDecision ColumnType.
Proof. solve_decision. Defined.

(** The type a value is stored as. *)
Definition physical (ty : ColumnType) : ColumnType :=
  match ty with
  | VarChar _ | Char _ => Text
  | SmallInt | BigInt => Int
  | Real => Float
  | Jsonb => Json
  | other => other
  end.
End Ty.

Definition element_type (k : RangeOf.RangeKind) : Ty.ColumnType :=
  match k with
  | RangeOf.Int => Ty.Int
  | RangeOf.Num => Ty.Numeric 0 0
  | RangeOf.Date => Ty.Date
  | RangeOf.Ts => Ty.Timestamp
  | RangeOf.TsTz => Ty.TimestampTz
  end.

Definition column_type (e : Elem.ArrayElem) : Ty.ColumnType :=
  match e with
  | Elem.Bool => Ty.Bool
  | Elem.Int => Ty.Int
  | Elem.Float => Ty.Float
  | Elem.Numeric => Ty.Numeric 0 0
  | Elem.Text => Ty.Text
  | Elem.Date => Ty.Date
  | Elem.Time => Ty.Time
  | Elem.Timestamp => Ty.Timestamp
  | Elem.TimestampTz => Ty.TimestampTz
  | Elem.Uuid => Ty.Uuid
  end.

Definition from_column_type (ty : Ty.ColumnType) : option Elem.ArrayElem :=
  match Ty.physical ty with
  | Ty.Bool => Some Elem.Bool
  | Ty.Int => Some Elem.Int
  | Ty.Float => Some Elem.Float
  | Ty.Numeric _ _ => Some Elem.Numeric
  | Ty.Text => Some Elem.Text
  | Ty.Date => Some Elem.Date
  | Ty.Time => Some Elem.Time
  | Ty.Timestamp => Some Elem.Timestamp
  | Ty.TimestampTz => Some Elem.TimestampTz
  | Ty.Uuid => Some Elem.Uuid
  | _ => None
  end.

Record ColumnDef := MkColumn {
  column_name : bytes;
  ty : Ty.ColumnType;
  nullable : bool;
}.

Record TableDef := MkTable {
  table_schema : bytes;
  table_name : bytes;
  columns : list ColumnDef;
}.

Record SequenceDef := MkSequence {
  seq_name : bytes;
  start : Z;
  increment : Z;
  min_value : Z;
  max_value : Z;
  cycle : bool;
}.

Inductive IndexKind : Set := BTree | Hash | Brin.

Record IndexDef := MkIndex {
  index_name : bytes;
  index_table : Z;
  index_columns : list bytes;
  key_exprs : list bytes;
  index_predicate : option bytes;
  include : list bytes;
  index_kind : IndexKind;
  index_unique : bool;
}.

Inductive FkAction : Set := NoAction | Restrict | Cascade | SetNull | SetDefault.

Record ColumnStats := MkColumnStats {
  stats_column : bytes;
  null_count : Z;
  distinct_count : Z;
  stats_min : option bytes;
  stats_max : option bytes;
  most_common : list (bytes * Z);
  histogram : list bytes;
}.

Record TableStats := MkTableStats {
  row_count : Z;
  page_count : Z;
  stats_columns : list ColumnStats;
}.

#[global] Instance ColumnDef_eq_dec : EqDecision ColumnDef.
Proof. solve_decision. Defined.
#[global] Instance TableDef_eq_dec : EqDecision TableDef.
Proof. solve_decision. Defined.
#[global] Instance SequenceDef_eq_dec : EqDecision SequenceDef.
Proof. solve_decision. Defined.
#[global] Instance IndexKind_eq_dec : EqDecision IndexKind.
Proof. solve_decision. Defined.
#[global] Instance IndexDef_eq_dec : EqDecision IndexDef.
Proof. solve_decision. Defined.
#[global] Instance FkAction_eq_dec : EqDecision FkAction.
Proof. solve_decision. Defined.
#[global] Instance ColumnStats_eq_dec : EqDecision ColumnStats.
Proof. solve_decision. Defined.
#[global] Instance TableStats_eq_dec : EqDecision TableStats.
Proof. solve_decision. Defined.

(** ** What the Rust types hold *)

(** A string the format can carry: valid UTF-8 whose length fits its prefix. *)
Definition wf_str (s : bytes) : Prop := fits_u32 s /\ utf8_valid s = true.

Definition wf_type (t : Ty.ColumnType) : Prop :=
  match t with
  | Ty.VarChar n | Ty.Char n | Ty.Bit n | Ty.Vector n => u32 n
  | Ty.VarBit (Some n) => u32 n
  | Ty.Numeric p s => u8 p /\ u8 s
  | _ => True
  end.

Definition wf_column (c : ColumnDef) : Prop := wf_str (column_name c) /\ wf_type (ty c).

Definition wf_table (d : TableDef) : Prop :=
  wf_str (table_schema d) /\ wf_str (table_name d) /\ wf_vec wf_column (columns d).

Definition wf_sequence (d : SequenceDef) : Prop :=
  wf_str (seq_name d) /\ i64 (start d) /\ i64 (increment d) /\ i64 (min_value d) /\
  i64 (max_value d).

Definition wf_opt {A} (wf : A -> Prop) (o : option A) : Prop :=
  match o with Some x => wf x | None => True end.

Definition wf_index (d : IndexDef) : Prop :=
  wf_str (index_name d) /\ u64 (index_table d) /\ wf_vec wf_str (index_columns d) /\
  wf_vec wf_str (key_exprs d) /\ wf_opt wf_str (index_predicate d) /\ wf_vec wf_str (include d).

Definition wf_common (p : bytes * Z) : Prop := fits_u32 p.1 /\ u64 p.2.

Definition wf_column_stats (c : ColumnStats) : Prop :=
  wf_str (stats_column c) /\ u64 (null_count c) /\ u64 (distinct_count c) /\
  wf_opt fits_u32 (stats_min c) /\ wf_opt fits_u32 (stats_max c) /\
  wf_vec wf_common (most_common c) /\ wf_vec fits_u32 (histogram c).

Definition wf_stats (s : TableStats) : Prop :=
  u64 (row_count s) /\ u64 (page_count s) /\ wf_vec wf_column_stats (stats_columns s).

(** ** Conversions *)

Lemma range_tag_roundtrip k : range_from_tag (range_tag k) = Some k.
Proof. by destruct k. Qed.

Lemma geom_tag_roundtrip k : geom_from_tag (geom_tag k) = Some k.
Proof. by destruct k. Qed.

Lemma physical_idem t : Ty.physical (Ty.physical t) = Ty.physical t.
Proof. by destruct t. Qed.

Lemma element_roundtrip e : from_column_type (column_type e) = Some e.
Proof. by destruct e. Qed.

Lemma from_column_type_physical t : from_column_type (Ty.physical t) = from_column_type t.
Proof. unfold from_column_type. by rewrite physical_idem. Qed.
