(* ===== verification/WalRecord.v ===== *)
(** * Log records ([nusadb-wal/src/record.rs])

    The record kinds of the shared log and the encoding of their payload. The
    [Cursor] of the source is the payload with a position; each of its methods
    returns the value read and the advanced position. *)

From S2P Require Import Prelude Core Codec.
From stdpp Require Import base list strings.
From Stdlib Require Import ZArith Lia Strings.Byte.

Module Rec.
Inductive WalRecord : Set :=
| BeginTxn (txn : Z)
| CommitTxn (txn unix_ms : Z)
| AbortTxn (txn : Z)
| PageUpdate (txn page offset : Z) (image : bytes)
| FullPageWrite (txn page : Z) (image : bytes)
| Checkpoint (lsn : Z)
| Put (key value : bytes)
| Delete (key : bytes).
#[global] Instance WalRecord_eq_dec : EqDecision WalRecord.
Proof. solve_decision. Defined.

Definition TAG_BEGIN : byte := "000"%byte.
Definition TAG_COMMIT : byte := "001"%byte.
Definition TAG_ABORT : byte := "002"%byte.
Definition TAG_PAGE_UPDATE : byte := "003"%byte.
Definition TAG_FULL_PAGE : byte := "004"%byte.
Definition TAG_CHECKPOINT : byte := "005"%byte.
Definition TAG_PUT : byte := "006"%byte.
Definition TAG_DELETE : byte := "007"%byte.

Definition field_too_long : Error := Io Other "WAL record field exceeds 4 GiB".

(** A [[u32 len][bytes]] field. *)
Definition field (b : bytes) : bytes := le_bytes 4 (Z.of_nat (length b)) ++ b.

Definition push_len_prefixed (b : bytes) : result bytes :=
  if decide (fits_u32 b) then Ok (field b) else Err field_too_long.

(** The contents of the cleared buffer. *)
Definition encode_into (r : WalRecord) : result bytes :=
  match r with
  | BeginTxn txn => Ok ([TAG_BEGIN] ++ le_bytes 8 txn)
  | CommitTxn txn unix_ms => Ok ([TAG_COMMIT] ++ le_bytes 8 txn ++ le_bytes 8 unix_ms)
  | AbortTxn txn => Ok ([TAG_ABORT] ++ le_bytes 8 txn)
  | PageUpdate txn page offset image =>
      let? i := push_len_prefixed image in
      Ok ([TAG_PAGE_UPDATE] ++ le_bytes 8 txn ++ le_bytes 8 page ++ le_bytes 2 offset ++ i)
  | FullPageWrite txn page image =>
      let? i := push_len_prefixed image in
      Ok ([TAG_FULL_PAGE] ++ le_bytes 8 txn ++ le_bytes 8 page ++ i)
  | Checkpoint lsn => Ok ([TAG_CHECKPOINT] ++ le_bytes 8 lsn)
  | Put key value =>
      let? k := push_len_prefixed key in
      let? v := push_len_prefixed value in
      Ok ([TAG_PUT] ++ k ++ v)
  | Delete key => let? k := push_len_prefixed key in Ok ([TAG_DELETE] ++ k)
  end.

Definition encode (r : WalRecord) : result bytes := encode_into r.

(** ** [Cursor] *)

Definition cur_u8 (v : bytes) (pos : nat) : option (byte * nat) :=
  b ← v !! pos; Some (b, pos + 1).
Definition cur_u16 (v : bytes) (pos : nat) : option (Z * nat) :=
  s ← get_range v pos (pos + 2); Some (le_val s, pos + 2).
Definition cur_u32 (v : bytes) (pos : nat) : option (Z * nat) :=
  s ← get_range v pos (pos + 4); Some (le_val s, pos + 4).
Definition cur_u64 (v : bytes) (pos : nat) : option (Z * nat) :=
  s ← get_range v pos (pos + 8); Some (le_val s, pos + 8).
Definition cur_take (n : nat) (v : bytes) (pos : nat) : option (bytes * nat) :=
  s ← get_range v pos (pos + n); Some (s, pos + n).

(** A length-prefixed field. *)
Definition cur_field (v : bytes) (pos : nat) : option (bytes * nat) :=
  '(len, pos) ← cur_u32 v pos; cur_take (Z.to_nat len) v pos.

Definition decode (payload : bytes) : option WalRecord :=
  '(tag, pos) ← cur_u8 payload 0;
  if decide (tag = TAG_BEGIN) then
    '(txn, _) ← cur_u64 payload pos; Some (BeginTxn txn)
  else if decide (tag = TAG_COMMIT) then
    '(txn, pos) ← cur_u64 payload pos;
    let unix_ms := match cur_u64 payload pos with Some (ms, _) => ms | None => 0%Z end in
    Some (CommitTxn txn unix_ms)
  else if decide (tag = TAG_ABORT) then
    '(txn, _) ← cur_u64 payload pos; Some (AbortTxn txn)
  else if decide (tag = TAG_PAGE_UPDATE) then
    '(txn, pos) ← cur_u64 payload pos;
    '(page, pos) ← cur_u64 payload pos;
    '(offset, pos) ← cur_u16 payload pos;
    '(image, _) ← cur_field payload pos;
    Some (PageUpdate txn page offset image)
  else if decide (tag = TAG_FULL_PAGE) then
    '(txn, pos) ← cur_u64 payload pos;
    '(page, pos) ← cur_u64 payload pos;
    '(image, _) ← cur_field payload pos;
    Some (FullPageWrite txn page image)
  else if decide (tag = TAG_CHECKPOINT) then
    '(lsn, _) ← cur_u64 payload pos; Some (Checkpoint lsn)
  else if decide (tag = TAG_PUT) then
    '(key, pos) ← cur_field payload pos;
    '(value, _) ← cur_field payload pos;
    Some (Put key value)
  else if decide (tag = TAG_DELETE) then
    '(key, _) ← cur_field payload pos; Some (Delete key)
  else None.

(** ** What the record type holds, and what the encoding can carry *)

Definition wf (r : WalRecord) : Prop :=
  match r with
  | BeginTxn txn | AbortTxn txn => u64 txn
  | CommitTxn txn unix_ms => u64 txn /\ u64 unix_ms
  | PageUpdate txn page offset _ => u64 txn /\ u64 page /\ u16 offset
  | FullPageWrite txn page _ => u64 txn /\ u64 page
  | Checkpoint lsn => u64 lsn
  | Put _ _ | Delete _ => True
  end.

(** Every variable-length field fits its [u32] prefix. *)
Definition carried (r : WalRecord) : Prop :=
  match r with
  | PageUpdate _ _ _ image | FullPageWrite _ _ image => fits_u32 image
  | Put key value => fits_u32 key /\ fits_u32 value
  | Delete key => fits_u32 key
  | _ => True
  end.

#[global] Instance fits_u32_dec {A} (l : list A) : Decision (fits_u32 l).
Proof. unfold fits_u32, u32. apply _. Defined.
#[global] Instance carried_dec r : Decision (carried r).
Proof. destruct r; simpl; apply _. Defined.

(** ** Readers at a cursor *)

#[global] Instance reads_u16 : Reads u16 (le_bytes 2) cur_u16.
Proof.
  intros v a x rest Hx C. unfold cur_u16. rewrite (cursor_range _ _ _ _ _ C) by len.
  simpl. by rewrite le_val_bytes_u16, le_bytes_length.
Qed.
#[global] Instance reads_u64 : Reads u64 (le_bytes 8) cur_u64.
Proof.
  intros v a x rest Hx C. unfold cur_u64. rewrite (cursor_range _ _ _ _ _ C) by len.
  simpl. by rewrite le_val_bytes_u64, le_bytes_length.
Qed.
#[global] Instance reads_field :
  Reads fits_u32 field cur_field.
Proof.
  intros v a x rest Hx C. unfold field, cur_field, cur_u32, cur_take in *.
  rewrite <- app_assoc in C.
  rewrite (cursor_range _ _ (a + 4) _ _ C) by len. simpl.
  rewrite le_val_bytes_u32, Nat2Z.id by done.
  apply (cursor_adv _ _ (a + 4)) in C; [|by len].
  rewrite (cursor_range _ _ _ _ _ C) by done. simpl.
  do 2 f_equal. rewrite length_app, le_bytes_length. lia.
Qed.

Lemma cursor_u8 v b r : cursor v 0 (b :: r) -> cur_u8 v 0 = Some (b, 1).
Proof. intros C. unfold cur_u8. by rewrite (cursor_byte _ _ _ _ C). Qed.

Lemma push_len_prefixed_ok b :
  fits_u32 b -> push_len_prefixed b = Ok (field b).
Proof. intros H. unfold push_len_prefixed. by rewrite decide_True. Qed.

Lemma push_len_prefixed_err b : ~ fits_u32 b -> push_len_prefixed b = Err field_too_long.
Proof. intros H. unfold push_len_prefixed. by rewrite decide_False. Qed.

(** Encoding fails exactly on a field the prefix cannot hold. *)
Lemma encode_carried r : carried r -> exists p, encode r = Ok p.
Proof.
  destruct r; simpl; intros; unfold encode; simpl; try destruct_and?;
    rewrite ?push_len_prefixed_ok by done; simpl; eauto.
Qed.

Lemma encode_refused r : ~ carried r -> encode r = Err field_too_long.
Proof.
  destruct r; simpl; intros H; try by destruct H; unfold encode; simpl.
  - by rewrite push_len_prefixed_err.
  - by rewrite push_len_prefixed_err.
  - unfold encode; simpl. destruct (decide (fits_u32 key)).
    + rewrite push_len_prefixed_ok by done. simpl. rewrite push_len_prefixed_err; [done|tauto].
    + by rewrite push_len_prefixed_err.
  - unfold encode; simpl. by rewrite push_len_prefixed_err.
Qed.

Ltac rd_tag C :=
  unfold decode; rewrite (cursor_u8 _ _ _ C); apply cursor_cons in C;
  cbn [mbind option_bind Nat.add] in *;
  repeat (first [rewrite decide_True by done | rewrite decide_False by done]).

(** A record's payload decodes to the record, whatever follows it. *)
Lemma decode_encode r p tail :
  wf r -> encode r = Ok p -> decode (p ++ tail) = Some r.
Proof.
  intros Hwf He.
  pose proof (cursor_start (p ++ tail)) as C.
  remember (p ++ tail) as v eqn:Hv. rewrite Hv in C at 2. clear Hv.
  destruct (decide (carried r)) as [Hc|Hc]; [|by rewrite encode_refused in He].
  unfold encode in He.
  destruct r; simpl in *; destruct_and?; rewrite ?push_len_prefixed_ok in He by done;
    simpl in He; simplify_eq; cursor_norm C; rd_tag C.
  all: repeat rd.
  all: done.
Qed.
(** A commit record that ends before the appended time. *)
Lemma decode_legacy_commit t :
  u64 t -> decode ([TAG_COMMIT] ++ le_bytes 8 t) = Some (CommitTxn t 0).
Proof.
  intros Ht. at_start ([TAG_COMMIT] ++ le_bytes 8 t) v C. cursor_norm C.
  rewrite <- (app_nil_r (le_bytes 8 t)) in C. rd_tag C. rd.
  apply cursor_end in C. unfold cur_u64, get_range. by rewrite decide_False by lia.
Qed.
End Rec.
