(* ===== verification/WalOps.v ===== *)
(** * Logged operations ([nusadb-btree/src/wal.rs])

    The logical redo operations of the engine and their encoding into the log's
    [Put] records, field by field and in the source's order. An encoder that
    appends to [out] is the bytes it appends; a decoder takes the bytes and its
    [&mut usize] cursor and returns the value with the advanced cursor, or [None]
    where the source returns [None]. *)

From S2P Require Import Prelude Core Codec Catalog WalRecord.
From stdpp Require Import base list strings.
From Stdlib Require Import ZArith Lia Strings.Byte.

(** ** Strings, byte strings and their lists *)

Definition push_bytes (b : bytes) : bytes := le_bytes 4 (u32_sat (length b)) ++ b.

Definition push_str (s : bytes) : bytes := le_bytes 4 (u32_sat (length s)) ++ s.

Definition read_bytes (v : bytes) (at_ : nat) : option (bytes * nat) :=
  len ← read_u32_at v at_;
  let at_ := at_ + 4 in
  let end_ := at_ + Z.to_nat len in
  out ← get_range v at_ end_;
  Some (out, end_).

Definition read_str (v : bytes) (at_ : nat) : option (bytes * nat) :=
  len ← read_u32_at v at_;
  let at_ := at_ + 4 in
  let end_ := at_ + Z.to_nat len in
  s ← get_range v at_ end_ ≫= from_utf8;
  Some (s, end_).

Definition push_strs (strs : list bytes) : bytes := push_vec push_str strs.

Definition read_strs (v : bytes) (at_ : nat) : option (list bytes * nat) :=
  read_vec read_str v at_.

Definition push_opt_bytes (o : option bytes) : bytes :=
  match o with
  | Some b => "001"%byte :: push_bytes b
  | None => ["000"%byte]
  end.

Definition read_opt_bytes (v : bytes) (at_ : nat) : option (option bytes * nat) :=
  flag ← v !! at_;
  let at_ := at_ + 1 in
  match flag with
  | "000"%byte => Some (None, at_)
  | "001"%byte => '(b, at_) ← read_bytes v at_; Some (Some b, at_)
  | _ => None
  end.

(** ** Column types and table definitions *)

Definition encode_array_elem (elem : Elem.ArrayElem) : byte :=
  match elem with
  | Elem.Bool => "000" | Elem.Int => "001" | Elem.Float => "002" | Elem.Numeric => "003"
  | Elem.Text => "004" | Elem.Date => "005" | Elem.Time => "006" | Elem.Timestamp => "007"
  | Elem.TimestampTz => "008" | Elem.Uuid => "009"
  end%byte.

Definition decode_array_elem (tag : byte) : option Elem.ArrayElem :=
  match tag with
  | "000" => Some Elem.Bool | "001" => Some Elem.Int | "002" => Some Elem.Float
  | "003" => Some Elem.Numeric | "004" => Some Elem.Text | "005" => Some Elem.Date
  | "006" => Some Elem.Time | "007" => Some Elem.Timestamp | "008" => Some Elem.TimestampTz
  | "009" => Some Elem.Uuid
  | _ => None
  end%byte.

Definition encode_column_type (ty : Ty.ColumnType) : bytes :=
  match ty with
  | Ty.Bool => ["000"]
  | Ty.Int => ["001"]
  | Ty.SmallInt => ["002"]
  | Ty.BigInt => ["003"]
  | Ty.Float => ["004"]
  | Ty.Real => ["005"]
  | Ty.Text => ["006"]
  | Ty.VarChar n => "007" :: le_bytes 4 n
  | Ty.Char n => "008" :: le_bytes 4 n
  | Ty.Bytes => ["009"]
  | Ty.Timestamp => ["010"]
  | Ty.Date => ["011"]
  | Ty.Time => ["012"]
  | Ty.TimestampTz => ["013"]
  | Ty.TimeTz => ["014"]
  | Ty.Uuid => ["015"]
  | Ty.Numeric precision scale => ["016"; z2b precision; z2b scale]
  | Ty.Json => ["017"]
  | Ty.Jsonb => ["018"]
  | Ty.Interval => ["019"]
  | Ty.Array elem => ["020"; encode_array_elem elem]
  | Ty.Vector n => "021" :: le_bytes 4 n
  | Ty.Macaddr => ["022"]
  | Ty.Inet => ["023"]
  | Ty.Cidr => ["024"]
  | Ty.Bit n => "025" :: le_bytes 4 n
  | Ty.VarBit (Some n) => "026" :: "001" :: le_bytes 4 n
  | Ty.VarBit None => ["026"; "000"]
  | Ty.Range kind => ["027"; range_tag kind]
  | Ty.Macaddr8 => ["028"]
  | Ty.Geometry kind => ["029"; geom_tag kind]
  | Ty.Tsvector => ["030"]
  | Ty.Tsquery => ["031"]
  | Ty.Xml => ["032"]
  | Ty.Enum => ["033"]
  end%byte.

Definition decode_column_type (v : bytes) (at_ : nat) : option (Ty.ColumnType * nat) :=
  tag ← v !! at_;
  let at_ := at_ + 1 in
  let with_u32 (mk : Z -> Ty.ColumnType) := n ← read_u32_at v at_; Some (mk n, at_ + 4) in
  match tag with
  | "000" => Some (Ty.Bool, at_)
  | "001" => Some (Ty.Int, at_)
  | "002" => Some (Ty.SmallInt, at_)
  | "003" => Some (Ty.BigInt, at_)
  | "004" => Some (Ty.Float, at_)
  | "005" => Some (Ty.Real, at_)
  | "006" => Some (Ty.Text, at_)
  | "007" => with_u32 Ty.VarChar
  | "008" => with_u32 Ty.Char
  | "009" => Some (Ty.Bytes, at_)
  | "010" => Some (Ty.Timestamp, at_)
  | "011" => Some (Ty.Date, at_)
  | "012" => Some (Ty.Time, at_)
  | "013" => Some (Ty.TimestampTz, at_)
  | "014" => Some (Ty.TimeTz, at_)
  | "015" => Some (Ty.Uuid, at_)
  | "016" =>
      precision ← v !! at_;
      scale ← v !! (at_ + 1);
      Some (Ty.Numeric (b2z precision) (b2z scale), at_ + 2)
  | "017" => Some (Ty.Json, at_)
  | "018" => Some (Ty.Jsonb, at_)
  | "019" => Some (Ty.Interval, at_)
  | "020" => elem ← v !! at_ ≫= decode_array_elem; Some (Ty.Array elem, at_ + 1)
  | "021" => with_u32 Ty.Vector
  | "022" => Some (Ty.Macaddr, at_)
  | "023" => Some (Ty.Inet, at_)
  | "024" => Some (Ty.Cidr, at_)
  | "025" => with_u32 Ty.Bit
  | "026" =>
      present ← v !! at_;
      let at_ := at_ + 1 in
      if bool_decide (present = "001"%byte)
      then n ← read_u32_at v at_; Some (Ty.VarBit (Some n), at_ + 4)
      else Some (Ty.VarBit None, at_)
  | "027" => kind ← v !! at_ ≫= range_from_tag; Some (Ty.Range kind, at_ + 1)
  | "028" => Some (Ty.Macaddr8, at_)
  | "029" => kind ← v !! at_ ≫= geom_from_tag; Some (Ty.Geometry kind, at_ + 1)
  | "030" => Some (Ty.Tsvector, at_)
  | "031" => Some (Ty.Tsquery, at_)
  | "032" => Some (Ty.Xml, at_)
  | "033" => Some (Ty.Enum, at_)
  | _ => None
  end%byte.

Definition encode_column (c : ColumnDef) : bytes :=
  push_str (column_name c) ++ [bool_byte (nullable c)] ++ encode_column_type (ty c).

(** Any nonzero byte reads as nullable. *)
Definition decode_column (v : bytes) (at_ : nat) : option (ColumnDef * nat) :=
  '(name, at_) ← read_str v at_;
  b ← v !! at_;
  let at_ := at_ + 1 in
  '(ty, at_) ← decode_column_type v at_;
  Some (MkColumn name ty (bool_decide (b <> "000"%byte)), at_).

Definition encode_table_def (def : TableDef) : bytes :=
  push_str (table_schema def) ++ push_str (table_name def) ++
  push_vec encode_column (columns def).

Definition decode_table_def_at (v : bytes) (at_ : nat) : option (TableDef * nat) :=
  '(schema, at_) ← read_str v at_;
  '(name, at_) ← read_str v at_;
  '(columns, at_) ← read_vec decode_column v at_;
  Some (MkTable schema name columns, at_).

Definition decode_table_def (v : bytes) : option TableDef := fst <$> decode_table_def_at v 0.

(** ** Index definitions *)

Definition encode_index_kind (k : IndexKind) : byte :=
  match k with BTree => "000" | Hash => "001" | Brin => "002" end%byte.

Definition decode_index_kind (b : byte) : option IndexKind :=
  match b with
  | "000" => Some BTree | "001" => Some Hash | "002" => Some Brin | _ => None
  end%byte.

(** The fields of the original layout, which a record of an older writer ends with. *)
Definition encode_index_head (def : IndexDef) : bytes :=
  push_str (index_name def) ++ le_bytes 8 (index_table def) ++
  push_vec push_str (index_columns def) ++ push_vec push_str (include def) ++
  [encode_index_kind (index_kind def); bool_byte (index_unique def)].

(** The appended trailer: key expressions and the partial predicate. *)
Definition encode_index_trailer (def : IndexDef) : bytes :=
  push_vec push_str (key_exprs def) ++
  match index_predicate def with
  | Some pred => "001"%byte :: push_str pred
  | None => ["000"%byte]
  end.

Definition encode_index_def (def : IndexDef) : bytes :=
  encode_index_head def ++ encode_index_trailer def.

Definition decode_index_trailer (v : bytes) (at_ : nat) : option (list bytes * option bytes) :=
  if decide (at_ < length v) then
    '(key_exprs, at_) ← read_vec read_str v at_;
    flag ← v !! at_;
    match flag with
    | "000"%byte => Some (key_exprs, None)
    | "001"%byte => '(pred, _) ← read_str v (at_ + 1); Some (key_exprs, Some pred)
    | _ => None
    end
  else Some ([], None).

Definition decode_index_def (v : bytes) : option IndexDef :=
  '(name, at_) ← read_str v 0;
  table ← read_u64 v at_;
  let at_ := at_ + 8 in
  '(columns, at_) ← read_vec read_str v at_;
  '(include, at_) ← read_vec read_str v at_;
  kind ← v !! at_ ≫= decode_index_kind;
  unique ← v !! (at_ + 1) ≫= strict_bool;
  let at_ := at_ + 2 in
  '(key_exprs, predicate) ← decode_index_trailer v at_;
  Some (MkIndex name table columns key_exprs predicate include kind unique).

(** ** Constraints, statistics, sequences *)

Definition encode_fk_action (action : FkAction) : byte :=
  match action with
  | NoAction => "000" | Restrict => "001" | Cascade => "002" | SetNull => "003"
  | SetDefault => "004"
  end%byte.

Definition decode_fk_action (tag : byte) : option FkAction :=
  match tag with
  | "000" => Some NoAction | "001" => Some Restrict | "002" => Some Cascade
  | "003" => Some SetNull | "004" => Some SetDefault | _ => None
  end%byte.

Definition encode_common (p : bytes * Z) : bytes := push_bytes p.1 ++ le_bytes 8 p.2.

Definition decode_common (v : bytes) (at_ : nat) : option ((bytes * Z) * nat) :=
  '(b, at_) ← read_bytes v at_;
  freq ← read_u64 v at_;
  Some ((b, freq), at_ + 8).

Definition encode_column_stats (c : ColumnStats) : bytes :=
  push_str (stats_column c) ++ le_bytes 8 (null_count c) ++ le_bytes 8 (distinct_count c) ++
  push_opt_bytes (stats_min c) ++ push_opt_bytes (stats_max c) ++
  push_vec encode_common (most_common c) ++ push_vec push_bytes (histogram c).

Definition decode_column_stats (v : bytes) (at_ : nat) : option (ColumnStats * nat) :=
  '(column, at_) ← read_str v at_;
  null_count ← read_u64 v at_;
  let at_ := at_ + 8 in
  distinct_count ← read_u64 v at_;
  let at_ := at_ + 8 in
  '(min, at_) ← read_opt_bytes v at_;
  '(max, at_) ← read_opt_bytes v at_;
  '(most_common, at_) ← read_vec decode_common v at_;
  '(histogram, at_) ← read_vec read_bytes v at_;
  Some (MkColumnStats column null_count distinct_count min max most_common histogram, at_).

Definition encode_table_stats (stats : TableStats) : bytes :=
  le_bytes 8 (row_count stats) ++ le_bytes 8 (page_count stats) ++
  push_vec encode_column_stats (stats_columns stats).

Definition decode_table_stats (v : bytes) : option TableStats :=
  row_count ← read_u64 v 0;
  page_count ← read_u64 v 8;
  '(columns, _) ← read_vec decode_column_stats v 16;
  Some (MkTableStats row_count page_count columns).

Definition encode_sequence_def (def : SequenceDef) : bytes :=
  push_str (seq_name def) ++ le_bytes 8 (start def) ++ le_bytes 8 (increment def) ++
  le_bytes 8 (min_value def) ++ le_bytes 8 (max_value def) ++ [bool_byte (cycle def)].

Definition decode_sequence_def (v : bytes) : option SequenceDef :=
  '(name, at_) ← read_str v 0;
  start ← read_i64 v at_;
  increment ← read_i64 v (at_ + 8);
  min_value ← read_i64 v (at_ + 16);
  max_value ← read_i64 v (at_ + 24);
  cycle ← v !! (at_ + 32) ≫= strict_bool;
  Some (MkSequence name start increment min_value max_value cycle).

(** ** Locks of a prepared transaction *)

Module PLock.
Inductive PreparedLock : Set :=
| Row (table page slot : Z) (exclusive : bool)
| Key (table hash : Z) (exclusive : bool)
| Table (table : Z) (exclusive : bool).
#[global] Instance PreparedLock_eq_dec : EqDecision PreparedLock.
Proof. solve_decision. Defined.
End PLock.

Definition wf_lock (l : PLock.PreparedLock) : Prop :=
  match l with
  | PLock.Row table page slot _ => u64 table /\ u64 page /\ u16 slot
  | PLock.Key table hash _ => u64 table /\ u64 hash
  | PLock.Table table _ => u64 table
  end.

Definition encode_prepared_lock (lock : PLock.PreparedLock) : bytes :=
  match lock with
  | PLock.Row table page slot exclusive =>
      ["000"%byte; bool_byte exclusive] ++ le_bytes 8 table ++ le_bytes 8 page ++ le_bytes 2 slot
  | PLock.Key table hash exclusive =>
      ["001"%byte; bool_byte exclusive] ++ le_bytes 8 table ++ le_bytes 8 hash
  | PLock.Table table exclusive =>
      ["002"%byte; bool_byte exclusive] ++ le_bytes 8 table
  end.

Definition decode_prepared_lock (v : bytes) (at_ : nat) : option (PLock.PreparedLock * nat) :=
  kind ← v !! at_;
  exclusive ← v !! (at_ + 1) ≫= strict_bool;
  let at_ := at_ + 2 in
  table ← read_u64 v at_;
  let at_ := at_ + 8 in
  match kind with
  | "000"%byte =>
      page ← read_u64 v at_;
      slot ← read_u16_at v (at_ + 8);
      Some (PLock.Row table page slot exclusive, at_ + 10)
  | "001"%byte =>
      hash ← read_u64 v at_;
      Some (PLock.Key table hash exclusive, at_ + 8)
  | "002"%byte => Some (PLock.Table table exclusive, at_)
  | _ => None
  end.

(** ** Operations *)

Module Op.
Inductive LoggedOp : Set :=
| Insert (txn table row_id : Z) (tuple : bytes)
| InsertBatch (txn table first_row_id : Z) (tuples : list bytes)
| Update (txn table row_id : Z) (tuple : bytes)
| Delete (txn table row_id : Z)
| CreateTable (txn table : Z) (def : TableDef)
| DropTable (txn table : Z)
| CreateIndex (txn index : Z) (def : IndexDef)
| DropIndex (txn index : Z)
| IndexInsert (txn index row_id : Z) (key : bytes)
| IndexDelete (txn index row_id : Z) (key : bytes)
| IndexUnstamp (txn index row_id : Z) (key : bytes)
| AddUnique (txn table index : Z) (name : bytes) (columns : list bytes)
    (primary nulls_not_distinct : bool)
| AddCheck (txn table : Z) (name expr : bytes)
| AddFk (txn : Z) (name : bytes) (child_table : Z) (child_columns : list bytes)
    (parent_table parent_index child_index : Z) (on_delete on_update : FkAction)
| DropConstraint (txn table : Z) (name : bytes)
| SetStats (txn table : Z) (stats : TableStats)
| ClearStats (txn table : Z)
| SeqCreate (id : Z) (def : SequenceDef)
| SeqDrop (txn id : Z)
| SeqSet (id value : Z)
| SeqAlter (id : Z) (def : SequenceDef) (current : option Z)
| AlterSchema (txn table version : Z) (def : TableDef)
| SchemaCreate (txn id : Z) (name : bytes)
| SchemaDrop (txn id : Z) (name : bytes)
| TableRoot (table root next_row_id : Z)
| IndexRoot (index root alive_root : Z)
| FreeAtOpen (pages : list Z)
| PrepareBegin (txn : Z)
| Prepare (txn : Z) (gid owner database : bytes) (prepared_at_ms : Z)
    (locks : list PLock.PreparedLock)
| IndexImageEntry (txn index row_id : Z) (key : bytes).
#[global] Instance LoggedOp_eq_dec : EqDecision LoggedOp.
Proof. solve_decision. Defined.

Definition txn (op : LoggedOp) : Z :=
  match op with
  | Insert txn _ _ _ | InsertBatch txn _ _ _ | Update txn _ _ _ | Delete txn _ _
  | CreateTable txn _ _ | DropTable txn _ | CreateIndex txn _ _ | DropIndex txn _
  | IndexInsert txn _ _ _ | IndexImageEntry txn _ _ _ | IndexDelete txn _ _ _
  | IndexUnstamp txn _ _ _ | AddUnique txn _ _ _ _ _ _ | AddCheck txn _ _ _
  | AddFk txn _ _ _ _ _ _ _ _ | DropConstraint txn _ _ | SetStats txn _ _
  | ClearStats txn _ | AlterSchema txn _ _ _ | SchemaCreate txn _ _ | SchemaDrop txn _ _
  | PrepareBegin txn | Prepare txn _ _ _ _ _ | SeqDrop txn _ => txn
  | SeqCreate _ _ | SeqSet _ _ | SeqAlter _ _ _ | TableRoot _ _ _ | IndexRoot _ _ _
  | FreeAtOpen _ => 0
  end.

Definition is_non_transactional (op : LoggedOp) : bool :=
  match op with
  | SeqDrop txn _ => bool_decide (txn = 0%Z)
  | SeqCreate _ _ | SeqSet _ _ | SeqAlter _ _ _ | TableRoot _ _ _ | IndexRoot _ _ _
  | FreeAtOpen _ => true
  | _ => false
  end.

Definition TAG_INSERT : byte := "000"%byte.
Definition TAG_UPDATE : byte := "001"%byte.
Definition TAG_DELETE : byte := "002"%byte.
Definition TAG_CREATE_TABLE : byte := "003"%byte.
Definition TAG_DROP_TABLE : byte := "004"%byte.
Definition TAG_CREATE_INDEX : byte := "005"%byte.
Definition TAG_DROP_INDEX : byte := "006"%byte.
Definition TAG_INDEX_INSERT : byte := "007"%byte.
Definition TAG_INDEX_DELETE : byte := "008"%byte.
Definition TAG_ADD_UNIQUE : byte := "009"%byte.
Definition TAG_ADD_CHECK : byte := "010"%byte.
Definition TAG_ADD_FK : byte := "011"%byte.
Definition TAG_DROP_CONSTRAINT : byte := "012"%byte.
Definition TAG_SET_STATS : byte := "013"%byte.
Definition TAG_CLEAR_STATS : byte := "014"%byte.
Definition TAG_SEQ_CREATE : byte := "015"%byte.
Definition TAG_SEQ_DROP : byte := "016"%byte.
Definition TAG_SEQ_SET : byte := "017"%byte.
Definition TAG_ALTER_SCHEMA : byte := "018"%byte.
Definition TAG_SCHEMA_CREATE : byte := "019"%byte.
Definition TAG_SCHEMA_DROP : byte := "020"%byte.
Definition TAG_INDEX_UNSTAMP : byte := "021"%byte.
Definition TAG_INSERT_BATCH : byte := "022"%byte.
Definition TAG_SEQ_ALTER : byte := "023"%byte.
Definition TAG_TABLE_ROOT : byte := "024"%byte.
Definition TAG_INDEX_ROOT : byte := "025"%byte.
Definition TAG_INDEX_IMAGE_ENTRY : byte := "026"%byte.
Definition TAG_FREE_AT_OPEN : byte := "027"%byte.
Definition TAG_PREPARE_BEGIN : byte := "028"%byte.
Definition TAG_PREPARE : byte := "029"%byte.

Definition push_key (tag : byte) (txn table : Z) (row_id : option Z) : bytes :=
  [tag] ++ le_bytes 8 txn ++ le_bytes 8 table ++
  match row_id with Some row_id => le_bytes 8 row_id | None => [] end.

(** ** Encoding *)

(** The count, then each tuple behind its length. *)
Definition encode_tuples (tuples : list bytes) : bytes := push_vec push_bytes tuples.

Definition encode_add_unique (index : Z) (name : bytes) (columns : list bytes)
    (primary nulls_not_distinct : bool) : bytes :=
  le_bytes 8 index ++ [bool_byte primary] ++ push_str name ++ push_strs columns ++
  [bool_byte nulls_not_distinct].

Definition encode_add_fk (name : bytes) (child_columns : list bytes)
    (parent_table parent_index child_index : Z) (on_delete on_update : FkAction) : bytes :=
  le_bytes 8 parent_table ++ le_bytes 8 parent_index ++ le_bytes 8 child_index ++
  [encode_fk_action on_delete; encode_fk_action on_update] ++
  push_str name ++ push_strs child_columns.

Definition encode_seq_alter (def : SequenceDef) (current : option Z) : bytes :=
  match current with
  | Some v => "001"%byte :: le_bytes 8 v
  | None => ["000"%byte]
  end ++ encode_sequence_def def.

Definition encode_prepare (gid owner database : bytes) (prepared_at_ms : Z)
    (locks : list PLock.PreparedLock) : bytes :=
  push_str gid ++ push_str owner ++ push_str database ++ le_bytes 8 prepared_at_ms ++
  push_vec encode_prepared_lock locks.

(** The key and the value of the record. *)
Definition to_key_value (op : LoggedOp) : bytes * bytes :=
  match op with
  | Insert txn table row_id tuple => (push_key TAG_INSERT txn table (Some row_id), tuple)
  | InsertBatch txn table first_row_id tuples =>
      (push_key TAG_INSERT_BATCH txn table (Some first_row_id), encode_tuples tuples)
  | Update txn table row_id tuple => (push_key TAG_UPDATE txn table (Some row_id), tuple)
  | Delete txn table row_id => (push_key TAG_DELETE txn table (Some row_id), [])
  | CreateTable txn table def =>
      (push_key TAG_CREATE_TABLE txn table None, encode_table_def def)
  | DropTable txn table => (push_key TAG_DROP_TABLE txn table None, [])
  | CreateIndex txn index def =>
      (push_key TAG_CREATE_INDEX txn index None, encode_index_def def)
  | DropIndex txn index => (push_key TAG_DROP_INDEX txn index None, [])
  | IndexInsert txn index row_id entry =>
      (push_key TAG_INDEX_INSERT txn index (Some row_id), entry)
  | IndexDelete txn index row_id entry =>
      (push_key TAG_INDEX_DELETE txn index (Some row_id), entry)
  | IndexUnstamp txn index row_id entry =>
      (push_key TAG_INDEX_UNSTAMP txn index (Some row_id), entry)
  | AddUnique txn table index name columns primary nulls_not_distinct =>
      (push_key TAG_ADD_UNIQUE txn table None,
       encode_add_unique index name columns primary nulls_not_distinct)
  | AddCheck txn table name expr =>
      (push_key TAG_ADD_CHECK txn table None, push_str name ++ push_bytes expr)
  | AddFk txn name child_table child_columns parent_table parent_index child_index
      on_delete on_update =>
      (push_key TAG_ADD_FK txn child_table None,
       encode_add_fk name child_columns parent_table parent_index child_index on_delete on_update)
  | DropConstraint txn table name =>
      (push_key TAG_DROP_CONSTRAINT txn table None, push_str name)
  | SetStats txn table stats => (push_key TAG_SET_STATS txn table None, encode_table_stats stats)
  | ClearStats txn table => (push_key TAG_CLEAR_STATS txn table None, [])
  | SeqCreate id def => (push_key TAG_SEQ_CREATE 0 id None, encode_sequence_def def)
  | SeqDrop txn id => (push_key TAG_SEQ_DROP txn id None, [])
  | TableRoot table root next_row_id =>
      (push_key TAG_TABLE_ROOT 0 table None, le_bytes 8 root ++ le_bytes 8 next_row_id)
  | IndexRoot index root alive_root =>
      (push_key TAG_INDEX_ROOT 0 index None, le_bytes 8 root ++ le_bytes 8 alive_root)
  | IndexImageEntry txn index row_id entry =>
      (push_key TAG_INDEX_IMAGE_ENTRY txn index (Some row_id), entry)
  | FreeAtOpen pages =>
      (push_key TAG_FREE_AT_OPEN 0 0 None, concat (le_bytes 8 <$> pages))
  | SeqSet id v => (push_key TAG_SEQ_SET 0 id None, le_bytes 8 v)
  | SeqAlter id def current => (push_key TAG_SEQ_ALTER 0 id None, encode_seq_alter def current)
  | AlterSchema txn table version def =>
      (push_key TAG_ALTER_SCHEMA txn table None, le_bytes 4 version ++ encode_table_def def)
  | SchemaCreate txn id name => (push_key TAG_SCHEMA_CREATE txn id None, push_str name)
  | SchemaDrop txn id name => (push_key TAG_SCHEMA_DROP txn id None, push_str name)
  | PrepareBegin txn => (push_key TAG_PREPARE_BEGIN txn 0 None, [])
  | Prepare txn gid owner database prepared_at_ms locks =>
      (push_key TAG_PREPARE txn 0 None, encode_prepare gid owner database prepared_at_ms locks)
  end.

Definition to_record (op : LoggedOp) : Rec.WalRecord :=
  let '(key, value) := to_key_value op in Rec.Put key value.

(** The same record built from borrowed tuples. *)
Definition insert_batch_record (txn table first_row_id : Z) (tuples : list bytes)
    : Rec.WalRecord :=
  let key := push_key TAG_INSERT_BATCH txn table (Some first_row_id) in
  let value :=
    fold_left (fun value tuple => value ++ le_bytes 4 (u32_sat (length tuple)) ++ tuple)
      tuples (le_bytes 4 (u32_sat (length tuples))) in
  Rec.Put key value.

(** ** Decoding *)

Definition decode_tuples (value : bytes) : option (list bytes) :=
  '(tuples, at_) ← read_vec read_bytes value 0;
  if decide (at_ = length value) then Some tuples else None.

Definition decode_add_unique (txn table : Z) (value : bytes) : option LoggedOp :=
  index ← read_u64 value 0;
  primary ← value !! 8 ≫= strict_bool;
  '(name, at_) ← read_str value 9;
  '(columns, at_) ← read_strs value at_;
  nulls_not_distinct ← match value !! at_ with None => Some false | Some b => strict_bool b end;
  Some (AddUnique txn table index name columns primary nulls_not_distinct).

Definition decode_add_check (txn table : Z) (value : bytes) : option LoggedOp :=
  '(name, at_) ← read_str value 0;
  '(expr, _) ← read_bytes value at_;
  Some (AddCheck txn table name expr).

Definition decode_add_fk (txn table : Z) (value : bytes) : option LoggedOp :=
  parent_table ← read_u64 value 0;
  parent_index ← read_u64 value 8;
  child_index ← read_u64 value 16;
  on_delete ← value !! 24 ≫= decode_fk_action;
  on_update ← value !! 25 ≫= decode_fk_action;
  '(name, at_) ← read_str value 26;
  '(child_columns, _) ← read_strs value at_;
  Some (AddFk txn name table child_columns parent_table parent_index child_index
          on_delete on_update).

(** [chunks_exact(8)], the remainder dropped. *)
Fixpoint chunks8 (v : bytes) : list Z :=
  match v with
  | b0 :: b1 :: b2 :: b3 :: b4 :: b5 :: b6 :: b7 :: rest =>
      le_val [b0; b1; b2; b3; b4; b5; b6; b7] :: chunks8 rest
  | _ => []
  end.

Definition decode_free_at_open (value : bytes) : option LoggedOp :=
  if decide (length value mod 8 = 0) then Some (FreeAtOpen (chunks8 value)) else None.

Definition decode_seq_alter (table : Z) (value : bytes) : option LoggedOp :=
  flag ← head value;
  '(current, def_at) ←
    match flag with
    | "000"%byte => Some (None, 1)
    | "001"%byte => v ← read_i64 value 1; Some (Some v, 9)
    | _ => None
    end;
  rest ← get_range value def_at (length value);
  def ← decode_sequence_def rest;
  Some (SeqAlter table def current).

Definition decode_alter_schema (txn table : Z) (value : bytes) : option LoggedOp :=
  version ← read_u32_at value 0;
  '(def, _) ← decode_table_def_at value 4;
  Some (AlterSchema txn table version def).

Definition decode_prepare (txn : Z) (value : bytes) : option LoggedOp :=
  '(gid, at_) ← read_str value 0;
  '(owner, at_) ← read_str value at_;
  '(database, at_) ← read_str value at_;
  prepared_at_ms ← read_u64 value at_;
  let at_ := at_ + 8 in
  '(locks, at_) ← read_vec decode_prepared_lock value at_;
  if decide (at_ = length value)
  then Some (Prepare txn gid owner database prepared_at_ms locks) else None.

(** The arms of the decoder, by tag; [rest] is the key past the tag. *)
Definition from_tagged (tag : byte) (rest value : bytes) (txn table : Z) : option LoggedOp :=
  let with_row (mk : Z -> LoggedOp) := row_id ← read_u64 rest 16; Some (mk row_id) in
  let name_only (mk : bytes -> LoggedOp) := '(name, _) ← read_str value 0; Some (mk name) in
  if decide (tag = TAG_INSERT) then with_row (fun row_id => Insert txn table row_id value)
  else if decide (tag = TAG_INSERT_BATCH) then
    first_row_id ← read_u64 rest 16;
    tuples ← decode_tuples value;
    Some (InsertBatch txn table first_row_id tuples)
  else if decide (tag = TAG_UPDATE) then with_row (fun row_id => Update txn table row_id value)
  else if decide (tag = TAG_DELETE) then with_row (fun row_id => Delete txn table row_id)
  else if decide (tag = TAG_CREATE_TABLE) then
    def ← decode_table_def value; Some (CreateTable txn table def)
  else if decide (tag = TAG_DROP_TABLE) then Some (DropTable txn table)
  else if decide (tag = TAG_CREATE_INDEX) then
    def ← decode_index_def value; Some (CreateIndex txn table def)
  else if decide (tag = TAG_DROP_INDEX) then Some (DropIndex txn table)
  else if decide (tag = TAG_INDEX_INSERT) then
    with_row (fun row_id => IndexInsert txn table row_id value)
  else if decide (tag = TAG_INDEX_DELETE) then
    with_row (fun row_id => IndexDelete txn table row_id value)
  else if decide (tag = TAG_INDEX_UNSTAMP) then
    with_row (fun row_id => IndexUnstamp txn table row_id value)
  else if decide (tag = TAG_ADD_UNIQUE) then decode_add_unique txn table value
  else if decide (tag = TAG_ADD_CHECK) then decode_add_check txn table value
  else if decide (tag = TAG_ADD_FK) then decode_add_fk txn table value
  else if decide (tag = TAG_DROP_CONSTRAINT) then name_only (DropConstraint txn table)
  else if decide (tag = TAG_SET_STATS) then
    stats ← decode_table_stats value; Some (SetStats txn table stats)
  else if decide (tag = TAG_CLEAR_STATS) then Some (ClearStats txn table)
  else if decide (tag = TAG_SEQ_CREATE) then
    def ← decode_sequence_def value; Some (SeqCreate table def)
  else if decide (tag = TAG_SEQ_DROP) then Some (SeqDrop txn table)
  else if decide (tag = TAG_TABLE_ROOT) then
    root ← read_u64 value 0;
    next_row_id ← read_u64 value 8;
    Some (TableRoot table root next_row_id)
  else if decide (tag = TAG_INDEX_ROOT) then
    root ← read_u64 value 0;
    alive_root ← read_u64 value 8;
    Some (IndexRoot table root alive_root)
  else if decide (tag = TAG_FREE_AT_OPEN) then decode_free_at_open value
  else if decide (tag = TAG_INDEX_IMAGE_ENTRY) then
    with_row (fun row_id => IndexImageEntry txn table row_id value)
  else if decide (tag = TAG_SEQ_SET) then
    v ← read_i64 value 0; Some (SeqSet table v)
  else if decide (tag = TAG_SEQ_ALTER) then decode_seq_alter table value
  else if decide (tag = TAG_ALTER_SCHEMA) then decode_alter_schema txn table value
  else if decide (tag = TAG_SCHEMA_CREATE) then name_only (SchemaCreate txn table)
  else if decide (tag = TAG_SCHEMA_DROP) then name_only (SchemaDrop txn table)
  else if decide (tag = TAG_PREPARE_BEGIN) then Some (PrepareBegin txn)
  else if decide (tag = TAG_PREPARE) then decode_prepare txn value
  else None.

Definition from_record (record : Rec.WalRecord) : option LoggedOp :=
  match record with
  | Rec.Put (tag :: rest) value =>
      txn ← read_u64 rest 0;
      table ← read_u64 rest 8;
      from_tagged tag rest value txn table
  | _ => None
  end.

Definition prepare_marker_txn (record : Rec.WalRecord) : option Z :=
  match record with
  | Rec.Put (tag :: rest) _ => if decide (tag = TAG_PREPARE) then read_u64 rest 0 else None
  | _ => None
  end.

Definition roundtrip_check (op : LoggedOp) : bool :=
  bool_decide (from_record (to_record op) = Some op).

(** ** What the operation type holds, and what its record can carry *)

Definition wf_op (op : LoggedOp) : Prop :=
  match op with
  | Insert t a r _ | Update t a r _ | Delete t a r | IndexInsert t a r _
  | IndexDelete t a r _ | IndexUnstamp t a r _ | IndexImageEntry t a r _ =>
      u64 t /\ u64 a /\ u64 r
  | InsertBatch t a r tuples => u64 t /\ u64 a /\ u64 r /\ wf_vec fits_u32 tuples
  | CreateTable t a def => u64 t /\ u64 a /\ wf_table def
  | DropTable t a | DropIndex t a | ClearStats t a | SeqDrop t a => u64 t /\ u64 a
  | CreateIndex t a def => u64 t /\ u64 a /\ wf_index def
  | AddUnique t a i name cols _ _ =>
      u64 t /\ u64 a /\ u64 i /\ wf_str name /\ wf_vec wf_str cols
  | AddCheck t a name expr => u64 t /\ u64 a /\ wf_str name /\ fits_u32 expr
  | AddFk t name a cols p pi ci _ _ =>
      u64 t /\ u64 a /\ wf_str name /\ wf_vec wf_str cols /\ u64 p /\ u64 pi /\ u64 ci
  | DropConstraint t a name | SchemaCreate t a name | SchemaDrop t a name =>
      u64 t /\ u64 a /\ wf_str name
  | SetStats t a stats => u64 t /\ u64 a /\ wf_stats stats
  | SeqCreate a def => u64 a /\ wf_sequence def
  | SeqSet a v => u64 a /\ i64 v
  | SeqAlter a def current => u64 a /\ wf_sequence def /\ wf_opt i64 current
  | AlterSchema t a version def => u64 t /\ u64 a /\ u32 version /\ wf_table def
  | TableRoot a b c | IndexRoot a b c => u64 a /\ u64 b /\ u64 c
  | FreeAtOpen pages => Forall u64 pages
  | PrepareBegin t => u64 t
  | Prepare t gid owner database ms locks =>
      u64 t /\ wf_str gid /\ wf_str owner /\ wf_str database /\ u64 ms /\ wf_vec wf_lock locks
  end.
End Op.
