(* ===== verification/WalOpsFacts.v ===== *)
(** * The codecs of logged operations undo each other

    Every reader of [WalOps] against the two contracts of [Codec]: [Reads], it
    undoes its encoder wherever the bytes stand, and [Sound], it returns only
    values their Rust type holds. *)

From S2P Require Import Prelude Core Codec Catalog WalRecord WalOps.
From stdpp Require Import base list strings.
From Stdlib Require Import ZArith Lia Strings.Byte.

(** ** Round trips *)

#[global] Instance reads_bytes : Reads fits_u32 push_bytes read_bytes.
Proof.
  intros v a x rest Hx C. unfold push_bytes, read_bytes in *.
  rewrite u32_sat_fits in * by done. cursor_norm C. rd. rewrite Nat2Z.id.
  rewrite (cursor_range _ _ _ _ _ C) by done. simpl.
  do 2 f_equal. rewrite length_app, le_bytes_length. lia.
Qed.

#[global] Instance reads_str : Reads wf_str push_str read_str.
Proof.
  intros v a x rest [Hx Hu] C. unfold push_str, read_str in *.
  rewrite u32_sat_fits in * by done. cursor_norm C. rd. rewrite Nat2Z.id.
  rewrite (cursor_range _ _ _ _ _ C) by done. simpl. unfold from_utf8. rewrite Hu. simpl.
  do 2 f_equal. rewrite length_app, le_bytes_length. lia.
Qed.

#[global] Instance reads_strs : Reads (wf_vec wf_str) push_strs read_strs.
Proof. unfold push_strs, read_strs. apply _. Qed.
#[global] Typeclasses Opaque read_strs.

#[global] Instance reads_opt_bytes : Reads (wf_opt fits_u32) push_opt_bytes read_opt_bytes.
Proof.
  intros v a [x|] rest Hx C; unfold push_opt_bytes, read_opt_bytes in *; cursor_norm C; rd.
  - simpl in Hx. rd. simpl. do 2 f_equal. lia.
  - done.
Qed.

Lemma array_elem_roundtrip e : decode_array_elem (encode_array_elem e) = Some e.
Proof. by destruct e. Qed.

Lemma b2z_z2b_u8 z : u8 z -> b2z (z2b z) = z.
Proof. intros H. rewrite b2z_z2b. by apply Z.mod_small. Qed.

#[global] Instance reads_column_type : Reads wf_type encode_column_type decode_column_type.
Proof.
  intros v a x rest Hx C. unfold decode_column_type.
  destruct x as [| | | | | | |n|n| | | | | | | | | | | |n|[n|]|k|p s| | | |e|n|k| | | |];
    simpl in Hx; cbn [encode_column_type] in *; cursor_norm C; rd; cbn [length].
  all: try by repeat f_equal; lia.
  all: try (rd; do 2 f_equal; rewrite ?le_bytes_length; lia).
  - rd. rewrite bool_decide_true by done. rd. do 2 f_equal. rewrite le_bytes_length. lia.
  - rd. by rewrite range_tag_roundtrip; cbn; rewrite <- Nat.add_assoc.
  - rd. rd. cbn. destruct Hx. rewrite !b2z_z2b_u8 by done. do 2 f_equal. lia.
  - rd. rewrite array_elem_roundtrip. cbn. do 2 f_equal. lia.
  - rd. rewrite geom_tag_roundtrip. cbn. do 2 f_equal. lia.
Qed.

Ltac rd_done :=
  cbn; do 2 f_equal; rewrite ?length_app, ?le_bytes_length; cbn [length]; lia.

#[global] Instance reads_column : Reads wf_column encode_column decode_column.
Proof.
  intros v a [n t b] rest [Hn Ht] C. unfold encode_column, decode_column in *. cbn in *.
  cursor_norm C. do 3 rd.
  destruct b; [rewrite bool_decide_true by done|rewrite bool_decide_false by (intros []; done)];
    rd_done.
Qed.

#[global] Instance reads_table_def : Reads wf_table encode_table_def decode_table_def_at.
Proof.
  intros v a [s n cs] rest (Hs & Hn & Hcs) C. unfold encode_table_def, decode_table_def_at in *.
  cbn in *. cursor_norm C. do 3 rd. rd_done.
Qed.

#[global] Instance reads_common : Reads wf_common encode_common decode_common.
Proof.
  intros v a [b f] rest [Hb Hf] C. unfold encode_common, decode_common in *. cbn in *.
  cursor_norm C. do 2 rd. rd_done.
Qed.

#[global] Instance reads_column_stats : Reads wf_column_stats encode_column_stats decode_column_stats.
Proof.
  intros v a [c n d mi ma mc h] rest (Hc & Hn & Hd & Hmi & Hma & Hmc & Hh) C.
  unfold encode_column_stats, decode_column_stats in *. cbn in *. cursor_norm C.
  do 7 rd. rd_done.
Qed.

#[global] Instance reads_prepared_lock : Reads wf_lock encode_prepared_lock decode_prepared_lock.
Proof.
  intros v a [t p s e|t h e|t e] rest Hl C; unfold decode_prepared_lock; simpl in Hl;
    cbn [encode_prepared_lock] in *; cursor_norm C; destruct_and?; do 2 rd;
    rewrite <- Nat.add_assoc in *; cbn [Nat.add] in *; rd.
  - do 2 rd. rd_done.
  - rd. rd_done.
  - rd_done.
Qed.

(** A decoder of a whole value, run on what its encoder wrote. *)
Lemma decode_encode_table_def def : wf_table def -> decode_table_def (encode_table_def def) = Some def.
Proof.
  intros H. unfold decode_table_def. pose proof (cursor_start (encode_table_def def)) as C.
  rewrite <- (app_nil_r (encode_table_def def)) in C at 2.
  by rewrite (reads _ _ _ _ H C).
Qed.

Lemma decode_encode_table_stats s : wf_stats s -> decode_table_stats (encode_table_stats s) = Some s.
Proof.
  destruct s as [r p cs]. intros (Hr & Hp & Hcs). unfold decode_table_stats.
  at_start (encode_table_stats (MkTableStats r p cs)) v C. unfold encode_table_stats in C. cbn in *.
  rewrite <- (app_nil_r (push_vec encode_column_stats cs)) in C. by do 3 rd.
Qed.

Lemma decode_encode_sequence_def d :
  wf_sequence d -> decode_sequence_def (encode_sequence_def d) = Some d.
Proof.
  destruct d as [n s i mi ma c]. intros (Hn & Hs & Hi & Hmi & Hma). unfold decode_sequence_def.
  at_start (encode_sequence_def (MkSequence n s i mi ma c)) v C.
  unfold encode_sequence_def in C. cbn in Hn, Hs, Hi, Hmi, Hma, C.
  rd. generalize dependent (length (push_str n)). intros a C. rd.
  do 4 (rd; rewrite <- ?Nat.add_assoc in C; cbn [Nat.add] in C). done.
Qed.

(** Index definitions: the current layout, and the one that ends before the
    appended trailer. *)
Lemma index_kind_roundtrip k : decode_index_kind (encode_index_kind k) = Some k.
Proof. by destruct k. Qed.

Lemma decode_index_head d v tail :
  wf_index d -> v = encode_index_head d ++ tail ->
  decode_index_def v =
    '(key_exprs, predicate) ← decode_index_trailer v (length (encode_index_head d));
    Some (MkIndex (index_name d) (index_table d) (index_columns d) key_exprs predicate
            (include d) (index_kind d) (index_unique d)).
Proof.
  destruct d as [n t cs ke pr inc k u]. intros (Hn & Ht & Hcs & Hke & Hpr & Hinc) Hv.
  pose proof (cursor_start v) as C. rewrite Hv in C at 2. cbn in Hn, Ht, Hcs, Hke, Hpr, Hinc.
  unfold encode_index_head in *. cbn in *. clear Hv.
  cursor_norm C. unfold decode_index_def. do 5 rd. rewrite index_kind_roundtrip. cbn.
  rd. repeat f_equal. rewrite !length_app, le_bytes_length. cbn [length]. lia.
Qed.

Lemma decode_encode_index_def d : wf_index d -> decode_index_def (encode_index_def d) = Some d.
Proof.
  intros H. unfold encode_index_def. erewrite decode_index_head by done.
  assert (cursor (encode_index_head d ++ encode_index_trailer d) (length (encode_index_head d))
            (encode_index_trailer d)) as C.
  { eapply cursor_adv; [apply cursor_start|]. lia. }
  set (v := encode_index_head d ++ encode_index_trailer d) in *.
  generalize dependent (length (encode_index_head d)). intros a C.
  unfold decode_index_trailer. destruct H as (_ & _ & _ & Hke & Hpr & _).
  destruct d as [n t cs ke pr inc k u]. cbn in *.
  rewrite decide_True; last first.
  { destruct C as [_ C]. apply (f_equal length) in C. rewrite length_drop in C.
    unfold encode_index_trailer, push_vec in C. autorewrite with len in C. lia. }
  unfold encode_index_trailer in C. cbn in C. rd.
  destruct pr as [p|]; rd; [|done]. rewrite <- (app_nil_r (push_str p)) in C. simpl in Hpr.
  by rd.
Qed.

Lemma decode_legacy_index_def d :
  wf_index d ->
  decode_index_def (encode_index_head d) =
    Some (MkIndex (index_name d) (index_table d) (index_columns d) [] None (include d)
            (index_kind d) (index_unique d)).
Proof.
  intros H. erewrite decode_index_head; [|done|by rewrite app_nil_r].
  unfold decode_index_trailer. rewrite decide_False by lia. done.
Qed.

(** ** Operations *)

Import Op.

(** What [push_key] writes after the tag. *)
Definition key_rest (txn table : Z) (row_id : option Z) : bytes :=
  le_bytes 8 txn ++ le_bytes 8 table ++
  match row_id with Some row_id => le_bytes 8 row_id | None => [] end.

Lemma from_record_key tag t a r value :
  u64 t -> u64 a ->
  from_record (Rec.Put (push_key tag t a r) value) = from_tagged tag (key_rest t a r) value t a.
Proof.
  intros Ht Ha. unfold from_record, push_key. cbn [app]. fold (key_rest t a r).
  at_start (key_rest t a r) v C. unfold key_rest in C. by do 2 rd.
Qed.

Lemma key_row t a r : u64 r -> read_u64 (key_rest t a (Some r)) 16 = Some r.
Proof.
  intros Hr. at_start (key_rest t a (Some r)) v C. unfold key_rest in C.
  apply (cursor_adv _ _ 8) in C; [|by len]. apply (cursor_adv _ _ 16) in C; [|by len].
  rewrite <- (app_nil_r (le_bytes 8 r)) in C. by eapply cursor_u64.
Qed.

(** A decoder of one value at the front of a record's value. *)
Lemma reads_whole {A} wf enc (rd : bytes -> nat -> option (A * nat)) `{!Reads wf enc rd} x rest :
  wf x -> rd (enc x ++ rest) 0 = Some (x, length (enc x)).
Proof. intros H. by rewrite (reads _ _ _ _ H (cursor_start _)). Qed.

Lemma decode_encode_tuples ts : wf_vec fits_u32 ts -> decode_tuples (encode_tuples ts) = Some ts.
Proof.
  intros H. unfold decode_tuples, encode_tuples.
  rewrite <- (app_nil_r (push_vec push_bytes ts)) at 1.
  rewrite (reads_whole _ _ _ _ _ H). cbn. by rewrite decide_True.
Qed.

Lemma decode_encode_add_unique t a i n cs p nd :
  u64 i -> wf_str n -> wf_vec wf_str cs ->
  decode_add_unique t a (encode_add_unique i n cs p nd) = Some (AddUnique t a i n cs p nd).
Proof.
  intros Hi Hn Hcs. unfold decode_add_unique.
  at_start (encode_add_unique i n cs p nd) v C. unfold encode_add_unique in C. cursor_norm C. by do 5 rd.
Qed.

(** A record that ends before the appended flag reads as [NULLS DISTINCT]. *)
Lemma decode_legacy_add_unique t a i n cs p :
  u64 i -> wf_str n -> wf_vec wf_str cs ->
  decode_add_unique t a (le_bytes 8 i ++ [bool_byte p] ++ push_str n ++ push_strs cs) =
    Some (AddUnique t a i n cs p false).
Proof.
  intros Hi Hn Hcs. unfold decode_add_unique.
  at_start (le_bytes 8 i ++ [bool_byte p] ++ push_str n ++ push_strs cs) v C. cursor_norm C. rewrite <- (app_nil_r (push_strs cs)) in C. do 4 rd.
  apply cursor_end in C. by rewrite C, lookup_ge_None_2.
Qed.

Lemma fk_action_roundtrip x : decode_fk_action (encode_fk_action x) = Some x.
Proof. by destruct x. Qed.

Lemma decode_encode_add_fk t a n cs p pi ci d u :
  u64 p -> u64 pi -> u64 ci -> wf_str n -> wf_vec wf_str cs ->
  decode_add_fk t a (encode_add_fk n cs p pi ci d u) = Some (AddFk t n a cs p pi ci d u).
Proof.
  intros Hp Hpi Hci Hn Hcs. unfold decode_add_fk.
  at_start (encode_add_fk n cs p pi ci d u) v C. unfold encode_add_fk in C. cursor_norm C.
  do 4 rd. rewrite fk_action_roundtrip. cbn [mbind option_bind]. rd.
  rewrite fk_action_roundtrip. cbn [mbind option_bind]. rd.
  rewrite <- (app_nil_r (push_strs cs)) in C. by rd.
Qed.

Lemma decode_encode_add_check t a n e :
  wf_str n -> fits_u32 e ->
  decode_add_check t a (push_str n ++ push_bytes e) = Some (AddCheck t a n e).
Proof.
  intros Hn He. unfold decode_add_check.
  at_start (push_str n ++ push_bytes e) v C. rewrite <- (app_nil_r (push_bytes e)) in C.
  by do 2 rd.
Qed.

Lemma chunks8_concat ps : Forall u64 ps -> chunks8 (concat (le_bytes 8 <$> ps)) = ps.
Proof.
  induction 1 as [|p ps Hp Hps IH]; [done|]. rewrite fmap_cons. cbn [concat].
  pose proof (le_bytes_length 8 p) as Hl. pose proof (le_val_bytes_u64 p Hp) as Hv.
  destruct (le_bytes 8 p) as [|b0[|b1[|b2[|b3[|b4[|b5[|b6[|b7[|]]]]]]]]]; try done.
  cbn. by rewrite IH, Hv.
Qed.

Lemma decode_encode_free ps :
  Forall u64 ps -> decode_free_at_open (concat (le_bytes 8 <$> ps)) = Some (FreeAtOpen ps).
Proof.
  intros H. unfold decode_free_at_open. rewrite chunks8_concat by done. rewrite decide_True; [done|].
  clear H. induction ps as [|p ps IH]; [done|]. rewrite fmap_cons. cbn [concat].
  rewrite length_app, le_bytes_length. replace (8 + _) with (length (concat (le_bytes 8 <$> ps)) + 1 * 8) by lia.
  by rewrite Nat.Div0.mod_add.
Qed.

Lemma decode_encode_seq_alter a d c :
  wf_sequence d -> wf_opt i64 c ->
  decode_seq_alter a (encode_seq_alter d c) = Some (SeqAlter a d c).
Proof.
  intros Hd Hc. unfold decode_seq_alter, encode_seq_alter.
  assert (forall v e : bytes, get_range (e ++ v) (length e) (length (e ++ v)) = Some v) as Hg.
  { intros v e. eapply (get_range_prefix _ _ _ v []).
    - by rewrite drop_app_length, app_nil_r.
    - by rewrite length_app.
    - rewrite length_app. lia. }
  destruct c as [x|]; cbn [app head mbind option_bind].
  - simpl in Hc. pose proof (cursor_start ("001"%byte :: le_bytes 8 x ++ encode_sequence_def d)) as C.
    apply cursor_cons in C. cbn [Nat.add] in C. rewrite (cursor_i64 _ _ _ _ C Hc).
    cbn [mbind option_bind].
    pose proof (Hg (encode_sequence_def d) ("001"%byte :: le_bytes 8 x)) as E.
    cbn [app length] in E. rewrite le_bytes_length in E.
    cbn [length]. rewrite E. cbn [mbind option_bind].
    by rewrite decode_encode_sequence_def.
  - pose proof (Hg (encode_sequence_def d) ["000"%byte]) as E. cbn [app length] in E. cbn [length].
    rewrite E. cbn [mbind option_bind]. by rewrite decode_encode_sequence_def.
Qed.

Lemma decode_encode_alter_schema t a ver d :
  u32 ver -> wf_table d ->
  decode_alter_schema t a (le_bytes 4 ver ++ encode_table_def d) = Some (AlterSchema t a ver d).
Proof.
  intros Hv Hd. unfold decode_alter_schema.
  at_start (le_bytes 4 ver ++ encode_table_def d) v C.
  rewrite <- (app_nil_r (encode_table_def d)) in C. by do 2 rd.
Qed.

Lemma decode_encode_prepare t g o db ms ls :
  wf_str g -> wf_str o -> wf_str db -> u64 ms -> wf_vec wf_lock ls ->
  decode_prepare t (encode_prepare g o db ms ls) = Some (Prepare t g o db ms ls).
Proof.
  intros Hg Ho Hd Hm Hl. unfold decode_prepare.
  at_start (encode_prepare g o db ms ls) v C. unfold encode_prepare in C.
  rewrite <- (app_nil_r (push_vec encode_prepared_lock ls)) in C.
  do 5 rd. apply cursor_end in C. by rewrite decide_True.
Qed.

(** Select the arm of a known tag. *)
Ltac arm :=
  unfold from_tagged;
  repeat first [rewrite decide_True by reflexivity | rewrite decide_False by discriminate].

Lemma from_to_record op : wf_op op -> from_record (to_record op) = Some op.
Proof.
  intros H. destruct op; cbn [wf_op] in H; destruct_and?; unfold to_record; cbn [to_key_value];
    rewrite from_record_key by wf_side; arm;
    rewrite ?key_row by done; cbn [mbind option_bind];
    rewrite ?decode_encode_tuples, ?decode_encode_table_def, ?decode_encode_index_def,
      ?decode_encode_table_stats, ?decode_encode_sequence_def, ?decode_encode_add_unique,
      ?decode_encode_add_check, ?decode_encode_add_fk, ?decode_encode_free,
      ?decode_encode_seq_alter, ?decode_encode_alter_schema, ?decode_encode_prepare by done;
    try done.
  all: match goal with
       | |- context [read_str (push_str ?n)] => rewrite <- (app_nil_r (push_str n));
           by rewrite (reads_whole _ _ read_str _ _ ltac:(eassumption))
       | |- context [read_u64 (?a ++ le_bytes 8 ?b) 0] =>
           at_start (a ++ le_bytes 8 b) v C; rewrite <- (app_nil_r (le_bytes 8 b)) in C; by do 2 rd
       | |- context [read_i64 (le_bytes 8 ?b) 0] =>
           at_start (le_bytes 8 b) v C; rewrite <- (app_nil_r (le_bytes 8 b)) in C; by rd
       end.
Qed.

(** The record built from borrowed tuples is the operation's own. *)
Lemma insert_batch_record_eq t a r ts :
  insert_batch_record t a r ts = to_record (InsertBatch t a r ts).
Proof.
  unfold insert_batch_record, to_record. cbn [to_key_value]. f_equal.
  unfold encode_tuples, push_vec. generalize (le_bytes 4 (u32_sat (length ts))) as acc.
  induction ts as [|x ts IH]; intros acc; cbn [fold_left].
  - by rewrite app_nil_r.
  - rewrite IH, fmap_cons. cbn [concat]. unfold push_bytes. by rewrite <- !app_assoc.
Qed.

Lemma prepare_marker_spec op :
  wf_op op ->
  prepare_marker_txn (to_record op) =
    match op with Prepare t _ _ _ _ _ => Some t | _ => None end.
Proof.
  intros H. destruct op; unfold to_record; cbn [to_key_value]; try done.
  cbn [wf_op] in H. destruct_and?. unfold prepare_marker_txn, push_key. cbn [app].
  rewrite decide_True by done.
  match goal with |- context [read_u64 ?k 0] => at_start k v C end. by eapply cursor_u64.
Qed.

(** ** Every decoded value is one its type holds *)

#[global] Instance sound_bytes : Sound fits_u32 read_bytes.
Proof.
  intros v a x a'. unfold read_bytes.
  intros (n & Hn & (out & Hg & [= <- <-])%bind_Some)%bind_Some.
  apply get_range_length in Hg. apply read_u32_range in Hn. unfold fits_u32, u32 in *. lia.
Qed.

#[global] Instance sound_str : Sound wf_str read_str.
Proof.
  intros v a x a'. unfold read_str.
  intros (n & Hn & (out & (s & Hg & Hu)%bind_Some & [= <- <-])%bind_Some)%bind_Some.
  unfold from_utf8 in Hu. case_match; simplify_eq.
  apply get_range_length in Hg. apply read_u32_range in Hn.
  split; [|done]. unfold fits_u32, u32 in *. lia.
Qed.

#[global] Instance sound_strs : Sound (wf_vec wf_str) read_strs.
Proof. unfold read_strs. apply _. Qed.

(** Take a successful decoding apart, collecting what each read guarantees. *)
Ltac decoded :=
  repeat match goal with
  | H : _ ≫= _ = Some _ |- _ => apply bind_Some in H as (? & ? & ?)
  | H : (let '(_, _) := ?x in _) = Some _ |- _ => destruct x
  | H : (if decide ?P then _ else _) = Some _ |- _ => destruct (decide P)
  | H : (if bool_decide ?P then _ else _) = Some _ |- _ => destruct (bool_decide P)
  | H : None = Some _ |- _ => discriminate H
  | H : Some _ = Some _ |- _ => injection H as H; subst
  | H : (_, _) = (_, _) |- _ => injection H as H; subst
  | H : _ = ?x |- _ => is_var x; subst x
  end.

Ltac ranges :=
  repeat match goal with
  | H : read_u16_at _ _ = Some _ |- _ => apply read_u16_range in H
  | H : read_u32_at _ _ = Some _ |- _ => apply read_u32_range in H
  | H : read_u64 _ _ = Some _ |- _ => apply read_u64_range in H
  | H : read_i64 _ _ = Some _ |- _ => apply read_i64_range in H
  | H : ?rd _ _ = Some (_, _) |- _ => apply (sound (rd := rd)) in H
  end.

#[global] Instance sound_opt_bytes : Sound (wf_opt fits_u32) read_opt_bytes.
Proof.
  intros v a x a'. unfold read_opt_bytes. intros (b & _ & H)%bind_Some.
  destruct b; decoded; ranges; try done.
Qed.

#[global] Instance sound_column_type : Sound wf_type decode_column_type.
Proof.
  intros v a x a'. unfold decode_column_type. intros (b & _ & H)%bind_Some.
  destruct b; try discriminate H; decoded; ranges; try done; split; apply b2z_range.
Qed.

#[global] Instance sound_column : Sound wf_column decode_column.
Proof. intros v a x a' H. unfold decode_column in H. decoded. ranges. by split. Qed.

#[global] Instance sound_table_def : Sound wf_table decode_table_def_at.
Proof. intros v a x a' H. unfold decode_table_def_at in H. decoded. ranges. by split_and!. Qed.

#[global] Instance sound_common : Sound wf_common decode_common.
Proof. intros v a x a' H. unfold decode_common in H. decoded. ranges. by split. Qed.

#[global] Instance sound_column_stats : Sound wf_column_stats decode_column_stats.
Proof. intros v a x a' H. unfold decode_column_stats in H. decoded. ranges. by split_and!. Qed.

#[global] Instance sound_prepared_lock : Sound wf_lock decode_prepared_lock.
Proof.
  intros v a x a' H. unfold decode_prepared_lock in H.
  apply bind_Some in H as (k & _ & H).
  apply bind_Some in H as (e & _ & H). apply bind_Some in H as (t & Ht & H).
  destruct k; try discriminate H; decoded; ranges; by split_and?.
Qed.

Lemma wf_vec_nil {A} (wf : A -> Prop) : wf_vec wf [].
Proof. split; [|constructor]. by unfold fits_u32, u32. Qed.

Lemma sound_index_def v d : decode_index_def v = Some d -> wf_index d.
Proof.
  intros H. unfold decode_index_def in H. decoded. ranges.
  match goal with H : decode_index_trailer _ _ = _ |- _ => unfold decode_index_trailer in H end.
  case_decide; [|decoded; pose proof (wf_vec_nil wf_str); by split_and!].
  decoded. match goal with H : match ?b with _ => _ end = _ |- _ => destruct b end;
    try discriminate; decoded; ranges; by split_and!.
Qed.

Lemma sound_table v d : decode_table_def v = Some d -> wf_table d.
Proof. intros ([? ?] & H & ->)%fmap_Some. by apply sound in H. Qed.

Lemma sound_table_stats v s : decode_table_stats v = Some s -> wf_stats s.
Proof. intros H. unfold decode_table_stats in H. decoded. ranges. by split_and!. Qed.

Lemma sound_sequence_def v d : decode_sequence_def v = Some d -> wf_sequence d.
Proof. intros H. unfold decode_sequence_def in H. decoded. ranges. by split_and!. Qed.

Lemma chunks8_range v : Forall u64 (chunks8 v).
Proof.
  induction v as [v IH] using (induction_ltof1 _ length).
  destruct v as [|b0[|b1[|b2[|b3[|b4[|b5[|b6[|b7 r]]]]]]]]; try constructor.
  - by apply le_val_u64.
  - apply IH. unfold ltof. simpl. lia.
Qed.

Lemma sound_tuples v ts : decode_tuples v = Some ts -> wf_vec fits_u32 ts.
Proof. intros H. unfold decode_tuples in H. decoded. by ranges. Qed.

Lemma sound_seq_alter a v op : u64 a -> decode_seq_alter a v = Some op -> wf_op op.
Proof.
  intros Ha H. unfold decode_seq_alter in H. apply bind_Some in H as (f & _ & H).
  apply bind_Some in H as ([c at_] & Hc & H). decoded.
  match goal with H : decode_sequence_def _ = _ |- _ => apply sound_sequence_def in H end.
  split_and!; try done. destruct f; decoded; ranges; done.
Qed.

Lemma from_tagged_wf tag rest v t a op :
  u64 t -> u64 a -> from_tagged tag rest v t a = Some op -> wf_op op.
Proof.
  intros Ht Ha H. unfold from_tagged in H.
  repeat (case_decide; [clear dependent tag|]); try discriminate H.
  all: try (apply sound_seq_alter in H; done).
  all: unfold decode_add_unique, decode_add_check, decode_add_fk, decode_alter_schema,
         decode_prepare, decode_free_at_open in H.
  all: decoded; ranges.
  all: repeat match goal with
       | H : decode_index_def _ = _ |- _ => apply sound_index_def in H
       | H : decode_table_stats _ = _ |- _ => apply sound_table_stats in H
       | H : decode_sequence_def _ = _ |- _ => apply sound_sequence_def in H
       | H : decode_tuples _ = _ |- _ => apply sound_tuples in H
       | H : decode_table_def _ = _ |- _ => apply sound_table in H
       end.
  all: try by cbn; split_and?.
  apply chunks8_range.
Qed.

Lemma from_record_wf r op : from_record r = Some op -> wf_op op.
Proof.
  destruct r as [| | | | | |[|tag rest] v|]; try done. cbn [from_record]. intros H.
  apply bind_Some in H as (t & Ht & H). apply bind_Some in H as (a & Ha & H).
  apply read_u64_range in Ht, Ha. exact (from_tagged_wf _ _ _ _ _ _ Ht Ha H).
Qed.
