(* ===== verification/WalLog.v ===== *)
(** * The log: sealing, the writer, the reader and recovery
      ([nusadb-wal/src/crypto.rs], [writer.rs], [reader.rs])

    The checksum, the compressor and the cipher are library code: [Libs] holds
    them as operations and [LibsOk] what the log relies on. The sink of a writer
    is a [Write] instance, as in the source; a reader's source is the list of
    what successive [read] calls deliver. *)

From S2P Require Import Prelude Core Codec WalRecord.
From stdpp Require Import base list strings.
From Stdlib Require Import ZArith Lia Strings.Byte.

(** ** Library operations *)

Class Libs : Type := {
  crc32 : bytes -> Z;
  compress_prepend_size : bytes -> bytes;
  decompress_size_prepended : bytes -> option bytes;
  Aead : Type;
  (** [encrypt aead nonce aad plain]: the ciphertext and the tag. *)
  encrypt : Aead -> bytes -> bytes -> bytes -> option (bytes * bytes);
  (** [decrypt aead nonce aad body tag]. *)
  decrypt : Aead -> bytes -> bytes -> bytes -> bytes -> option bytes;
}.

Definition NONCE_LEN : nat := 12.
Definition TAG_LEN : nat := 16.
Definition SEAL_OVERHEAD : nat := NONCE_LEN + TAG_LEN.

(** A checksum is 32 bits wide; decompression and decryption undo compression
    and encryption; encryption keeps the length and makes a 16-byte tag. *)
Class LibsOk (L : Libs) : Prop := {
  crc32_range b : u32 (crc32 b);
  lz4_roundtrip b : decompress_size_prepended (compress_prepend_size b) = Some b;
  aead_lengths k n a p c t :
    encrypt k n a p = Some (c, t) -> length c = length p /\ length t = TAG_LEN;
  aead_roundtrip k n a p c t : encrypt k n a p = Some (c, t) -> decrypt k n a c t = Some p;
}.

Definition W64 : Z := 18446744073709551616.

Section Log.
Context {L : Libs}.

(** ** Sealing *)

Record Sealer := MkSealer { aead : Aead; base : bytes; counter : Z }.

(** The nonce of the next seal, and the sealer with that seal counted; both
    additions wrap. *)
Definition next_nonce (s : Sealer) : bytes * Sealer :=
  let n := counter s in
  let word := le_val (take 8 (base s)) in
  (le_bytes 8 ((word + n) mod W64) ++ drop 8 (base s),
   MkSealer (aead s) (base s) ((n + 1) mod W64)).

(** The bytes appended to [out]. *)
Definition seal_into (s : Sealer) (aad plaintext : bytes) : result bytes * Sealer :=
  let '(nonce, s) := next_nonce s in
  match encrypt (aead s) nonce aad plaintext with
  | Some (body, tag) => (Ok (nonce ++ body ++ tag), s)
  | None => (Err (Io Other "encryption failed"), s)
  end.

Definition seal (s : Sealer) (aad plaintext : bytes) : result bytes * Sealer :=
  seal_into s aad plaintext.

(** [open_into] with an output of [out_len] bytes: [None] is [false]. *)
Definition open_into (s : Sealer) (aad sealed : bytes) (out_len : nat) : option bytes :=
  if decide (length sealed < SEAL_OVERHEAD) then None
  else
    let body_len := length sealed - SEAL_OVERHEAD in
    if decide (out_len <> body_len) then None
    else
      nonce ← get_range sealed 0 NONCE_LEN;
      body ← get_range sealed NONCE_LEN (NONCE_LEN + body_len);
      tag ← get_range sealed (NONCE_LEN + body_len) (length sealed);
      decrypt (aead s) nonce aad body tag.

Definition open (s : Sealer) (aad sealed : bytes) : option bytes :=
  if decide (length sealed < SEAL_OVERHEAD) then None
  else open_into s aad sealed (length sealed - SEAL_OVERHEAD).

Record RecordSeal := MkRecordSeal { sealer : Sealer; domain : byte; scope : Z }.

Definition aad (s : RecordSeal) (lsn : Z) : bytes :=
  [domain s] ++ le_bytes 8 (scope s) ++ le_bytes 8 lsn.

(** ** Writing *)

Definition BODY_STORED : byte := "000"%byte.
Definition BODY_COMPRESSED : byte := "001"%byte.
Definition COMPRESS_MIN_BYTES : nat := 64.
Definition APPEND_BUF_CAP : Z := 65536.
Definition MAX_RECORD_BYTES : Z := 67108864.

(** [std::io::Write]: what the writer uses of its sink. *)
Class Write (W : Type) : Type := {
  write_all : W -> bytes -> result unit * W;
  flush_sink : W -> result unit * W;
}.

(** [Vec<u8>]: never fails. *)
#[global] Instance vec_write : Write bytes := {|
  write_all out b := (Ok tt, out ++ b);
  flush_sink out := (Ok tt, out);
|}.

Record WalWriter (W : Type) := MkWriter {
  inner : W;
  next_lsn : Z;
  wseal : option RecordSeal;
  append_buf : bytes;
}.
#[global] Arguments MkWriter {W}.
#[global] Arguments inner {W}.
#[global] Arguments next_lsn {W}.
#[global] Arguments wseal {W}.
#[global] Arguments append_buf {W}.

Definition new {W} (sink : W) : WalWriter W := MkWriter sink 1 None [].

Definition resume {W} (sink : W) (start : Z) : WalWriter W :=
  MkWriter sink (Z.max start 1) None [].

Definition with_seal {W} (w : WalWriter W) (s : RecordSeal) : WalWriter W :=
  MkWriter (inner w) (next_lsn w) (Some s) (append_buf w).

Definition is_sealed {W} (w : WalWriter W) : bool :=
  match wseal w with Some _ => true | None => false end.

(** [saturating_add(1)]. *)
Definition advance_past {W} (w : WalWriter W) (lsn : Z) : WalWriter W :=
  if (next_lsn w <=? lsn)%Z
  then MkWriter (inner w) (Z.min (lsn + 1) U64_MAX) (wseal w) (append_buf w)
  else w.

(** The body before sealing: [[kind][stored or compressed payload]]. *)
Definition plain_body (payload : bytes) : bytes :=
  if decide (length payload <= COMPRESS_MIN_BYTES) then BODY_STORED :: payload
  else BODY_COMPRESSED :: compress_prepend_size payload.

Definition seal_body (s : option RecordSeal) (lsn : Z) (body : bytes)
    : result bytes * option RecordSeal :=
  match s with
  | None => (Ok body, None)
  | Some s =>
      let '(r, sealer') := seal_into (sealer s) (aad s lsn) body in
      (r, Some (MkRecordSeal sealer' (domain s) (scope s)))
  end.

Definition frame (lsn : Z) (body : bytes) : bytes :=
  let body_len := Z.of_nat (length body) in
  let crc := crc32 (le_bytes 8 lsn ++ le_bytes 4 body_len ++ body) in
  le_bytes 8 lsn ++ le_bytes 4 body_len ++ le_bytes 4 crc ++ body.

Definition body_too_long : Error :=
  Io Other "WAL record body exceeds the maximum a reader accepts".

(** [self.append_buf] drained to the sink; kept when the write fails. *)
Definition drain {W} `{!Write W} : M Error (WalWriter W) unit := fun w =>
  match write_all (inner w) (append_buf w) with
  | (Ok _, sink) => (Ok tt, MkWriter sink (next_lsn w) (wseal w) [])
  | (Err e, sink) => (Err e, MkWriter sink (next_lsn w) (wseal w) (append_buf w))
  | (Panic, sink) => (Panic, MkWriter sink (next_lsn w) (wseal w) (append_buf w))
  | (Diverge, sink) => (Diverge, MkWriter sink (next_lsn w) (wseal w) (append_buf w))
  end.

Definition set_wseal {W} (s : option RecordSeal) : M Error (WalWriter W) unit :=
  fun w => (Ok tt, MkWriter (inner w) (next_lsn w) s (append_buf w)).

Definition buffer {W} (b : bytes) : M Error (WalWriter W) unit :=
  fun w => (Ok tt, MkWriter (inner w) (next_lsn w) (wseal w) (append_buf w ++ b)).

(** [self.next_lsn += 1]: overflow is a panic. *)
Definition bump_lsn {W} : M Error (WalWriter W) unit := fun w =>
  if decide (next_lsn w < U64_MAX)%Z
  then (Ok tt, MkWriter (inner w) (next_lsn w + 1) (wseal w) (append_buf w))
  else (Panic, w).

Definition get_writer {W} : M Error (WalWriter W) (WalWriter W) := fun w => (Ok w, w).

(** The length that passed the [MAX_RECORD_BYTES] test always fits the frame's
    [u32] prefix. *)
Definition append {W} `{!Write W} (record : Rec.WalRecord) : M Error (WalWriter W) Z :=
  let* w := get_writer in
  let lsn := next_lsn w in
  let* scratch := slift (Rec.encode_into record) in
  let '(sealed, s) := seal_body (wseal w) lsn (plain_body scratch) in
  set_wseal s >>
  let* body := slift sealed in
  if decide (MAX_RECORD_BYTES < Z.of_nat (length body))%Z then sfail body_too_long
  else
    buffer (frame lsn body) >>
    let* w := get_writer in
    (if decide (APPEND_BUF_CAP <= Z.of_nat (length (append_buf w)))%Z then drain else sret tt) >>
    bump_lsn >>
    sret lsn.

Definition flush {W} `{!Write W} : M Error (WalWriter W) unit :=
  let* w := get_writer in
  (if decide (append_buf w = []) then sret tt else drain) >>
  fun w =>
    let '(r, sink) := flush_sink (inner w) in
    (r, MkWriter sink (next_lsn w) (wseal w) (append_buf w)).

(** A failed final write is ignored. *)
Definition into_inner {W} `{!Write W} (w : WalWriter W) : W :=
  if decide (append_buf w = []) then inner w else (write_all (inner w) (append_buf w)).2.

(** ** Reading *)

(** [frame_crc]: the checksum of header and body together. *)
Definition frame_crc (header12 body : bytes) : Z := crc32 (header12 ++ body).

Definition decode_plain_body (body : bytes) : option Rec.WalRecord :=
  match body with
  | [] => None
  | kind :: data =>
      payload ←
        (if decide (kind = BODY_STORED) then Some data
         else if decide (kind = BODY_COMPRESSED) then decompress_size_prepended data
         else None);
      Rec.decode payload
  end.

(** What successive [read] calls of a source deliver: bytes (a call takes at most
    the first chunk), an interruption, or a failure; nothing left is end of file. *)
Inductive ReadStep : Type :=
| Chunk (b : bytes)
| Interrupted
| Failed (e : Error).

(** Read exactly [n] bytes; [None] when the source ends first. *)
Fixpoint fill (src : list ReadStep) (n : nat) : result (option bytes) * list ReadStep :=
  match n with
  | O => (Ok (Some []), src)
  | S _ =>
      match src with
      | [] => (Ok None, [])
      | Interrupted :: src => fill src n
      | Failed e :: src => (Err e, src)
      | Chunk [] :: src => (Ok None, src)
      | Chunk c :: src =>
          if decide (n < length c) then (Ok (Some (take n c)), Chunk (drop n c) :: src)
          else
            match fill src (n - length c) with
            | (Ok (Some r), src) => (Ok (Some (c ++ r)), src)
            | other => other
            end
      end
  end.

Inductive ReadOutcome : Type :=
| Read_ (lsn : Z) (record : Rec.WalRecord)
| Eof
| Corrupt_.

Record WalReader := MkReader { source : list ReadStep; rseal : option RecordSeal }.

Definition fill_reader (n : nat) : M Error WalReader (option bytes) := fun r =>
  let '(res, src) := fill (source r) n in (res, MkReader src (rseal r)).

Definition open_body (s : option RecordSeal) (lsn : Z) (body : bytes) : option bytes :=
  match s with
  | None => Some body
  | Some s => open (sealer s) (aad s lsn) body
  end.

Definition header_lsn (header : bytes) : Z := le_val (take 8 header).
Definition header_len (header : bytes) : Z := le_val (take 4 (drop 8 header)).
Definition header_crc (header : bytes) : Z := le_val (take 4 (drop 12 header)).

Definition read_record_checked : M Error WalReader ReadOutcome :=
  let* h := fill_reader 16 in
  match h with
  | None => sret Eof
  | Some header =>
      let lsn := header_lsn header in
      let len := header_len header in
      let crc := header_crc header in
      if decide (MAX_RECORD_BYTES < len)%Z then sret Eof
      else
        let* b := fill_reader (Z.to_nat len) in
        match b with
        | None => sret Eof
        | Some body =>
            if decide (frame_crc (take 12 header) body <> crc) then sret Corrupt_
            else fun r =>
              match open_body (rseal r) lsn body with
              | None => (Ok Corrupt_, r)
              | Some body =>
                  match decode_plain_body body with
                  | None => (Ok Corrupt_, r)
                  | Some record => (Ok (Read_ lsn record), r)
                  end
              end
        end
  end.

Definition read_record : M Error WalReader (option (Z * Rec.WalRecord)) :=
  let* o := read_record_checked in
  sret (match o with Read_ lsn record => Some (lsn, record) | Eof | Corrupt_ => None end).

(** [while let Some(entry) = self.read_record()? { out.push(entry) }], on fuel. *)
Fixpoint replay_loop (fuel : nat) (out : list (Z * Rec.WalRecord))
    : M Error WalReader (list (Z * Rec.WalRecord)) :=
  match fuel with
  | O => slift Diverge
  | S fuel =>
      let* entry := read_record in
      match entry with
      | Some e => replay_loop fuel (out ++ [e])
      | None => sret out
      end
  end.

(** Every record takes at least one byte of the source. *)
Definition source_bytes (src : list ReadStep) : bytes :=
  concat ((fun s => match s with Chunk b => b | _ => [] end) <$> src).

Definition replay : M Error WalReader (list (Z * Rec.WalRecord)) := fun r =>
  replay_loop (S (length (source_bytes (source r)))) [] r.

(** ** Recovery of a buffered log *)

Inductive FrameParse : Type :=
| Record (lsn : Z) (record : Rec.WalRecord) (next : nat)
| Incomplete
| Forged
| Corrupt.

Definition parse_frame (buf : bytes) (off : nat) (s : option RecordSeal) : FrameParse :=
  match get_range buf off (off + 16) with
  | None => Incomplete
  | Some header =>
      let lsn := header_lsn header in
      let len := header_len header in
      let crc := header_crc header in
      if decide (MAX_RECORD_BYTES < len)%Z then Corrupt
      else
        let body_start := off + 16 in
        match get_range buf body_start (body_start + Z.to_nat len) with
        | None => Incomplete
        | Some body =>
            if decide (frame_crc (take 12 header) body <> crc) then Corrupt
            else
              match open_body s lsn body with
              | None => Forged
              | Some body =>
                  match decode_plain_body body with
                  | None => Corrupt
                  | Some record => Record lsn record (body_start + Z.to_nat len)
                  end
              end
        end
  end.

Record RecoveredPrefix := MkPrefix {
  records : list (Z * Rec.WalRecord);
  good_bytes : nat;
  last_lsn : Z;
}.

Record MidLogHole := MkHole {
  hole_at : nat;
  next_valid_at : option nat;
  forged : bool;
}.

(** [while cand < buf.len()], with [n] candidates left. *)
Fixpoint find_valid_loop (buf : bytes) (n cand : nat) (last : Z) (s : option RecordSeal)
    : option nat :=
  match n with
  | O => None
  | S n =>
      match parse_frame buf cand s with
      | Record lsn _ _ =>
          if decide (last < lsn)%Z then Some cand else find_valid_loop buf n (cand + 1) last s
      | _ => find_valid_loop buf n (cand + 1) last s
      end
  end.

Definition find_valid_after (buf : bytes) (start : nat) (last : Z) (s : option RecordSeal)
    : option nat :=
  find_valid_loop buf (length buf - start) start last s.

Fixpoint recover_loop (fuel : nat) (buf : bytes) (s : option RecordSeal) (off : nat)
    (acc : RecoveredPrefix) : res MidLogHole RecoveredPrefix :=
  match fuel with
  | O => Diverge
  | S fuel =>
      match parse_frame buf off s with
      | Record lsn record next =>
          recover_loop fuel buf s next (MkPrefix (records acc ++ [(lsn, record)]) next lsn)
      | Incomplete => Ok acc
      | Forged => Err (MkHole off None true)
      | Corrupt =>
          let next_valid := find_valid_after buf (off + 1) (last_lsn acc) s in
          if decide (next_valid <> None \/ good_bytes acc = 0)
          then Err (MkHole off next_valid false)
          else Ok acc
      end
  end.

(** A frame is at least 16 bytes, so one turn per byte is enough. *)
Definition recover_sealed_prefix (buf : bytes) (s : option RecordSeal)
    : res MidLogHole RecoveredPrefix :=
  recover_loop (S (length buf)) buf s 0 (MkPrefix [] 0 0).

Definition recover_prefix (buf : bytes) : res MidLogHole RecoveredPrefix :=
  recover_sealed_prefix buf None.
End Log.
