(* ===== verification/WalLogFacts.v ===== *)
(** * Facts about frames, recovery and the writer

    A frame parses back to its record wherever it stands, a frame cut short by
    the end of the buffer is [Incomplete], and what the recovery loop and the
    writer do follows from these two. *)

From S2P Require Import Prelude Core Codec WalRecord WalLog.
From stdpp Require Import base list strings.
From Stdlib Require Import ZArith Lia Strings.Byte.

Section Facts.
Context {L : Libs} {LOk : LibsOk L}.

Definition wf_sealer (s : Sealer) : Prop := length (base s) = NONCE_LEN.
Definition wf_seal (s : option RecordSeal) : Prop :=
  match s with Some s => wf_sealer (sealer s) | None => True end.

(** Two seals that open the same records: same key and context. *)
Definition same_key (s1 s2 : option RecordSeal) : Prop :=
  match s1, s2 with
  | None, None => True
  | Some s1, Some s2 =>
      aead (sealer s1) = aead (sealer s2) /\ domain s1 = domain s2 /\ scope s1 = scope s2
  | _, _ => False
  end.

Lemma same_key_refl s : same_key s s.
Proof. by destruct s. Qed.

Lemma next_nonce_length s : wf_sealer s -> length (next_nonce s).1 = NONCE_LEN.
Proof.
  unfold wf_sealer, next_nonce. simpl. intros H. rewrite length_app, le_bytes_length, length_drop, H.
  done.
Qed.

Lemma open_seal s s' a p b :
  wf_sealer s -> seal_into s a p = (Ok b, s') ->
  wf_sealer s' /\ aead s' = aead s /\ forall s2, aead s2 = aead s -> open s2 a b = Some p.
Proof.
  intros Hs. unfold seal_into. pose proof (next_nonce_length s Hs) as Hn.
  destruct (next_nonce s) as [nonce s1] eqn:E. injection E as E1 E2. subst s1. cbn [fst] in Hn.
  destruct (encrypt _ _ _ _) as [[c t]|] eqn:He; intros [= <- <-].
  split_and!; [done|done|]. intros s2 Hk. cbn [aead] in He.
  destruct (aead_lengths _ _ _ _ _ _ He) as [Hc Ht].
  unfold open, open_into. rewrite !length_app, Hn, Hc, Ht.
  replace (NONCE_LEN + (length p + TAG_LEN) - SEAL_OVERHEAD) with (length p)
    by (unfold SEAL_OVERHEAD; lia).
  rewrite !decide_False by (unfold SEAL_OVERHEAD; lia).
  rewrite (get_range_prefix _ 0 NONCE_LEN nonce (c ++ t)) by (done || lia).
  cbn [mbind option_bind].
  rewrite (get_range_prefix _ NONCE_LEN (NONCE_LEN + length p) c t);
    [|by rewrite drop_app_length' by done|lia|rewrite !length_app; lia].
  cbn [mbind option_bind].
  rewrite (get_range_prefix _ _ _ t []); [| |lia|rewrite !length_app; lia].
  - cbn [mbind option_bind]. rewrite Hk. by apply aead_roundtrip.
  - rewrite app_nil_r, app_assoc. apply drop_app_length'. rewrite length_app. lia.
Qed.

Lemma decode_plain payload : decode_plain_body (plain_body payload) = Rec.decode payload.
Proof.
  unfold plain_body. case_decide; cbn [decode_plain_body].
  - by rewrite decide_True.
  - rewrite decide_False, decide_True by done. by rewrite lz4_roundtrip.
Qed.

(** ** Frames *)

(** The frame [f] holds the entry [e] for readers with the seal [s]. *)
Definition frame_of (s : option RecordSeal) (e : Z * Rec.WalRecord) (f : bytes) : Prop :=
  exists body, f = frame e.1 body /\ u64 e.1 /\ (Z.of_nat (length body) <= MAX_RECORD_BYTES)%Z /\
    (open_body s e.1 body ≫= decode_plain_body) = Some e.2.

Lemma frame_length lsn body : length (frame lsn body) = 16 + length body.
Proof. unfold frame. rewrite !length_app, !le_bytes_length. lia. Qed.

Lemma frame_header lsn body :
  exists h, frame lsn body = h ++ body /\ length h = 16 /\
    (u64 lsn -> header_lsn h = lsn) /\
    ((Z.of_nat (length body) <= MAX_RECORD_BYTES)%Z -> header_len h = Z.of_nat (length body)) /\
    header_crc h = crc32 (take 12 h ++ body) /\
    take 12 h = le_bytes 8 lsn ++ le_bytes 4 (Z.of_nat (length body)).
Proof.
  set (c := crc32 (le_bytes 8 lsn ++ le_bytes 4 (Z.of_nat (length body)) ++ body)).
  exists (le_bytes 8 lsn ++ le_bytes 4 (Z.of_nat (length body)) ++ le_bytes 4 c).
  assert (take 12 (le_bytes 8 lsn ++ le_bytes 4 (Z.of_nat (length body)) ++ le_bytes 4 c) =
          le_bytes 8 lsn ++ le_bytes 4 (Z.of_nat (length body))) as Ht.
  { rewrite app_assoc. apply take_app_length'. by rewrite length_app, !le_bytes_length. }
  unfold header_lsn, header_len, header_crc. split_and!.
  - unfold frame. by rewrite <- !app_assoc.
  - by rewrite !length_app, !le_bytes_length.
  - intros H. rewrite take_app_length' by by rewrite le_bytes_length. by apply le_val_bytes_u64.
  - intros H. rewrite drop_app_length' by by rewrite le_bytes_length.
    rewrite take_app_length' by by rewrite le_bytes_length.
    apply le_val_bytes_u32. unfold MAX_RECORD_BYTES in H. unfold u32. lia.
  - rewrite Ht. rewrite app_assoc, drop_app_length' by by rewrite length_app, !le_bytes_length.
    rewrite take_ge by by rewrite le_bytes_length.
    rewrite le_val_bytes_u32 by apply crc32_range. unfold c. by rewrite <- app_assoc.
  - done.
Qed.

Lemma parse_whole buf off s e f rest :
  frame_of s e f -> cursor buf off (f ++ rest) ->
  parse_frame buf off s = Record e.1 e.2 (off + length f).
Proof.
  intros (body & -> & Hl & Hb & Ho) C. rewrite frame_length.
  destruct (frame_header e.1 body) as (h & Ef & Hh & H1 & H2 & H3 & H4).
  rewrite Ef, <- app_assoc in C. unfold parse_frame.
  rewrite (cursor_range _ _ _ _ _ C) by lia. rewrite H1, H2, H3 by done.
  rewrite decide_False by lia. rewrite Nat2Z.id.
  apply (cursor_adv _ _ (off + 16)) in C; [|lia].
  rewrite (cursor_range _ _ _ _ _ C) by done.
  rewrite decide_False by tauto.
  apply bind_Some in Ho as (b & -> & ->). f_equal. lia.
Qed.

(** A proper prefix of a frame at the end of the buffer, the empty one included. *)
Lemma parse_torn buf off s e f k :
  frame_of s e f -> k < length f -> cursor buf off (take k f) ->
  parse_frame buf off s = Incomplete.
Proof.
  intros (body & -> & Hl & Hb & Ho) Hk C. rewrite frame_length in Hk.
  destruct (frame_header e.1 body) as (h & Ef & Hh & H1 & H2 & H3 & H4).
  assert (length buf = off + k) as Hbuf.
  { destruct C as [Ha C]. apply (f_equal length) in C.
    rewrite length_drop, length_take, frame_length in C. lia. }
  unfold parse_frame. destruct (decide (k < 16)).
  { unfold get_range. by rewrite decide_False by lia. }
  rewrite Ef, take_app_ge in C by lia. rewrite (cursor_range _ _ _ _ _ C) by lia.
  rewrite H2 by done. rewrite decide_False by lia. rewrite Nat2Z.id.
  unfold get_range. by rewrite decide_False by lia.
Qed.

Lemma parse_end buf off s : cursor buf off [] -> parse_frame buf off s = Incomplete.
Proof.
  intros C. apply cursor_end in C. unfold parse_frame, get_range. by rewrite decide_False by lia.
Qed.

(** Parsing consumes at least a header, within the buffer. *)
Lemma parse_advances buf off s lsn r next :
  parse_frame buf off s = Record lsn r next -> off + 16 <= next /\ next <= length buf.
Proof.
  unfold parse_frame. destruct (get_range buf off (off + 16)); [|done].
  case_decide; [done|].
  destruct (get_range buf (off + 16) _) as [b|] eqn:E; [|done].
  case_decide; [done|]. repeat case_match; try done. intros [= <- <- <-].
  unfold get_range in E. case_decide; [|done]. lia.
Qed.

(** ** Recovery *)

(** The records parsed one after the other from [off], ending at [off']. *)
Inductive frames (buf : bytes) (s : option RecordSeal) : nat -> list (Z * Rec.WalRecord) -> nat -> Prop :=
| frames_nil off : frames buf s off [] off
| frames_cons off lsn r next es off' :
    parse_frame buf off s = Record lsn r next -> frames buf s next es off' ->
    frames buf s off ((lsn, r) :: es) off'.

Definition last_lsn_of (d : Z) (es : list (Z * Rec.WalRecord)) : Z :=
  match last es with Some e => e.1 | None => d end.

Definition stops (buf : bytes) (s : option RecordSeal) (off : nat) : Prop :=
  forall lsn r next, parse_frame buf off s <> Record lsn r next.

(** What the loop returns where it stops. *)
Definition verdict (buf : bytes) (s : option RecordSeal) (p : RecoveredPrefix)
    : res MidLogHole RecoveredPrefix :=
  match parse_frame buf (good_bytes p) s with
  | Forged => Err (MkHole (good_bytes p) None true)
  | Corrupt =>
      let next_valid := find_valid_after buf (good_bytes p + 1) (last_lsn p) s in
      if decide (next_valid <> None \/ good_bytes p = 0)
      then Err (MkHole (good_bytes p) next_valid false) else Ok p
  | _ => Ok p
  end.

Lemma last_lsn_cons d e es : last_lsn_of d (e :: es) = last_lsn_of e.1 es.
Proof.
  unfold last_lsn_of. destruct es as [|e' es]; [done|]. rewrite last_cons_cons.
  destruct (last (e' :: es)) eqn:E; [done|]. by apply last_None in E.
Qed.

Lemma frames_bound buf s off es off' :
  frames buf s off es off' -> off + 16 * length es <= off' /\ (es <> [] -> off' <= length buf).
Proof.
  induction 1 as [|off lsn r next es off' Hp Hf [IH1 IH2]]; simpl; [split; [lia|done]|].
  apply parse_advances in Hp. split; [lia|]. intros _.
  destruct es; [|by apply IH2]. inversion Hf; subst. lia.
Qed.

Lemma recover_loop_spec buf s off es off' fuel acc :
  frames buf s off es off' -> stops buf s off' -> good_bytes acc = off -> length es < fuel ->
  recover_loop fuel buf s off acc =
    verdict buf s (MkPrefix (records acc ++ es) off' (last_lsn_of (last_lsn acc) es)).
Proof.
  intros Hf. revert fuel acc.
  induction Hf as [off|off lsn r next es off' Hp Hf IH]; intros [|fuel] acc Hs Ha Hl; simpl in Hl; try lia.
  - cbn [recover_loop]. unfold verdict. cbn [good_bytes last_lsn]. rewrite app_nil_r.
    unfold last_lsn_of. cbn [last]. destruct acc as [rs g l]. cbn in Ha. subst g. cbn [records last_lsn].
    destruct (parse_frame buf off s) eqn:E; try done. by apply Hs in E.
  - cbn [recover_loop]. rewrite Hp. rewrite IH by (done || lia). cbn [records last_lsn].
    by rewrite <- app_assoc, last_lsn_cons.
Qed.

(** From every offset there is a last frame. *)
Lemma frames_exist buf s off :
  exists es off', frames buf s off es off' /\ stops buf s off'.
Proof.
  remember (length buf - off) as n eqn:Hn. revert off Hn.
  induction n as [n IH] using lt_wf_ind; intros off ->.
  destruct (parse_frame buf off s) as [lsn r next| | |] eqn:E;
    [|by exists [], off; split; [constructor|congruence]..].
  pose proof (parse_advances _ _ _ _ _ _ E).
  destruct (IH (length buf - next) ltac:(lia) next eq_refl) as (es & off' & Hf & Hs).
  exists ((lsn, r) :: es), off'. split; [by econstructor|done].
Qed.

Lemma recover_frames buf s es off :
  frames buf s 0 es off -> stops buf s off ->
  recover_sealed_prefix buf s = verdict buf s (MkPrefix es off (last_lsn_of 0 es)).
Proof.
  intros Hf Hs. unfold recover_sealed_prefix. erewrite recover_loop_spec; [done|done|done|done|].
  apply frames_bound in Hf as [Hb He]. destruct es; simpl in *; [lia|].
  specialize (He ltac:(done)). lia.
Qed.

Lemma find_valid_none buf n c last s :
  find_valid_loop buf n c last s = None ->
  forall c' lsn r next, c <= c' < c + n -> parse_frame buf c' s = Record lsn r next -> (lsn <= last)%Z.
Proof.
  revert c. induction n as [|n IH]; intros c H c' lsn r next Hc Hp; [lia|].
  cbn [find_valid_loop] in H. destruct (decide (c' = c)) as [->|].
  - rewrite Hp in H. case_decide; [done|lia].
  - assert (find_valid_loop buf n (c + 1) last s = None) as H'.
    { destruct (parse_frame buf c s); [case_decide; [done|]|..]; done. }
    eapply (IH _ H' c'); [lia|done].
Qed.

Lemma find_valid_some buf n c last s c' :
  find_valid_loop buf n c last s = Some c' ->
  exists lsn r next, parse_frame buf c' s = Record lsn r next /\ (last < lsn)%Z /\ c <= c'.
Proof.
  revert c. induction n as [|n IH]; intros c H; [done|]. cbn [find_valid_loop] in H.
  destruct (parse_frame buf c s) as [lsn r next| | |] eqn:E; [case_decide|..]; simplify_eq; eauto 6;
    apply IH in H as (l & r' & n' & Hp & Hl & Hc); exists l, r', n'; (split_and!; [done|done|lia]).
Qed.

Lemma find_valid_after_spec buf start last s :
  match find_valid_after buf start last s with
  | Some c => exists lsn r next, parse_frame buf c s = Record lsn r next /\ (last < lsn)%Z /\ start <= c
  | None => forall c lsn r next, start <= c -> parse_frame buf c s = Record lsn r next -> (lsn <= last)%Z
  end.
Proof.
  unfold find_valid_after. destruct (find_valid_loop _ _ _ _ _) as [c|] eqn:E.
  - by apply find_valid_some in E.
  - intros c lsn r next Hc Hp. pose proof (parse_advances _ _ _ _ _ _ Hp).
    eapply find_valid_none; [done| |done]. lia.
Qed.

(** ** Logs cut at any byte *)

(** How many of the frames [k] bytes hold whole. *)
Fixpoint complete (k : nat) (fs : list bytes) : nat :=
  match fs with
  | [] => 0
  | f :: fs => if decide (length f <= k) then S (complete (k - length f) fs) else 0
  end.

Lemma cut_frames buf s es fs k off :
  Forall2 (frame_of s) es fs -> cursor buf off (take k (concat fs)) ->
  let j := complete k fs in
  frames buf s off (take j es) (off + length (concat (take j fs))) /\
  stops buf s (off + length (concat (take j fs))).
Proof.
  intros HF. revert k off. induction HF as [|e f es fs Hf HF IH]; intros k off C; cbn [complete].
  - cbn [concat] in C. rewrite take_nil in C. simpl. rewrite Nat.add_0_r. split; [constructor|].
    intros lsn r next. by rewrite (parse_end _ _ _ C).
  - cbn [concat] in C. case_decide as Hk.
    + rewrite take_app_ge in C by done. pose proof (parse_whole _ _ _ _ _ _ Hf C) as Hp.
      apply (cursor_adv _ _ (off + length f)) in C; [|done]. apply IH in C as [C1 C2].
      cbn [take concat]. rewrite length_app, Nat.add_assoc. split; [|done].
      destruct e. econstructor; [|done]. done.
    + rewrite take_app_le in C by lia. cbn [take concat]. rewrite Nat.add_0_r. split; [constructor|].
      intros lsn r next. rewrite (parse_torn _ _ _ _ _ k Hf ltac:(lia) C). done.
Qed.

Lemma cut_incomplete buf s es fs k off :
  Forall2 (frame_of s) es fs -> cursor buf off (take k (concat fs)) ->
  parse_frame buf (off + length (concat (take (complete k fs) fs))) s = Incomplete.
Proof.
  intros HF. revert k off. induction HF as [|e f es fs Hf HF IH]; intros k off C; cbn [complete].
  - cbn [concat] in C. rewrite take_nil in C. rewrite Nat.add_0_r. by apply parse_end.
  - cbn [concat] in C. case_decide as Hk.
    + rewrite take_app_ge in C by done. cbn [take concat]. rewrite length_app, Nat.add_assoc.
      apply IH. by eapply cursor_adv.
    + rewrite take_app_le in C by lia. cbn [take concat]. rewrite Nat.add_0_r.
      eapply parse_torn; [done| |done]. lia.
Qed.

Lemma recover_cut s es fs k :
  Forall2 (frame_of s) es fs ->
  let j := complete k fs in
  recover_sealed_prefix (take k (concat fs)) s =
    Ok (MkPrefix (take j es) (length (concat (take j fs))) (last_lsn_of 0 (take j es))).
Proof.
  intros HF j. pose proof (cursor_start (take k (concat fs))) as C.
  destruct (cut_frames _ _ _ _ _ _ HF C) as [Hf Hs].
  erewrite recover_frames by done. unfold verdict. cbn [good_bytes].
  by rewrite (cut_incomplete _ _ _ _ _ _ HF C).
Qed.

(** Whole frames in a row. *)
Lemma frames_app buf s es fs rest off :
  Forall2 (frame_of s) es fs -> cursor buf off (concat fs ++ rest) ->
  frames buf s off es (off + length (concat fs)).
Proof.
  intros HF. revert off. induction HF as [|e f es fs Hf HF IH]; intros off C; cbn [concat] in *.
  - rewrite Nat.add_0_r. constructor.
  - rewrite <- app_assoc in C. pose proof (parse_whole _ _ _ _ _ _ Hf C) as Hp.
    rewrite length_app, Nat.add_assoc. destruct e. econstructor; [exact Hp|].
    apply IH. by eapply cursor_adv.
Qed.

(** ** The writer on a [Vec] *)

(** Everything written: what reached the sink and what is still buffered. *)
Definition contents (w : WalWriter bytes) : bytes := inner w ++ append_buf w.

Lemma seal_body_spec s lsn b r s' :
  wf_seal s -> seal_body s lsn b = (r, s') ->
  wf_seal s' /\ same_key s s' /\
  forall body, r = Ok body -> forall s2, same_key s2 s -> open_body s2 lsn body = Some b.
Proof.
  intros Hs. destruct s as [s|]; cbn [seal_body].
  - destruct (seal_into _ _ _) as [r0 sl] eqn:E. intros [= <- <-]. simpl in Hs.
    destruct r0 as [body|e| |]; simpl.
    + destruct (open_seal _ _ _ _ _ Hs E) as (H1 & H2 & H3). split_and!; [done|done|done|done|].
      intros ? [= <-] [s2|] Hk2; [|done]. destruct Hk2 as (Hk & Hd & Hc). simpl. unfold aad.
      rewrite Hd, Hc. by apply H3.
    + unfold seal_into in E. simpl in E. case_match; [by case_match|]. injection E as <- <-.
      by split_and!.
    + unfold seal_into in E. simpl in E. by repeat case_match.
    + unfold seal_into in E. simpl in E. by repeat case_match.
  - intros [= <- <-]. split_and!; [done|done|]. by intros ? [= <-] [|].
Qed.

Lemma seal_body_shape s lsn b :
  match (seal_body s lsn b).1 with Panic | Diverge => False | _ => True end.
Proof.
  destruct s as [s|]; [|done]. cbn [seal_body]. unfold seal_into. cbn.
  by destruct (encrypt _ _ _ _) as [[? ?]|].
Qed.

Lemma record_encode_cases r :
  match Rec.encode r with Ok _ => True | Err _ => ~ Rec.carried r | Panic | Diverge => False end.
Proof.
  destruct (decide (Rec.carried r)) as [Hc|Hc].
  - by destruct (Rec.encode_carried r Hc) as [p ->].
  - by rewrite (Rec.encode_refused r Hc).
Qed.

(** What an append does: it adds one frame of its record under the next number,
    or it is refused and leaves the log as it was, or the numbers have run out. *)
Lemma append_spec w r res w' :
  wf_seal (wseal w) -> u64 (next_lsn w) -> Rec.wf r -> append r w = (res, w') ->
  wf_seal (wseal w') /\ same_key (wseal w) (wseal w') /\
  match res with
  | Ok lsn =>
      lsn = next_lsn w /\ next_lsn w' = (lsn + 1)%Z /\ u64 (next_lsn w') /\
      exists f, contents w' = contents w ++ f /\
        forall s, same_key s (wseal w) -> frame_of s (lsn, r) f
  | Err _ => contents w' = contents w /\ next_lsn w' = next_lsn w
  | Panic => next_lsn w = U64_MAX
  | Diverge => False
  end.
Proof.
  intros Hs Hl Hr. unfold append, get_writer, sbind, slift, sfail, sret, set_wseal, buffer, bump_lsn.
  destruct (Rec.encode_into r) as [p|e| |] eqn:He;
    [|intros [= <- <-]; split_and!; (done || apply same_key_refl)
     |by pose proof (record_encode_cases r) as H; unfold Rec.encode in H; rewrite He in H..].
  destruct (seal_body (wseal w) (next_lsn w) (plain_body p)) as [sb s'] eqn:E.
  destruct (seal_body_spec _ _ _ _ _ Hs E) as (Hs' & Hk & Ho).
  destruct sb as [body|e| |]; [|intros [= <- <-]; by split_and!|..].
  2,3: by pose proof (seal_body_shape (wseal w) (next_lsn w) (plain_body p)) as Hx; rewrite E in Hx.
  case_decide as Hm; [intros [= <- <-]; by split_and!|]. cbn [append_buf inner next_lsn wseal].
  assert (forall s, same_key s (wseal w) -> frame_of s (next_lsn w, r) (frame (next_lsn w) body)) as Hf.
  { intros s2 Hs2. exists body. split_and!; [done|done|lia|]. cbn [fst snd].
    rewrite (Ho _ eq_refl s2 Hs2). cbn [mbind option_bind]. rewrite decode_plain.
    rewrite <- (app_nil_r p). by apply Rec.decode_encode. }
  case_decide as Hc; cbn [drain write_all vec_write append_buf inner next_lsn wseal];
    case_decide as Hn; intros [= <- <-]; cbn; unfold contents; cbn;
    (split; [done|split; [done|]]); try (unfold u64, U64_MAX in *; lia).
  all: split_and!; [done|done|unfold u64, U64_MAX in *; lia|].
  all: exists (frame (next_lsn w) body); split; [|done]; by rewrite ?app_nil_r, app_assoc.
Qed.

Fixpoint append_all (rs : list Rec.WalRecord) : M Error (WalWriter bytes) (list Z) :=
  match rs with
  | [] => sret []
  | r :: rs => let* l := append r in let* ls := append_all rs in sret (l :: ls)
  end.

Lemma same_key_trans s1 s2 s3 : same_key s1 s2 -> same_key s2 s3 -> same_key s1 s3.
Proof. destruct s1, s2, s3; simpl; try done. intros (->&->&->) (->&->&->). done. Qed.

Lemma append_all_spec w rs ls w' :
  wf_seal (wseal w) -> u64 (next_lsn w) -> Forall Rec.wf rs -> append_all rs w = (Ok ls, w') ->
  wf_seal (wseal w') /\ same_key (wseal w) (wseal w') /\ u64 (next_lsn w') /\
  next_lsn w' = (next_lsn w + Z.of_nat (length rs))%Z /\
  ls = seqZ (next_lsn w) (Z.of_nat (length rs)) /\
  exists fs, contents w' = contents w ++ concat fs /\
    forall s, same_key s (wseal w) -> Forall2 (frame_of s) (zip ls rs) fs.
Proof.
  intros Hs Hl Hr. revert w ls Hs Hl. induction Hr as [|r rs Hr Hrs IH]; intros w ls Hs Hl; cbn [append_all].
  { intros [= <- <-]. split_and!; [done|apply same_key_refl|done|simpl; lia|done|].
    exists []. split; [by rewrite app_nil_r|constructor]. }
  intros (l & w1 & Ha & (ls' & w2 & Hall & [= <- <-])%sbind_inv)%sbind_inv.
  destruct (append_spec _ _ _ _ Hs Hl Hr Ha) as (Hs1 & Hk1 & -> & Hn1 & Hu1 & f & Hf1 & Hf2).
  destruct (IH _ _ Hs1 Hu1 Hall) as (Hs2 & Hk2 & Hu2 & Hn2 & -> & fs & Hc & HF).
  split_and!; [done|by eapply same_key_trans|done|cbn [length]; lia| |].
  - cbn [length]. rewrite Nat2Z.inj_succ, (seqZ_cons _ (Z.succ _)) by lia.
    by rewrite Hn1, Z.pred_succ.
  - exists (f :: fs). split; [rewrite Hc, Hf1; cbn [concat]; by rewrite app_assoc|].
    intros s Hk. cbn [zip]. constructor; [by apply Hf2|]. apply HF. by eapply same_key_trans.
Qed.

Lemma flush_spec w :
  exists w', flush w = (Ok tt, w') /\ contents w' = contents w /\ inner w' = contents w /\
    next_lsn w' = next_lsn w /\ wseal w' = wseal w.
Proof.
  unfold flush, get_writer, sbind, contents. destruct w as [i n s b]. cbn.
  case_decide as Hb; cbn.
  - subst b. eexists; split_and!; [done|cbn..]; by rewrite ?app_nil_r.
  - eexists; split_and!; [done|cbn..]; by rewrite ?app_nil_r.
Qed.

Lemma into_inner_contents w : into_inner w = contents w.
Proof.
  unfold into_inner, contents. destruct w as [i n s b]. cbn. case_decide; [subst|done].
  by rewrite app_nil_r.
Qed.

Lemma complete_app fs1 fs2 k :
  length (concat fs1) <= k -> length fs1 <= complete k (fs1 ++ fs2).
Proof.
  revert k. induction fs1 as [|f fs1 IH]; intros k Hk; cbn in *; [lia|].
  rewrite length_app in Hk. rewrite decide_True by lia. apply le_n_S, IH. lia.
Qed.

Lemma complete_all fs k : length (concat fs) <= k -> complete k fs = length fs.
Proof.
  revert k. induction fs as [|f fs IH]; intros k Hk; cbn in *; [done|].
  rewrite length_app in Hk. rewrite decide_True by lia. f_equal. apply IH. lia.
Qed.

Lemma complete_bytes fs k : length (concat (take (complete k fs) fs)) <= k.
Proof.
  revert k. induction fs as [|f fs IH]; intros k; cbn; [lia|]. case_decide; cbn; [|lia].
  rewrite length_app. specialize (IH (k - length f)). lia.
Qed.

Lemma zip_seqZ_take {A} first (l : list A) j :
  take j (zip (seqZ first (Z.of_nat (length l))) l) =
  zip (seqZ first (Z.of_nat (Nat.min j (length l)))) (take (Nat.min j (length l)) l).
Proof.
  revert first j. induction l as [|x l IH]; intros first [|j]; cbn [length Nat.min]; try done.
  rewrite !Nat2Z.inj_succ, !(seqZ_cons _ (Z.succ _)) by lia. cbn [zip zip_with take].
  by rewrite !Z.pred_succ, IH.
Qed.

(** ** The streaming reader *)

(** A source that delivers its bytes in any pieces, interrupted at will, without failing. *)
Definition clean (src : list ReadStep) : Prop :=
  Forall (fun s => match s with Chunk b => b <> [] | Interrupted => True | Failed _ => False end) src.

Lemma fill_clean src n :
  clean src ->
  (n <= length (source_bytes src) ->
   exists src', fill src n = (Ok (Some (take n (source_bytes src))), src') /\ clean src' /\
     source_bytes src' = drop n (source_bytes src)) /\
  (length (source_bytes src) < n -> exists src', fill src n = (Ok None, src')).
Proof.
  intros Hc. revert n. induction Hc as [|st src Hst Hc IH]; intros n.
  { destruct n; cbn; split; intros; try lia; [|by eauto].
    exists []. split_and!; [done|constructor|done]. }
  destruct n as [|n]; [split; [|intros; exfalso; lia]; intros _; exists (st :: src); split_and!; try done;
    by constructor|].
  destruct st as [b| |e]; [|by apply (IH (S n))|done]. destruct b as [|x b]; [done|].
  cbn [fill source_bytes fmap list_fmap concat]. fold (source_bytes src).
  set (c := x :: b) in *. rewrite length_app. destruct (decide (S n < length c)) as [Hn|Hn].
  - split; [|intros; exfalso; lia]. intros _. eexists. split_and!; [by rewrite take_app_le by lia| |].
    + constructor; [|done]. intros Hd. apply (f_equal length) in Hd. rewrite length_drop in Hd.
      change (length c - S n = 0) in Hd. lia.
    + cbn [source_bytes fmap list_fmap concat]. fold (source_bytes src). by rewrite drop_app_le by lia.
  - destruct (IH (S n - length c)) as [IH1 IH2]. split; intros Hl.
    + destruct (IH1 ltac:(lia)) as (src' & -> & Hc' & Hs'). exists src'.
      split_and!; [|done|]; [by rewrite take_app_ge by lia|by rewrite Hs', drop_app_ge by lia].
    + destruct (IH2 ltac:(lia)) as (src' & ->). eauto.
Qed.

(** Reading the next record is parsing the frame at the reader's position. *)
Lemma read_record_parse buf off s src :
  clean src -> cursor buf off (source_bytes src) ->
  match parse_frame buf off s with
  | Record lsn r next =>
      exists src', read_record (MkReader src s) = (Ok (Some (lsn, r)), MkReader src' s) /\
        clean src' /\ cursor buf next (source_bytes src')
  | _ => exists rd, read_record (MkReader src s) = (Ok None, rd)
  end.
Proof.
  intros Hc [Ha Hd]. unfold read_record, read_record_checked, fill_reader, sbind, sret, parse_frame.
  assert (length (source_bytes src) = length buf - off) as Hl by by rewrite <- Hd, length_drop.
  cbn [source rseal]. destruct (fill_clean src 16 Hc) as [F1 F2]. unfold get_range.
  case_decide as Hr; last first.
  { destruct F2 as (src' & ->); [lia|]. eauto. }
  destruct F1 as (src1 & -> & Hc1 & Hs1); [lia|]. replace (off + 16 - off) with 16 by lia.
  rewrite Hd. set (h := take 16 (source_bytes src)).
  case_decide as Hm; [eauto|].
  destruct (fill_clean src1 (Z.to_nat (header_len h)) Hc1) as [F3 F4].
  assert (length (source_bytes src1) = length buf - off - 16) as Hl1
    by (rewrite Hs1, length_drop; lia).
  cbn [source rseal]. case_decide as Hb; last first.
  { destruct F4 as (src' & ->); [lia|]. eauto. }
  destruct F3 as (src2 & -> & Hc2 & Hs2); [lia|].
  replace (off + 16 + Z.to_nat (header_len h) - (off + 16)) with (Z.to_nat (header_len h)) by lia.
  assert (drop (off + 16) buf = source_bytes src1) as -> by by rewrite Hs1, <- Hd, drop_drop.
  case_decide as Hcrc; [eauto|]. cbn [rseal].
  destruct (open_body s _ _) as [body|]; [|eauto].
  destruct (decode_plain_body body) as [r|]; [|eauto].
  exists src2. split_and!; [done|done|]. split; [lia|].
  rewrite Hs2, Hs1, <- Hd, !drop_drop. f_equal. lia.
Qed.

Lemma replay_loop_spec buf s off es off' src fuel out :
  frames buf s off es off' -> stops buf s off' -> clean src -> cursor buf off (source_bytes src) ->
  length es < fuel ->
  exists rd, replay_loop fuel out (MkReader src s) = (Ok (out ++ es), rd).
Proof.
  intros Hf. revert src fuel out.
  induction Hf as [off|off lsn r next es off' Hp Hf IH]; intros src [|fuel] out Hs Hc C Hl;
    simpl in Hl; try lia; cbn [replay_loop]; unfold sbind.
  - pose proof (read_record_parse buf off s src Hc C) as H. rewrite app_nil_r.
    destruct (parse_frame buf off s) eqn:E; [by apply Hs in E|..]; destruct H as (rd & ->); by eexists.
  - pose proof (read_record_parse buf off s src Hc C) as H. rewrite Hp in H.
    destruct H as (src' & -> & Hc' & C').
    destruct (IH src' fuel (out ++ [(lsn, r)]) Hs Hc' C' ltac:(lia)) as (rd & ->).
    exists rd. by rewrite <- app_assoc.
Qed.

Lemma replay_frames buf s es off src :
  frames buf s 0 es off -> stops buf s off -> clean src -> source_bytes src = buf ->
  exists rd, replay (MkReader src s) = (Ok es, rd).
Proof.
  intros Hf Hs Hc Hb. unfold replay. cbn [source]. rewrite Hb.
  eapply (replay_loop_spec _ _ _ _ _ _ _ []); [done|done|done|rewrite Hb; apply cursor_start|].
  apply frames_bound in Hf as [H1 H2]. destruct es; simpl in *; [lia|].
  specialize (H2 ltac:(done)). lia.
Qed.
End Facts.
