(* ===== verification/GroupCommit.v ===== *)
(** * Group commit ([nusadb-wal/src/group_commit.rs])

    The leader/follower coordinator of concurrent [fsync]s. Each critical section
    of [commit] (the code between taking and releasing the mutex, or between a
    wake-up and the next wait) is a function on [Inner]; a step relation
    interleaves the sections of any number of committers with the appends and
    the [fsync]s of the log. The [flush] closure is the caller's: the log tracks
    what has been appended and what really is on disk, and a successful flush
    makes some sequence number at or past the leader's durable. A [flush] returns,
    with a sequence number or an error; one that panics is not modelled. *)

From S2P Require Import Prelude Core.
From stdpp Require Import base list strings relations.
From Stdlib Require Import ZArith Lia.

Record Inner := MkInner { durable : Z; syncing : bool }.

(** [GroupCommit::new]. *)
Definition new : Inner := MkInner 0 false.

Definition durable_seq (i : Inner) : Z := durable i.

(** Where one call of [commit(seq, _)] stands. *)
Inductive Caller : Type :=
| Entering (seq : Z)                        (** about to hold the mutex and look *)
| Waiting (seq : Z)                         (** parked on [progress] *)
| Leading (seq : Z)                         (** in [flush], mutex released *)
| Notifying (seq : Z) (ret : result unit)   (** about to [notify_all] *)
| Returned (seq : Z) (ret : result unit).

(** One turn of the loop under the mutex, and what it leaves the caller doing. *)
Definition look (seq : Z) (i : Inner) : Inner * Caller :=
  if (seq <=? durable i)%Z then (i, Returned seq (Ok tt))
  else if negb (syncing i) then (MkInner (durable i) true, Leading seq)
  else (i, Waiting seq).

(** The section after [flush] returned its [io::Result]. A [flush] that panics
    never gets here: the panic unwinds past this section and leaves [syncing] set. *)
Definition finish (seq : Z) (r : Error + Z) (i : Inner) : Inner * Caller :=
  match r with
  | inr made_durable =>
      (MkInner (Z.max (durable i) made_durable) false, Notifying seq (Ok tt))
  | inl e => (MkInner (durable i) false, Notifying seq (Err e))
  end.

(** [notify_all]: every parked caller runs again. *)
Definition wake (c : Caller) : Caller :=
  match c with Waiting seq => Entering seq | c => c end.

(** ** The system *)

Record System := MkSystem {
  coord : Inner;
  callers : list Caller;
  appended : Z;   (** the last sequence number in the log *)
  on_disk : Z;    (** the last sequence number an [fsync] covered *)
}.

Inductive step : System -> System -> Prop :=
| step_arrive i cs a d :
    step (MkSystem i cs a d) (MkSystem i (cs ++ [Entering (a + 1)]) (a + 1) d)
| step_look i cs a d n seq :
    cs !! n = Some (Entering seq) ->
    step (MkSystem i cs a d)
      (let '(i', c) := look seq i in MkSystem i' (<[n := c]> cs) a d)
| step_flushed i cs a d n seq made :
    cs !! n = Some (Leading seq) -> (seq <= made <= a)%Z ->
    step (MkSystem i cs a d)
      (let '(i', c) := finish seq (inr made) i in
       MkSystem i' (<[n := c]> cs) a (Z.max d made))
| step_failed i cs a d n seq e :
    cs !! n = Some (Leading seq) ->
    step (MkSystem i cs a d)
      (let '(i', c) := finish seq (inl e) i in MkSystem i' (<[n := c]> cs) a d)
| step_notify i cs a d n seq ret :
    cs !! n = Some (Notifying seq ret) ->
    step (MkSystem i cs a d)
      (MkSystem i (<[n := Returned seq ret]> (wake <$> cs)) a d).

Definition initial : System := MkSystem new [] 0 0.

Definition reachable (s : System) : Prop := rtc step initial s.

(** ** Invariant *)

Definition is_leading (c : Caller) : Prop := match c with Leading _ => True | _ => False end.
Definition is_waiting (c : Caller) : Prop := match c with Waiting _ => True | _ => False end.
Definition will_wake (c : Caller) : Prop :=
  match c with Leading _ | Notifying _ _ => True | _ => False end.

#[global] Instance is_leading_dec c : Decision (is_leading c).
Proof. destruct c; simpl; apply _. Defined.

#[global] Instance will_wake_dec c : Decision (will_wake c).
Proof. destruct c; simpl; apply _. Defined.

(** A caller told its commit is durable is right. *)
Definition honest (d : Z) (c : Caller) : Prop :=
  match c with
  | Notifying seq (Ok _) | Returned seq (Ok _) => (seq <= d)%Z
  | _ => True
  end.

Definition seq_of (c : Caller) : Z :=
  match c with
  | Entering seq | Waiting seq | Leading seq | Notifying seq _ | Returned seq _ => seq
  end.

Definition leaders (cs : list Caller) : nat := length (filter is_leading cs).

Record inv (s : System) : Prop := {
  inv_durable : (durable (coord s) <= on_disk s)%Z;
  inv_honest : Forall (honest (on_disk s)) (callers s);
  inv_leader : leaders (callers s) = if syncing (coord s) then 1 else 0;
  inv_seq : Forall (fun c => (seq_of c <= appended s)%Z) (callers s);
  inv_waker : Exists is_waiting (callers s) -> Exists will_wake (callers s);
}.

Lemma leaders_insert cs n c c' :
  cs !! n = Some c ->
  leaders (<[n := c']> cs) + (if decide (is_leading c) then 1 else 0) =
  leaders cs + (if decide (is_leading c') then 1 else 0).
Proof.
  unfold leaders. revert n. induction cs as [|x cs IH]; intros [|n] H; try done.
  - injection H as ->. cbn [insert list_insert]. rewrite !filter_cons. repeat case_decide; simpl; lia.
  - change (<[S n := c']> (x :: cs)) with (x :: <[n := c']> cs). rewrite !filter_cons.
    specialize (IH _ H).
    destruct (decide (is_leading c)), (decide (is_leading c')), (decide (is_leading x)); simpl; lia.
Qed.

Lemma leaders_wake cs : leaders (wake <$> cs) = leaders cs.
Proof.
  unfold leaders. induction cs as [|c cs IH]; [done|]. rewrite fmap_cons, !filter_cons.
  destruct c; simpl; repeat case_decide; simpl; try done; by rewrite IH.
Qed.

Lemma leaders_exists cs : leaders cs <> 0 -> Exists will_wake cs.
Proof.
  unfold leaders. induction cs as [|c cs IH]; [done|]. rewrite filter_cons. case_decide as Hc.
  - intros _. left. by destruct c.
  - intros H. right. by apply IH.
Qed.

Lemma Exists_insert {A} (P : A -> Prop) (cs : list A) n c c' :
  cs !! n = Some c -> Exists P (<[n := c']> cs) -> P c' \/ Exists P cs.
Proof.
  revert n. induction cs as [|x cs IH]; intros [|n] H HE; try done.
  - apply Exists_cons in HE as [?|?]; [by left|by right; right].
  - apply Exists_cons in HE as [?|HE]; [by right; left|].
    destruct (IH _ H HE); [by left|by right; right].
Qed.

Lemma Exists_keep {A} (P : A -> Prop) (cs : list A) n c c' :
  cs !! n = Some c -> ~ P c -> Exists P cs -> Exists P (<[n := c']> cs).
Proof.
  revert n. induction cs as [|x cs IH]; intros [|n] H Hc HE; try done.
  - injection H as ->. apply Exists_cons in HE as [?|?]; [done|by right].
  - apply Exists_cons in HE as [?|HE]; [by left|right; by eapply IH].
Qed.

Lemma Exists_here {A} (P : A -> Prop) (cs : list A) n c c' :
  cs !! n = Some c -> P c' -> Exists P (<[n := c']> cs).
Proof.
  intros H HP. apply Exists_exists. exists c'. split; [|done].
  apply list_elem_of_lookup. exists n. apply list_lookup_insert_eq. by eapply lookup_lt_Some.
Qed.

Lemma no_waiting_wake cs : ~ Exists is_waiting (wake <$> cs).
Proof.
  induction cs as [|c cs IH]; [by intros H%Exists_nil|]. rewrite fmap_cons, Exists_cons.
  intros [H|H]; [|done]. by destruct c.
Qed.

Lemma honest_mono d d' cs :
  (d <= d')%Z -> Forall (honest d) cs -> Forall (honest d') cs.
Proof.
  intros Hd H. eapply Forall_impl; [done|]. intros [| | |? [[]| | |]|? [[]| | |]]; simpl; auto; lia.
Qed.

Lemma honest_wake d cs : Forall (honest d) cs -> Forall (honest d) (wake <$> cs).
Proof. intros H. apply Forall_fmap. eapply Forall_impl; [done|]. by intros []. Qed.

(** ** The invariant holds throughout *)

Lemma inv_initial : inv initial.
Proof. split; simpl; [lia|constructor|done|constructor|]. by intros H%Exists_nil. Qed.

Ltac count Hn c' := pose proof (leaders_insert _ _ _ c' Hn) as Hcount; simpl in Hcount.

Lemma inv_step s s' : inv s -> step s s' -> inv s'.
Proof.
  intros [Hd Hh Hl Hq Hw] Hs. destruct Hs as
    [i cs a d|i cs a d n seq Hn|i cs a d n seq made Hn Hm|i cs a d n seq e Hn|i cs a d n seq ret Hn];
    simpl in *; try pose proof (Forall_lookup_1 _ _ _ _ Hq Hn) as Hqn.
  - split; simpl; [done|apply Forall_app; by repeat constructor| | |].
    + unfold leaders in *. rewrite filter_app, length_app. simpl. lia.
    + apply Forall_app. split; [|repeat constructor; simpl; lia].
      eapply Forall_impl; [exact Hq|]. simpl. intros. lia.
    + intros [H|H]%Exists_app; apply Exists_app; [left; auto|].
      by inversion H as [? ? Hx|? ? Hx]; [destruct Hx|inversion Hx].
  - unfold look. destruct (Z.leb_spec seq (durable i)) as [Hle|Hgt];
      [|destruct (syncing i) eqn:Hsy]; simpl.
    + count Hn (Returned seq (Ok tt)). split; simpl; [done| |lia|by apply Forall_insert|].
      * apply Forall_insert; [done|simpl; lia].
      * intros [[]|H]%(Exists_insert _ _ _ _ _ Hn). eapply Exists_keep; eauto.
    + count Hn (Waiting seq). split; simpl; [done|by apply Forall_insert|rewrite Hsy; lia|by apply Forall_insert|].
      intros _. apply leaders_exists. lia.
    + count Hn (Leading seq). split; simpl; [done|by apply Forall_insert|lia|by apply Forall_insert|].
      intros _. by eapply Exists_here.
  - count Hn (Notifying seq (Ok tt)). split; simpl; [lia| | |by apply Forall_insert|].
    + apply Forall_insert; [eapply honest_mono; [|done]; lia|simpl; lia].
    + destruct (syncing i); lia.
    + intros _. by eapply Exists_here.
  - count Hn (Notifying seq (Err e)). split; simpl; [lia| | |by apply Forall_insert|].
    + by apply Forall_insert.
    + destruct (syncing i); lia.
    + intros _. by eapply Exists_here.
  - assert ((wake <$> cs) !! n = Some (Notifying seq ret)) as Hn' by by rewrite list_lookup_fmap, Hn.
    count Hn' (Returned seq ret). rewrite leaders_wake in Hcount. split; simpl; [done| | | |].
    + apply Forall_insert; [by apply honest_wake|].
      rewrite Forall_lookup in Hh. apply Hh in Hn. by destruct ret as [[]| | |].
    + lia.
    + apply Forall_insert; [|done]. apply Forall_fmap. eapply Forall_impl; [exact Hq|]. by intros [].
    + intros [[]|H]%(Exists_insert _ _ _ _ _ Hn'). by apply no_waiting_wake in H.
Qed.

Lemma inv_reachable s : reachable s -> inv s.
Proof.
  intros H. unfold reachable in H. remember initial as s0 eqn:E. assert (inv s0) as H0
    by (rewrite E; apply inv_initial). clear E.
  induction H as [|x y z Hxy Hyz IH]; [done|]. apply IH. by eapply inv_step.
Qed.

(** ** Every commit returns

    Between arrivals the callers can take only finitely many steps, and they can
    take one as long as a commit has not returned. *)

(** The steps of the callers themselves. *)
Definition inner_step (s s' : System) : Prop :=
  step s s' /\ length (callers s') = length (callers s).

Definition weight (c : Caller) : nat :=
  match c with
  | Entering _ | Waiting _ => 3
  | Leading _ => 2
  | Notifying _ _ => 1
  | Returned _ _ => 0
  end.

Definition is_entering (c : Caller) : nat := match c with Entering _ => 1 | _ => 0 end.

(** Bounds the steps left: leading costs more than all the looking in between. *)
Definition measure (cs : list Caller) : nat :=
  sum_list_with weight cs * S (length cs) + sum_list_with is_entering cs.

Lemma sum_insert (f : Caller -> nat) cs n c c' :
  cs !! n = Some c -> sum_list_with f (<[n := c']> cs) + f c = sum_list_with f cs + f c'.
Proof.
  revert n. induction cs as [|x cs IH]; intros [|n] H; try done; simpl in *.
  - injection H as ->. lia.
  - specialize (IH _ H). change (list_insert n c' cs) with (<[n := c']> cs). lia.
Qed.

Lemma sum_entering cs : sum_list_with is_entering cs <= length cs.
Proof. induction cs as [|[] cs IH]; simpl; lia. Qed.

Lemma sum_wake cs : sum_list_with weight (wake <$> cs) = sum_list_with weight cs.
Proof.
  induction cs as [|c cs IH]; [done|]. rewrite fmap_cons. simpl. rewrite IH. by destruct c.
Qed.

(** A caller that moved on to a lighter place. *)
Lemma measure_lighter cs ds n c c' :
  length ds = length cs -> sum_list_with weight ds = sum_list_with weight cs ->
  ds !! n = Some c -> weight c' < weight c -> measure (<[n := c']> ds) < measure cs.
Proof.
  intros Hl Hw Hn Hc. unfold measure. rewrite length_insert.
  pose proof (sum_insert weight _ _ _ c' Hn). pose proof (sum_entering (<[n := c']> ds)).
  rewrite length_insert in *. nia.
Qed.

Lemma inner_step_measure s s' : inner_step s s' -> measure (callers s') < measure (callers s).
Proof.
  intros [Hs Hl]. destruct Hs as
    [i cs a d|i cs a d n seq Hn|i cs a d n seq made Hn Hm|i cs a d n seq e Hn|i cs a d n seq ret Hn];
    simpl in *.
  - rewrite length_app in Hl. simpl in Hl. lia.
  - unfold look. destruct (Z.leb_spec seq (durable i)); [|destruct (syncing i)]; simpl.
    + eapply measure_lighter; eauto. simpl. lia.
    + unfold measure. rewrite length_insert.
      pose proof (sum_insert weight _ _ _ (Waiting seq) Hn).
      pose proof (sum_insert is_entering _ _ _ (Waiting seq) Hn). simpl in *. nia.
    + eapply measure_lighter; eauto.
  - eapply measure_lighter; eauto.
  - eapply measure_lighter; eauto.
  - eapply measure_lighter; [apply length_fmap|apply sum_wake|by rewrite list_lookup_fmap, Hn|simpl; lia].
Qed.

Definition returned (c : Caller) : Prop := match c with Returned _ _ => True | _ => False end.

#[global] Instance returned_dec c : Decision (returned c).
Proof. destruct c; simpl; apply _. Defined.

Lemma inner_step_enabled s :
  inv s -> ~ Forall returned (callers s) -> exists s', inner_step s s'.
Proof.
  intros HI Hr. pose proof (inv_seq _ HI) as Ha. destruct s as [i cs a d]. simpl in *.
  assert (exists n c, cs !! n = Some c /\ ~ returned c /\ ~ is_waiting c) as (n & c & Hn & Hc & Hw).
  { destruct (decide (Exists will_wake cs)) as [H|H].
    - apply Exists_exists in H as (c & [n Hn]%list_elem_of_lookup & Hc).
      exists n, c. split_and!; [done|destruct c; simpl in *; tauto..].
    - apply not_Forall_Exists in Hr; [|apply _].
      apply Exists_exists in Hr as (c & Hin & Hc).
      pose proof Hin as [n Hn]%list_elem_of_lookup. exists n, c. split_and!; [done|done|].
      intros Hw. apply H, (inv_waker _ HI). apply Exists_exists. eauto. }
  destruct c as [q|q|q|q r|q r]; try done.
  - eexists. split; [by eapply step_look|]. simpl. destruct (look q i). simpl. apply length_insert.
  - eexists. split; [eapply step_flushed with (made := q); [done|]; split; [lia|]; apply (Forall_lookup_1 _ _ _ _ Ha Hn)|]. apply length_insert.
  - eexists. split; [by eapply step_notify|]. simpl. by rewrite length_insert, length_fmap.
Qed.

(** C14: A commit that returned success is durable: whatever the interleaving of
    committers, appends, successful and failed [fsync]s, every caller told that
    its sequence number is safe has it covered by an [fsync], the coordinator
    never claims more than is on disk, and at most one leader runs at a time. *)
Theorem group_commit_durable s n seq :
  reachable s -> callers s !! n = Some (Returned seq (Ok tt)) ->
  (seq <= on_disk s)%Z /\ (durable_seq (coord s) <= on_disk s)%Z /\ leaders (callers s) <= 1.
Proof.
  intros HI%inv_reachable Hn. split_and!.
  - apply (Forall_lookup_1 _ _ _ _ (inv_honest _ HI) Hn).
  - apply (inv_durable _ HI).
  - rewrite (inv_leader _ HI). destruct (syncing _); lia.
Qed.

(** Two committers: the second is covered by the leader's flush. *)
Definition one_flush : System :=
  MkSystem (MkInner 2 false) [Returned 1 (Ok tt); Returned 2 (Ok tt)] 2 2.

Lemma one_flush_reachable : reachable one_flush.
Proof.
  unfold reachable, initial.
  eapply rtc_l; [apply step_arrive|]. eapply rtc_l; [apply (step_look _ _ _ _ 0 1); reflexivity|].
  eapply rtc_l; [apply step_arrive|]. eapply rtc_l; [apply (step_look _ _ _ _ 1 2); reflexivity|].
  eapply rtc_l; [apply (step_flushed _ _ _ _ 0 1 2); [reflexivity|lia]|].
  eapply rtc_l; [apply (step_notify _ _ _ _ 0 1 (Ok tt)); reflexivity|].
  eapply rtc_l; [apply (step_look _ _ _ _ 1 2); reflexivity|].
  apply rtc_refl.
Qed.

Lemma group_commit_durable_witness : (2 <= on_disk one_flush)%Z.
Proof. apply (group_commit_durable one_flush 1 2 one_flush_reachable eq_refl). Defined.

(** C15: No committer is left behind: from every reachable state the running
    calls take finitely many steps, in whatever order, and where none of them
    can take a step all of them have returned. A parked follower therefore
    always has a leader or a notifier that will wake it. Every [flush] is taken
    to return, with a number or an error. *)
Theorem group_commit_returns s :
  reachable s ->
  sn inner_step s /\
  forall s', rtc inner_step s s' -> (forall s'', ~ inner_step s' s'') -> Forall returned (callers s').
Proof.
  intros Hr. split.
  - remember (measure (callers s)) as m eqn:Hm. clear Hr. revert s Hm.
    induction m as [m IH] using lt_wf_ind. intros s ->. constructor. intros s' H.
    by eapply IH; [apply inner_step_measure, H|].
  - intros s' Hs Hstuck. destruct (decide (Forall returned (callers s'))) as [|Hn]; [done|].
    assert (reachable s') as HI%inv_reachable.
    { unfold reachable in *. etrans; [done|]. eapply rtc_subrel; [|done]. by intros x y [H _]. }
    destruct (inner_step_enabled _ HI Hn) as [s'' H]. by apply Hstuck in H.
Qed.

(** A leader in its flush and a follower parked behind it. *)
Definition one_parked : System := MkSystem (MkInner 0 true) [Leading 1; Waiting 2] 2 0.

Lemma one_parked_reachable : reachable one_parked.
Proof.
  unfold reachable, initial.
  eapply rtc_l; [apply step_arrive|]. eapply rtc_l; [apply (step_look _ _ _ _ 0 1); reflexivity|].
  eapply rtc_l; [apply step_arrive|]. eapply rtc_l; [apply (step_look _ _ _ _ 1 2); reflexivity|].
  apply rtc_refl.
Qed.

Lemma group_commit_returns_witness : sn inner_step one_parked.
Proof. apply (group_commit_returns one_parked one_parked_reachable). Defined.
