(* ===== verification/WalThm.v ===== *)
(** * What the log guarantees

    The theorems about the logged operations, their records, and the log they
    are framed in: encoding loses nothing, decoding yields only well-formed
    operations, a crash at any byte leaves exactly a prefix of what was appended
    (and all of what was flushed), and recovery never truncates past a later
    record it could still read. *)

From S2P Require Import Prelude Core Codec Catalog WalRecord WalOps WalOpsFacts WalLog WalLogFacts.
From stdpp Require Import base list strings.
From Stdlib Require Import ZArith Lia Strings.Byte.

(** A concrete choice of the library functions: the CRC-32 of the IEEE polynomial,
    no compression, and a cipher that only tags. *)
Definition crc_bit (c : Z) : Z :=
  if Z.odd c then Z.lxor (Z.shiftr c 1) 3988292384 else Z.shiftr c 1.
Definition crc_byte (c : Z) (b : byte) : Z := Nat.iter 8 crc_bit (Z.lxor c (b2z b)).

Definition plain_libs : Libs := {|
  crc32 b := (Z.lxor (fold_left crc_byte b 4294967295) 4294967295 mod 4294967296)%Z;
  compress_prepend_size b := b;
  decompress_size_prepended b := Some b;
  Aead := unit;
  encrypt _ _ _ p := Some (p, replicate TAG_LEN "000"%byte);
  decrypt _ _ _ c _ := Some c;
|}.

#[export] Instance plain_libs_ok : LibsOk plain_libs.
Proof.
  split; simpl.
  - intros b. unfold u32. apply Z.mod_pos_bound. lia.
  - done.
  - by intros ? ? ? ? ? ? [= <- <-].
  - by intros ? ? ? ? ? ? [= <- <-].
Qed.

(** ** Operations *)

(** C12: Logging an operation loses nothing: for every operation of the engine
    (rows, tables, indexes, constraints, statistics, sequences, schemas, image
    roots, prepared transactions) whose fields fit the format, the record decodes
    to the operation; and the marker test picks out exactly the [Prepare]
    records, with their transaction. *)
Theorem logged_op_roundtrip (op : Op.LoggedOp) :
  Op.wf_op op ->
  Op.from_record (Op.to_record op) = Some op /\
  Op.roundtrip_check op = true /\
  Op.prepare_marker_txn (Op.to_record op) =
    match op with Op.Prepare t _ _ _ _ _ => Some t | _ => None end.
Proof.
  intros H. pose proof (from_to_record op H) as E. split_and!; [done| |by apply prepare_marker_spec].
  unfold Op.roundtrip_check. by rewrite bool_decide_true.
Qed.

Definition sample_prepare : Op.LoggedOp :=
  Op.Prepare 42 ["103"%byte] ["111"%byte] [] 1700000000000
    [PLock.Row 1 2 3 true; PLock.Key 4 5 false; PLock.Table 6 true].

Lemma logged_op_roundtrip_witness :
  Op.from_record (Op.to_record sample_prepare) = Some sample_prepare.
Proof.
  apply (logged_op_roundtrip sample_prepare). cbn. unfold wf_str, wf_vec, fits_u32, u16, u32, u64. cbn.
  split_and!; try lia; try done. repeat constructor; cbn; lia.
Defined.

(** Whatever bytes a log holds, an operation that decodes from a record is
    one its Rust type holds (64-bit ids, 32-bit versions and widths, valid UTF-8
    names, lengths within their prefixes), so writing it again and reading it
    back gives the same operation. *)
Theorem decoded_op_well_formed (r : Rec.WalRecord) (op : Op.LoggedOp) :
  Op.from_record r = Some op ->
  Op.wf_op op /\ Op.from_record (Op.to_record op) = Some op.
Proof. intros H%from_record_wf. split; [done|by apply from_to_record]. Qed.

Lemma decoded_op_well_formed_witness :
  Op.wf_op (Op.SeqDrop 42 7).
Proof.
  apply (decoded_op_well_formed (Rec.Put (Op.push_key Op.TAG_SEQ_DROP 42 7 None) ["001"%byte])).
  vm_compute. reflexivity.
Defined.

(** Records of older writers still decode: an index record that ends before
    the key expressions and the predicate means none of either, a unique
    constraint that ends before its last flag means [NULLS DISTINCT], and a
    commit record without its time carries time 0. *)
Theorem legacy_records_decode (d : IndexDef) (t a i : Z) (n : bytes) (cs : list bytes) (p : bool) :
  wf_index d -> u64 t -> u64 a -> u64 i -> wf_str n -> wf_vec wf_str cs ->
  Op.from_record (Rec.Put (Op.push_key Op.TAG_CREATE_INDEX t a None) (encode_index_head d)) =
    Some (Op.CreateIndex t a
      (MkIndex (index_name d) (index_table d) (index_columns d) [] None (include d)
         (index_kind d) (index_unique d))) /\
  Op.from_record (Rec.Put (Op.push_key Op.TAG_ADD_UNIQUE t a None)
    (le_bytes 8 i ++ [bool_byte p] ++ push_str n ++ push_strs cs)) =
    Some (Op.AddUnique t a i n cs p false) /\
  Rec.decode ([Rec.TAG_COMMIT] ++ le_bytes 8 t) = Some (Rec.CommitTxn t 0).
Proof.
  intros Hd Ht Ha Hi Hn Hcs. split_and!.
  - rewrite from_record_key by done. arm. by rewrite decode_legacy_index_def.
  - rewrite from_record_key by done. arm. by rewrite decode_legacy_add_unique.
  - apply Rec.decode_legacy_commit. done.
Qed.

Lemma legacy_records_decode_witness :
  Rec.decode ([Rec.TAG_COMMIT] ++ le_bytes 8 9) = Some (Rec.CommitTxn 9 0).
Proof.
  apply (legacy_records_decode (MkIndex [] 1 [] [] None [] BTree false) 9 1 1 [] [] true);
    cbn; unfold wf_index, wf_str, wf_vec, fits_u32, u32, u64; cbn;
    split_and?; try lia; try done; constructor.
Defined.

(** ** Records *)

(** A record encodes unless one of its variable fields is 4 GiB or longer,
    which is refused with an error instead of a truncated prefix; a payload
    decodes to the record it encodes, whatever bytes follow it. *)
Theorem record_codec_exact (r : Rec.WalRecord) :
  match Rec.encode r with
  | Ok payload => Rec.carried r /\ (Rec.wf r -> forall tail, Rec.decode (payload ++ tail) = Some r)
  | Err e => ~ Rec.carried r /\ e = Rec.field_too_long
  | Panic | Diverge => False
  end.
Proof.
  destruct (decide (Rec.carried r)) as [Hc|Hc].
  - destruct (Rec.encode_carried r Hc) as [p Hp]. rewrite Hp. split; [done|].
    intros Hwf tail. by apply Rec.decode_encode.
  - by rewrite Rec.encode_refused.
Qed.

(** ** The log *)

Section Log.
Context {L : Libs} {LOk : LibsOk L}.

(** A file cut past its flushed part: the records it still holds. *)
Lemma cut_keeps_prefix s first rs1 rs2 ls1 ls2 w1 w2 w3 k :
  wf_seal s -> u64 first -> Forall Rec.wf (rs1 ++ rs2) ->
  append_all rs1 (MkWriter [] first s []) = (Ok ls1, w1) ->
  flush w1 = (Ok tt, w2) ->
  append_all rs2 w2 = (Ok ls2, w3) ->
  length (inner w2) <= k ->
  exists j p,
    recover_sealed_prefix (take k (into_inner w3)) s = Ok p /\
    length rs1 <= j /\
    records p = zip (seqZ first (Z.of_nat j)) (take j (rs1 ++ rs2)) /\
    good_bytes p <= k /\
    (length (into_inner w3) <= k -> records p = zip (ls1 ++ ls2) (rs1 ++ rs2)).
Proof.
  intros Hs Hf [Hr1 Hr2]%Forall_app H1 H2 H3 Hk.
  destruct (append_all_spec (MkWriter [] first s []) _ _ _ Hs Hf Hr1 H1) as (Hs1 & Hk1 & Hu1 & Hn1 & -> & fs1 & Hc1 & HF1).
  destruct (flush_spec w1) as (w2' & Hfl & Hc2 & Hi2 & Hn2 & Hsl2).
  rewrite H2 in Hfl. injection Hfl as <-. rewrite <- Hsl2 in Hs1, Hk1. rewrite <- Hn2 in Hu1.
  destruct (append_all_spec _ _ _ _ Hs1 Hu1 Hr2 H3) as (Hs3 & Hk3 & Hu3 & Hn3 & -> & fs2 & Hc3 & HF2).
  cbn [next_lsn wseal] in *. unfold contents in Hc1 at 2. cbn [inner append_buf app] in Hc1.
  assert (Forall2 (frame_of s) (zip (seqZ first (Z.of_nat (length (rs1 ++ rs2)))) (rs1 ++ rs2)) (fs1 ++ fs2)) as HF.
  { rewrite length_app, Nat2Z.inj_add, seqZ_app, zip_with_app by (rewrite ?length_seqZ; lia).
    apply Forall2_app; [apply HF1, same_key_refl|].
    rewrite <- Hn1, <- Hn2. by apply HF2. }
  assert (into_inner w3 = concat (fs1 ++ fs2)) as Hw3
    by by rewrite into_inner_contents, Hc3, Hc2, Hc1, concat_app.
  pose proof (recover_cut s _ _ k HF) as HR. rewrite <- Hw3 in HR.
  set (j := complete k (fs1 ++ fs2)) in *.
  assert (length rs1 <= j) as Hj.
  { pose proof (Forall2_length _ _ _ (HF1 s (same_key_refl _))) as Hl.
    rewrite length_zip, length_seqZ in Hl. etrans; [|apply complete_app]; [lia|].
    rewrite Hi2, Hc1 in Hk. done. }
  eexists (Nat.min j (length (rs1 ++ rs2))), _. split_and!; [exact HR|rewrite length_app; lia| | |]; cbn.
  - apply zip_seqZ_take.
  - apply complete_bytes.
  - intros Hall. rewrite Hw3 in Hall. rewrite (complete_all _ _ Hall : j = _), take_ge.
    + rewrite length_app, Nat2Z.inj_add, seqZ_app by lia. rewrite Hn2, Hn1. done.
    + by rewrite (Forall2_length _ _ _ HF).
Qed.

(** C4: A crash loses nothing that was flushed and tears nothing: append some
    records, flush, append more, and cut the file at any byte at or past the
    flushed ones (a crash keeps some prefix of what was written later). Recovery
    accepts the file and returns exactly the first [j] records under consecutive
    numbers, with [j] at least the flushed ones and every record whose frame is
    whole; the torn rest is what it truncates. Sealed and plain logs alike. *)
Theorem crash_recovers_prefix s first rs1 rs2 ls1 ls2 w1 w2 w3 k :
  wf_seal s -> u64 first -> Forall Rec.wf (rs1 ++ rs2) ->
  append_all rs1 (MkWriter [] first s []) = (Ok ls1, w1) ->
  flush w1 = (Ok tt, w2) ->
  append_all rs2 w2 = (Ok ls2, w3) ->
  length (inner w2) <= k ->
  exists j p,
    recover_sealed_prefix (take k (into_inner w3)) s = Ok p /\
    length rs1 <= j /\
    records p = zip (seqZ first (Z.of_nat j)) (take j (rs1 ++ rs2)) /\
    good_bytes p <= k /\
    (length (into_inner w3) <= k -> records p = zip (ls1 ++ ls2) (rs1 ++ rs2)).
Proof. apply cut_keeps_prefix. Qed.

(** C13: Recovery never cuts off a record it can still read. If it accepts a
    file, the records are the whole frames read one after the other from the
    start, and what follows them is a frame the end of the file cuts short, or
    damage after which no later record is readable anywhere. If it refuses, the
    frame at the reported offset is forged, or it is damaged and either nothing
    precedes it or the reported later offset does hold a later record. It always
    returns one of the two. *)
Theorem recovery_keeps_survivors (buf : bytes) (s : option RecordSeal) :
  match recover_sealed_prefix buf s with
  | Ok p =>
      frames buf s 0 (records p) (good_bytes p) /\
      last_lsn p = last_lsn_of 0 (records p) /\
      (parse_frame buf (good_bytes p) s = Incomplete \/
       parse_frame buf (good_bytes p) s = Corrupt /\ records p <> [] /\
       forall c lsn r next,
         good_bytes p < c -> parse_frame buf c s = Record lsn r next -> (lsn <= last_lsn p)%Z)
  | Err h =>
      (exists es, frames buf s 0 es (hole_at h) /\
        (parse_frame buf (hole_at h) s = Forged /\ forged h = true \/
         parse_frame buf (hole_at h) s = Corrupt /\ forged h = false /\
         (es = [] \/
          exists c lsn r next, next_valid_at h = Some c /\ hole_at h < c /\
            parse_frame buf c s = Record lsn r next /\ (last_lsn_of 0 es < lsn)%Z)))
  | Panic | Diverge => False
  end.
Proof.
  destruct (frames_exist buf s 0) as (es & off & Hf & Hs).
  rewrite (recover_frames _ _ _ _ Hf Hs). unfold verdict. cbn [good_bytes last_lsn].
  destruct (parse_frame buf off s) as [lsn r next| | |] eqn:E; [by apply Hs in E|..].
  - split_and!; [done|done|by left].
  - exists es. split; [done|]. by left.
  - pose proof (find_valid_after_spec buf (off + 1) (last_lsn_of 0 es) s) as Hv.
    pose proof (frames_bound _ _ _ _ _ Hf) as [Hb _]. case_decide as Hd.
    + exists es. split; [done|]. right. split_and!; [done|done|]. cbn [next_valid_at hole_at].
      destruct (find_valid_after buf (off + 1) _ s) as [c|].
      * right. destruct Hv as (lsn & r & next & Hp & Hl & Hc). exists c, lsn, r, next.
        split_and!; [done|lia|done|done].
      * left. destruct Hd as [Hd|Hd]; [done|]. destruct es; [done|simpl in *; lia].
    + destruct (find_valid_after buf (off + 1) _ s) as [c|] eqn:Ec; [destruct Hd; by left|].
      split_and!; [done|done|]. right. split_and!; [done| |].
      * cbn [records]. intros ->. inversion Hf; subst. destruct Hd. by right.
      * intros c lsn r next Hc Hp. eapply Hv; [|done]. cbn in Hc. lia.
Qed.

(** The streaming reader agrees with recovery: on every file recovery
    accepts, reading it record by record from a source that delivers its bytes
    in pieces of any size, with any interruptions, gives the same records, and
    the reading terminates. *)
Theorem replay_agrees (buf : bytes) (s : option RecordSeal) (p : RecoveredPrefix) (src : list ReadStep) :
  recover_sealed_prefix buf s = Ok p -> clean src -> source_bytes src = buf ->
  exists rd, replay (MkReader src s) = (Ok (records p), rd).
Proof.
  intros Hp Hc Hb. destruct (frames_exist buf s 0) as (es & off & Hf & Hs).
  rewrite (recover_frames _ _ _ _ Hf Hs) in Hp.
  assert (p = MkPrefix es off (last_lsn_of 0 es)) as ->.
  { unfold verdict in Hp. destruct (parse_frame _ _ _); try congruence. case_decide; congruence. }
  by eapply replay_frames.
Qed.

(** Appending to a plain log is all or nothing. A record is refused exactly
    when one of its fields is too long for its prefix or its body is larger than
    a reader accepts, and then nothing changes; otherwise it takes the next
    number and adds its one frame, and the bytes held back from the sink stay
    below the buffer's cap. Running out of numbers is the only panic. *)
Theorem append_exact (w : WalWriter bytes) (r : Rec.WalRecord) :
  wseal w = None -> u64 (next_lsn w) ->
  let oversize p := (MAX_RECORD_BYTES < Z.of_nat (length (plain_body p)))%Z in
  match append r w with
  | (Ok lsn, w') =>
      exists p, Rec.encode r = Ok p /\ ~ oversize p /\
        lsn = next_lsn w /\ next_lsn w' = (lsn + 1)%Z /\
        contents w' = contents w ++ frame lsn (plain_body p) /\
        (Z.of_nat (length (append_buf w')) < APPEND_BUF_CAP)%Z
  | (Err e, w') =>
      w' = w /\ (~ Rec.carried r \/ exists p, Rec.encode r = Ok p /\ oversize p)
  | (Panic, _) => next_lsn w = U64_MAX
  | (Diverge, _) => False
  end.
Proof.
  intros Hs Hl oversize. destruct w as [i n s b]. cbn [wseal next_lsn] in Hs, Hl. subst s.
  unfold append, get_writer, sbind, slift, sfail, sret, set_wseal, buffer, bump_lsn.
  pose proof (record_encode_cases r) as Hc. unfold Rec.encode in *.
  destruct (Rec.encode_into r) as [p|e| |]; [|by split; [|left]|done|done].
  cbn [wseal seal_body next_lsn inner append_buf].
  case_decide as Hm; [by split; [|right; exists p]|]. cbn [append_buf].
  case_decide as Hb; cbn [drain write_all vec_write append_buf inner next_lsn wseal];
    (case_decide as Hn; [|unfold u64, U64_MAX in *; cbn in *; lia]);
    exists p; unfold contents; cbn [append_buf inner next_lsn];
    (split_and!; [done|done|done|done|by rewrite ?app_nil_r, app_assoc|]).
  - done.
  - unfold APPEND_BUF_CAP in *. lia.
Qed.

(** ** A damaged length *)

(** [f] with its length field overwritten by [n]. *)
Definition relabel (f : bytes) (n : Z) : bytes := take 8 f ++ le_bytes 4 n ++ drop 12 f.

(** C35: A damaged length field is not always recognised as damage. Overwrite the
    length of one frame in the middle of a log by anything that reaches past the
    end of the file without exceeding the largest body a reader accepts, and
    recovery takes the frame for a torn tail: it accepts the file with only the
    records before it, and every record after it, whole and readable, is cut off
    instead of being reported as a hole. *)
Theorem damaged_length_drops_records s es1 e es2 fs1 f fs2 n :
  Forall2 (frame_of s) es1 fs1 -> frame_of s e f -> Forall2 (frame_of s) es2 fs2 ->
  (Z.of_nat (length (f ++ concat fs2)) - 16 < n <= MAX_RECORD_BYTES)%Z ->
  recover_sealed_prefix (concat fs1 ++ relabel f n ++ concat fs2) s =
    Ok (MkPrefix es1 (length (concat fs1)) (last_lsn_of 0 es1)).
Proof.
  intros H1 Hf H2 Hn. set (buf := concat fs1 ++ relabel f n ++ concat fs2).
  assert (parse_frame buf (length (concat fs1)) s = Incomplete) as Hp.
  { destruct Hf as (body & -> & Hl & Hb & _).
    rewrite length_app, frame_length in Hn.
    destruct (frame_header e.1 body) as (h & Ef & Hh & _).
    assert (relabel (frame e.1 body) n = (take 8 h ++ le_bytes 4 n ++ drop 12 h) ++ body) as Er.
    { unfold relabel. rewrite Ef, take_app_le, drop_app_le, <- !app_assoc by lia. done. }
    assert (length (take 8 h ++ le_bytes 4 n ++ drop 12 h) = 16) as Hh'
      by (rewrite !length_app, length_take, length_drop, le_bytes_length; lia).
    assert (cursor buf (length (concat fs1)) ((take 8 h ++ le_bytes 4 n ++ drop 12 h) ++ body ++ concat fs2)) as C.
    { unfold buf. rewrite Er, <- app_assoc. eapply cursor_adv; [apply cursor_start|done]. }
    unfold parse_frame. rewrite (cursor_range _ _ _ _ _ C) by lia.
    assert (header_len (take 8 h ++ le_bytes 4 n ++ drop 12 h) = n) as ->.
    { unfold header_len. rewrite drop_app_length' by (rewrite length_take; lia).
      rewrite take_app_length' by by rewrite le_bytes_length. apply le_val_bytes_u32.
      unfold u32, MAX_RECORD_BYTES in *. lia. }
    rewrite decide_False by lia.
    assert (length buf < length (concat fs1) + 16 + Z.to_nat n) as Hlen.
    { unfold buf. rewrite Er, length_app, <- app_assoc, length_app, Hh', length_app.
      lia. }
    unfold get_range. by rewrite decide_False by lia. }
  assert (frames buf s 0 es1 (length (concat fs1))) as HF.
  { assert (cursor buf 0 (concat fs1 ++ relabel f n ++ concat fs2)) as C by apply cursor_start.
    by apply (frames_app _ _ _ _ _ 0 H1) in C. }
  rewrite (recover_frames _ _ _ _ HF); [|intros l r nx; by rewrite Hp].
  unfold verdict. cbn [good_bytes]. by rewrite Hp.
Qed.
End Log.

(** ** A concrete log *)

#[local] Existing Instance plain_libs.

Definition committed_records : list Rec.WalRecord := [Rec.BeginTxn 1; Rec.CommitTxn 1 1700000000000].
Definition late_records : list Rec.WalRecord := [Rec.BeginTxn 2; Rec.Put ["001"%byte] ["002"%byte]].

Definition sample_writer : WalWriter bytes := MkWriter [] 1 None [].
Definition after_commit : WalWriter bytes := (append_all committed_records sample_writer).2.
Definition after_flush : WalWriter bytes := (flush after_commit).2.
Definition after_late : WalWriter bytes := (append_all late_records after_flush).2.

Lemma crash_recovers_prefix_witness :
  exists j p,
    recover_sealed_prefix (take 70 (into_inner after_late)) None = Ok p /\
    2 <= j /\ records p =
      zip (seqZ 1 (Z.of_nat j)) (take j (committed_records ++ late_records)).
Proof.
  destruct (crash_recovers_prefix None 1 committed_records late_records [1; 2]%Z [3; 4]%Z
              after_commit after_flush after_late 70) as (j & p & H1 & H2 & H3 & _).
  - exact I.
  - unfold u64. lia.
  - repeat constructor; cbn; unfold u64; lia.
  - reflexivity.
  - reflexivity.
  - reflexivity.
  - vm_compute. lia.
  - exists j, p. split_and!; [exact H1|exact H2|exact H3].
Defined.

(** The file, cut in the third frame, and a source that delivers it in two pieces. *)
Definition torn_file : bytes := take 70 (into_inner after_late).
Definition two_reads : list ReadStep :=
  [Chunk (take 3 torn_file); Interrupted; Chunk (drop 3 torn_file)].

Lemma replay_agrees_witness :
  exists rd, replay (MkReader two_reads None) = (Ok (zip [1; 2]%Z committed_records), rd).
Proof.
  apply (replay_agrees torn_file None (MkPrefix (zip [1; 2]%Z committed_records) 60 2) two_reads).
  - reflexivity.
  - repeat constructor; discriminate.
  - reflexivity.
Defined.

Lemma append_exact_witness :
  exists p, Rec.encode (Rec.BeginTxn 7) = Ok p /\
    contents (append (Rec.BeginTxn 7) sample_writer).2 =
      frame 1 (plain_body p).
Proof.
  assert (append (Rec.BeginTxn 7) sample_writer = (Ok 1%Z, (append (Rec.BeginTxn 7) sample_writer).2))
    as E by reflexivity.
  pose proof (append_exact sample_writer (Rec.BeginTxn 7) eq_refl ltac:(unfold u64; cbn; lia)) as H.
  rewrite E in H. destruct H as (p & H1 & _ & _ & _ & H3 & _). exists p. split; [exact H1|exact H3].
Defined.

(** Three committed records; the second one's length is damaged. *)
Definition three_frames : list bytes :=
  (fun r : Z * Rec.WalRecord =>
     frame r.1 (plain_body
       match Rec.encode r.2 with Ok p => p | _ => [] end)) <$>
  [(1, Rec.CommitTxn 1 0); (2, Rec.CommitTxn 2 0); (3, Rec.CommitTxn 3 0)]%Z.

Lemma damaged_length_drops_records_witness :
  recover_sealed_prefix
    (concat (take 1 three_frames) ++
     relabel (three_frames !!! 1) 1000 ++ concat (drop 2 three_frames)) None =
  Ok (MkPrefix [(1, Rec.CommitTxn 1 0)]%Z 34 1).
Proof.
  assert (forall e f, In (e, f)
    (zip [(1, Rec.CommitTxn 1 0); (2, Rec.CommitTxn 2 0); (3, Rec.CommitTxn 3 0)]%Z three_frames) ->
    frame_of None e f) as Hf.
  { intros e f [H|[H|[H|[]]]]; injection H as <- <-; eexists;
      (split_and!; [reflexivity|unfold u64; cbn; lia|vm_compute; discriminate|vm_compute; reflexivity]). }
  pose proof (damaged_length_drops_records None
    [(1, Rec.CommitTxn 1 0)]%Z (2, Rec.CommitTxn 2 0)%Z [(3, Rec.CommitTxn 3 0)]%Z
    (take 1 three_frames) (three_frames !!! 1) (drop 2 three_frames) 1000) as H.
  rewrite H; [reflexivity|..].
  - repeat constructor. apply Hf. by left.
  - apply Hf. right. by left.
  - repeat constructor. apply Hf. right. right. by left.
  - vm_compute. split; [reflexivity|discriminate].
Defined.
