(* ===== verification/Index.v ===== *)
(** * Secondary indexes ([engine.rs], [IndexData])

    The entries of one index: a tree ordered by key and row whose values are the
    visibility ranges of each entry, a tree from each row to its alive key, and
    the in-memory maps for entries too large for a page. The two trees are
    finite maps here, with the operations [keytree.rs] documents; the orders
    they are read in are part of the reads. A call runs on the index and leaves
    it changed. *)

From S2P Require Import Prelude Order Core Mvcc.
From stdpp Require Import base gmap list sets strings sorting.
From Stdlib Require Import ZArith Lia Strings.Byte.

(** ** The tree's interface *)

Module KeyTree.
Definition t : Type := gmap (bytes * Z) bytes.

Definition MAX_ENTRY_BYTES : nat := 2000.

Definition fits (key_len value_len : nat) : bool :=
  bool_decide (2 + key_len + 8 + 2 + value_len <= MAX_ENTRY_BYTES).

Definition compare (a_key : bytes) (a_row : Z) (b_key : bytes) (b_row : Z) : comparison :=
  match cmp_bytes a_key b_key with
  | Eq => (a_row ?= b_row)%Z
  | c => c
  end.

Definition corrupt (what : string) : Error :=
  Io InvalidData ("nusadb-btree: index page corrupt: " +:+ what).

Definition get (tree : t) (key : bytes) (row : Z) : option bytes := tree !! (key, row).

Definition put (key : bytes) (row : Z) (value : bytes) (tree : t) : result t :=
  if fits (length key) (length value) then Ok (<[(key, row) := value]> tree)
  else Err (corrupt "entry too large for an index page").

Definition delete (key : bytes) (row : Z) (tree : t) : t := base.delete (key, row) tree.
End KeyTree.

(** ** Ranges and their encoding *)

Record EntryMeta := MkEntry { e_xmin : Z; e_xmax : Z }.

#[global] Instance EntryMeta_eq_dec : EqDecision EntryMeta.
Proof. solve_decision. Defined.

Definition encode_metas (metas : list EntryMeta) : bytes :=
  mjoin ((fun m => le_bytes 8 (e_xmin m) ++ le_bytes 8 (e_xmax m)) <$> metas).

(** [chunks_exact(16)]: a trailing part of a chunk is dropped. *)
Fixpoint decode_chunks (n : nat) (b : bytes) : list EntryMeta :=
  match n with
  | O => []
  | S n =>
      MkEntry (le_val (take 8 b)) (le_val (take 8 (drop 8 b))) :: decode_chunks n (drop 16 b)
  end.

Definition decode_metas (b : bytes) : list EntryMeta := decode_chunks (length b / 16) b.

Definition alive (m : EntryMeta) : bool := (e_xmax m =? NO_XMAX)%Z.

(** ** The index *)

Record IndexData := MkIndexData {
  root : KeyTree.t;
  alive_root : KeyTree.t;
  big : gmap bytes (gmap Z (list EntryMeta));
  alive_big : gmap Z bytes;
  dead : gmap bytes (gset Z);
  ix_bytes : Z }.

Definition ix := M Error IndexData.

Definition set_root (t : KeyTree.t) (d : IndexData) : IndexData :=
  MkIndexData t (alive_root d) (big d) (alive_big d) (dead d) (ix_bytes d).
Definition set_alive_root (t : KeyTree.t) (d : IndexData) : IndexData :=
  MkIndexData (root d) t (big d) (alive_big d) (dead d) (ix_bytes d).
Definition set_big (b : gmap bytes (gmap Z (list EntryMeta))) (d : IndexData) : IndexData :=
  MkIndexData (root d) (alive_root d) b (alive_big d) (dead d) (ix_bytes d).
Definition set_alive_big (b : gmap Z bytes) (d : IndexData) : IndexData :=
  MkIndexData (root d) (alive_root d) (big d) b (dead d) (ix_bytes d).
Definition set_dead (x : gmap bytes (gset Z)) (d : IndexData) : IndexData :=
  MkIndexData (root d) (alive_root d) (big d) (alive_big d) x (ix_bytes d).

(** [u64::saturating_add] and [saturating_sub] on the byte count. *)
Definition add_bytes (n : Z) (d : IndexData) : IndexData :=
  MkIndexData (root d) (alive_root d) (big d) (alive_big d) (dead d) (Z.min U64_MAX (ix_bytes d + n)).
Definition sub_bytes (n : Z) (d : IndexData) : IndexData :=
  MkIndexData (root d) (alive_root d) (big d) (alive_big d) (dead d) (Z.max 0 (ix_bytes d - n)).

Definition PER_INDEX_ENTRY_BYTES : Z := 128.

Definition index_entry_bytes (key_len : nat) : Z := Z.of_nat key_len * 2 + PER_INDEX_ENTRY_BYTES.

(** [IndexData::open] on the trees' contents; [create] opens two empty ones. *)
Definition open (entries alive_map : KeyTree.t) : IndexData :=
  MkIndexData entries alive_map ∅ ∅ ∅ 0.

Definition create : IndexData := open ∅ ∅.

Definition entry_visible (metas : list EntryMeta) (view : ReadView) : bool :=
  existsb (fun m => sees view (e_xmin m) &&
                    ((e_xmax m =? NO_XMAX)%Z || negb (sees view (e_xmax m)))) metas.

Definition load (d : IndexData) (key : bytes) (row : Z) : option (list EntryMeta) :=
  match big d !! key ≫= fun rows => rows !! row with
  | Some metas => Some metas
  | None => decode_metas <$> KeyTree.get (root d) key row
  end.

Definition big_remove (key : bytes) (row : Z) (d : IndexData) : bool * IndexData :=
  match big d !! key with
  | None => (false, d)
  | Some rows =>
      match rows !! row with
      | None => (false, d)
      | Some metas =>
          let rows := base.delete row rows in
          let b := if decide (rows = ∅) then base.delete key (big d) else <[key := rows]> (big d) in
          (true, sub_bytes (index_entry_bytes (length key) + 16 * Z.of_nat (length metas)) (set_big b d))
      end
  end.

(** Keep the dead set in step with the ranges just stored. *)
Definition note_dead (key : bytes) (row : Z) (metas : list EntryMeta) (d : IndexData) : IndexData :=
  let rows := default ∅ (dead d !! key) in
  if existsb (fun m => negb (alive m)) metas then
    let d' := set_dead (<[key := rows ∪ {[row]}]> (dead d)) d in
    if bool_decide (row ∈ rows) then d' else add_bytes (index_entry_bytes (length key)) d'
  else if bool_decide (row ∈ rows) then
    let rows := rows ∖ {[row]} in
    let x := if decide (rows = ∅) then base.delete key (dead d) else <[key := rows]> (dead d) in
    sub_bytes (index_entry_bytes (length key)) (set_dead x d)
  else d.

Definition save (key : bytes) (row : Z) (metas : list EntryMeta) : ix unit :=
  fun d =>
    let '(was_big, d) := big_remove key row d in
    let dropped := if was_big then root d else KeyTree.delete key row (root d) in
    match metas with
    | [] => (Ok tt, note_dead key row metas (set_root dropped d))
    | _ =>
        let value := encode_metas metas in
        if KeyTree.fits (length key) (length value) then
          match KeyTree.put key row value (root d) with
          | Ok tree => (Ok tt, note_dead key row metas (set_root tree d))
          | Err e => (Err e, d)
          | Panic => (Panic, d)
          | Diverge => (Diverge, d)
          end
        else
          let d := add_bytes (index_entry_bytes (length key) + 16 * Z.of_nat (length metas)) d in
          let b := <[key := <[row := metas]> (default ∅ (big d !! key))]> (big d) in
          (Ok tt, note_dead key row metas (set_root dropped (set_big b d)))
    end.

(** ** The row-to-key map *)

(** [row.to_be_bytes()]. *)
Definition row_key (row : Z) : bytes := reverse (le_bytes 8 row).

Definition alive_key (d : IndexData) (row : Z) : option bytes :=
  match alive_big d !! row with
  | Some key => Some key
  | None => KeyTree.get (alive_root d) (row_key row) 0
  end.

(** Forget [row] in memory, with its bytes. *)
Definition alive_big_remove (row : Z) (d : IndexData) : IndexData :=
  match alive_big d !! row with
  | Some old => sub_bytes (index_entry_bytes (length old)) (set_alive_big (base.delete row (alive_big d)) d)
  | None => d
  end.

Definition set_alive (row : Z) (key : bytes) : ix unit :=
  fun d =>
    if KeyTree.fits 8 (length key) then
      match KeyTree.put (row_key row) 0 key (alive_root d) with
      | Ok map => (Ok tt, set_alive_root map (alive_big_remove row d))
      | Err e => (Err e, d)
      | Panic => (Panic, d)
      | Diverge => (Diverge, d)
      end
    else
      let map := KeyTree.delete (row_key row) 0 (alive_root d) in
      let old := alive_big d !! row in
      let d := add_bytes (index_entry_bytes (length key)) d in
      let d := set_alive_big (<[row := key]> (alive_big d)) d in
      let d :=
        match old with
        | Some old => sub_bytes (index_entry_bytes (length old)) d
        | None => d
        end in
      (Ok tt, set_alive_root map d).

Definition clear_alive (row : Z) : ix unit :=
  fun d =>
    let d := alive_big_remove row d in
    (Ok tt, set_alive_root (KeyTree.delete (row_key row) 0 (alive_root d)) d).

(** ** Writing entries *)

(** [iter_mut().rfind(p)] and a change of what it found; [None] when nothing
    satisfies [p]. *)
Fixpoint change_last {A} (p : A -> bool) (f : A -> A) (l : list A) : option (list A) :=
  match l with
  | [] => None
  | x :: l =>
      match change_last p f l with
      | Some l' => Some (x :: l')
      | None => if p x then Some (f x :: l) else None
      end
  end.

(** [rposition(p)] and [remove]: what was removed, and the rest. *)
Fixpoint remove_last {A} (p : A -> bool) (l : list A) : option (A * list A) :=
  match l with
  | [] => None
  | x :: l =>
      match remove_last p l with
      | Some (y, l') => Some (y, x :: l')
      | None => if p x then Some (x, l) else None
      end
  end.

Definition with_xmax (x : Z) (m : EntryMeta) : EntryMeta := MkEntry (e_xmin m) x.

Inductive AppliedInsert : Set :=
| Noop
| IndexInserted (stamped : option bytes).

(** Dead-stamp the alive range of the row's old key. *)
Definition stamp_old (old_key : bytes) (row_id txn : Z) : ix unit :=
  fun d =>
    match load d old_key row_id with
    | Some metas =>
        save old_key row_id (default metas (change_last alive (with_xmax txn) metas)) d
    | None => (Ok tt, d)
    end.

Definition push_range (key : bytes) (row_id : Z) (m : EntryMeta) : ix unit :=
  fun d => save key row_id (default [] (load d key row_id) ++ [m]) d.

Definition apply_insert (key : bytes) (row_id txn : Z) : ix AppliedInsert :=
  fun d =>
    match alive_key d row_id with
    | Some old_key =>
        if decide (old_key = key) then (Ok Noop, d)
        else
          (let* _ := stamp_old old_key row_id txn in
           let* _ := push_range key row_id (MkEntry txn NO_XMAX) in
           let* _ := set_alive row_id key in
           sret (IndexInserted (Some old_key))) d
    | None =>
        (let* _ := push_range key row_id (MkEntry txn NO_XMAX) in
         let* _ := set_alive row_id key in
         sret (IndexInserted None)) d
    end.

(** Clear the row-to-key map if it points at [key]. *)
Definition clear_if_alive (key : bytes) (row_id : Z) : ix unit :=
  fun d =>
    match alive_key d row_id with
    | Some k => if decide (k = key) then clear_alive row_id d else (Ok tt, d)
    | None => (Ok tt, d)
    end.

Definition remove_inserted (key : bytes) (row_id txn : Z) : ix unit :=
  let* _ := fun d =>
    match load d key row_id with
    | Some metas =>
        let metas :=
          match remove_last (fun m => (e_xmin m =? txn)%Z && alive m) metas with
          | Some (_, metas) => metas
          | None => metas
          end in
        save key row_id metas d
    | None => (Ok tt, d)
    end in
  clear_if_alive key row_id.

Definition apply_delete (key : bytes) (row_id : Z) : ix (option EntryMeta) :=
  fun d =>
    match load d key row_id with
    | None => (Ok None, d)
    | Some metas =>
        match remove_last alive metas with
        | None => (Ok None, d)
        | Some (removed, metas) =>
            (let* _ := save key row_id metas in
             let* _ := clear_if_alive key row_id in
             sret (Some removed)) d
        end
    end.

Definition apply_unstamp (key : bytes) (row_id txn : Z) : ix unit :=
  fun d =>
    match load d key row_id with
    | None => (Ok tt, d)
    | Some metas =>
        match change_last (fun m => (e_xmax m =? txn)%Z) (with_xmax NO_XMAX) metas with
        | None => (Ok tt, d)
        | Some metas => (save key row_id metas >> set_alive row_id key) d
        end
    end.

Definition restore_deleted (key : bytes) (row_id : Z) (m : EntryMeta) : ix unit :=
  let* _ := push_range key row_id m in
  if alive m then set_alive row_id key else sret tt.

Definition restore_image_entry (key : bytes) (row_id txn : Z) (d : IndexData) : IndexData :=
  let d :=
    if negb (KeyTree.fits 8 (length key)) then
      let d := add_bytes (index_entry_bytes (length key)) d in
      set_alive_big (<[row_id := key]> (alive_big d)) d
    else d in
  let rows := default ∅ (big d !! key) in
  let metas := default [] (rows !! row_id) ++ [MkEntry txn NO_XMAX] in
  add_bytes (index_entry_bytes (length key) + 16) (set_big (<[key := <[row_id := metas]> rows]> (big d)) d).

(** ** Purge *)

Definition dead_pairs (d : IndexData) : list (bytes * Z) :=
  map_to_list (dead d) ≫= fun '(key, rows) => (key,.) <$> elements rows.

Definition le_pair (a b : bytes * Z) : Prop := KeyTree.compare a.1 a.2 b.1 b.2 <> Gt.

#[global] Instance le_pair_dec : RelDecision le_pair.
Proof. intros a b. unfold le_pair. apply _. Defined.

(** [sort_unstable] and [dedup] leave each pair once, in order. *)
Definition sorted_once (l : list (bytes * Z)) : list (bytes * Z) := merge_sort le_pair (remove_dups l).

Definition purge_entry (removed : gset Z) (settled : Z -> bool) (key : bytes) (row : Z) (count : nat)
    : ix nat :=
  fun d =>
    match load d key row with
    | None => (Ok count, d)
    | Some metas =>
        let kept := filter (fun m => ~ (row ∈ removed \/ (alive m = false /\ settled (e_xmax m) = true))) metas in
        if decide (length kept = length metas) then (Ok count, d)
        else (let* _ := save key row kept in sret (count + (length metas - length kept))) d
    end.

Definition purge (removed : gset Z) (settled : Z -> bool) : ix nat :=
  fun d =>
    let targets := sorted_once
      (dead_pairs d ++ omap (fun row => (., row) <$> alive_key d row) (elements removed)) in
    (let* count := sfold (fun count '(key, row) => purge_entry removed settled key row count) 0 targets in
     let* _ := sfold (fun _ row => clear_alive row) tt (elements removed) in
     sret count) d.

Definition drop_dead_entry (key : bytes) (row : Z) : ix unit :=
  fun d =>
    match load d key row with
    | Some metas => save key row (filter (fun m => alive m = true) metas) d
    | None => (Ok tt, d)
    end.

Definition drop_dead_ranges : ix unit :=
  fun d => sfold (fun _ '(key, row) => drop_dead_entry key row) tt (dead_pairs d) d.

(** ** Reading entries in order *)

Definition below_lo (lo : Bound bytes) (key : bytes) : bool :=
  match lo with
  | Included b => bool_decide (cmp_bytes key b = Lt)
  | Excluded b => bool_decide (cmp_bytes key b <> Gt)
  | Unbounded => false
  end.

Definition above_hi (hi : Bound bytes) (key : bytes) : bool :=
  match hi with
  | Included b => bool_decide (cmp_bytes key b = Gt)
  | Excluded b => bool_decide (cmp_bytes key b <> Lt)
  | Unbounded => false
  end.

Definition in_range (lo hi : Bound bytes) (key : bytes) : bool := negb (below_lo lo key) && negb (above_hi hi key).

Definition entry : Type := bytes * Z * list EntryMeta.

Definition le_entry (a b : entry) : Prop := le_pair a.1 b.1.

#[global] Instance le_entry_dec : RelDecision le_entry.
Proof. intros a b. unfold le_entry. apply _. Defined.

(** The entries in the pages, and those in memory, each in ascending order. *)
Definition page_entries (d : IndexData) (lo hi : Bound bytes) : list entry :=
  merge_sort le_entry
    ((fun kv => (kv.1, decode_metas kv.2)) <$>
       filter (fun kv : (bytes * Z) * bytes => in_range lo hi kv.1.1 = true) (map_to_list (root d))).

Definition big_entries (d : IndexData) (lo hi : Bound bytes) : list entry :=
  merge_sort le_entry
    (filter (fun kv : bytes * gmap Z (list EntryMeta) => in_range lo hi kv.1 = true) (map_to_list (big d))
       ≫= fun '(key, rows) => (fun '(row, metas) => (key, row, metas)) <$> map_to_list rows).

(** Both, merged: before each page entry, the in-memory ones that come first;
    at the end, what is left of them. *)
Fixpoint big_before (before : entry -> entry -> bool) (e : entry) (l : list entry) : list entry * list entry :=
  match l with
  | [] => ([], [])
  | b :: rest =>
      if before b e then let '(first, last) := big_before before e rest in (b :: first, last)
      else ([], l)
  end.

Fixpoint merge_entries (before : entry -> entry -> bool) (pages bigs : list entry) : list entry :=
  match pages with
  | [] => bigs
  | e :: pages =>
      let '(first, last) := big_before before e bigs in
      first ++ e :: merge_entries before pages last
  end.

Definition entry_cmp (a b : entry) : comparison := KeyTree.compare a.1.1 a.1.2 b.1.1 b.1.2.

(** The whole sequence a scan offers its callback; the callback may stop it at
    any point. *)
Definition scan (d : IndexData) (lo hi : Bound bytes) (backward : bool) : list entry :=
  if backward then
    merge_entries (fun a b => bool_decide (entry_cmp a b = Gt))
      (reverse (page_entries d lo hi)) (reverse (big_entries d lo hi))
  else
    merge_entries (fun a b => bool_decide (entry_cmp a b = Lt)) (page_entries d lo hi) (big_entries d lo hi).

Definition rows_for (d : IndexData) (key : bytes) : list (Z * list EntryMeta) :=
  (fun '(_, row, metas) => (row, metas)) <$> scan d (Included key) (Included key) false.
