(* ===== verification/Sequence.v ===== *)
(** * Sequences ([engine.rs], [SeqDomain])

    The sequence domain: definitions, counters, the names in use and the names
    a running transaction has dropped. Creating, advancing and altering a
    sequence is durable at once; dropping one is part of its transaction. *)

From S2P Require Import Prelude Core Codec Catalog WalRecord WalOps.
From stdpp Require Import base gmap list sets strings.
From Stdlib Require Import ZArith Lia Strings.Byte.

Record SequenceState := MkSeq { def : SequenceDef; current : option Z }.

Record SeqDomain := MkSeqs {
  sequences : gmap Z SequenceState;
  seq_by_name : gmap bytes Z;
  next_sequence_id : Z;
  pending_drops : gmap bytes (Z * nat) }.

Definition seqs_default : SeqDomain := MkSeqs ∅ ∅ 0 ∅.

Definition set_sequences (f : gmap Z SequenceState -> gmap Z SequenceState) (d : SeqDomain) : SeqDomain :=
  MkSeqs (f (sequences d)) (seq_by_name d) (next_sequence_id d) (pending_drops d).
Definition set_seq_by_name (f : gmap bytes Z -> gmap bytes Z) (d : SeqDomain) : SeqDomain :=
  MkSeqs (sequences d) (f (seq_by_name d)) (next_sequence_id d) (pending_drops d).
Definition set_next_sequence_id (n : Z) (d : SeqDomain) : SeqDomain :=
  MkSeqs (sequences d) (seq_by_name d) n (pending_drops d).
Definition set_pending_drops (f : gmap bytes (Z * nat) -> gmap bytes (Z * nat)) (d : SeqDomain) : SeqDomain :=
  MkSeqs (sequences d) (seq_by_name d) (next_sequence_id d) (f (pending_drops d)).

Definition claim_name (name : bytes) (id : Z) (d : SeqDomain) : SeqDomain :=
  match seq_by_name d !! name with
  | Some _ => d
  | None => set_seq_by_name <[name := id]> d
  end.

Definition release_name (name : bytes) (id : Z) (d : SeqDomain) : SeqDomain :=
  if decide (seq_by_name d !! name = Some id) then set_seq_by_name (base.delete name) d else d.

Definition sequence_error (msg : string) : Error := Io InvalidInput msg.

Definition set_current (c : option Z) (s : SequenceState) : SequenceState := MkSeq (def s) c.

Definition I64_MIN : Z := -9223372036854775808.
Definition I64_MAX : Z := 9223372036854775807.

(** [i64::checked_add] and [checked_sub]. *)
Definition checked_i64 (z : Z) : option Z :=
  if decide (I64_MIN <= z <= I64_MAX)%Z then Some z else None.

Definition advance_sequence (seq : SequenceState) : result (Z * SequenceState) :=
  let d := def seq in
  let wrapped :=
    if cycle d then Ok (if (0 <=? increment d)%Z then min_value d else max_value d)
    else Err (sequence_error "sequence reached its limit") in
  let? next :=
    match current seq with
    | None => Ok (start d)
    | Some cur =>
        match checked_i64 (cur + increment d) with
        | Some v =>
            if (0 <=? increment d)%Z && (v <=? max_value d)%Z then Ok v
            else if (increment d <? 0)%Z && (min_value d <=? v)%Z then Ok v
            else wrapped
        | None => wrapped
        end
    end in
  Ok (next, set_current (Some next) seq).
