(* ===== verification/Replay.v ===== *)
(** * Replay of a recovered log ([engine.rs], [replay] and [replay_op])

    Recovery rebuilds the catalog from the log: the operations of committed
    transactions are applied in log order, the sequence family and the image's
    own records unconditionally, and a prepared transaction's records are taken
    from between its bounds and kept aside when it has not ended. The model is
    of recovery at open: no transaction is live and no reader runs, so freeing
    pages has no effect on what the catalog reads as. A table's tree is the map
    it stores, as in [Engine.v]; the trees of a physical image are arguments,
    the contents found at their root pages. *)

From S2P Require Import Prelude Core Codec Catalog WalRecord WalOps Mvcc Txn Engine Index Sequence.
From stdpp Require Import base gmap list sets strings.
From Stdlib Require Import ZArith Lia Strings.Byte.

(** ** The catalog *)

Record TableSchema := MkSchema {
  schema_id : Z;
  schema_schema : bytes;
  schema_name : bytes;
  schema_columns : list ColumnDef }.

Record CatTable := MkCatTable {
  t_schema : TableSchema;
  t_state : TableState;
  schema_version : Z;
  schema_history : gmap Z TableSchema }.

Record IndexState := MkIndexState { i_def : IndexDef; i_data : IndexData }.

Record UniqueState := MkUnique {
  u_name : bytes;
  u_columns : list bytes;
  u_primary : bool;
  u_index : Z;
  u_nulls_not_distinct : bool }.

Record CheckState := MkCheck { ck_name : bytes; ck_expr : bytes }.

Record FkState := MkFk {
  fk_name : bytes;
  fk_child_table : Z;
  fk_child_columns : list bytes;
  fk_parent_table : Z;
  fk_parent_index : Z;
  fk_child_index : Z;
  fk_on_delete : FkAction;
  fk_on_update : FkAction }.

Record Cat := MkCat {
  pending_roots : gmap Z (Z * Z);
  pending_index_roots : gmap Z (Z * Z);
  c_tables : gmap Z CatTable;
  by_name : gmap (bytes * bytes) Z;
  next_table_id : Z;
  indexes : gmap Z IndexState;
  idx_by_name : gmap bytes Z;
  next_index_id : Z;
  constraints : gmap Z (list UniqueState);
  checks : gmap Z (list CheckState);
  foreign_keys : gmap bytes FkState;
  stats : gmap Z TableStats;
  namespaces : gmap Z bytes;
  ns_by_name : gmap bytes Z;
  next_namespace_id : Z }.

Definition cat_default : Cat := MkCat ∅ ∅ ∅ ∅ 0 ∅ ∅ 0 ∅ ∅ ∅ ∅ ∅ ∅ 0.

Definition with_roots (f : gmap Z (Z * Z) -> gmap Z (Z * Z)) (c : Cat) : Cat :=
  MkCat (f (pending_roots c)) (pending_index_roots c) (c_tables c) (by_name c) (next_table_id c)
    (indexes c) (idx_by_name c) (next_index_id c) (constraints c) (checks c) (foreign_keys c) (stats c)
    (namespaces c) (ns_by_name c) (next_namespace_id c).
Definition with_index_roots (f : gmap Z (Z * Z) -> gmap Z (Z * Z)) (c : Cat) : Cat :=
  MkCat (pending_roots c) (f (pending_index_roots c)) (c_tables c) (by_name c) (next_table_id c)
    (indexes c) (idx_by_name c) (next_index_id c) (constraints c) (checks c) (foreign_keys c) (stats c)
    (namespaces c) (ns_by_name c) (next_namespace_id c).
Definition with_tables (f : gmap Z CatTable -> gmap Z CatTable) (c : Cat) : Cat :=
  MkCat (pending_roots c) (pending_index_roots c) (f (c_tables c)) (by_name c) (next_table_id c)
    (indexes c) (idx_by_name c) (next_index_id c) (constraints c) (checks c) (foreign_keys c) (stats c)
    (namespaces c) (ns_by_name c) (next_namespace_id c).
Definition with_names (f : gmap (bytes * bytes) Z -> gmap (bytes * bytes) Z) (c : Cat) : Cat :=
  MkCat (pending_roots c) (pending_index_roots c) (c_tables c) (f (by_name c)) (next_table_id c)
    (indexes c) (idx_by_name c) (next_index_id c) (constraints c) (checks c) (foreign_keys c) (stats c)
    (namespaces c) (ns_by_name c) (next_namespace_id c).
Definition with_next_table (n : Z) (c : Cat) : Cat :=
  MkCat (pending_roots c) (pending_index_roots c) (c_tables c) (by_name c) n
    (indexes c) (idx_by_name c) (next_index_id c) (constraints c) (checks c) (foreign_keys c) (stats c)
    (namespaces c) (ns_by_name c) (next_namespace_id c).
Definition with_indexes (f : gmap Z IndexState -> gmap Z IndexState) (g : gmap bytes Z -> gmap bytes Z)
    (n : Z) (c : Cat) : Cat :=
  MkCat (pending_roots c) (pending_index_roots c) (c_tables c) (by_name c) (next_table_id c)
    (f (indexes c)) (g (idx_by_name c)) n (constraints c) (checks c) (foreign_keys c) (stats c)
    (namespaces c) (ns_by_name c) (next_namespace_id c).
Definition with_constraints (f : gmap Z (list UniqueState) -> gmap Z (list UniqueState))
    (g : gmap Z (list CheckState) -> gmap Z (list CheckState))
    (h : gmap bytes FkState -> gmap bytes FkState) (c : Cat) : Cat :=
  MkCat (pending_roots c) (pending_index_roots c) (c_tables c) (by_name c) (next_table_id c)
    (indexes c) (idx_by_name c) (next_index_id c) (f (constraints c)) (g (checks c))
    (h (foreign_keys c)) (stats c) (namespaces c) (ns_by_name c) (next_namespace_id c).
Definition with_stats (f : gmap Z TableStats -> gmap Z TableStats) (c : Cat) : Cat :=
  MkCat (pending_roots c) (pending_index_roots c) (c_tables c) (by_name c) (next_table_id c)
    (indexes c) (idx_by_name c) (next_index_id c) (constraints c) (checks c) (foreign_keys c)
    (f (stats c)) (namespaces c) (ns_by_name c) (next_namespace_id c).
Definition with_namespaces (f : gmap Z bytes -> gmap Z bytes) (g : gmap bytes Z -> gmap bytes Z)
    (n : Z) (c : Cat) : Cat :=
  MkCat (pending_roots c) (pending_index_roots c) (c_tables c) (by_name c) (next_table_id c)
    (indexes c) (idx_by_name c) (next_index_id c) (constraints c) (checks c) (foreign_keys c) (stats c)
    (f (namespaces c)) (g (ns_by_name c)) n.

(** ** Replaying one operation *)

(** [id + 1] on [u64]; overflow panics. *)
Definition succ_u64 (id : Z) : result Z :=
  if (id <? U64_MAX)%Z then Ok (id + 1)%Z else Panic.

Definition schema_of (table : Z) (d : TableDef) : TableSchema :=
  MkSchema table (table_schema d) (table_name d) (columns d).

Definition name_of (s : TableSchema) : bytes * bytes := (schema_schema s, schema_name s).

Definition set_rows (m : gmap Z bytes) (nx : Z) (t : CatTable) : CatTable :=
  MkCatTable (t_schema t) (Engine.MkTable m nx) (schema_version t) (schema_history t).

Section Replay.
Context (image : Z -> gmap Z bytes) (index_image : Z -> KeyTree.t).

Definition replay_create_table (table : Z) (d : TableDef) (c : Cat) : result Cat :=
  let '(state, c) :=
    match pending_roots c !! table with
    | Some (root, nx) => (Engine.MkTable (image root) nx, with_roots (base.delete table) c)
    | None => (Engine.MkTable ∅ 0, c)
    end in
  let schema := schema_of table d in
  let c := with_names <[(table_schema d, table_name d) := table]> c in
  let c := with_tables <[table := MkCatTable schema state 0 {[ 0%Z := schema ]}]> c in
  let? next := succ_u64 table in
  Ok (with_next_table (Z.max (next_table_id c) next) c).

Definition replay_drop_table (table : Z) (c : Cat) : Cat :=
  match c_tables c !! table with
  | Some t => with_names (base.delete (name_of (t_schema t))) (with_tables (base.delete table) c)
  | None => c
  end.

(** A change to the rows of a table that exists; a record for one that does
    not is skipped. *)
Definition on_table (table : Z) (f : TableState -> result TableState) (c : Cat) : result Cat :=
  match c_tables c !! table with
  | None => Ok c
  | Some t =>
      let? s := f (t_state t) in
      Ok (with_tables <[table := set_rows (rows s) (next_row_id s) t]> c)
  end.

Definition replay_insert (txn row_id : Z) (tuple : bytes) (s : TableState) : result TableState :=
  let? m := tree_insert row_id (encode_row (fresh_meta txn) tuple) (rows s) in
  let? next := succ_u64 row_id in
  Ok (Engine.MkTable m (Z.max (next_row_id s) next)).

Fixpoint insert_tuples (txn row_id : Z) (tuples : list bytes) (m : gmap Z bytes) : result (gmap Z bytes) :=
  match tuples with
  | [] => Ok m
  | tuple :: tuples =>
      let? m := tree_insert row_id (encode_row (fresh_meta txn) tuple) m in
      insert_tuples txn (row_id + 1) tuples m
  end.

Definition replay_insert_batch (txn first_row_id : Z) (tuples : list bytes) (s : TableState)
    : result TableState :=
  let end_ := (first_row_id + Z.of_nat (length tuples))%Z in
  if (U64_MAX <? end_)%Z then Err (corrupt "insert-batch record's row-id range overflows")
  else
    let? m := insert_tuples txn first_row_id tuples (rows s) in
    Ok (Engine.MkTable m (Z.max (next_row_id s) end_)).

Definition replay_update (txn row_id : Z) (tuple : bytes) (s : TableState) : result TableState :=
  let value := encode_row (fresh_meta txn) tuple in
  match rows s !! row_id with
  | Some _ =>
      let? m := tree_update row_id value (rows s) in
      Ok (Engine.MkTable m (next_row_id s))
  | None =>
      let? m := tree_insert row_id value (rows s) in
      let? next := succ_u64 row_id in
      Ok (Engine.MkTable m (Z.max (next_row_id s) next))
  end.

Definition replay_delete (row_id : Z) (s : TableState) : result TableState :=
  Ok (Engine.MkTable (base.delete row_id (rows s)) (next_row_id s)).

Definition replay_create_index (index : Z) (d : IndexDef) (c : Cat) : result Cat :=
  let '(data, c) :=
    match pending_index_roots c !! index with
    | Some (root, alive_root) =>
        (open (index_image root) (index_image alive_root), with_index_roots (base.delete index) c)
    | None => (create, c)
    end in
  let? next := succ_u64 index in
  Ok (with_indexes <[index := MkIndexState d data]> <[index_name d := index]>
        (Z.max (next_index_id c) next) c).

Definition replay_drop_index (index : Z) (c : Cat) : Cat :=
  match indexes c !! index with
  | Some state => with_indexes (base.delete index) (base.delete (index_name (i_def state))) (next_index_id c) c
  | None => c
  end.

(** A change to the entries of an index that exists. *)
Definition on_index {A} (index : Z) (f : ix A) (c : Cat) : result Cat :=
  match indexes c !! index with
  | None => Ok c
  | Some state =>
      match f (i_data state) with
      | (Ok _, data) =>
          Ok (with_indexes <[index := MkIndexState (i_def state) data]> id (next_index_id c) c)
      | (Err e, _) => Err e
      | (Panic, _) => Panic
      | (Diverge, _) => Diverge
      end
  end.

Definition replay_drop_constraint (table : Z) (name : bytes) (c : Cat) : Cat :=
  with_constraints
    (alter (filter (fun u => u_name u <> name)) table)
    (alter (filter (fun k => ck_name k <> name)) table)
    (fun fks => match fks !! name with
                | Some fk => if decide (fk_child_table fk = table) then base.delete name fks else fks
                | None => fks
                end) c.

Definition replay_alter_schema (table version : Z) (d : TableDef) (c : Cat) : Cat :=
  match c_tables c !! table with
  | None => c
  | Some t =>
      let previous := t_schema t in
      let new_schema := schema_of table d in
      let c :=
        if decide (schema_name previous <> table_name d \/ schema_schema previous <> table_schema d) then
          with_names (fun m => <[(table_schema d, table_name d) := table]> (base.delete (name_of previous) m)) c
        else c in
      with_tables
        <[table := MkCatTable new_schema (t_state t) version
            (filter (fun kv : Z * TableSchema => (kv.1 <= version)%Z)
               (<[version := new_schema]> (schema_history t)))]> c
  end.

Definition push_at {A} (k : Z) (x : A) (m : gmap Z (list A)) : gmap Z (list A) :=
  <[k := default [] (m !! k) ++ [x]]> m.

(** The sequence family, on the sequence domain. *)
Definition replay_seq (op : Op.LoggedOp) (q : SeqDomain) : result SeqDomain :=
  match op with
  | Op.SeqCreate id d =>
      let q := claim_name (seq_name d) id q in
      let q := set_sequences <[id := MkSeq d None]> q in
      let? next := succ_u64 id in
      Ok (set_next_sequence_id (Z.max (next_sequence_id q) next) q)
  | Op.SeqDrop _ id =>
      match sequences q !! id with
      | Some seq => Ok (release_name (seq_name (def seq)) id (set_sequences (base.delete id) q))
      | None => Ok q
      end
  | Op.SeqSet id value => Ok (set_sequences (alter (set_current (Some value)) id) q)
  | Op.SeqAlter id d c =>
      Ok (set_sequences (alter (fun seq => MkSeq d (match c with Some c => Some c | None => current seq end)) id) q)
  | _ => Ok q
  end.

Definition replay_cat (op : Op.LoggedOp) (c : Cat) : result Cat :=
  match op with
  | Op.TableRoot table root nx => Ok (with_roots <[table := (root, nx)]> c)
  | Op.CreateTable _ table d => replay_create_table table d c
  | Op.DropTable _ table => Ok (replay_drop_table table c)
  | Op.Insert txn table row_id tuple => on_table table (replay_insert txn row_id tuple) c
  | Op.InsertBatch txn table first tuples => on_table table (replay_insert_batch txn first tuples) c
  | Op.Update txn table row_id tuple => on_table table (replay_update txn row_id tuple) c
  | Op.Delete _ table row_id => on_table table (replay_delete row_id) c
  | Op.IndexRoot index root alive_root => Ok (with_index_roots <[index := (root, alive_root)]> c)
  | Op.CreateIndex _ index d => replay_create_index index d c
  | Op.DropIndex _ index => Ok (replay_drop_index index c)
  | Op.IndexImageEntry txn index row_id key =>
      on_index index (fun data => (Ok tt, restore_image_entry key row_id txn data)) c
  | Op.IndexInsert txn index row_id key => on_index index (apply_insert key row_id txn) c
  | Op.IndexDelete _ index row_id key => on_index index (apply_delete key row_id) c
  | Op.IndexUnstamp txn index row_id key => on_index index (apply_unstamp key row_id txn) c
  | Op.AddUnique _ table index name cols primary nnd =>
      Ok (with_constraints (push_at table (MkUnique name cols primary index nnd)) id id c)
  | Op.AddCheck _ table name expr => Ok (with_constraints id (push_at table (MkCheck name expr)) id c)
  | Op.AddFk _ name child_table child_columns parent_table parent_index child_index on_delete on_update =>
      Ok (with_constraints id id
            <[name := MkFk name child_table child_columns parent_table parent_index child_index
                        on_delete on_update]> c)
  | Op.DropConstraint _ table name => Ok (replay_drop_constraint table name c)
  | Op.SetStats _ table s => Ok (with_stats <[table := s]> c)
  | Op.ClearStats _ table => Ok (with_stats (base.delete table) c)
  | Op.AlterSchema _ table version d => Ok (replay_alter_schema table version d c)
  | Op.SchemaCreate _ id name =>
      let? next := succ_u64 id in
      Ok (with_namespaces <[id := name]> <[name := id]> (Z.max (next_namespace_id c) next) c)
  | Op.SchemaDrop _ id name =>
      Ok (with_namespaces (base.delete id) (base.delete name) (next_namespace_id c) c)
  | Op.SeqCreate _ _ | Op.SeqDrop _ _ | Op.SeqSet _ _ | Op.SeqAlter _ _ _
  | Op.FreeAtOpen _ | Op.PrepareBegin _ | Op.Prepare _ _ _ _ _ _ => Ok c
  end.

Definition replay_op (op : Op.LoggedOp) (st : Cat * SeqDomain) : result (Cat * SeqDomain) :=
  let? c := replay_cat op st.1 in
  let? q := replay_seq op st.2 in
  Ok (c, q).

(** ** The pass over the log *)

(** A prepared transaction that has not ended, as its prepare recorded it. *)
Record Recovered := MkRecovered {
  rc_txn : Z;
  rc_gid : bytes;
  rc_owner : bytes;
  rc_database : bytes;
  rc_prepared_at_ms : Z;
  rc_locks : list PLock.PreparedLock;
  rc_ops : list Op.LoggedOp }.

(** The ends and complete prepares found among the records. *)
Record Ends := MkEnds { committed : gset Z; aborted : gset Z; prepared_here : gset Z }.

Definition note_end (x : Ends) (record : Rec.WalRecord) : Ends :=
  match record with
  | Rec.CommitTxn txn _ => MkEnds (committed x ∪ {[txn]}) (aborted x) (prepared_here x)
  | Rec.AbortTxn txn => MkEnds (committed x) (aborted x ∪ {[txn]}) (prepared_here x)
  | _ =>
      match Op.prepare_marker_txn record with
      | Some txn => MkEnds (committed x) (aborted x) (prepared_here x ∪ {[txn]})
      | None => x
      end
  end.

Definition ends_of (records : list Rec.WalRecord) : Ends :=
  let x := foldl note_end (MkEnds ∅ ∅ ∅) records in
  MkEnds (committed x ∖ aborted x) (aborted x) (prepared_here x).

Record Pass := MkPass {
  p_state : Cat * SeqDomain;
  max_txn : Z;
  program_open : gset Z;
  programs : gmap Z (list Op.LoggedOp);
  waiting : list Recovered }.

Definition see_txn (txn : Z) (p : Pass) : Pass :=
  MkPass (p_state p) (Z.max (max_txn p) txn) (program_open p) (programs p) (waiting p).

Definition apply_now (op : Op.LoggedOp) (p : Pass) : result Pass :=
  let? st := replay_op op (p_state p) in
  Ok (MkPass st (max_txn p) (program_open p) (programs p) (waiting p)).

(** A record of a transaction whose prepare is complete. *)
Definition prepared_record (x : Ends) (op : Op.LoggedOp) (p : Pass) : result Pass :=
  let txn := Op.txn op in
  match op with
  | Op.PrepareBegin _ =>
      Ok (MkPass (p_state p) (max_txn p) (program_open p ∪ {[txn]}) (programs p) (waiting p))
  | Op.Prepare _ gid owner database at_ms locks =>
      let still := bool_decide (txn ∉ committed x /\ txn ∉ aborted x) in
      Ok (MkPass (p_state p) (max_txn p) (program_open p ∖ {[txn]})
            (if still then base.delete txn (programs p) else programs p)
            (if still then
               waiting p ++ [MkRecovered txn gid owner database at_ms locks (default [] (programs p !! txn))]
             else waiting p))
  | _ =>
      if decide (txn ∈ program_open p) then
        if decide (txn ∈ committed x) then apply_now op p
        else if decide (txn ∈ aborted x) then Ok p
        else Ok (MkPass (p_state p) (max_txn p) (program_open p)
                   (<[txn := default [] (programs p !! txn) ++ [op]]> (programs p)) (waiting p))
      else Ok p
  end.

Definition replay_record (x : Ends) (p : Pass) (record : Rec.WalRecord) : result Pass :=
  match record with
  | Rec.CommitTxn txn _ | Rec.AbortTxn txn => Ok (see_txn txn p)
  | Rec.Put _ _ =>
      match Op.from_record record with
      | None => Err (corrupt "foreign or corrupt record in the engine WAL")
      | Some op =>
          let p := see_txn (Op.txn op) p in
          if decide (Op.txn op ∈ prepared_here x) then prepared_record x op p
          else if Op.is_non_transactional op || bool_decide (Op.txn op ∈ committed x) then apply_now op p
          else Ok p
      end
  | _ => Err (corrupt "unexpected record shape in the engine WAL")
  end.

Fixpoint replay_records (x : Ends) (p : Pass) (records : list Rec.WalRecord) : result Pass :=
  match records with
  | [] => Ok p
  | record :: records => let? p := replay_record x p record in replay_records x p records
  end.

(** The catalog and sequences the log rebuilds, the next transaction id, and
    the prepared transactions that come back. *)
Definition replay (records : list Rec.WalRecord) (st : Cat * SeqDomain) (next_txn_id : Z)
    : result ((Cat * SeqDomain) * Z * list Recovered) :=
  let? p := replay_records (ends_of records) (MkPass st 0 ∅ ∅ []) records in
  let? next := succ_u64 (max_txn p) in
  Ok (p_state p, Z.max next_txn_id next, waiting p).
End Replay.
