(* ===== verification/Recovery.v ===== *)
(** * The engine with its log ([engine.rs]: [log], [log_op], [log_compensations],
    the durable halves of [commit] and [abort])

    Row operations append their record after they have changed memory, commit
    appends a marker before it waits for the group's fsync, a partial rollback
    appends the inverses of what it undoes, and an abort appends an advisory
    marker. Each append may fail: the outcomes of the coming appends are part of
    the state. [Replay.v] rebuilds the catalog from what survives. *)

From S2P Require Import Prelude Core Codec Catalog WalRecord WalOps Mvcc Txn Engine EngineSys.
From S2P Require Import Index Sequence Replay.
From stdpp Require Import base gmap list sets strings.
From Stdlib Require Import ZArith Lia Strings.Byte.

Import BtreeEngine.

(** [disk] holds the outcomes of the appends to come; past its end they
    succeed. *)
Record Logged := MkLogged {
  l_eng : Engine;
  wal : list Rec.WalRecord;
  disk : list (option Error) }.

Abbreviation lg := (M Error Logged).

Definition set_eng (e : Engine) (l : Logged) : Logged := MkLogged e (wal l) (disk l).

Definition lift {A} (m : eng A) : lg A :=
  fun l => let '(r, e) := m (l_eng l) in (r, set_eng e l).

Definition log (record : Rec.WalRecord) : lg unit :=
  fun l =>
    match disk l with
    | Some error :: d => (Err error, MkLogged (l_eng l) (wal l) d)
    | None :: d => (Ok tt, MkLogged (l_eng l) (wal l ++ [record]) d)
    | [] => (Ok tt, MkLogged (l_eng l) (wal l ++ [record]) [])
    end.

Section Logging.
(** The tables of sessions, whose operations are not logged. *)
Context (nondurable_tables : gset Z).

(** The gate of [log_op], for the row operations. *)
Definition is_durable (op : Op.LoggedOp) : bool :=
  match op with
  | Op.Insert _ table _ _ | Op.InsertBatch _ table _ _ | Op.Update _ table _ _ | Op.Delete _ table _ =>
      bool_decide (table ∉ nondurable_tables)
  | _ => true
  end.

Definition log_op (op : Op.LoggedOp) : lg unit :=
  if is_durable op then log (Op.to_record op) else sret tt.

(** The inverse of one undone row operation. *)
Definition compensation (txn : Z) (op : UndoOp) : result Op.LoggedOp :=
  match op with
  | Inserted table row_id => Ok (Op.Delete txn table row_id)
  | Updated table row_id old _ | Deleted table row_id old =>
      match decode_row old with
      | None => Err (corrupt_row row_id)
      | Some (m, tuple) =>
          if (xmax m =? NO_XMAX)%Z then Ok (Op.Update txn table row_id tuple)
          else Ok (Op.Delete txn table row_id)
      end
  end.

Fixpoint log_each (txn : Z) (newest_first : list UndoOp) : lg unit :=
  match newest_first with
  | [] => sret tt
  | op :: ops =>
      let* comp := slift (compensation txn op) in
      let* _ := log_op comp in
      log_each txn ops
  end.

Definition log_compensations (txn : Z) (undone : list UndoOp) : lg unit := log_each txn (reverse undone).

(** [guarded] over the logged engine: an error stops it. *)
Definition lguarded {A} (m : lg A) : lg A :=
  fun l =>
    match m l with
    | (Err error, l) =>
        match fail_stop error (l_eng l) with
        | (Ok error, e) => (Err error, set_eng e l)
        | (_, e) => (Err error, set_eng e l)
        end
    | r => r
    end.

Section Limits.
Context (wl rl : option Z) (pb : Engine -> Z) (re : Z -> Z -> Error).

Definition insert_l (txn table : Z) (tuple : bytes) : lg Tid :=
  let* tid := lift (insert wl rl pb re txn table tuple) in
  let* _ := log_op (Op.Insert txn table (row_id_of tid) tuple) in
  sret tid.

Definition update_l (txn table : Z) (tid : Tid) (tuple : bytes) : lg Tid :=
  let* tid := lift (update wl rl pb re txn table tid tuple) in
  let* _ := log_op (Op.Update txn table (row_id_of tid) tuple) in
  sret tid.

Definition delete_l (txn table : Z) (tid : Tid) : lg unit :=
  let* _ := lift (delete wl txn table tid) in
  log_op (Op.Delete txn table (row_id_of tid)).
End Limits.

Definition rollback_to_l (txn : Z) (name : string) : lg unit :=
  let* _ := lift ensure_healthy in
  let* tail := lift (on_txns (split_at_savepoint txn name)) in
  lguarded (let* _ := log_compensations txn tail in lift (undo_ops txn tail)).

(** The marker is advisory: a failed append is only reported. *)
Definition abort_l (txn : Z) (state : TxnState) : lg unit :=
  let* _ := lift (abort txn state) in
  fun l => (Ok tt, (log (Rec.AbortTxn txn) l).2).

Definition rollback_l (txn : Z) : lg unit :=
  fun l =>
    match txns (txd (l_eng l)) !! txn with
    | Some s =>
        match prepared s with
        | Some _ => (Err (is_prepared txn), l)
        | None => (let* state := lift (take_txn txn) in abort_l txn state) l
        end
    | None => (Err (unknown_txn txn), l)
    end.

Definition validate_commit_l (txn : Z) : lg unit :=
  let* _ := lift ensure_healthy in
  let* _ := lift (check_commit txn) in
  fun l =>
    match serializable_read_conflict (l_eng l) txn with
    | Ok false => (Ok tt, l)
    | Ok true =>
        (let* state := lift (take_txn txn) in
         let* _ := abort_l txn state in sfail (SerializationConflict txn)) l
    | Err error =>
        (let* state := lift (take_txn txn) in
         let* _ := abort_l txn state in sfail error) l
    | Panic => (Panic, l)
    | Diverge => (Diverge, l)
    end.

(** [commit] up to the group's fsync; [unix_ms] is the clock's reading. *)
Definition commit_stage_l (txn unix_ms : Z) : lg unit :=
  let* _ := validate_commit_l txn in
  fun l =>
    let wrote :=
      match txns (txd (l_eng l)) !! txn with
      | Some s => negb (bool_decide (undo_log s = []))
      | None => true
      end in
    if negb wrote then lift (finish_commit txn) l
    else
      match log (Rec.CommitTxn txn unix_ms) l with
      | (Err error, l) =>
          (let* state := lift (take_txn txn) in
           let* _ := abort_l txn state in sfail error) l
      | (_, l) =>
          (Ok tt,
           set_eng (set_txd (set_staged (fun s => s ∪ {[txn]})
                               (bump_staged_versions txn (txd (l_eng l)))) (l_eng l)) l)
      end.
End Logging.

(** ** The system

    Sessions, the group's fsync and purge take steps in any order. [synced] is
    how many records the last fsync covered, [acked] the transactions whose
    commit has returned after writing, [doomed] the running transactions one of
    whose row records failed to reach the log: they are not committed. *)

Inductive laction :=
| LInsert (t table : Z) (tuple : bytes)
| LUpdate (t table : Z) (tid : Tid) (tuple : bytes)
| LDelete (t table : Z) (tid : Tid)
| LRollbackTo (t : Z) (name : string)
| LStage (t unix_ms : Z)
| LRollback (t : Z).

Definition lactor (a : laction) : Z :=
  match a with
  | LInsert t _ _ | LUpdate t _ _ _ | LDelete t _ _ | LRollbackTo t _ | LStage t _ | LRollback t => t
  end.

Record LSys := MkLSys {
  logged : Logged;
  snaps : list PurgeSnapshot;
  synced : nat;
  acked : gset Z;
  doomed : gset Z }.

Section System.
Context (temp : gset Z) (wl rl : option Z) (pb : Engine -> Z) (re : Z -> Z -> Error).

Definition lperform (a : laction) : lg unit :=
  match a with
  | LInsert t table tuple => let* _ := insert_l temp wl rl pb re t table tuple in sret tt
  | LUpdate t table tid tuple => let* _ := update_l temp wl rl pb re t table tid tuple in sret tt
  | LDelete t table tid => delete_l temp wl t table tid
  | LRollbackTo t name => rollback_to_l temp t name
  | LStage t unix_ms => commit_stage_l t unix_ms
  | LRollback t => rollback_l t
  end.

(** Ids, addresses and clock readings are machine integers. A session between
    the stage and the end of its commit does nothing. An append that fails
    while compensations are written stops the engine, so it has no step here. *)
Definition lenabled (w : LSys) (a : laction) (outcomes : list (option Error)) : Prop :=
  lactor a ∉ staged (txd (l_eng (logged w))) /\
  match a with
  | LInsert _ table _ | LUpdate _ table _ _ | LDelete _ table _ => u64 table
  | LRollbackTo _ _ => outcomes = []
  | LStage t unix_ms => t ∉ doomed w /\ u64 unix_ms
  | LRollback _ => True
  end.

(** Who is doomed after a row operation of [t]. *)
Definition doom (t : Z) (outcomes : list (option Error)) (d : TxnDomain) (old : gset Z) : gset Z :=
  if existsb (fun x => bool_decide (is_Some x)) outcomes && bool_decide (t ∈ active_txns d)
  then old ∪ {[t]} else old.

Definition row_action (a : laction) : bool :=
  match a with LInsert _ _ _ | LUpdate _ _ _ _ | LDelete _ _ _ => true | _ => false end.

Inductive lstep : LSys -> LSys -> Prop :=
| ls_plain e lw d sn sy ak dm a r e' :
    plain a = true -> enabled e a -> perform wl rl pb re a e = (r, e') -> r <> Panic ->
    lstep (MkLSys (MkLogged e lw d) sn sy ak dm) (MkLSys (MkLogged e' lw d) sn sy ak dm)
| ls_write w outcomes a r l' :
    lenabled w a outcomes ->
    lperform a (MkLogged (l_eng (logged w)) (wal (logged w)) outcomes) = (r, l') -> r <> Panic ->
    lstep w (MkLSys l' (snaps w) (synced w) (acked w)
               (if row_action a then doom (lactor a) outcomes (txd (l_eng l')) (doomed w) else doomed w))
| ls_finish e lw d sn sy ak dm t i unix_ms r e' :
    t ∈ staged (txd e) -> lw !! i = Some (Rec.CommitTxn t unix_ms) -> i < sy ->
    commit_finish t e = (r, e') ->
    lstep (MkLSys (MkLogged e lw d) sn sy ak dm) (MkLSys (MkLogged e' lw d) sn sy (ak ∪ {[t]}) dm)
| ls_sync l sn sy ak dm n :
    sy <= n <= length (wal l) ->
    lstep (MkLSys l sn sy ak dm) (MkLSys l sn n ak dm)
| ls_snapshot l sn sy ak dm :
    lstep (MkLSys l sn sy ak dm) (MkLSys l (purge_snapshot (l_eng l) :: sn) sy ak dm)
| ls_batch e lw d sn sy ak dm snap table cursor r e' :
    snap ∈ sn -> purge_batch snap table cursor e = (r, e') ->
    lstep (MkLSys (MkLogged e lw d) sn sy ak dm) (MkLSys (MkLogged e' lw d) sn sy ak dm)
| ls_orphans e lw d sn sy ak dm snap r e' :
    snap ∈ sn -> purge_orphans snap e = (r, e') ->
    lstep (MkLSys (MkLogged e lw d) sn sy ak dm) (MkLSys (MkLogged e' lw d) sn sy ak dm).

Inductive lreachable (ids : gset Z) : LSys -> Prop :=
| lreach_init : lreachable ids (MkLSys (MkLogged (initial ids) [] []) [] 0 ∅ ∅)
| lreach_step w w' : lreachable ids w -> lstep w w' -> lreachable ids w'.
End System.

(** ** Coming back *)

(** The catalog an image without rows declares. *)
Definition image_table (id : Z) : CatTable :=
  let schema := MkSchema id [] [] [] in MkCatTable schema (Engine.MkTable ∅ 0) 0 {[ 0%Z := schema ]}.

Definition image_cat (ids : gset Z) : Cat :=
  with_tables (fun _ => set_to_map (fun id => (id, image_table id)) ids) cat_default.

(** The engine recovery opens on the rebuilt catalog: one version per row, no
    transaction, the ids past every one in the log. *)
Definition recovered (c : Cat) (next : Z) : Engine :=
  MkEngine (t_state <$> c_tables c) (MkUndoDomain [] [] [])
    (set_next_txn_id next domain_default) None 0.

(** A reader for whom only the running transactions outside [C] are
    invisible. *)
Definition crash_view (d : TxnDomain) (C : gset Z) : ReadView :=
  MkView 0 (active_txns d ∖ C) (U64_MAX + 1).
