(* ===== verification/RecoveryInv.v ===== *)
(** * What replaying the log rebuilds

    The log's row records under any choice [C] of transactions rebuild exactly
    what a reader would see if the transactions of [C] had committed: the
    relation between the log and the engine's histories, and that each
    operation of the logged engine keeps it. *)

From S2P Require Import Prelude Core Codec Catalog WalRecord WalOps WalOpsFacts Mvcc Txn Engine EngineInv.
From S2P Require Import EngineOps EngineUndo EnginePurge EngineCommit EngineSys Index Sequence Replay Recovery.
From stdpp Require Import base gmap list sets functions strings.
From Stdlib Require Import ZArith Lia Strings.Byte.

Import BtreeEngine.

(** ** Row records *)

Definition row_key_of (op : Op.LoggedOp) : option Key :=
  match op with
  | Op.Insert _ table row_id _ | Op.Update _ table row_id _ | Op.Delete _ table row_id => Some (table, row_id)
  | _ => None
  end.

(** What the row reads as once the operation is applied. *)
Definition row_after (op : Op.LoggedOp) : option bytes :=
  match op with
  | Op.Insert _ _ _ tuple | Op.Update _ _ _ tuple => Some tuple
  | _ => None
  end.

(** A rebuilt row [value] stands for [x]: a single version, by a transaction
    the log has named. *)
Definition stands_for (top : Z) (value x : option bytes) : Prop :=
  match value, x with
  | None, None => True
  | Some v, Some tuple => exists t, v = encode_row (fresh_meta t) tuple /\ (1 <= t <= top)%Z
  | _, _ => False
  end.

Lemma stands_mono top top' value x : (top <= top')%Z -> stands_for top value x -> stands_for top' value x.
Proof.
  intros Hle. destruct value, x; cbn; try done. intros (t & -> & Ht). exists t. split; [done|lia].
Qed.

Section Rebuilt.
Context (image : Z -> gmap Z bytes) (index_image : Z -> KeyTree.t).
Context (durable : gset Z).

Record table_stands (top : Z) (F : Z -> option bytes) (t : TableState) : Prop := {
  ts_next : (0 <= next_row_id t <= U64_MAX)%Z;
  ts_ids : forall r, is_Some (rows t !! r) -> (0 <= r < next_row_id t)%Z;
  ts_rows : forall r, stands_for top (rows t !! r) (F r) }.

Lemma table_stands_ext top top' F F' t :
  (top <= top')%Z -> (forall r, F r = F' r) -> table_stands top F t -> table_stands top' F' t.
Proof.
  intros Hle HF [H1 H2 H3]. split; [done|done|]. intros r. rewrite <- HF. by eapply stands_mono.
Qed.

(** The pass has rebuilt the rows [F] of every durable table. *)
Record rebuilt (F : Key -> option bytes) (p : Pass) : Prop := {
  rb_tables : forall tb, tb ∈ durable -> exists t, c_tables (p_state p).1 !! tb = Some t /\
    table_stands (max_txn p) (fun r => F (tb, r)) (t_state t);
  rb_dom : forall tb, is_Some (c_tables (p_state p).1 !! tb) -> tb ∈ durable;
  rb_max : (0 <= max_txn p)%Z;
  rb_open : program_open p = ∅;
  rb_waiting : waiting p = [] }.

Lemma rebuilt_ext F F' p :
  (forall tb r, tb ∈ durable -> F (tb, r) = F' (tb, r)) -> rebuilt F p -> rebuilt F' p.
Proof.
  intros HF [H1 H2 H3 H4 H5]. split; [|done..]. intros tb Htb. destruct (H1 tb Htb) as (t & Ht & Hs).
  exists t. split; [done|]. eapply table_stands_ext; [reflexivity| |exact Hs]. intros r. by apply HF.
Qed.

Lemma rebuilt_see F p txn : rebuilt F p -> rebuilt F (see_txn txn p).
Proof.
  intros [H1 H2 H3 H4 H5]. split; cbn; [|done|lia|done|done]. intros tb Htb.
  destruct (H1 tb Htb) as (t & Ht & Hs). exists t. split; [done|].
  eapply table_stands_ext; [|done|exact Hs]. lia.
Qed.

(** Writing one row of a table. *)
Lemma table_stands_write top F t r x m nx :
  table_stands top F t -> (0 <= nx <= U64_MAX)%Z -> (next_row_id t <= nx)%Z ->
  (is_Some (m !! r) -> (0 <= r < nx)%Z) -> stands_for top (m !! r) x ->
  (forall r', r' <> r -> m !! r' = rows t !! r') ->
  table_stands top (fun r' => if decide (r' = r) then x else F r') (Engine.MkTable m nx).
Proof.
  intros [H1 H2 H3] Hnx Hle Hr Hx Hm. split; cbn; [done| |].
  - intros r'. destruct (decide (r' = r)) as [->|Hne]; [done|]. rewrite Hm by done.
    intros H%H2. lia.
  - intros r'. case_decide as Hc; [by subst|]. by rewrite Hm.
Qed.

Definition row_op_ok (op : Op.LoggedOp) : Prop := Op.wf_op op /\ (1 <= Op.txn op)%Z.

(** One row record applied to the table it names. *)
Lemma replay_row_table top F s op tb r :
  row_key_of op = Some (tb, r) -> row_op_ok op -> (Op.txn op <= top)%Z -> (r < U64_MAX)%Z ->
  table_stands top F s ->
  match op with Op.Insert _ _ _ _ => F r = None | _ => True end ->
  exists f s', replay_cat image index_image op = on_table tb f /\ f s = Ok s' /\
    table_stands top (fun r' => if decide (r' = r) then row_after op else F r') s'.
Proof.
  intros Hk [Hw Ht1] Htop Hr Hs Hins. pose proof Hs as [H1 H2 H3].
  destruct op; cbn in Hk; simplify_eq; cbn [Op.wf_op Op.txn replay_cat row_after] in *.
  - eexists _, _. split; [done|]. unfold replay_insert, tree_insert.
    specialize (H3 r) as Hrow. rewrite Hins in Hrow. destruct (rows s !! r) eqn:E; [done|].
    cbn [rbind]. unfold succ_u64. rewrite (proj2 (Z.ltb_lt _ _)) by lia. cbn [rbind].
    split; [done|]. destruct Hw as (Hw1 & Hw2 & Hw3).
    apply (table_stands_write top F s r); [done|unfold u64 in *; lia|lia| | |].
    + unfold u64 in *. lia.
    + rewrite lookup_insert_eq. cbn. eauto with lia.
    + intros r' Hne. by rewrite lookup_insert_ne.
  - destruct Hw as (Hw1 & Hw2 & Hw3).
    destruct (rows s !! r) eqn:E; (eexists _, _; split; [done|]);
      unfold replay_update, tree_update, tree_insert; rewrite E; cbn [rbind].
    + split; [done|]. apply (table_stands_write top F s r); [done|done|lia| | |].
      * intros _. apply H2. eauto.
      * rewrite lookup_insert_eq. cbn. eauto with lia.
      * intros r' Hne. by rewrite lookup_insert_ne.
    + unfold succ_u64. rewrite (proj2 (Z.ltb_lt _ _)) by lia. cbn [rbind]. split; [done|].
      apply (table_stands_write top F s r); [done|unfold u64 in *; lia|lia| | |].
      * unfold u64 in *. lia.
      * rewrite lookup_insert_eq. cbn. eauto with lia.
      * intros r' Hne. by rewrite lookup_insert_ne.
  - eexists _, _. split; [done|]. unfold replay_delete. split; [done|].
    apply (table_stands_write top F s r); [done|done|lia| | |].
    + intros [? H]. by rewrite lookup_delete_eq in H.
    + by rewrite lookup_delete_eq.
    + intros r' Hne. by rewrite lookup_delete_ne.
Qed.

(** What the rows read as after [op], if [C] holds its transaction. *)
Definition after_op (C : gset Z) (F : Key -> option bytes) (op : Op.LoggedOp) : Key -> option bytes :=
  fun k => if decide (Op.txn op ∈ C /\ row_key_of op = Some k) then row_after op else F k.

Definition only (C : gset Z) : Ends := MkEnds C ∅ ∅.

Lemma rebuilt_write F p op tb r C :
  rebuilt F p -> row_key_of op = Some (tb, r) -> row_op_ok op -> (Op.txn op <= max_txn p)%Z ->
  (r < U64_MAX)%Z -> Op.txn op ∈ C ->
  match op with Op.Insert _ _ _ _ => F (tb, r) = None | _ => True end ->
  exists p', apply_now image index_image op p = Ok p' /\ rebuilt (after_op C F op) p' /\
    max_txn p' = max_txn p.
Proof.
  intros [H1 H2 H3 H4 H5] Hk Hok Htop Hr HC Hins.
  assert (replay_seq op (p_state p).2 = Ok (p_state p).2) as Hq by by destruct op.
  unfold apply_now, replay_op.
  destruct (c_tables (p_state p).1 !! tb) as [t|] eqn:Ht.
  - assert (tb ∈ durable) as Hd by eauto. destruct (H1 tb Hd) as (t' & E & Hs).
    rewrite Ht in E. injection E as <-.
    destruct (replay_row_table _ _ _ op tb r Hk Hok Htop Hr Hs Hins) as (f & s' & Ef & Hf & Hs').
    rewrite Ef. unfold on_table. rewrite Ht, Hf. cbn [rbind]. rewrite Hq. cbn [rbind].
    eexists. split_and!; [done| |done]. split; cbn; [| |done|done|done].
    + intros tb' Htb'. destruct (decide (tb' = tb)) as [->|Hne].
      * rewrite lookup_insert_eq. eexists. split; [done|]. cbn.
        destruct s' as [m nx]. eapply table_stands_ext; [reflexivity| |exact Hs'].
        intros r'. unfold after_op. rewrite Hk. destruct (decide (r' = r)) as [->|];
          [by rewrite decide_True|rewrite decide_False by naive_solver; done].
      * rewrite lookup_insert_ne by done. destruct (H1 tb' Htb') as (t2 & ? & Hs2).
        exists t2. split; [done|]. eapply table_stands_ext; [reflexivity| |exact Hs2].
        intros r'. unfold after_op. rewrite Hk, decide_False by naive_solver. done.
    + intros tb'. destruct (decide (tb' = tb)) as [->|]; [done|]. rewrite lookup_insert_ne by done. auto.
  - assert (replay_cat image index_image op (p_state p).1 = Ok (p_state p).1) as ->.
    { destruct op; cbn in Hk; simplify_eq; cbn; unfold on_table; by rewrite Ht. }
    cbn [rbind]. rewrite Hq. cbn [rbind]. eexists. split_and!; [done| |done].
    assert (tb ∉ durable) as Hnd by (intros Hd; destruct (H1 tb Hd) as (? & ? & _); congruence).
    apply (rebuilt_ext F); [|destruct p as [[] ? ? ? ?]; by split].
    intros tb' r' Hd. unfold after_op. rewrite Hk, decide_False; [done|]. naive_solver.
Qed.

Lemma replay_row_record C p op k :
  row_key_of op = Some k -> Op.wf_op op ->
  replay_record image index_image (only C) p (Op.to_record op) =
  if bool_decide (Op.txn op ∈ C) then apply_now image index_image op (see_txn (Op.txn op) p)
  else Ok (see_txn (Op.txn op) p).
Proof.
  intros Hk Hw. unfold replay_record. rewrite from_to_record by done.
  assert (Op.is_non_transactional op = false) as -> by by destruct op.
  destruct op; cbn in Hk; simplify_eq; cbn [Op.to_record Op.to_key_value]; cbn [only prepared_here];
    rewrite decide_False by set_solver; done.
Qed.

(** A row record in the log, under the choice [C]. *)
Lemma replay_row C F p op k :
  rebuilt F p -> row_key_of op = Some k -> row_op_ok op -> (k.2 < U64_MAX)%Z ->
  match op with Op.Insert _ _ _ _ => F k = None | _ => True end ->
  exists p', replay_record image index_image (only C) p (Op.to_record op) = Ok p' /\
    rebuilt (after_op C F op) p' /\ max_txn p' = Z.max (max_txn p) (Op.txn op).
Proof.
  intros Hp Hk Hok Hr Hins. destruct k as [tb r].
  rewrite (replay_row_record C p op (tb, r)) by (done || apply Hok).
  pose proof (rebuilt_see F p (Op.txn op) Hp) as Hp'.
  case_bool_decide as HC.
  - destruct (rebuilt_write F (see_txn (Op.txn op) p) op tb r C Hp' Hk Hok) as (p' & E & Hr' & Hm);
      [cbn; lia|done|done|done|]. rewrite E. exists p'. by rewrite Hm.
  - eexists. split_and!; [done| |done]. apply (rebuilt_ext F); [|done].
    intros. unfold after_op. by rewrite decide_False by tauto.
Qed.

Lemma replay_app x p rs1 rs2 :
  replay_records image index_image x p (rs1 ++ rs2) =
  let? p' := replay_records image index_image x p rs1 in replay_records image index_image x p' rs2.
Proof. revert p. induction rs1 as [|r rs1 IH]; intros p; cbn; [done|]. destruct (replay_record _ _ x p r); cbn; auto. Qed.
End Rebuilt.

(** ** What the engine's steps do to such readers *)

Lemma sees_crash d C x :
  (1 <= x <= U64_MAX)%Z -> sees (crash_view d C) x = bool_decide (x ∉ active_txns d ∖ C).
Proof.
  intros Hx. unfold sees, crash_view. cbn.
  rewrite (proj2 (Z.eqb_neq x 0)), (proj2 (Z.ltb_lt _ _)) by lia. done.
Qed.

Lemma late_crash d C : domain_ok d -> late d (crash_view d C).
Proof.
  intros Hd x Hx Hna. pose proof (do_next _ Hd). rewrite sees_crash by lia.
  apply bool_decide_eq_true. set_solver.
Qed.

(** [t] makes row [k] read as [x] to those who see it. *)
Definition effect (d : TxnDomain) (t : Z) (k : Key) (x : option bytes) (vs vs' : Versions) : Prop :=
  forall view k', late d view ->
    resolve view (vs' k') = if decide (k' = k /\ sees view t = true) then x else resolve view (vs k').

Lemma effect_upd d t k x vs new :
  (forall view, late d view -> resolve view new = if sees view t then x else resolve view (vs k)) ->
  effect d t k x vs (<[k := new]> vs).
Proof.
  intros H view k' Hl. rewrite upd_at. destruct (decide (k' = k)) as [->|Hne].
  - rewrite H by done. destruct (sees view t); [by rewrite decide_True|by rewrite decide_False by naive_solver].
  - by rewrite decide_False by naive_solver.
Qed.

Lemma effect_insert d t k tuple vs :
  vs k = [] -> effect d t k (Some tuple) vs (<[k := [MkUndo (fresh_meta t) tuple]]> vs).
Proof. intros Hk. apply effect_upd. intros view _. rewrite Hk. cbn. by destruct (sees view t). Qed.

Lemma effect_update d t k tuple i vs :
  effect d t k (Some tuple) vs (<[k := MkUndo (MkMeta t NO_XMAX i) tuple :: vs k]> vs).
Proof. apply effect_upd. intros view _. cbn. by destruct (sees view t). Qed.

Lemma effect_delete d t k w rest vs :
  vs k = w :: rest -> xmax (u_meta w) = NO_XMAX -> t <> NO_XMAX ->
  (forall view, late d view -> sees view t = true -> sees view (xmin (u_meta w)) = true) ->
  effect d t k None vs (<[k := set_xmax t w :: rest]> vs).
Proof.
  intros Hk Hx Hne Hw. apply effect_upd. intros view Hl. rewrite Hk. cbn. rewrite Hx. cbn.
  rewrite (proj2 (Z.eqb_neq t NO_XMAX)) by done. cbn.
  destruct (sees view t) eqn:Ht; [by rewrite Hw by done|]. by destruct (sees view (xmin (u_meta w))).
Qed.

(** The rows as a reader of the crash would see them. *)
Definition crash_reads (d : TxnDomain) (C : gset Z) (vs : Versions) (k : Key) : option bytes :=
  resolve (crash_view d C) (vs k).

Lemma effect_reads d t k op vs vs' C k' :
  domain_ok d -> t ∈ active_txns d -> effect d t k (row_after op) vs vs' ->
  Op.txn op = t -> row_key_of op = Some k ->
  crash_reads d C vs' k' = after_op C (crash_reads d C vs) op k'.
Proof.
  intros Hd Ht He <- Hk. unfold crash_reads, after_op. rewrite He by by apply late_crash.
  pose proof (do_ids _ Hd _ Ht). pose proof (do_next _ Hd). rewrite Hk.
  rewrite sees_crash by lia. apply decide_ext. rewrite bool_decide_eq_true, elem_of_difference.
  split.
  - intros [-> Hn]. split; [|done]. destruct (decide (Op.txn op ∈ C)); [done|]. by destruct Hn.
  - intros [HC [= ->]]. split; [done|]. by intros [_ ?].
Qed.

(** ** The logged operations *)

Section LoggedOps.
Context (temp : gset Z) (wl rl : option Z) (pb : Engine -> Z) (re : Z -> Z -> Error).

Definition fails (outcomes : list (option Error)) : bool :=
  existsb (fun x => bool_decide (is_Some x)) outcomes.

Lemma log_spec record e lw d r l' :
  log record (MkLogged e lw d) = (r, l') ->
  l_eng l' = e /\ (r = Ok tt /\ wal l' = lw ++ [record] \/
                   (exists err, r = Err err) /\ wal l' = lw /\ fails d = true).
Proof.
  unfold log. cbn. destruct d as [|[err|] d]; intros [= <- <-]; cbn; (split; [done|]);
    [by left|right; by eauto|by left].
Qed.

(** A row record: what it does to the table it names, and whether it reaches
    the log. *)
Record row_write (e : Engine) (t : Z) (op : Op.LoggedOp) (k : Key) (vs vs' : Versions) : Prop := {
  rw_key : row_key_of op = Some k;
  rw_txn : Op.txn op = t;
  rw_ok : row_op_ok op;
  rw_row : (k.2 < U64_MAX)%Z;
  rw_live : t ∈ active_txns (txd e);
  rw_new : match op with Op.Insert _ _ _ _ => vs k = [] | _ => True end;
  rw_effect : effect (txd e) t k (row_after op) vs vs' }.

Definition unlogged (outcomes : list (option Error)) (k : Key) : Prop := k.1 ∈ temp \/ fails outcomes = true.

(** What a write of [t] leads to: nothing but bookkeeping, or one row changed
    and, unless the append failed or the table is a session's, its record. *)
Definition write_outcome (t : Z) (e : Engine) (lw : list Rec.WalRecord) (outcomes : list (option Error))
    (vs : Versions) (l' : Logged) : Prop :=
  exists vs' ss', simulates t e (l_eng l') vs vs' ss' /\
    staged (txd (l_eng l')) = staged (txd e) /\
    (wal l' = lw /\
       (vs' = vs /\ active_txns (txd e) ⊆ active_txns (txd (l_eng l')) \/
        gone t (txd (l_eng l')) vs' /\ next_txn_id (txd (l_eng l')) = next_txn_id (txd e)) \/
     active_txns (txd (l_eng l')) = active_txns (txd e) /\
       exists op k, row_write e t op k vs vs' /\
         (wal l' = lw ++ [Op.to_record op] \/ wal l' = lw /\ unlogged outcomes k)).

Lemma log_op_spec op k e lw d r l' :
  row_key_of op = Some k -> log_op temp op (MkLogged e lw d) = (r, l') ->
  r <> Diverge /\ l_eng l' = e /\
  (wal l' = lw ++ [Op.to_record op] \/ wal l' = lw /\ unlogged d k).
Proof.
  intros Hk. unfold log_op. destruct (is_durable temp op) eqn:Hd.
  - intros (He & [[-> Hw]|([err ->] & Hw & Hf)])%log_spec; split_and!; try done; [by left|].
    right. split; [done|by right].
  - intros [= <- <-]. split_and!; [done|done|right]. split; [done|left].
    destruct op; cbn in Hk, Hd; simplify_eq; apply bool_decide_eq_false in Hd; cbn; by apply dec_stable.
Qed.

(** A row operation followed by its record. *)
Lemma write_then_log t e vs ss lw d {A} (m : eng A) (Q : A -> Engine -> Versions -> Prop)
    (f : A -> Op.LoggedOp) {B} (g : A -> B) r l' :
  Inv e vs ss -> outcome t e vs m Q ->
  (forall x e' vs' ss', Inv e' vs' ss' -> Q x e' vs' -> active_txns (txd e') = active_txns (txd e) /\
     exists k, row_write e t (f x) k vs vs') ->
  (let* x := lift m in let* _ := log_op temp (f x) in sret (g x)) (MkLogged e lw d) = (r, l') ->
  r <> Panic -> r <> Diverge /\ write_outcome t e lw d vs l'.
Proof.
  intros Hinv Ho HQ. unfold sbind at 1. unfold lift. cbn [l_eng]. unfold outcome in Ho.
  destruct (m e) as [[x|err| |] e1]; [| |by intros [= <- <-]|done].
  - destruct Ho as (vs' & ss' & I' & Hst & Hot & Hq). destruct (HQ _ _ _ _ I' Hq) as (Ha & k & Hw).
    unfold sbind. destruct (log_op temp (f x) _) as [r1 l1] eqn:Hl. cbn [set_eng wal disk] in Hl.
    destruct (log_op_spec _ k _ _ _ _ _ (rw_key _ _ _ _ _ _ Hw) Hl) as (Hr1 & <- & Hwal).
    intros E Hp. assert (l1 = l' /\ r <> Diverge) as [<- Hr].
    { unfold sret in E. destruct r1; by simplify_eq. }
    split; [done|]. exists vs', ss'. split_and!; [|apply Hot|right; eauto 10].
    split_and!; [done|done|by apply others_evolves].
  - destruct Ho as (vs' & ss' & I' & Hst & Hot & Hv). intros [= <- <-] _. split; [done|].
    exists vs', ss'. split_and!; [|apply Hot|left; split; [done|]].
    + split_and!; [done|done|by apply others_evolves].
    + cbn. pose proof (ot_next _ _ _ Hot). destruct Hv as [[-> ->]|?]; [by left|by right].
Qed.

Lemma row_range e vs ss tb r v rest :
  Inv e vs ss -> vs (tb, r) = v :: rest -> u64 r /\ (r < U64_MAX)%Z.
Proof using.
  clear. intros Hinv Hk. pose proof (rp_rows _ _ _ (in_rep _ _ _ Hinv) (tb, r)) as H.
  unfold row_at in H. cbn in H. rewrite Hk in H.
  destruct (tables e !! tb) as [t|] eqn:Ht; [|by destruct H].
  destruct (rows t !! r) as [value|] eqn:Hv; [|by destruct H].
  destruct (in_tables _ _ _ Hinv _ _ Ht) as [H1 H2]. specialize (H2 r ltac:(eauto)).
  unfold u64, U64_MAX in *. lia.
Qed.

Lemma live_range e vs ss t :
  Inv e vs ss -> t ∈ active_txns (txd e) -> u64 t /\ (1 <= t)%Z.
Proof using.
  clear. intros Hinv Ht. pose proof (do_ids _ (in_dom _ _ _ Hinv) _ Ht).
  pose proof (do_next _ (in_dom _ _ _ Hinv)). unfold u64, U64_MAX in *. lia.
Qed.

Lemma insert_l_outcome e vs ss t table tuple lw d r l' :
  Inv e vs ss -> u64 table ->
  insert_l temp wl rl pb re t table tuple (MkLogged e lw d) = (r, l') -> r <> Panic ->
  r <> Diverge /\ write_outcome t e lw d vs l'.
Proof.
  intros Hinv Htb. unfold insert_l.
  eapply (write_then_log t e vs ss lw d (insert wl rl pb re t table tuple) _
           (fun tid => Op.Insert t table (row_id_of tid) tuple) (fun tid => tid));
    [done|by apply (insert_outcome wl rl pb re e vs ss)|].
  intros tid e' vs' ss' I' (Hnil & [Hact Ha] & ->). split; [done|].
  exists (table, row_id_of tid).
  destruct (row_range e' _ ss' table (row_id_of tid) (MkUndo (fresh_meta t) tuple) [] I') as [Hr1 Hr2];
    [by rewrite fn_lookup_insert|].
  destruct (live_range _ _ _ _ Hinv Hact). split; cbn; try done. by apply effect_insert.
Qed.

Lemma update_l_outcome e vs ss t table tid tuple lw d r l' :
  Inv e vs ss -> u64 table ->
  update_l temp wl rl pb re t table tid tuple (MkLogged e lw d) = (r, l') -> r <> Panic ->
  r <> Diverge /\ write_outcome t e lw d vs l'.
Proof.
  intros Hinv Htb. unfold update_l.
  eapply (write_then_log t e vs ss lw d (update wl rl pb re t table tid tuple) _
           (fun tid => Op.Update t table (row_id_of tid) tuple) (fun tid => tid));
    [done|by apply (update_outcome wl rl pb re e vs ss)|].
  intros tid' e' vs' ss' I' (-> & Ha & s & w & rest & i & Hs & Hk & Hsee & Hx & ->). split; [done|].
  exists (table, row_id_of tid). destruct (row_range e _ ss _ _ _ _ Hinv Hk) as [Hr1 Hr2].
  assert (t ∈ active_txns (txd e)) as Hact by (apply (do_active _ (in_dom _ _ _ Hinv)); eauto).
  destruct (live_range _ _ _ _ Hinv Hact). split; cbn; try done.
  rewrite <- Hk. apply effect_update.
Qed.

Lemma delete_l_outcome e vs ss t table tid lw d r l' :
  Inv e vs ss -> u64 table ->
  delete_l temp wl t table tid (MkLogged e lw d) = (r, l') -> r <> Panic ->
  r <> Diverge /\ write_outcome t e lw d vs l'.
Proof.
  intros Hinv Htb Hrun.
  eapply (write_then_log t e vs ss lw d (delete wl t table tid) _
           (fun _ => Op.Delete t table (row_id_of tid)) (fun _ => tt) r l');
    [done|by apply (delete_outcome wl e vs ss)| |].
  - intros x e' vs' ss' I' (Ha & s & w & rest & Hs & Hk & Hsee & Hx & ->). split; [done|].
    exists (table, row_id_of tid). destruct (row_range e _ ss _ _ _ _ Hinv Hk) as [Hr1 Hr2].
    pose proof (in_dom _ _ _ Hinv) as Hd.
    assert (t ∈ active_txns (txd e)) as Hact by (apply (do_active _ Hd); eauto).
    destruct (live_range _ _ _ _ Hinv Hact). split; cbn; try done.
    apply effect_delete; [done|done|unfold NO_XMAX; lia|].
    intros view Hl Hv.
    destruct (view_ok_sees _ _ _ _ (to_pinned _ _ _ (do_txns _ Hd _ _ Hs)) Hsee) as [->|[Hlt Hna]]; [done|].
    apply Hl; [|done]. apply (ho_stamps _ _ _ _ (in_hist _ _ _ Hinv) (table, row_id_of tid) w).
    rewrite Hk. left.
  - rewrite <- Hrun. unfold delete_l, sbind. destruct (lift _ _) as [[] l1]; try done.
    by destruct (log_op _ _ _) as [[[]| | |] l2].
Qed.

(** ** Compensations *)

Lemma row_undo_comp t ops l :
  row_undo t ops l -> Forall (fun op => exists c, compensation t op = Ok c) ops.
Proof using.
  clear. induction 1 as [| |tb r old i ops v w l Hx1 Hx2 Hi -> Hm H IH|tb r old m ops v l Hx Hd Hm H IH].
  - constructor.
  - constructor; [by eexists|constructor].
  - constructor; [|done]. cbn. rewrite decode_encode_row by done. destruct (_ =? _)%Z; eauto.
  - constructor; [|done]. cbn. rewrite Hd, Hm. eauto.
Qed.

Lemma row_undo_nonempty t op ops l : row_undo t (op :: ops) l -> exists v rest, l = v :: rest.
Proof using. clear. inversion 1; eauto. Qed.

(** The inverse of a logged operation, on the operation's own row. *)
Record inverse (t : Z) (op : UndoOp) (c : Op.LoggedOp) : Prop := {
  iv_comp : compensation t op = Ok c;
  iv_key : row_key_of c = Some (op_key op);
  iv_txn : Op.txn c = t;
  iv_ok : row_op_ok c;
  iv_row : ((op_key op).2 < U64_MAX)%Z;
  iv_after : row_after c = restored op;
  iv_new : match c with Op.Insert _ _ _ _ => False | _ => True end }.

Lemma compensation_inverse t op c :
  compensation t op = Ok c -> u64 t -> (1 <= t)%Z -> u64 (op_key op).1 -> u64 (op_key op).2 ->
  ((op_key op).2 < U64_MAX)%Z -> inverse t op c.
Proof using.
  clear. intros Hc H1 H2 H3 H4 H5.
  destruct op as [tb r|tb r old i|tb r old]; cbn in Hc, H3, H4, H5;
    [|destruct (decode_row old) as [[m tu]|] eqn:E; [|done]; destruct (xmax m =? NO_XMAX)%Z eqn:Ex..];
    simplify_eq; (split; cbn; rewrite ?E, ?Ex; try done).
Qed.

Lemma pending_inverses e vs ss t pend d :
  Inv e vs ss -> hist_ok d vs t pend -> t ∈ active_txns d -> active_txns d = active_txns (txd e) ->
  (forall tb, tb ∈ dom (tables e) -> u64 tb) ->
  exists comps, Forall2 (inverse t) pend comps.
Proof using.
  clear. intros Hinv Hh Ht Ha Hu.
  assert (Forall (fun op => exists c, inverse t op c) pend) as Hall.
  { apply Forall_forall. intros op Hop.
    pose proof (ho_undo _ _ _ _ Hh t (op_key op) Ht) as Hru.
    assert (op ∈ ops_on (op_key op) (log_of d t pend t)) as Hin.
    { unfold ops_on. apply list_elem_of_filter. split; [done|]. unfold log_of. rewrite decide_True by done.
      apply elem_of_app. by left. }
    pose proof (row_undo_comp _ _ _ Hru) as Hc. rewrite Forall_forall in Hc.
    destruct (Hc op Hin) as [c Ec]. exists c.
    destruct (ops_on (op_key op) (log_of d t pend t)) as [|o os]; [by apply elem_of_nil in Hin|].
    destruct (row_undo_nonempty _ _ _ _ Hru) as (v & rest & Hk).
    rewrite Ha in Ht. destruct (live_range _ _ _ _ Hinv Ht).
    destruct (op_key op) as [tb r] eqn:Ek. destruct (row_range _ _ _ _ _ _ _ Hinv Hk).
    apply compensation_inverse; rewrite ?Ek; try done. cbn. apply Hu, elem_of_dom.
    pose proof (rp_rows _ _ _ (in_rep _ _ _ Hinv) (tb, r)) as H3. unfold row_at in H3. rewrite Hk in H3.
    cbn in H3. destruct (tables e !! tb) eqn:E; [eauto|by destruct H3]. }
  clear Hh. induction Hall as [|op pend [c Hc] _ [cs Hcs]]; [by exists []|].
  exists (c :: cs). by constructor.
Qed.

Lemma log_each_run t ops comps e lw :
  Forall2 (inverse t) ops comps ->
  log_each temp t ops (MkLogged e lw []) =
  (Ok tt, MkLogged e (lw ++ (Op.to_record <$> filter (fun c => is_durable temp c = true) comps)) []).
Proof using.
  clear wl rl pb re. intros H. revert lw. induction H as [|op c ops comps Hc _ IH]; intros lw.
  { cbn. by rewrite app_nil_r. }
  cbn [log_each]. rewrite (iv_comp _ _ _ Hc). unfold sbind at 1. cbn [slift].
  unfold sbind at 1, log_op. rewrite filter_cons.
  destruct (is_durable temp c) eqn:Hd; cbn [log disk sret].
  - rewrite decide_True by done. unfold log. cbn [disk l_eng wal]. rewrite IH, <- app_assoc. done.
  - rewrite decide_False by done. apply IH.
Qed.

(** [rollback_to] with its compensations: the same as without, and their
    records. *)
Lemma rollback_to_l_run e vs ss t name lw :
  Inv e vs ss -> (forall tb, tb ∈ dom (tables e) -> u64 tb) ->
  exists r e', rollback_to t name e = (r, e') /\
    match (split_at_savepoint t name (txd e)).1 with
    | Ok tail => exists comps, Forall2 (inverse t) (reverse tail) comps /\
        rollback_to_l temp t name (MkLogged e lw []) =
        (r, MkLogged e' (lw ++ (Op.to_record <$> filter (fun c => is_durable temp c = true) comps)) [])
    | _ => rollback_to_l temp t name (MkLogged e lw []) = (r, MkLogged e' lw [])
    end.
Proof using.
  clear wl rl pb re. intros Hinv Hu. destruct (rollback_to t name e) as [r e'] eqn:E. exists r, e'. split; [done|].
  pose proof (in_healthy _ _ _ Hinv) as Hf.
  unfold rollback_to, rollback_to_l, sbind, lift, ensure_healthy, on_txns in *. cbn [l_eng] in *.
  rewrite Hf in *. cbn [set_eng l_eng wal disk].
  destruct (split_at_savepoint t name (txd e)) as [[tail|err| |] d1] eqn:Hsp; cbn [fst];
    [|by simplify_eq..].
  assert (hist_ok d1 vs t (reverse tail) /\ t ∈ active_txns (txd e) /\ active_txns d1 = active_txns (txd e))
    as (Hh & Hact & Ha).
  { unfold split_at_savepoint in Hsp. destruct (txns (txd e) !! t) as [s|] eqn:Hs; [|done].
    destruct (rposition name (savepoints s)); [|done]. case_decide; [|done]. injection Hsp as <- <-.
    split_and!; [by apply hist_ok_split; [apply Hinv|..]|apply (do_active _ (in_dom _ _ _ Hinv)); eauto|done]. }
  destruct (pending_inverses e vs ss t (reverse tail) d1 Hinv Hh) as [comps Hc];
    [by rewrite Ha|done|done|].
  exists comps. split; [done|]. unfold lguarded, log_compensations. unfold set_eng. cbn [l_eng wal disk].
  rewrite (log_each_run _ _ _ _ _ Hc).
  cbn [l_eng set_eng wal disk]. unfold rollback_tail, guarded in E.
  destruct (undo_ops t tail (set_txd d1 e)) as [[x|err| |] e2] eqn:Eu; unfold fail_stop in *;
    cbn [l_eng set_eng wal disk]; by simplify_eq.
Qed.

(** ** Ends *)

Lemma abort_inactive t s e r e' : abort t s e = (r, e') -> r = Ok tt /\ t ∉ active_txns (txd e').
Proof using. clear. unfold abort. intros [= <- <-]. split; [done|]. cbn. set_solver. Qed.

(** Taking a transaction out and aborting it, with the advisory marker. *)
Lemma take_abort_run t e lw d s err :
  txns (txd e) !! t = Some s ->
  exists e' l', (let* state := take_txn t in abort t state) e = (Ok tt, e') /\
    (let* state := lift (take_txn t) in abort_l t state) (MkLogged e lw d) = (Ok tt, l') /\
    (let* state := take_txn t in let* _ := abort t state in sfail err : eng unit) e = (Err err, e') /\
    (let* state := lift (take_txn t) in let* _ := abort_l t state in sfail err : lg unit) (MkLogged e lw d)
      = (Err err, l') /\
    l_eng l' = e' /\ t ∉ active_txns (txd e') /\ (wal l' = lw \/ wal l' = lw ++ [Rec.AbortTxn t]).
Proof using.
  clear. intros Hs. unfold abort_l, sbind, lift, take_txn. cbn [l_eng]. rewrite Hs.
  unfold set_eng. cbn [l_eng wal disk]. set (e1 := set_txd _ e).
  destruct (abort t s e1) as [r e'] eqn:E. destruct (abort_inactive _ _ _ _ _ E) as [-> Hna].
  destruct (log (Rec.AbortTxn t) (MkLogged e' lw d)) as [r2 l'] eqn:El.
  exists e', l'. cbn [snd]. destruct (log_spec _ _ _ _ _ _ El) as (He & Hw).
  split_and!; try done. destruct Hw as [[_ ->]|(_ & -> & _)]; auto.
Qed.

Lemma rollback_l_run t e lw d :
  exists r e' l', rollback t e = (r, e') /\ rollback_l t (MkLogged e lw d) = (r, l') /\ l_eng l' = e' /\
    (wal l' = lw \/
     wal l' = lw ++ [Rec.AbortTxn t] /\ is_Some (txns (txd e) !! t) /\ t ∉ active_txns (txd e')).
Proof using.
  clear. unfold rollback, rollback_l. cbn [l_eng].
  destruct (txns (txd e) !! t) as [s|] eqn:Hs; [|by eexists _, _, _; split_and!; [..|left]].
  destruct (prepared s); [by eexists _, _, _; split_and!; [..|left]|].
  destruct (take_abort_run t e lw d s (unknown_txn t) Hs) as (e' & l' & E1 & E2 & _ & _ & He & Hna & Hw).
  eexists _, _, _. split_and!; [exact E1|exact E2|done|]. naive_solver.
Qed.

Lemma validate_l_run t e lw d :
  fault e = None ->
  exists r e' l', validate_commit t e = (r, e') /\ validate_commit_l t (MkLogged e lw d) = (r, l') /\
    l_eng l' = e' /\
    (r = Ok tt /\ l' = MkLogged e lw d /\ e' = e \/ r <> Ok tt /\ wal l' = lw \/
     r <> Ok tt /\ wal l' = lw ++ [Rec.AbortTxn t] /\ is_Some (txns (txd e) !! t) /\
       t ∉ active_txns (txd e')).
Proof using.
  clear. intros Hf. unfold validate_commit, validate_commit_l, check_commit, ensure_healthy.
  unfold sbind, lift. cbn [l_eng]. rewrite Hf.
  unfold set_eng. cbn [l_eng wal disk].
  destruct (txns (txd e) !! t) as [s|] eqn:Hs;
    [|eexists _, _, _; split_and!; [done|done|done|right; by left]].
  destruct (prepared s); [eexists _, _, _; split_and!; [done|done|done|right; by left]|].
  cbn [l_eng wal disk].
  destruct (serializable_read_conflict e t) as [[]|err| |] eqn:Hc.
  - destruct (take_abort_run t e lw d s (SerializationConflict t) Hs)
      as (e' & l' & _ & _ & E1 & E2 & He & Hna & Hw).
    eexists _, _, _. split_and!; [exact E1|exact E2|done|]. naive_solver.
  - eexists _, _, _. split_and!; [done|done|done|by left].
  - destruct (take_abort_run t e lw d s err Hs) as (e' & l' & _ & _ & E1 & E2 & He & Hna & Hw).
    eexists _, _, _. split_and!; [exact E1|exact E2|done|]. naive_solver.
  - eexists _, _, _. split_and!; [done|done|done|right; by left].
  - eexists _, _, _. split_and!; [done|done|done|right; by left].
Qed.

Lemma commit_stage_l_run t unix_ms e lw d :
  fault e = None ->
  exists marker r e' l', commit_stage t marker e = (r, e') /\
    commit_stage_l t unix_ms (MkLogged e lw d) = (r, l') /\ l_eng l' = e' /\
    (wal l' = lw \/
     wal l' = lw ++ [Rec.AbortTxn t] /\ is_Some (txns (txd e) !! t) /\ t ∉ active_txns (txd e') \/
     wal l' = lw ++ [Rec.CommitTxn t unix_ms] /\ r = Ok tt /\ t ∈ staged (txd e')).
Proof using.
  clear. intros Hf. destruct (validate_l_run t e lw d Hf) as (r & e1 & l1 & E1 & E2 & He & Hv).
  unfold commit_stage, commit_stage_l. destruct r as [[]|err| |].
  2-4: exists None; unfold sbind; rewrite E1, E2; eexists _, _, _;
    (split_and!; [done|done|done|]); destruct Hv as [?|[?|?]]; naive_solver.
  destruct Hv as [(_ & -> & ->)|[[[] _]|[[] _]]]; [|done..].
  unfold sbind at 1. setoid_rewrite E1. unfold sbind at 3. setoid_rewrite E2. cbn [l_eng].
  destruct (negb (match txns (txd e) !! t with Some s => negb (bool_decide (undo_log s = [])) | None => true end))
    eqn:Hw.
  - exists None. unfold lift, finish_commit. cbn [l_eng]. eexists _, _, _.
    split_and!; [done|done|done|by left].
  - destruct (log (Rec.CommitTxn t unix_ms) (MkLogged e lw d)) as [r1 l2] eqn:El.
    destruct (log_spec _ _ _ _ _ _ El) as (He2 & [[-> Hwal]|([err ->] & Hwal & _)]).
    + exists None. eexists _, _, _. split_and!; [done|done| |]; cbn [l_eng set_eng wal]; [by rewrite He2|].
      right. right. split_and!; [done|done|]. cbn. set_solver.
    + exists (Some err). destruct (txns (txd e) !! t) as [s|] eqn:Hs.
      * destruct l2 as [e2 lw2 d2]. cbn in He2, Hwal. subst e2 lw2.
        destruct (take_abort_run t e lw d2 s err Hs) as (e' & l' & _ & _ & F1 & F2 & He3 & Hna & Hw3).
        eexists _, _, _. split_and!; [exact F1|exact F2|done|]. naive_solver.
      * unfold sbind, lift, take_txn. destruct l2 as [e2 lw2 d2]. cbn in He2, Hwal |- *. subst e2 lw2.
        rewrite Hs. eexists _, _, _. split_and!; [done|done|done|by left].
Qed.
End LoggedOps.
