(* ===== verification/RecoverySys.v ===== *)
(** * The invariant of the logged engine

    At every moment, for every choice [C] of transactions that holds those
    whose commit has returned and otherwise only running ones, replaying the log
    under [C] succeeds and rebuilds what a reader sees for whom exactly [C] and
    the past are visible. *)

From S2P Require Import Prelude Core Codec Catalog WalRecord WalOps WalOpsFacts Mvcc Txn Engine EngineInv.
From S2P Require Import EngineOps EngineUndo EnginePurge EngineCommit EngineSys EngineTables Index Sequence.
From S2P Require Import Replay Recovery RecoveryInv.
From stdpp Require Import base gmap list sets functions strings.
From Stdlib Require Import ZArith Lia Strings.Byte.

Import BtreeEngine.

(** ** Choices of transactions *)

Record valid (w : LSys) (C : gset Z) : Prop := {
  va_acked : acked w ⊆ C;
  va_live : forall x, x ∈ C -> x ∈ active_txns (txd (l_eng (logged w))) \/ x ∈ acked w;
  va_sound : forall x, x ∈ C -> x ∉ doomed w }.

(** The part of a choice that had begun. *)
Definition begun (n : Z) (C : gset Z) : gset Z := filter (fun x => (x < n)%Z) C.

Lemma elem_of_begun n C x : x ∈ begun n C <-> x ∈ C /\ (x < n)%Z.
Proof. unfold begun. rewrite elem_of_filter. tauto. Qed.

(** Views that agree on every stamp read the same. *)
Lemma crash_same e e' vs ss a C k :
  Inv e vs ss -> evolves a (txd e) (txd e') ->
  active_txns (txd e) ⊆ active_txns (txd e') ->
  crash_reads (txd e') C vs k = crash_reads (txd e) (begun (next_txn_id (txd e)) C) vs k.
Proof.
  intros Hinv Hev Hsub. pose proof (do_next _ (in_dom _ _ _ Hinv)) as Hn. apply resolve_ext, Forall_forall.
  assert (forall x, (1 <= x < next_txn_id (txd e))%Z ->
    sees (crash_view (txd e') C) x = sees (crash_view (txd e) (begun (next_txn_id (txd e)) C)) x) as Hx.
  { intros x Hx. rewrite !sees_crash by lia. apply bool_decide_ext.
    rewrite !elem_of_difference, elem_of_begun.
    assert (x ∈ active_txns (txd e') <-> x ∈ active_txns (txd e)) as ->; [|naive_solver lia].
    split; [|by apply Hsub]. intros [?|?]%(ev_active _ _ _ Hev); [done|lia]. }
  intros v Hv. destruct (ho_stamps _ _ _ _ (in_hist _ _ _ Hinv) k v Hv) as [H1 [H2|H2]]; auto.
Qed.

(** A transaction outside the choice that is undone leaves no trace. *)
Lemma crash_gone e e' vs vs' ss ss' a C k :
  Inv e vs ss -> Inv e' vs' ss' -> evolves a (txd e) (txd e') -> stable a vs vs' ->
  next_txn_id (txd e') = next_txn_id (txd e) ->
  a ∈ active_txns (txd e) -> gone a (txd e') vs' -> a ∉ C ->
  crash_reads (txd e') C vs' k = crash_reads (txd e) (begun (next_txn_id (txd e)) C) vs k.
Proof.
  intros Hinv Hinv' Hev Hst Hn Ha [Hna Hns] HC.
  pose proof (in_dom _ _ _ Hinv) as Hd. pose proof (in_dom _ _ _ Hinv') as Hd'.
  pose proof (do_next _ Hd) as Hnx. pose proof (do_ids _ Hd _ Ha) as Hida.
  set (C0 := begun _ C). transitivity (crash_reads (txd e) C0 vs' k).
  2: { apply Hst. rewrite sees_crash by lia. apply bool_decide_eq_false. unfold C0.
       rewrite elem_of_difference, elem_of_begun. tauto. }
  apply resolve_ext, Forall_forall.
  assert (forall x, (1 <= x < next_txn_id (txd e))%Z -> x <> a ->
    sees (crash_view (txd e') C) x = sees (crash_view (txd e) C0) x) as Hx.
  { intros x Hx Hne. rewrite !sees_crash by lia. apply bool_decide_ext. unfold C0.
    rewrite !elem_of_difference, elem_of_begun.
    assert (x ∈ active_txns (txd e') <-> x ∈ active_txns (txd e)) as ->; [|naive_solver lia].
    split; [intros [?|?]%(ev_active _ _ _ Hev); [done|lia]|].
    intros Hact. apply (do_active _ Hd'). rewrite (ev_txns _ _ _ Hev) by (done || lia).
    by apply (in_live _ _ _ Hinv). }
  intros v Hv. destruct (Hns k v Hv) as [N1 N2].
  destruct (ho_stamps _ _ _ _ (in_hist _ _ _ Hinv') k v Hv) as [H1 [H2|H2]]; rewrite Hn in *; auto.
Qed.

(** ** The log's shape *)

Definition writer (r : Rec.WalRecord) : option Z :=
  match r with Rec.Put _ _ => Op.txn <$> Op.from_record r | _ => None end.

Definition record_ok (next : Z) (r : Rec.WalRecord) : Prop :=
  match r with
  | Rec.CommitTxn t ms => (1 <= t < next)%Z /\ u64 ms
  | Rec.AbortTxn t => (1 <= t < next)%Z
  | Rec.Put _ _ => exists op k, r = Op.to_record op /\ row_key_of op = Some k /\ row_op_ok op /\
      (k.2 < U64_MAX)%Z /\ (Op.txn op < next)%Z
  | _ => False
  end.

Lemma record_ok_mono n n' r : (n <= n')%Z -> record_ok n r -> record_ok n' r.
Proof.
  intros Hle. destruct r; cbn; try done; [intros [? ?]; split; [lia|done]|lia|].
  intros (op & k & ? & ? & ? & ? & ?). exists op, k. split_and!; [done..|lia].
Qed.

Lemma writer_row op : Op.wf_op op -> writer (Op.to_record op) = Some (Op.txn op).
Proof.
  intros H. pose proof (from_to_record op H) as E. unfold writer. destruct (Op.to_record op); try done.
  by rewrite E.
Qed.

Section Rows.
Context (image : Z -> gmap Z bytes) (index_image : Z -> KeyTree.t).

(** Only the choice's part that the log names matters. *)
Lemma replay_choice n C C' p rs :
  Forall (record_ok n) rs -> (forall x, (x < n)%Z -> x ∈ C <-> x ∈ C') ->
  replay_records image index_image (only C) p rs = replay_records image index_image (only C') p rs.
Proof.
  intros Hrs HC. revert p. induction Hrs as [|r rs Hr _ IH]; intros p; [done|]. cbn [replay_records].
  assert (replay_record image index_image (only C) p r = replay_record image index_image (only C') p r) as ->.
  { destruct r; try done. destruct Hr as (op & k & -> & Hk & [Hw _] & _ & Hlt).
    rewrite !(replay_row_record _ _ _ _ op k) by done. by rewrite (bool_decide_ext _ _ (HC _ Hlt)). }
  destruct (replay_record _ _ _ p r); cbn [rbind]; auto.
Qed.

(** Records of transactions outside the choice change no table. *)
Lemma replay_skip n C p rs F durable :
  Forall (record_ok n) rs -> Forall (fun r => forall t, writer r = Some t -> t ∉ C) rs ->
  rebuilt durable F p ->
  exists p', replay_records image index_image (only C) p rs = Ok p' /\ p_state p' = p_state p /\
    rebuilt durable F p'.
Proof.
  intros Hrs HC Hp. revert p Hp. induction Hrs as [|r rs Hr _ IH]; intros p Hp; [by exists p|].
  apply Forall_cons in HC as [Hn HC]. cbn [replay_records].
  assert (exists t, replay_record image index_image (only C) p r = Ok (see_txn t p)) as [t ->].
  { destruct r; try done; [by eexists|by eexists|]. destruct Hr as (op & k & E & Hk & [Hw _] & _ & Hlt).
    rewrite E in *. specialize (Hn _ (writer_row op Hw)).
    rewrite (replay_row_record _ _ _ _ op k), bool_decide_false by done. by eexists. }
  cbn [rbind]. destruct (IH HC (see_txn t p)) as (p' & E & Es & Hr'); [by apply rebuilt_see|].
  by exists p'.
Qed.
End Rows.

(** ** The invariant *)

Section Invariant.
Context (image : Z -> gmap Z bytes) (index_image : Z -> KeyTree.t).
Context (temp : gset Z) (wl rl : option Z) (pb : Engine -> Z) (re : Z -> Z -> Error).
Context (ids : gset Z) (Hids : forall id, id ∈ ids -> u64 id).

Definition image_pass : Pass := MkPass (image_cat (ids ∖ temp), seqs_default) 0 ∅ ∅ [].

Definition dom_of (w : LSys) : TxnDomain := txd (l_eng (logged w)).

Record LInv (w : LSys) (vs : Versions) (ss : Slots) : Prop := {
  li_sys : SysInv (l_eng (logged w), snaps w) vs ss;
  li_tables : dom (tables (l_eng (logged w))) = ids;
  li_log : Forall (record_ok (next_txn_id (dom_of w))) (wal (logged w));
  li_run : forall C, valid w C -> exists p,
    replay_records image index_image (only C) image_pass (wal (logged w)) = Ok p /\
    rebuilt (ids ∖ temp) (crash_reads (dom_of w) C vs) p;
  li_acked : forall t, t ∈ acked w ->
    (1 <= t < next_txn_id (dom_of w))%Z /\ t ∉ active_txns (dom_of w) /\ t ∉ doomed w;
  li_doomed : forall t, t ∈ doomed w -> (t < next_txn_id (dom_of w))%Z /\ t ∉ staged (dom_of w);
  li_commit : forall i t ms, wal (logged w) !! i = Some (Rec.CommitTxn t ms) ->
    (t ∈ acked w \/ t ∈ staged (dom_of w)) /\
    forall j r, wal (logged w) !! j = Some r -> writer r = Some t -> j < i;
  li_abort : forall t, Rec.AbortTxn t ∈ wal (logged w) ->
    t ∉ active_txns (dom_of w) /\ t ∉ acked w;
  li_synced : synced w <= length (wal (logged w)) /\
    forall t, t ∈ acked w ->
      exists i ms, wal (logged w) !! i = Some (Rec.CommitTxn t ms) /\ i < synced w }.

(** Appending a record of [t], running and not staged, or a marker that is not
    a commit's. *)
Lemma commit_order_app (lw new : list Rec.WalRecord) (A S : gset Z) t :
  (forall i t ms, lw !! i = Some (Rec.CommitTxn t ms) ->
     (t ∈ A \/ t ∈ S) /\ forall j r, lw !! j = Some r -> writer r = Some t -> j < i) ->
  t ∉ A -> t ∉ S ->
  Forall (fun r => (forall t', writer r = Some t' -> t' = t) /\
                   match r with Rec.CommitTxn _ _ => False | _ => True end) new ->
  forall i t ms, (lw ++ new) !! i = Some (Rec.CommitTxn t ms) ->
    (t ∈ A \/ t ∈ S) /\ forall j r, (lw ++ new) !! j = Some r -> writer r = Some t -> j < i.
Proof using.
  clear. intros H HA HS Hnew i t' ms [Hi|[Hlen Hi]]%lookup_app_Some.
  - destruct (H i t' ms Hi) as [Hin Ho]. split; [done|].
    intros j r [Hj|[Hl Hj]]%lookup_app_Some Hw; [eauto|].
    apply (Forall_lookup_1 _ _ _ _ Hnew) in Hj as [Hj _]. rewrite (Hj _ Hw) in Hin. naive_solver.
  - by apply (Forall_lookup_1 _ _ _ _ Hnew) in Hi as [_ ?].
Qed.

(** ** Steps that change no durable row *)

(** What a step of [a] may do to the rest of the state. *)
Record quiet_rest (a : Z) (w w' : LSys) : Prop := {
  qr_tables : dom (tables (l_eng (logged w'))) = ids;
  qr_staged : staged (dom_of w') = staged (dom_of w);
  qr_acked : acked w' = acked w;
  qr_synced : synced w' = synced w;
  qr_doomed : doomed w ⊆ doomed w';
  qr_doomed' : forall t, t ∈ doomed w' -> t ∈ doomed w \/ t = a /\ t ∈ active_txns (dom_of w');
  qr_free : a ∉ staged (dom_of w) }.

(** The choices that stay open, seen from before. *)
Lemma valid_before a w w' vs ss C :
  LInv w vs ss -> evolves a (dom_of w) (dom_of w') -> quiet_rest a w w' -> valid w' C ->
  valid w (begun (next_txn_id (dom_of w)) C).
Proof using.
  clear Hids wl rl pb re. intros Hl Hev Hq [V1 V2 V3]. rewrite (qr_acked _ _ _ Hq) in V1, V2. split.
  - intros x Hx. apply elem_of_begun. split; [by apply V1|]. by apply (li_acked _ _ _ Hl).
  - intros x [Hx Hlt]%elem_of_begun. destruct (V2 x Hx) as [Ha|]; [|by right]. left.
    destruct (ev_active _ _ _ Hev x Ha) as [?|?]; [done|]. unfold dom_of in *. lia.
  - intros x [Hx _]%elem_of_begun Hd. apply (V3 x Hx), (qr_doomed _ _ _ Hq), Hd.
Qed.

(** Records [new] of [a] are appended; the rows change as they say. *)
Record appended (a : Z) (w w' : LSys) (new : list Rec.WalRecord) : Prop := {
  ap_wal : wal (logged w') = wal (logged w) ++ new;
  ap_ok : Forall (record_ok (next_txn_id (dom_of w'))) new;
  ap_own : Forall (fun r => (forall t, writer r = Some t -> t = a) /\
                            match r with Rec.CommitTxn _ _ => False | _ => True end) new;
  ap_abort : forall t, Rec.AbortTxn t ∈ new -> t = a /\ a ∉ active_txns (dom_of w');
  ap_live : new = [] \/ a ∈ active_txns (dom_of w) }.

Lemma LInv_step a w w' vs vs' ss ss' new :
  LInv w vs ss -> SysInv (l_eng (logged w'), snaps w') vs' ss' ->
  evolves a (dom_of w) (dom_of w') -> quiet_rest a w w' -> appended a w w' new ->
  (forall C p, valid w' C ->
     rebuilt (ids ∖ temp) (crash_reads (dom_of w) (begun (next_txn_id (dom_of w)) C) vs) p ->
     exists p', replay_records image index_image (only C) p new = Ok p' /\
       rebuilt (ids ∖ temp) (crash_reads (dom_of w') C vs') p') ->
  LInv w' vs' ss'.
Proof using.
  clear Hids wl rl pb re. intros Hl Hsys Hev Hq [Hw Hok Hown Hab Hlive] Hrun.
  assert (forall t, (t < next_txn_id (dom_of w))%Z -> t ∉ active_txns (dom_of w) -> t ∉ active_txns (dom_of w'))
    as Hended.
  { intros t Hlt Hna Ha. destruct (ev_active _ _ _ Hev t Ha) as [?|?]; [done|]. unfold dom_of in *. lia. }
  pose proof (ev_next _ _ _ Hev) as Hnext.
  split.
  - done.
  - apply Hq.
  - rewrite Hw. apply Forall_app. split; [|done]. eapply Forall_impl; [apply (li_log _ _ _ Hl)|].
    intros r. by apply record_ok_mono.
  - intros C HC. destruct (li_run _ _ _ Hl _ (valid_before _ _ _ _ _ _ Hl Hev Hq HC)) as (p & Hp & Hr).
    destruct (Hrun C p HC Hr) as (p' & Hp' & Hr'). exists p'. split; [|done].
    rewrite Hw, replay_app.
    rewrite (replay_choice _ _ _ C (begun (next_txn_id (dom_of w)) C) _ _ (li_log _ _ _ Hl)).
    + rewrite Hp. done.
    + intros x Hx. rewrite elem_of_begun. tauto.
  - rewrite (qr_acked _ _ _ Hq). intros t Ht. destruct (li_acked _ _ _ Hl t Ht) as (H1 & H2 & H3).
    assert (t ∉ active_txns (dom_of w')) by (apply Hended; [lia|done]).
    split_and!; [lia|lia|done|]. intros [?|[-> ?]]%(qr_doomed' _ _ _ Hq); done.
  - intros t [Ht|[-> Ha]]%(qr_doomed' _ _ _ Hq); rewrite (qr_staged _ _ _ Hq).
    + destruct (li_doomed _ _ _ Hl t Ht). split; [lia|done].
    + split; [|apply Hq]. by apply (do_ids _ (in_dom _ _ _ (proj1 Hsys))).
  - rewrite Hw, (qr_acked _ _ _ Hq), (qr_staged _ _ _ Hq). destruct Hlive as [->|Ha].
    + rewrite app_nil_r. apply (li_commit _ _ _ Hl).
    + apply (commit_order_app _ _ _ _ a); [apply (li_commit _ _ _ Hl)| |apply Hq|done].
      intros Hin. by destruct (li_acked _ _ _ Hl a Hin) as (_ & ? & _).
  - rewrite Hw, (qr_acked _ _ _ Hq). intros t [Ht|Ht]%elem_of_app.
    + destruct (li_abort _ _ _ Hl t Ht) as [H1 H2]. split; [|done]. apply Hended; [|done].
      pose proof (li_log _ _ _ Hl) as HF. rewrite Forall_forall in HF. by apply HF in Ht as [_ ?].
    + destruct (Hab t Ht) as [-> Hna]. split; [done|]. intros Hin.
      destruct Hlive as [->|Ha]; [by apply elem_of_nil in Ht|].
      by destruct (li_acked _ _ _ Hl a Hin) as (_ & ? & _).
  - rewrite Hw, (qr_acked _ _ _ Hq), (qr_synced _ _ _ Hq). destruct (li_synced _ _ _ Hl) as [H1 H2].
    split; [rewrite length_app; lia|]. intros t Ht. destruct (H2 t Ht) as (i & ms & Hi & Hlt).
    exists i, ms. split; [by apply lookup_app_l_Some|done].
Qed.

Lemma crash_begun d C : domain_ok d -> crash_view d (begun (next_txn_id d) C) = crash_view d C.
Proof using.
  clear. intros Hd. unfold crash_view. f_equal. apply set_eq. intros x.
  rewrite !elem_of_difference, elem_of_begun. pose proof (do_ids _ Hd x). naive_solver lia.
Qed.

(** A step of [a] on the engine of [w], which leaves the rest alone. *)
Definition moved (w : LSys) (l' : Logged) (dm : gset Z) : LSys := MkLSys l' (snaps w) (synced w) (acked w) dm.

Lemma moved_sys a w vs vs' ss ss' l' dm :
  LInv w vs ss -> simulates a (l_eng (logged w)) (l_eng l') vs vs' ss' ->
  SysInv (l_eng (logged (moved w l' dm)), snaps (moved w l' dm)) vs' ss'.
Proof using.
  clear. intros Hl (I' & _ & Hev). split; [done|]. cbn.
  eapply Forall_impl; [apply (li_sys _ _ _ Hl)|]. eauto using snap_ok_mono.
Qed.

(** The step changes no row anyone could still commit. *)
Lemma LInv_calm a w vs vs' ss ss' l' dm new :
  LInv w vs ss -> simulates a (l_eng (logged w)) (l_eng l') vs vs' ss' ->
  quiet_rest a w (moved w l' dm) -> appended a w (moved w l' dm) new ->
  new = [] \/ new = [Rec.AbortTxn a] ->
  vs' = vs /\ active_txns (txd (l_eng (logged w))) ⊆ active_txns (txd (l_eng l')) \/
  a ∈ active_txns (txd (l_eng (logged w))) /\ gone a (txd (l_eng l')) vs' /\
    next_txn_id (txd (l_eng l')) = next_txn_id (txd (l_eng (logged w))) ->
  LInv (moved w l' dm) vs' ss'.
Proof using.
  clear Hids wl rl pb re. intros Hl Hsim Hq Hap Hnew Hv. pose proof Hsim as (I' & Hst & Hev).
  pose proof (proj1 (li_sys _ _ _ Hl)) as Hinv. cbn in Hinv.
  eapply (LInv_step a w _ vs vs' ss ss' new); [done|by eapply moved_sys|done|done|done|].
  intros C p HC Hp.
  assert (rebuilt (ids ∖ temp) (crash_reads (dom_of (moved w l' dm)) C vs') p) as Hp'.
  { eapply rebuilt_ext; [|exact Hp]. intros tb r _. symmetry. cbn.
    destruct Hv as [[-> Hsub]|(Ha & Hg & Hn)]; [by eapply crash_same|].
    eapply crash_gone; try done. intros HaC. destruct Hg as [Hna _].
    destruct (va_live _ _ HC a HaC) as [?|Hk]; [done|].
    by destruct (li_acked _ _ _ Hl a Hk) as (_ & ? & _). }
  destruct Hnew as [->| ->]; [by exists p|]. exists (see_txn a p). split; [done|by apply rebuilt_see].
Qed.

(** The step writes one row. *)
Lemma LInv_write w vs vs' ss ss' t l' outcomes op k :
  LInv w vs ss -> simulates t (l_eng (logged w)) (l_eng l') vs vs' ss' ->
  let w' := moved w l' (doom t outcomes (txd (l_eng l')) (doomed w)) in
  quiet_rest t w w' -> active_txns (txd (l_eng l')) = active_txns (txd (l_eng (logged w))) ->
  row_write (l_eng (logged w)) t op k vs vs' ->
  wal l' = wal (logged w) ++ [Op.to_record op] \/
    wal l' = wal (logged w) /\ unlogged temp outcomes k ->
  LInv w' vs' ss'.
Proof using.
  clear Hids wl rl pb re. intros Hl Hsim w' Hq Ha Hw Hwal. pose proof Hsim as (I' & Hst & Hev).
  pose proof (proj1 (li_sys _ _ _ Hl)) as Hinv. cbn in Hinv. pose proof (in_dom _ _ _ Hinv) as Hd.
  destruct Hw as [W1 W2 W3 W4 W5 W6 W7].
  assert (forall C k', crash_reads (dom_of w') C vs' k' =
            after_op C (crash_reads (dom_of w) (begun (next_txn_id (dom_of w)) C) vs) op k') as Hrows.
  { intros C k'.
    assert (crash_view (dom_of w') C = crash_view (dom_of w) C) as E
      by (unfold crash_view, dom_of; cbn; by rewrite Ha).
    unfold crash_reads. rewrite E, crash_begun by done.
    by apply (effect_reads (dom_of w) t k op vs vs' C k'). }
  destruct Hwal as [Hwal|[Hwal Hun]].
  - eapply (LInv_step t w w' vs vs' ss ss' [Op.to_record op]); [done|by eapply moved_sys|done|done| |].
    + split; [done| | | |by right].
      * apply Forall_singleton. unfold record_ok.
        destruct (Op.to_record op) eqn:E; (try by destruct op). rewrite <- E. exists op, k.
        split_and!; [done|done|done|done|]. subst t. pose proof (do_ids _ Hd _ W5).
        pose proof (ev_next _ _ _ Hev). unfold dom_of. cbn. lia.
      * apply Forall_singleton. rewrite writer_row by apply W3. split; [by intros ? [= <-]|].
        by destruct op.
      * intros t' Ht'%list_elem_of_singleton. by destruct op.
    + intros C p HC Hp. destruct (replay_row image index_image (ids ∖ temp) C _ p op k Hp W1 W3 W4)
        as (p' & E & Hp' & _).
      { destruct op; try done. unfold crash_reads. by rewrite W6. }
      exists p'. cbn [replay_records]. rewrite E. split; [done|]. eapply rebuilt_ext; [|exact Hp'].
      intros. by rewrite Hrows.
  - eapply (LInv_step t w w' vs vs' ss ss' []); [done|by eapply moved_sys|done|done| |].
    + split; [by rewrite app_nil_r|constructor|constructor| |by left]. intros ? []%elem_of_nil.
    + intros C p HC Hp. exists p. split; [done|]. eapply rebuilt_ext; [|exact Hp].
      intros tb r Htb. rewrite Hrows. unfold after_op. rewrite decide_False; [done|].
      intros [HtC Hk]. rewrite W1 in Hk. injection Hk as ->. destruct Hun as [Ht|Hf]; [cbn in Ht; set_solver|].
      apply (va_sound _ _ HC _ HtC). cbn. unfold doom. unfold fails in Hf. rewrite Hf.
      rewrite bool_decide_true by (rewrite Ha; by subst). cbn. set_solver.
Qed.

(** ** Each step *)

(** A step of the logged engine is one of the engine below. *)
Lemma lperform_below w vs ss a outcomes r l' :
  LInv w vs ss -> lenabled w a outcomes ->
  lperform temp wl rl pb re a (MkLogged (l_eng (logged w)) (wal (logged w)) outcomes) = (r, l') ->
  exists b r0, perform wl rl pb re b (l_eng (logged w)) = (r0, l_eng l') /\
    actor (l_eng (logged w)) b = lactor a /\ enabled (l_eng (logged w)) b /\
    match b with ABegin _ => False | _ => True end.
Proof.
  intros Hl [Hst Hen] E. pose proof (proj1 (li_sys _ _ _ Hl)) as Hinv. cbn in Hinv.
  destruct a as [t tb tp|t tb tid tp|t tb tid|t name|t ms|t]; cbn [lperform lactor] in *.
  - exists (AInsert t tb tp). unfold insert_l, sbind, lift in E. cbn [l_eng] in E. cbn [perform discard].
    unfold discard, sbind. destruct (insert wl rl pb re t tb tp _) as [[x|err| |] e1]; try (by simplify_eq; eexists; split_and!).
    unfold set_eng in E. cbn [wal disk] in E.
    destruct (log_op _ _ _) as [r2 l2] eqn:El. apply (log_op_spec _ _ (tb, row_id_of x)) in El as (_ & <- & _); [|done].
    unfold sret in *. destruct r2; simplify_eq; by eexists; split_and!.
  - exists (AUpdate t tb tid tp). unfold update_l, sbind, lift in E. cbn [l_eng] in E. cbn [perform discard].
    unfold discard, sbind. destruct (update wl rl pb re t tb tid tp _) as [[x|err| |] e1]; try (by simplify_eq; eexists; split_and!).
    unfold set_eng in E. cbn [wal disk] in E.
    destruct (log_op _ _ _) as [r2 l2] eqn:El. apply (log_op_spec _ _ (tb, row_id_of x)) in El as (_ & <- & _); [|done].
    unfold sret in *. destruct r2; simplify_eq; by eexists; split_and!.
  - exists (ADelete t tb tid). unfold delete_l, sbind, lift in E. cbn [l_eng] in E. cbn [perform].
    destruct (delete wl t tb tid _) as [[x|err| |] e1]; try (by simplify_eq; eexists; split_and!).
    apply (log_op_spec _ _ (tb, row_id_of tid)) in E as (_ & <- & _); [|done]. by eexists; split_and!.
  - exists (ARollbackTo t name). subst outcomes.
    destruct (rollback_to_l_run temp _ _ _ t name (wal (logged w)) Hinv) as (r0 & e' & E0 & Hr).
    { intros tb. rewrite (li_tables _ _ _ Hl). apply Hids. }
    exists r0. cbn [perform]. rewrite E0. repeat case_match; [destruct Hr as (? & _ & Hr)|..];
      rewrite Hr in E; by simplify_eq.
  - destruct (commit_stage_l_run t ms _ (wal (logged w)) outcomes (in_healthy _ _ _ Hinv))
      as (marker & r0 & e' & l0 & E0 & E1 & He & _).
    exists (AStage t marker), r0. cbn [perform]. rewrite E0. rewrite E1 in E. by simplify_eq.
  - destruct (rollback_l_run t (l_eng (logged w)) (wal (logged w)) outcomes) as (r0 & e' & l0 & E0 & E1 & He & _).
    exists (ARollback t), r0. cbn [perform]. rewrite E0. rewrite E1 in E. by simplify_eq.
Qed.

Lemma doom_rest t w l' outcomes :
  dom (tables (l_eng l')) = ids -> staged (txd (l_eng l')) = staged (txd (l_eng (logged w))) ->
  t ∉ staged (txd (l_eng (logged w))) ->
  quiet_rest t w (moved w l' (doom t outcomes (txd (l_eng l')) (doomed w))).
Proof using.
  clear. intros Ht Hs Hn. split; try done; cbn; unfold doom; destruct (_ && _) eqn:E.
  - set_solver.
  - done.
  - apply andb_prop in E as [_ E%bool_decide_eq_true]. intros x [?|Hx%elem_of_singleton]%elem_of_union; [by left|by subst; right].
  - auto.
Qed.

Lemma appended_none a w w' : wal (logged w') = wal (logged w) -> appended a w w' [].
Proof using.
  clear. intros E. split; [by rewrite app_nil_r|constructor|constructor| |by left]. intros ? []%elem_of_nil.
Qed.

Lemma simulates_refl a e vs ss : Inv e vs ss -> simulates a e e vs vs ss.
Proof using. clear. intros H. split_and!; [done|done|]. by apply others_evolves. Qed.

(** An operation of a transaction that is not running does nothing. *)
Definition idle (t : Z) (w : LSys) (l' : Logged) : Prop :=
  t ∉ active_txns (dom_of w) -> l_eng l' = l_eng (logged w).

Lemma lperform_idle w vs ss a outcomes r l' :
  LInv w vs ss -> lenabled w a outcomes ->
  lperform temp wl rl pb re a (MkLogged (l_eng (logged w)) (wal (logged w)) outcomes) = (r, l') ->
  dom (tables (l_eng l')) = ids /\ idle (lactor a) w l'.
Proof.
  intros Hl Hen E. pose proof (proj1 (li_sys _ _ _ Hl)) as Hinv. cbn in Hinv.
  destruct (lperform_below _ _ _ _ _ _ _ Hl Hen E) as (b & r0 & Hp & Ha & Hb & Hn). split.
  - rewrite <- (li_tables _ _ _ Hl). by eapply perform_tables.
  - intros Hna. eapply perform_unknown; [exact Hinv|exact Hb| |exact Hn|exact Hp].
    rewrite Ha. apply eq_None_not_Some. by intros ?%(do_active _ (in_dom _ _ _ Hinv)).
Qed.

(** A step that leaves the engine alone, or changes no row, or erases its
    transaction's. *)
Lemma LInv_still t w vs vs' ss ss' outcomes l' :
  LInv w vs ss -> t ∉ staged (dom_of w) -> dom (tables (l_eng l')) = ids -> idle t w l' ->
  simulates t (l_eng (logged w)) (l_eng l') vs vs' ss' ->
  staged (txd (l_eng l')) = staged (dom_of w) ->
  vs' = vs /\ active_txns (dom_of w) ⊆ active_txns (txd (l_eng l')) \/
    gone t (txd (l_eng l')) vs' /\ next_txn_id (txd (l_eng l')) = next_txn_id (dom_of w) ->
  wal l' = wal (logged w) \/
    wal l' = wal (logged w) ++ [Rec.AbortTxn t] /\ t ∈ active_txns (dom_of w) /\ t ∉ active_txns (txd (l_eng l')) ->
  exists vs' ss', LInv (moved w l' (doom t outcomes (txd (l_eng l')) (doomed w))) vs' ss'.
Proof using.
  clear Hids wl rl pb re. intros Hl Hst Ht Hid Hsim Hs Hv Hw.
  pose proof (proj1 (li_sys _ _ _ Hl)) as Hinv. cbn in Hinv.
  pose proof (doom_rest t w l' outcomes Ht Hs Hst) as Hq.
  destruct (decide (t ∈ active_txns (dom_of w))) as [Ha|Ha].
  - exists vs', ss'. destruct Hw as [Hw|(Hw & _ & Hna)].
    + eapply (LInv_calm t w vs vs' ss ss' l' _ []); [done|done|done|by apply appended_none|by left|].
      destruct Hv as [?|[? ?]]; [by left|by right].
    + eapply (LInv_calm t w vs vs' ss ss' l' _ [Rec.AbortTxn t]); [done|done|done| |by right|].
      * pose proof (do_ids _ (in_dom _ _ _ Hinv) t Ha). pose proof (ev_next _ _ _ (proj2 (proj2 Hsim))).
        split; [done| | | |by right].
        -- apply Forall_singleton. unfold dom_of in *. cbn in *. lia.
        -- by apply Forall_singleton.
        -- intros t' Ht'%list_elem_of_singleton. by injection Ht' as ->.
      * destruct Hv as [[_ Hsub]|[? ?]]; [by destruct (Hna (Hsub _ Ha))|by right].
  - exists vs, ss. destruct Hw as [Hw|(_ & Ha' & _)]; [|done].
    eapply (LInv_calm t w vs vs ss ss l' _ []); [done| |done|by apply appended_none|by left|];
      rewrite (Hid Ha); [by apply simulates_refl|by left].
Qed.

Lemma LInv_put t w vs ss outcomes l' :
  LInv w vs ss -> t ∉ staged (dom_of w) -> dom (tables (l_eng l')) = ids -> idle t w l' ->
  write_outcome temp t (l_eng (logged w)) (wal (logged w)) outcomes vs l' ->
  exists vs' ss', LInv (moved w l' (doom t outcomes (txd (l_eng l')) (doomed w))) vs' ss'.
Proof using.
  clear Hids wl rl pb re. intros Hl Hst Ht Hid (vs' & ss' & Hsim & Hs & [[Hw Hv]|(Ha & op & k & Hrw & Hw)]).
  - eapply LInv_still; eauto.
  - exists vs', ss'. eapply LInv_write; try done. by apply doom_rest.
Qed.

(** Who takes a step that changes something: a running transaction, or the one
    that begins. *)
Lemma perform_mover e vs ss a r e' :
  Inv e vs ss -> enabled e a -> perform wl rl pb re a e = (r, e') -> r <> Panic ->
  e' = e \/ actor e a ∈ active_txns (txd e) \/ next_txn_id (txd e') = (next_txn_id (txd e) + 1)%Z.
Proof using.
  clear. intros Hinv Hen Hp Hr.
  destruct (txns (txd e) !! actor e a) as [s|] eqn:Hs.
  { right. left. apply (do_active _ (in_dom _ _ _ Hinv)). eauto. }
  destruct a as [lvl| | | | | | | | | | | | | | | | | |]; try (left; by eapply perform_unknown).
  right. right. revert Hp. cbn [perform]. unfold discard, sbind, ensure_healthy, on_txns.
  rewrite (in_healthy _ _ _ Hinv). unfold begin. case_decide; by intros [= <- <-].
Qed.

Lemma LInv_plain e lw d sn sy ak dm a r e' vs ss :
  LInv (MkLSys (MkLogged e lw d) sn sy ak dm) vs ss ->
  plain a = true -> enabled e a -> perform wl rl pb re a e = (r, e') -> r <> Panic ->
  exists vs' ss', LInv (MkLSys (MkLogged e' lw d) sn sy ak dm) vs' ss'.
Proof using.
  clear Hids. intros Hl Hpl Hen Hp Hr. pose proof (proj1 (li_sys _ _ _ Hl)) as Hinv. cbn in Hinv.
  destruct (perform_calm wl rl pb re e vs ss a Hinv Hpl r e' Hp Hr) as (_ & vs' & ss' & Hsim & Hs & Hv).
  set (w := MkLSys (MkLogged e lw d) sn sy ak dm) in *. set (l' := MkLogged e' lw d).
  change (exists vs' ss', LInv (moved w l' dm) vs' ss').
  assert (quiet_rest (actor e a) w (moved w l' dm)) as Hq.
  { split; try done; [|auto|].
    - cbn. rewrite <- (li_tables _ _ _ Hl). by eapply perform_tables.
    - cbn. destruct a; try done; cbn [actor enabled] in *.
      intros ?%(do_staged _ (in_dom _ _ _ Hinv))%(do_ids _ (in_dom _ _ _ Hinv)). lia. }
  destruct (perform_mover e vs ss a r e' Hinv Hen Hp Hr) as [->|Ha].
  - exists vs, ss. eapply (LInv_calm (actor e a) w vs vs ss ss l' dm []); try done;
      [by apply simulates_refl|by apply appended_none|by left|by left].
  - exists vs', ss'. eapply (LInv_calm (actor e a) w vs vs' ss ss' l' dm []); try done;
      [by apply appended_none|by left|].
    destruct Hv as [?|[Hg Hn]]; [by left|]. right. destruct Ha as [?|Ha]; [done|]. cbn in *. lia.
Qed.

(** Compensations rebuild what the undone rows read as before. *)
Lemma replay_inverses t C ops comps F p :
  Forall2 (inverse t) ops comps -> rebuilt (ids ∖ temp) F p ->
  exists p', replay_records image index_image (only C) p
      (Op.to_record <$> filter (fun c => is_durable temp c = true) comps) = Ok p' /\
    rebuilt (ids ∖ temp) (fun k => if decide (t ∈ C) then restore_each ops k (F k) else F k) p'.
Proof using.
  clear Hids wl rl pb re. intros H. revert F p. induction H as [|op c ops comps Hc _ IH]; intros F p Hp.
  { exists p. split; [done|]. eapply rebuilt_ext; [|exact Hp]. intros. by case_decide. }
  destruct Hc as [I1 I2 I3 I4 I5 I6 I7]. rewrite filter_cons.
  destruct (decide (is_durable temp c = true)) as [Hd|Hd].
  - destruct (replay_row image index_image _ C F p c _ Hp I2 I4 I5) as (p1 & E1 & Hp1 & _); [by destruct c|].
    destruct (IH _ _ Hp1) as (p2 & E2 & Hp2). exists p2. rewrite fmap_cons. cbn [replay_records].
    rewrite E1. split; [exact E2|]. eapply rebuilt_ext; [|exact Hp2]. intros tb r _. cbn [restore_each].
    unfold after_op. rewrite I2, I3, I6. destruct (decide (t ∈ C)) as [HtC|HtC].
    + f_equal. apply decide_ext. split; [intros [_ Hk]; by injection Hk|by intros ->].
    + by rewrite decide_False by tauto.
  - destruct (IH _ _ Hp) as (p2 & E2 & Hp2). exists p2. split; [exact E2|].
    eapply rebuilt_ext; [|exact Hp2]. intros tb r Htb. cbn [restore_each].
    rewrite (decide_False (P := op_key op = _)); [done|]. intros Hk.
    rewrite Hk in I2. apply elem_of_difference in Htb as [_ Hnt].
    apply Hd. destruct c; try done; cbn in I2 |- *; injection I2 as -> _; by apply bool_decide_eq_true.
Qed.

Lemma inverses_ok t w w' ops comps :
  Forall2 (inverse t) ops comps -> (t < next_txn_id (dom_of w'))%Z -> t ∈ active_txns (dom_of w) ->
  let new := Op.to_record <$> filter (fun c => is_durable temp c = true) comps in
  wal (logged w') = wal (logged w) ++ new -> appended t w w' new.
Proof using.
  clear Hids wl rl pb re. intros Hc Hlt Ha new Hw.
  assert (Forall (fun r => exists op c, r = Op.to_record c /\ inverse t op c) new) as Hn.
  { apply Forall_fmap, Forall_forall. intros c [_ Hin]%list_elem_of_filter.
    apply list_elem_of_lookup in Hin as [i Hi].
    destruct (Forall2_lookup_r _ _ _ _ _ Hc Hi) as (op & _ & ?). by exists op, c. }
  split; [done| | | |by right].
  - eapply Forall_impl; [exact Hn|]. intros r (op & c & -> & [I1 I2 I3 I4 I5 I6 I7]).
    assert (record_ok (next_txn_id (dom_of w')) (Op.to_record c) <-> exists op k, Op.to_record c = Op.to_record op /\
      row_key_of op = Some k /\ row_op_ok op /\ (k.2 < U64_MAX)%Z /\
      (Op.txn op < next_txn_id (dom_of w'))%Z) as -> by (by destruct c).
    exists c, (op_key op). by rewrite I3.
  - eapply Forall_impl; [exact Hn|]. intros r (op & c & -> & [I1 I2 I3 I4 I5 I6 I7]).
    rewrite writer_row by apply I4. split; [intros ? [= <-]; done|by destruct c].
  - rewrite Forall_forall in Hn. intros t' Ht'. destruct (Hn _ Ht') as (op & c & E & [I1 I2 _ _ _ _ _]).
    by destruct c.
Qed.

Lemma LInv_rollback_to t name w vs ss r l' :
  LInv w vs ss -> t ∉ staged (dom_of w) -> dom (tables (l_eng l')) = ids -> idle t w l' ->
  rollback_to_l temp t name (MkLogged (l_eng (logged w)) (wal (logged w)) []) = (r, l') -> r <> Panic ->
  exists vs' ss', LInv (moved w l' (doomed w)) vs' ss'.
Proof using Hids.
  clear wl rl pb re. intros Hl Hst Ht Hid E Hr. pose proof (proj1 (li_sys _ _ _ Hl)) as Hinv. cbn in Hinv.
  pose proof (in_dom _ _ _ Hinv) as Hd.
  destruct (rollback_to_l_run temp _ _ _ t name (wal (logged w)) Hinv) as (r0 & e' & E0 & Hrun).
  { intros tb. rewrite (li_tables _ _ _ Hl). apply Hids. }
  destruct (split_at_savepoint t name (txd (l_eng (logged w)))) as [[tail|err| |] d1] eqn:Hsp;
    cbn [fst] in Hrun.
  2-4: rewrite Hrun in E; injection E as <- <-;
    pose proof (rollback_to_outcome _ _ _ t name Hinv) as Ho; unfold outcome in Ho; rewrite E0 in Ho;
    destruct r0 as [x|err'| |]; try done;
    [by destruct Ho as (? & ? & _ & _ & _ & ? & Hx & _); rewrite Hsp in Hx|];
    destruct Ho as (vs' & ss' & ? & ? & Hot & Hv); eapply (LInv_still t w vs vs' ss ss' []); try done;
    [split_and!; [done|done|by apply others_evolves]|apply Hot| |by left];
    destruct Hv as [[-> Ha]|?]; [left; split; [done|cbn; rewrite Ha; reflexivity]|right; split; [done|apply Hot]].
  destruct Hrun as (comps & Hc & Hrun). rewrite Hrun in E. injection E as <- <-.
  destruct (rollback_to_runs _ _ _ _ _ _ _ Hinv Hsp) as (e1 & vs' & ss' & E1 & I' & Hs & Hot & Ha & Htr).
  rewrite E0 in E1. injection E1 as -> <-.
  assert (t ∈ active_txns (dom_of w)) as Hact.
  { unfold split_at_savepoint in Hsp. destruct (txns _ !! t) eqn:Hx; [|done]. apply (do_active _ Hd); eauto. }
  exists vs', ss'. eapply (LInv_step t w _ vs vs' ss ss').
  - done.
  - eapply moved_sys; [done|]. split_and!; [done|done|by apply others_evolves].
  - by apply others_evolves.
  - apply (doom_rest t w _ []); [done|apply Hot|done].
  - eapply inverses_ok; [exact Hc| |done|done]. pose proof (do_ids _ Hd t Hact). unfold dom_of. cbn.
    rewrite (ot_next _ _ _ Hot). lia.
  - intros C p HC Hp. destruct (replay_inverses t C _ _ _ _ Hc Hp) as (p' & Ep & Hp').
    exists p'. split; [done|]. eapply rebuilt_ext; [|exact Hp']. intros tb r _. cbn beta.
    unfold crash_reads. cbn. rewrite crash_begun by done.
    assert (crash_view (txd e') C = crash_view (dom_of w) C) as Ev by (unfold crash_view; by rewrite Ha).
    change (dom_of (moved w _ _)) with (txd e'). rewrite Ev.
    assert ((1 <= t <= U64_MAX)%Z) as Hrange by
      (pose proof (do_ids _ Hd t Hact); pose proof (do_next _ Hd); unfold dom_of in *; lia).
    case_decide as HtC; symmetry; [apply Htr|apply Hs].
    + by apply late_crash.
    + rewrite sees_crash by done. apply bool_decide_eq_true. set_solver.
    + rewrite sees_crash by done. apply bool_decide_eq_false. set_solver.
Qed.

Lemma LInv_rollback t w vs ss outcomes r l' :
  LInv w vs ss -> t ∉ staged (dom_of w) -> dom (tables (l_eng l')) = ids -> idle t w l' ->
  rollback_l t (MkLogged (l_eng (logged w)) (wal (logged w)) outcomes) = (r, l') -> r <> Panic ->
  exists vs' ss', LInv (moved w l' (doomed w)) vs' ss'.
Proof using.
  clear Hids wl rl pb re. intros Hl Hst Ht Hid E Hr. pose proof (proj1 (li_sys _ _ _ Hl)) as Hinv. cbn in Hinv.
  destruct (rollback_l_run t (l_eng (logged w)) (wal (logged w)) outcomes) as (r0 & e' & l0 & E0 & E1 & He & Hw).
  rewrite E1 in E. injection E as -> ->.
  pose proof (rollback_outcome _ _ _ t Hinv Hst) as Ho. unfold outcome in Ho. rewrite E0 in Ho.
  assert (exists vs' ss', Inv e' vs' ss' /\ stable t vs vs' /\ others t (txd (l_eng (logged w))) (txd e') /\
    (vs' = vs /\ active_txns (txd e') = active_txns (txd (l_eng (logged w))) \/ gone t (txd e') vs'))
    as (vs' & ss' & ? & ? & Hot & Hv).
  { destruct r as [x|err| |]; try done. destruct Ho as (vs' & ss' & ? & ? & ? & ? & ? & _).
    exists vs', ss'. split_and!; try done. right. by split. }
  eapply (LInv_still t w vs vs' ss ss' []); try done; subst e'.
  - split_and!; [done|done|by apply others_evolves].
  - apply Hot.
  - destruct Hv as [[-> Ha]|?]; [left; split; [done|rewrite Ha; reflexivity]|right; split; [done|apply Hot]].
  - destruct Hw as [?|(? & Hx & ?)]; [by left|right]. split_and!; [done| |done].
    by apply (do_active _ (in_dom _ _ _ Hinv)).
Qed.

(** ** Commit *)

Lemma valid_same w w' C :
  acked w' = acked w -> active_txns (dom_of w') = active_txns (dom_of w) -> doomed w' = doomed w ->
  valid w' C -> valid w C.
Proof using. clear. intros Ea Eact Ed [V1 V2 V3]. unfold dom_of in *. rewrite Ea, Eact, Ed in *. by split. Qed.

(** The transaction is staged, with its marker in the log. *)
Lemma LInv_staged t ms w vs ss l' new :
  LInv w vs ss -> Inv (l_eng l') vs ss -> dom (tables (l_eng l')) = ids ->
  others t (set_staged (fun s => s ∪ {[t]}) (dom_of w)) (txd (l_eng l')) ->
  active_txns (txd (l_eng l')) = active_txns (dom_of w) -> t ∈ active_txns (dom_of w) ->
  t ∉ doomed w -> u64 ms ->
  wal l' = wal (logged w) ++ new -> new = [] \/ new = [Rec.CommitTxn t ms] ->
  LInv (moved w l' (doomed w)) vs ss.
Proof using.
  clear Hids wl rl pb re. intros Hl I' Ht Hot Ha Hact Hnd Hms Hw Hnew.
  pose proof (proj1 (li_sys _ _ _ Hl)) as Hinv. cbn in Hinv.
  pose proof (ot_next _ _ _ Hot) as Hn. pose proof (ot_staged _ _ _ Hot) as Hs. cbn in Hn, Hs.
  pose proof (do_ids _ (in_dom _ _ _ Hinv) t Hact) as Hid.
  assert (forall i t' ms', new !! i = Some (Rec.CommitTxn t' ms') -> t' = t) as Hnc.
  { intros i t' ms'. destruct Hnew as [->| ->]; [done|]. by intros [_ [= -> ->]]%list_lookup_singleton_Some. }
  assert (forall j r t', new !! j = Some r -> writer r <> Some t') as Hnw.
  { intros j r t'. destruct Hnew as [->| ->]; [done|]. by intros [_ <-]%list_lookup_singleton_Some. }
  split; change (dom_of (moved w l' (doomed w))) with (txd (l_eng l')); cbn [moved logged snaps synced acked doomed].
  - eapply (moved_sys t w vs vs ss ss l' (doomed w)); [done|]. split_and!; [done|done|by eapply evolves_staged].
  - done.
  - rewrite Hw, Hn. apply Forall_app. split; [apply Hl|]. destruct Hnew as [->| ->]; [constructor|].
    by apply Forall_singleton.
  - intros C HC. destruct (li_run _ _ _ Hl C) as (p & Hp & Hr); [by eapply valid_same; [..|exact HC]|].
    rewrite Hw, replay_app, Hp. cbn [rbind].
    assert (rebuilt (ids ∖ temp) (crash_reads (txd (l_eng l')) C vs) p) as Hr'.
    { eapply rebuilt_ext; [|exact Hr]. intros. unfold crash_reads, crash_view. by rewrite Ha. }
    destruct Hnew as [->| ->]; [by exists p|]. exists (see_txn t p). split; [done|by apply rebuilt_see].
  - rewrite Hn, Ha. apply Hl.
  - rewrite Hn, Hs. intros t' Hd. destruct (li_doomed _ _ _ Hl t' Hd). set_solver.
  - rewrite Hs, Hw. intros i t' ms' [Hi|[Hlen Hi]]%lookup_app_Some.
    + destruct (li_commit _ _ _ Hl i t' ms' Hi) as [Hin Ho]. split; [set_solver|].
      intros j r [Hj|[Hlj Hj]]%lookup_app_Some Hwr; [eauto|by destruct (Hnw _ _ t' Hj)].
    + rewrite (Hnc _ _ _ Hi). split; [set_solver|].
      intros j r [Hj|[Hlj Hj]]%lookup_app_Some Hwr; [apply lookup_lt_Some in Hj; lia|by destruct (Hnw _ _ t Hj)].
  - rewrite Ha, Hw. intros t' [?|Hx]%elem_of_app; [by apply Hl|].
    destruct Hnew as [->| ->]; [by apply elem_of_nil in Hx|]. by apply list_elem_of_singleton in Hx.
  - destruct (li_synced _ _ _ Hl) as [H1 H2]. rewrite Hw, length_app. split; [lia|].
    intros t' Ht'. destruct (H2 t' Ht') as (i & ms' & Hi & Hlt). exists i, ms'.
    split; [by apply lookup_app_l_Some|done].
Qed.

Lemma LInv_stage t ms w vs ss outcomes r l' :
  LInv w vs ss -> t ∉ staged (dom_of w) -> t ∉ doomed w -> u64 ms ->
  dom (tables (l_eng l')) = ids -> idle t w l' ->
  commit_stage_l t ms (MkLogged (l_eng (logged w)) (wal (logged w)) outcomes) = (r, l') ->
  exists vs' ss', LInv (moved w l' (doomed w)) vs' ss'.
Proof using.
  clear Hids wl rl pb re. intros Hl Hst Hnd Hms Ht Hid E.
  pose proof (proj1 (li_sys _ _ _ Hl)) as Hinv. cbn in Hinv.
  destruct (commit_stage_l_run t ms _ (wal (logged w)) outcomes (in_healthy _ _ _ Hinv))
    as (marker & r0 & e' & l0 & E0 & E1 & He & Hw).
  rewrite E1 in E. injection E as -> ->. subst e'.
  pose proof (commit_stage_outcome _ _ _ t marker Hinv Hst) as Ho. rewrite E0 in Ho.
  assert (forall vs' ss', Inv (l_eng l') vs' ss' -> stable t vs vs' ->
    others t (txd (l_eng (logged w))) (txd (l_eng l')) ->
    vs' = vs /\ active_txns (txd (l_eng l')) = active_txns (txd (l_eng (logged w))) \/ gone t (txd (l_eng l')) vs' ->
    exists vs' ss', LInv (moved w l' (doomed w)) vs' ss') as Hstill.
  { intros vs' ss' I' Hs Hot Hv. eapply (LInv_still t w vs vs' ss ss' []); try done.
    - split_and!; [done|done|by apply others_evolves].
    - apply Hot.
    - destruct Hv as [[-> Ha]|?]; [left; split; [done|rewrite Ha; reflexivity]|right; split; [done|apply Hot]].
    - destruct Hw as [?|[(? & Hx & ?)|(_ & _ & Hx)]]; [by left|right|].
      + split_and!; [done| |done]. by apply (do_active _ (in_dom _ _ _ Hinv)).
      + by rewrite (ot_staged _ _ _ Hot) in Hx. }
  destruct r as [x|err| |]; try done.
  - destruct Ho as (I' & _ & [[Hot Hg]|(_ & Hact & Ha & Hot)]); [by eapply (Hstill vs ss); auto|].
    exists vs, ss. destruct Hw as [Hw|[(_ & _ & Hna)|(Hw & _)]].
    + eapply (LInv_staged t ms w vs ss l' []); try done; [by rewrite app_nil_r|by left].
    + by rewrite Ha in Hna.
    + eapply (LInv_staged t ms w vs ss l'); try done. by right.
  - destruct Ho as (vs' & ss' & ? & ? & ? & ?). by eapply (Hstill vs' ss').
Qed.

(** The commit returns: the choice loses its freedom for [t]. *)
Lemma LInv_finish e lw d sn sy ak dm t i ms r e' vs ss :
  LInv (MkLSys (MkLogged e lw d) sn sy ak dm) vs ss ->
  t ∈ staged (txd e) -> lw !! i = Some (Rec.CommitTxn t ms) -> i < sy ->
  commit_finish t e = (r, e') -> dom (tables e') = ids ->
  LInv (MkLSys (MkLogged e' lw d) sn sy (ak ∪ {[t]}) dm) vs ss.
Proof using.
  clear Hids wl rl pb re. intros Hl Hst Hi Hlt E Ht.
  pose proof (proj1 (li_sys _ _ _ Hl)) as Hinv. cbn in Hinv. pose proof (in_dom _ _ _ Hinv) as Hd.
  pose proof (do_staged _ Hd t Hst) as Hact. pose proof (do_ids _ Hd t Hact) as Hid.
  destruct (in_live _ _ _ Hinv t Hact) as [s Hs].
  destruct (commit_finish_outcome e vs ss t s Hinv Hs) as (e1 & E1 & I' & Hna & Hot).
  rewrite E1 in E. injection E as <- ->. pose proof (in_dom _ _ _ I') as Hd'.
  pose proof (ot_next _ _ _ Hot) as Hn. pose proof (ot_staged _ _ _ Hot) as Hsg. cbn in Hn, Hsg.
  assert (forall x, x ∈ active_txns (txd e') -> x ∈ active_txns (txd e)) as Hsub.
  { intros x Hx. destruct (ot_active _ _ _ Hot x Hx) as [?|Hge]; [done|]. cbn in Hge.
    pose proof (do_ids _ Hd' x Hx). lia. }
  destruct Hl as [Hsys _ Hlog Hrun Hak Hdm Hcm Hab [Hsy Hsyn]]. unfold dom_of in *. cbn in *.
  split; unfold dom_of; cbn; try done.
  - split; [done|]. eapply Forall_impl; [apply Hsys|]. eauto using snap_ok_mono, evolves_staged.
  - by rewrite Hn.
  - intros C [V1 V2 V3]. cbn in *. destruct (Hrun C) as (p & Hp & Hr).
    { split; cbn; [set_solver| |done]. intros x Hx. destruct (V2 x Hx) as [?|?]; [auto|set_solver]. }
    exists p. split; [done|]. eapply rebuilt_ext; [|exact Hr]. intros tb row _.
    apply resolve_ext, Forall_forall.
    assert (forall x, (1 <= x < next_txn_id (txd e))%Z ->
      sees (crash_view (txd e) C) x = sees (crash_view (txd e') C) x) as Hx.
    { pose proof (do_next _ Hd). intros x Hx. rewrite !sees_crash by lia. apply bool_decide_ext.
      rewrite !elem_of_difference. destruct (decide (x = t)) as [->|Hne]; [set_solver|].
      assert (x ∈ active_txns (txd e') <-> x ∈ active_txns (txd e)) as ->; [|done].
      split; [apply Hsub|]. intros Hx'. apply (do_active _ Hd'). rewrite (ot_txns _ _ _ Hot) by (done || cbn; lia).
      by apply (in_live _ _ _ Hinv). }
    intros v Hv. destruct (ho_stamps _ _ _ _ (in_hist _ _ _ Hinv) _ v Hv) as [H1 [H2|H2]]; auto.
  - intros t' [Ht'|Ht'%elem_of_singleton]%elem_of_union; rewrite Hn.
    + destruct (Hak t' Ht') as (? & ? & ?). split_and!; [lia|lia|by intros ?%Hsub|done].
    + subst t'. split_and!; [lia|lia|done|]. intros Hx. by destruct (Hdm t Hx).
  - intros t' Ht'. rewrite Hn, Hsg. destruct (Hdm t' Ht'). set_solver.
  - intros j t' ms' Hj. rewrite Hsg. destruct (Hcm j t' ms' Hj) as [Hin Ho]. split; [|done].
    destruct (decide (t' = t)); set_solver.
  - intros t' Ht'. destruct (Hab t' Ht') as [Hx1 Hx2]. split; [by intros ?%Hsub|]. set_solver.
  - split; [done|]. intros t' [Ht'|Ht'%elem_of_singleton]%elem_of_union; [auto|]. subst. eauto.
Qed.

(** ** Purge and the fsync *)

Lemma LInv_purged e lw d sn sy ak dm e' vs vs' ss ss' :
  LInv (MkLSys (MkLogged e lw d) sn sy ak dm) vs ss -> purged e e' vs vs' ss' -> dom (tables e') = ids ->
  LInv (MkLSys (MkLogged e' lw d) sn sy ak dm) vs' ss'.
Proof using.
  clear Hids wl rl pb re. intros [Hsys _ Hlog Hrun Hak Hdm Hcm Hab Hsy] [P1 P2 P3] Ht. unfold dom_of in *. cbn in *.
  split; unfold dom_of; cbn; rewrite ?P2; try done.
  - split; [done|]. cbn. rewrite P2. apply Hsys.
  - intros C [V1 V2 V3]. cbn in *. rewrite P2 in V2. destruct (Hrun C) as (p & Hp & Hr); [by split|].
    exists p. split; [done|]. eapply rebuilt_ext; [|exact Hr]. intros tb row _.
    unfold crash_reads. symmetry. apply P3. right. apply late_crash. apply Hsys.
Qed.

Lemma LInv_sync l sn sy ak dm n vs ss :
  LInv (MkLSys l sn sy ak dm) vs ss -> sy <= n <= length (wal l) -> LInv (MkLSys l sn n ak dm) vs ss.
Proof using.
  clear. intros [Hsys Htb Hlog Hrun Hak Hdm Hcm Hab [Hsy Hsyn]] Hn. split; try done.
  - intros C [V1 V2 V3]. by apply Hrun.
  - cbn in *. split; [lia|]. intros t Ht. destruct (Hsyn t Ht) as (i & ms & Hi & Hlt). exists i, ms. split; [done|lia].
Qed.

Lemma LInv_snapshot l sn sy ak dm vs ss :
  LInv (MkLSys l sn sy ak dm) vs ss -> LInv (MkLSys l (purge_snapshot (l_eng l) :: sn) sy ak dm) vs ss.
Proof using.
  clear. intros [Hsys Htb Hlog Hrun Hak Hdm Hcm Hab Hsy]. split; try done.
  - split; [apply Hsys|]. constructor; [apply settled_snapshot|apply Hsys].
  - intros C [V1 V2 V3]. by apply Hrun.
Qed.

(** ** Every reachable state *)

Lemma LInv_lstep w w' vs ss :
  LInv w vs ss -> lstep temp wl rl pb re w w' -> exists vs' ss', LInv w' vs' ss'.
Proof.
  intros Hl Hstep. pose proof (proj1 (li_sys _ _ _ Hl)) as Hinv. cbn in Hinv.
  pose proof (li_tables _ _ _ Hl) as Htb. pose proof (proj2 (li_sys _ _ _ Hl)) as Hsn. rewrite Forall_forall in Hsn.
  destruct Hstep as [e lw d sn sy ak dm a r e' Hpl Hen Hp Hr|w outcomes a r l' Hen Hp Hr
    |e lw d sn sy ak dm t i ms r e' Hst Hi Hlt E|l sn sy ak dm n Hn|l sn sy ak dm
    |e lw d sn sy ak dm snap tb cur r e' Hin E|e lw d sn sy ak dm snap r e' Hin E]; cbn in Hinv, Htb.
  - by eapply LInv_plain.
  - destruct (lperform_idle _ _ _ _ _ _ _ Hl Hen Hp) as [Ht Hid]. destruct Hen as [Hst Hen].
    change (MkLSys l' (snaps w) (synced w) (acked w) ?dm) with (moved w l' dm).
    destruct a as [t tb tp|t tb tid tp|t tb tid|t name|t ms|t]; cbn [row_action lactor lperform] in *.
    + eapply LInv_put; try done. unfold sbind in Hp. destruct (insert_l _ _ _ _ _ _ _ _ _) as [r1 l1] eqn:E1.
      destruct (insert_l_outcome temp wl rl pb re _ vs ss t tb tp _ _ _ _ Hinv Hen E1) as [Hx ?];
        unfold sret in Hp; [by intros ->; simplify_eq|]. destruct r1; by simplify_eq.
    + eapply LInv_put; try done. unfold sbind in Hp. destruct (update_l _ _ _ _ _ _ _ _ _ _) as [r1 l1] eqn:E1.
      destruct (update_l_outcome temp wl rl pb re _ vs ss t tb tid tp _ _ _ _ Hinv Hen E1) as [Hx ?];
        unfold sret in Hp; [by intros ->; simplify_eq|]. destruct r1; by simplify_eq.
    + eapply LInv_put; try done. eapply delete_l_outcome; done.
    + subst outcomes. by eapply LInv_rollback_to.
    + destruct Hen. by eapply LInv_stage.
    + by eapply LInv_rollback.
  - exists vs, ss. eapply LInv_finish; try done. rewrite <- Htb.
    exact (perform_tables wl rl pb re (AFinish t) e r e' E).
  - exists vs, ss. by eapply LInv_sync.
  - exists vs, ss. by apply LInv_snapshot.
  - destruct (purge_batch_ok e vs ss snap tb cur Hinv (Hsn _ Hin)) as (r1 & e1 & vs' & ss' & E1 & Hpu).
    rewrite E1 in E. injection E as <- ->. exists vs', ss'. eapply LInv_purged; try done.
    rewrite <- Htb. by eapply purge_batch_tables.
  - destruct (purge_orphans_ok e vs ss snap Hinv) as (e1 & E1 & Hpu).
    rewrite E1 in E. injection E as <- ->. exists vs, ss. eapply LInv_purged; try done.
    rewrite <- Htb. unfold purge_orphans in E1. by simplify_eq.
Qed.

Lemma image_lookup tbs tb t :
  c_tables (image_cat tbs) !! tb = Some t <-> tb ∈ tbs /\ t = image_table tb.
Proof using.
  clear. unfold image_cat. cbn. rewrite lookup_set_to_map by done. split; [|naive_solver].
  intros (y & ? & ?). by simplify_eq.
Qed.

Lemma rebuilt_image : rebuilt (ids ∖ temp) (fun _ => None) image_pass.
Proof using.
  clear Hids wl rl pb re. split; [|intros tb [t Ht]; by apply image_lookup in Ht as [? _]|done..].
  intros tb Htb. exists (image_table tb). split; [by apply image_lookup|]. split; cbn; [done| |].
  - intros r [? Hr]. by rewrite lookup_empty in Hr.
  - intros r. by rewrite lookup_empty.
Qed.

Lemma reached w : lreachable temp wl rl pb re ids w -> exists vs ss, LInv w vs ss.
Proof.
  induction 1 as [|w w' _ (vs & ss & IH) Hst]; [|by eapply LInv_lstep].
  exists (fun _ => []), (fun _ => []). split; cbn; try done.
  - apply initial_inv.
  - apply dom_gset_to_gmap.
  - intros C _. exists image_pass. split; [done|apply rebuilt_image].
Qed.
End Invariant.
