(* ===== verification/RecoveryCrash.v ===== *)
(** * Coming back from a crash

    From the invariant of the logged engine: any prefix of the log that holds
    the synced records replays, under the outcomes it names itself, to what its
    committed transactions wrote; and the engine opened on the result satisfies
    the invariant of a running one. *)

From S2P Require Import Prelude Core Codec Catalog WalRecord WalOps WalOpsFacts Mvcc Txn Engine EngineInv.
From S2P Require Import EngineOps EngineUndo EnginePurge EngineCommit EngineSys EngineTables Index Sequence.
From S2P Require Import Replay Recovery RecoveryInv RecoverySys.
From stdpp Require Import base gmap list sets functions strings.
From Stdlib Require Import ZArith Lia Strings.Byte.

Import BtreeEngine.

(** ** The outcomes a log names *)

Lemma row_not_prepare op k : row_key_of op = Some k -> Op.wf_op op -> Op.prepare_marker_txn (Op.to_record op) = None.
Proof. intros Hk Hw. rewrite prepare_marker_spec by done. by destruct op. Qed.

Lemma note_ends n rs x :
  Forall (record_ok n) rs ->
  let y := foldl note_end x rs in
  (forall t, t ∈ committed y <-> t ∈ committed x \/ exists ms, Rec.CommitTxn t ms ∈ rs) /\
  (forall t, t ∈ aborted y <-> t ∈ aborted x \/ Rec.AbortTxn t ∈ rs) /\
  prepared_here y = prepared_here x.
Proof.
  intros Hrs. revert x. induction Hrs as [|r rs Hr _ IH]; intros x; cbn [foldl].
  { split_and!; [|intros t; rewrite elem_of_nil; tauto|done]. intros t. split; [by left|].
    intros [?|[ms []%elem_of_nil]]; done. }
  destruct (IH (note_end x r)) as (H1 & H2 & H3).
  setoid_rewrite H1. setoid_rewrite H2. setoid_rewrite H3. clear IH H1 H2 H3.
  destruct r; try done; cbn [note_end committed aborted prepared_here]; setoid_rewrite elem_of_cons.
  - split_and!; [|naive_solver|done]. intros t. rewrite elem_of_union, elem_of_singleton. naive_solver.
  - split_and!; [naive_solver| |done]. intros t. rewrite elem_of_union, elem_of_singleton. naive_solver.
  - destruct Hr as (op & k & E & Hk & [Hw _] & _). rewrite E, (row_not_prepare op k) by done. rewrite <- E.
    split_and!; naive_solver.
Qed.

Lemma ends_spec n rs :
  Forall (record_ok n) rs ->
  (forall t, t ∈ committed (ends_of rs) <->
     (exists ms, Rec.CommitTxn t ms ∈ rs) /\ Rec.AbortTxn t ∉ rs) /\
  prepared_here (ends_of rs) = ∅.
Proof.
  intros Hrs. destruct (note_ends n rs (MkEnds ∅ ∅ ∅) Hrs) as (H1 & H2 & H3). unfold ends_of. cbn.
  split; [|done]. intros t. rewrite elem_of_difference, H1, H2. cbn. set_solver.
Qed.

Lemma fresh_meta_ok t : (0 <= t <= U64_MAX)%Z -> meta_ok (fresh_meta t).
Proof. unfold meta_ok, u64, NO_XMAX, NO_UNDO, U64_MAX. cbn. unfold NO_XMAX, NO_UNDO, U64_MAX. lia. Qed.

Section Crash.
Context (image : Z -> gmap Z bytes) (index_image : Z -> KeyTree.t).

(** Only the committed transactions matter. *)
Lemma replay_only x p rs :
  prepared_here x = ∅ ->
  replay_records image index_image x p rs = replay_records image index_image (only (committed x)) p rs.
Proof.
  intros Hx. revert p. induction rs as [|r rs IH]; intros p; [done|]. cbn [replay_records].
  assert (replay_record image index_image x p r = replay_record image index_image (only (committed x)) p r) as ->.
  { destruct r; try done. unfold replay_record. rewrite Hx. done. }
  destruct (replay_record _ _ _ p r); cbn [rbind]; auto.
Qed.

(** An insertion over a row that is there is refused. *)
Lemma replay_insert_taken durable F p t tb r tp :
  rebuilt durable F p -> tb ∈ durable -> F (tb, r) <> None ->
  exists err, apply_now image index_image (Op.Insert t tb r tp) p = Err err.
Proof.
  intros Hp Hd Hx. destruct (rb_tables _ _ _ Hp tb Hd) as (c & Ht & Hs).
  pose proof (ts_rows _ _ _ Hs r) as Hrow. cbn in Hrow. destruct (F (tb, r)); [|done].
  destruct (rows (t_state c) !! r) as [v|] eqn:Hv; [|done].
  unfold apply_now, replay_op, replay_cat, on_table. rewrite Ht. unfold replay_insert, tree_insert.
  rewrite Hv. by eexists.
Qed.

(** A pass over row records that succeeds has rebuilt some rows, and has seen
    no transaction past the log's. *)
Lemma replay_some durable n C rs F p p' :
  Forall (record_ok n) rs -> rebuilt durable F p -> (max_txn p < n)%Z ->
  replay_records image index_image (only C) p rs = Ok p' ->
  (exists F', rebuilt durable F' p') /\ (max_txn p' < n)%Z.
Proof.
  intros Hrs. revert F p. induction Hrs as [|r rs Hr _ IH]; intros F p Hp Hm; [intros [= <-]; eauto|].
  cbn [replay_records]. destruct r; try done.
  1, 2: cbn [replay_record rbind]; intros E; eapply (IH F); [by apply rebuilt_see| |exact E];
    cbn in Hr |- *; lia.
  destruct Hr as (op & [tb row] & E & Hk & Hok & Hr & Hlt). rewrite E in *.
  rewrite (replay_row_record _ _ _ _ _ (tb, row)) by (done || apply Hok).
  apply (rebuilt_see _ _ _ (Op.txn op)) in Hp. set (p1 := see_txn (Op.txn op) p) in *.
  assert (max_txn p1 < n /\ Op.txn op <= max_txn p1)%Z as [Hm1 Hle] by (cbn; lia).
  case_bool_decide as HC; cbn [rbind]; [|by apply (IH F)].
  set (G := fun k => if decide (tb ∉ durable /\ k = (tb, row)) then None else F k).
  assert (rebuilt durable G p1) as HG.
  { eapply rebuilt_ext; [|exact Hp]. intros tb' r' Hd. unfold G. rewrite decide_False; [done|]. naive_solver. }
  assert (match op with Op.Insert _ _ _ _ => G (tb, row) = None | _ => True end \/
    G (tb, row) <> None /\ exists t tp, op = Op.Insert t tb row tp) as [Hi|(Hi & t & tp & ->)].
  { destruct op; try by left. cbn in Hk. injection Hk as -> ->.
    destruct (decide (G (tb, row) = None)); [by left|right; eauto]. }
  - destruct (rebuilt_write image index_image durable G p1 op tb row C HG Hk Hok Hle Hr HC Hi) as (p2 & -> & Hp2 & Hm2).
    cbn [rbind]. eapply IH; [exact Hp2|lia].
  - assert (tb ∈ durable) as Hd.
    { apply dec_stable. intros Hn. apply Hi. unfold G. by rewrite decide_True. }
    destruct (replay_insert_taken durable G p1 t tb row tp HG Hd Hi) as [err ->]. done.
Qed.

(** What a pass has rebuilt is determined by its tables. *)
Lemma rebuilt_same durable F F' p p' n :
  rebuilt durable F p -> rebuilt durable F' p' -> p_state p' = p_state p ->
  (max_txn p < n <= U64_MAX + 1)%Z -> (max_txn p' < n)%Z -> rebuilt durable F p'.
Proof.
  intros [H1 H2 H3 H4 H5] [K1 K2 K3 K4 K5] Es Hn Hn'. split; [|by rewrite Es|done..].
  intros tb Htb. destruct (H1 tb Htb) as (c & Hc & [S1 S2 S3]). destruct (K1 tb Htb) as (c' & Hc' & [T1 T2 T3]).
  rewrite Es, Hc in Hc'. injection Hc' as <-. exists c. rewrite Es. split; [done|]. split; [done|done|].
  intros r. specialize (S3 r). specialize (T3 r). cbn in *.
  destruct (rows (t_state c) !! r) as [v|], (F (tb, r)) as [x|], (F' (tb, r)) as [x'|]; try done.
  destruct S3 as (t & -> & Ht), T3 as (t' & E & Ht'). cbn. exists t'. split; [|done].
  pose proof (f_equal decode_row E) as Ed.
  rewrite !decode_encode_row in Ed by (apply fresh_meta_ok; lia).
  by injection Ed as -> ->.
Qed.

Context (temp ids : gset Z).

(** The log up to [k], at least the synced part, replayed under its own
    outcomes. *)
Lemma crash_pass w vs ss k :
  LInv image index_image temp ids w vs ss -> synced w <= k ->
  let rs := take k (wal (logged w)) in let C := committed (ends_of rs) in
  valid w C /\
  exists p, replay_records image index_image (ends_of rs) (image_pass temp ids) rs = Ok p /\
    rebuilt (ids ∖ temp) (crash_reads (dom_of w) C vs) p /\ (max_txn p < next_txn_id (dom_of w))%Z.
Proof.
  intros Hl Hk rs C. pose proof (li_log _ _ _ _ _ _ _ Hl) as Hlog. set (n := next_txn_id (dom_of w)) in *.
  assert (Forall (record_ok n) rs /\ Forall (record_ok n) (drop k (wal (logged w)))) as [Hrs Hrest]
    by (unfold rs; apply Forall_app; by rewrite take_drop).
  destruct (ends_spec n rs Hrs) as [HC Hprep]. fold C in HC.
  pose proof (proj1 (li_sys _ _ _ _ _ _ _ Hl)) as Hinv. cbn in Hinv. pose proof (in_dom _ _ _ Hinv) as Hd.
  assert (forall t, t ∈ C -> exists i ms, wal (logged w) !! i = Some (Rec.CommitTxn t ms) /\ i < k) as Hmark.
  { intros t [[ms Hms] _]%HC. apply list_elem_of_lookup in Hms as [i Hi].
    exists i, ms. apply lookup_take_Some in Hi. done. }
  assert (valid w C) as HV.
  { split.
    - intros t Ht. apply HC. destruct (li_synced _ _ _ _ _ _ _ Hl) as [_ Hs].
      destruct (Hs t Ht) as (i & ms & Hi & Hlt). split.
      + exists ms. apply list_elem_of_lookup. exists i. apply lookup_take_Some. split; [done|lia].
      + intros Hab%elem_of_take. destruct Hab as (j & Hj & _). apply list_elem_of_lookup_2 in Hj.
        by destruct (li_abort _ _ _ _ _ _ _ Hl t Hj).
    - intros t (i & ms & Hi & _)%Hmark. destruct (li_commit _ _ _ _ _ _ _ Hl i t ms Hi) as [[?|Hst] _]; [by right|].
      left. by apply (do_staged _ Hd).
    - intros t (i & ms & Hi & _)%Hmark Hdm. destruct (li_doomed _ _ _ _ _ _ _ Hl t Hdm) as [_ Hns].
      destruct (li_commit _ _ _ _ _ _ _ Hl i t ms Hi) as [[Hak|?] _]; [|done].
      by destruct (li_acked _ _ _ _ _ _ _ Hl t Hak) as (_ & _ & ?). }
  split; [done|]. rewrite replay_only by done. fold C.
  destruct (li_run _ _ _ _ _ _ _ Hl C HV) as (pf & Ef & Hf).
  rewrite <- (take_drop k (wal (logged w))), replay_app in Ef. fold rs in Ef.
  destruct (replay_records _ _ _ _ rs) as [p1| | |] eqn:E1; try done. cbn [rbind] in Ef.
  pose proof (do_next _ Hd) as Hnx. fold (dom_of w) in Hnx. fold n in Hnx.
  destruct (replay_some _ n C rs _ _ p1 Hrs (rebuilt_image temp ids)) as [[F1 Hp1] Hm1]; [cbn; lia|done|].
  destruct (replay_some _ n C _ _ _ pf Hrest Hp1 Hm1 Ef) as [_ Hmf].
  destruct (replay_skip image index_image n C p1 _ F1 (ids ∖ temp) Hrest) as (p2 & E2 & Es & _); [|done|].
  - apply Forall_forall. intros r Hr t Hw Ht. apply list_elem_of_lookup in Hr as [j Hj]. rewrite lookup_drop in Hj.
    destruct (Hmark t Ht) as (i & ms & Hi & Hlt). destruct (li_commit _ _ _ _ _ _ _ Hl i t ms Hi) as [_ Ho].
    specialize (Ho _ _ Hj Hw). lia.
  - rewrite E2 in Ef. injection Ef as <-. exists p1. split_and!; [done| |done].
    eapply (rebuilt_same _ _ F1 p2 p1 n); [done|done|done|lia|done].
Qed.
End Crash.

(** ** The recovered engine *)

(** Its histories: one version per row. *)
Definition fresh_rows (c : Cat) (k : Key) : list UndoVersion :=
  match c_tables c !! k.1 with
  | None => []
  | Some t =>
      match rows (t_state t) !! k.2 with
      | None => []
      | Some value => match decode_row value with None => [] | Some (m, tuple) => [MkUndo m tuple] end
      end
  end.

Lemma recovered_inv durable F p next :
  rebuilt durable F p -> (max_txn p < next)%Z -> (1 <= next <= U64_MAX)%Z ->
  Inv (recovered (p_state p).1 next) (fresh_rows (p_state p).1) (fun _ => []) /\
  forall view k, k.1 ∈ durable -> (forall x, (1 <= x < next)%Z -> sees view x = true) ->
    resolve view (fresh_rows (p_state p).1 k) = F k.
Proof.
  intros Hp Hm Hn. set (c := (p_state p).1).
  assert (forall tb t, c_tables c !! tb = Some t -> tb ∈ durable /\
    table_stands (max_txn p) (fun r => F (tb, r)) (t_state t)) as Htb.
  { intros tb t Ht. assert (tb ∈ durable) as Hd by (apply (rb_dom _ _ _ Hp); eauto). split; [done|].
    destruct (rb_tables _ _ _ Hp tb Hd) as (t' & Ht' & Hs). fold c in Ht'. by rewrite Ht in Ht'; simplify_eq. }
  assert (forall k v, v ∈ fresh_rows c k -> exists t, u_meta v = fresh_meta t /\ (1 <= t < next)%Z) as Hv.
  { intros [tb r] v. unfold fresh_rows. cbn. destruct (c_tables c !! tb) as [t|] eqn:Et; [|by intros []%elem_of_nil].
    destruct (Htb tb t Et) as [_ Hs]. specialize (ts_rows _ _ _ Hs r) as Hr.
    destruct (rows (t_state t) !! r) as [value|]; [|by intros []%elem_of_nil]. destruct (F (tb, r)); [|done].
    destruct Hr as (x & -> & Hx). rewrite decode_encode_row by (apply fresh_meta_ok; lia).
    intros ->%list_elem_of_singleton. exists x. cbn. split; [done|lia]. }
  split; [split|].
  - split.
    + intros [tb r]. unfold row_at, fresh_rows. cbn. rewrite lookup_fmap. cbn.
      destruct (c_tables c !! tb) as [t|] eqn:Et; cbn; [|done].
      destruct (Htb tb t Et) as [_ Hs]. specialize (ts_rows _ _ _ Hs r) as Hr.
      destruct (rows (t_state t) !! r) as [value|]; [|done]. destruct (F (tb, r)); [|done].
      destruct Hr as (x & -> & Hx). rewrite decode_encode_row by (apply fresh_meta_ok; lia).
      eexists _, _. split_and!; [done|done|apply fresh_meta_ok; lia|constructor].
    + split; cbn; try (intros; set_solver); try constructor. unfold VEC_MAX. lia.
  - destruct domain_ok_default as [D1 D2 D3 D4 D5 D6]. split; try done.
  - split; cbn; try (intros; set_solver).
    + intros k v (t & -> & Ht)%Hv. cbn. unfold NO_XMAX. lia.
    + intros k v rest w Ek Hw. destruct (Hv k w) as (t & E & _); [rewrite Ek; set_solver|by rewrite E].
  - cbn. set_solver.
  - intros tb t. cbn. rewrite lookup_fmap_Some. intros (t' & <- & Ht'). destruct (Htb tb t' Ht') as [_ []]. done.
  - done.
  - intros view [tb r] Hd Hs. destruct (rb_tables _ _ _ Hp tb Hd) as (t & Ht & Hst). fold c in Ht.
    unfold fresh_rows. cbn. rewrite Ht. pose proof (ts_rows _ _ _ Hst r) as Hr. cbn in Hr.
    destruct (rows (t_state t) !! r) as [value|], (F (tb, r)); try done.
    destruct Hr as (x & -> & Hx). rewrite decode_encode_row by (apply fresh_meta_ok; lia).
    cbn. by rewrite Hs by lia.
Qed.
