(* ===== verification/RecoveryThm.v ===== *)
(** * What survives a crash

    The theorems of the logged engine: whatever the sessions, the purger and the
    fsync have done, and wherever the crash cuts the file past the synced bytes,
    reopening gives back exactly what the transactions with a surviving commit
    marker had written, every acknowledged one among them; and the engine that
    reopens is one every other theorem speaks of. *)

From S2P Require Import Prelude Core Codec Catalog WalRecord WalOps WalOpsFacts WalLog WalLogFacts WalThm.
From S2P Require Import Mvcc Txn Engine EngineInv EngineSys Index Sequence Replay Recovery RecoveryInv.
From S2P Require Import RecoverySys RecoveryCrash.
From stdpp Require Import base gmap list sets functions strings.
From Stdlib Require Import ZArith Lia Strings.Byte.

Import BtreeEngine.

Section Durability.
Context {L : Libs} {LOk : LibsOk L}.
Context (image : Z -> gmap Z bytes) (index_image : Z -> KeyTree.t).
Context (temp : gset Z) (wl rl : option Z) (pb : Engine -> Z) (re : Z -> Z -> Error) (ids : gset Z).

(** Replay of a prefix of the log that holds the synced records. *)
Lemma prefix_restores w k :
  lreachable temp wl rl pb re ids w -> (forall id, id ∈ ids -> u64 id) -> synced w <= k ->
  let rs := take k (wal (logged w)) in let C := committed (ends_of rs) in
  let e := l_eng (logged w) in
  exists cat q next,
    replay image index_image rs (image_cat (ids ∖ temp), seqs_default) 1 = Ok ((cat, q), next, []) /\
    acked w ⊆ C /\ C ⊆ acked w ∪ staged (txd e) /\
    (exists vs ss, SysInv (recovered cat next, []) vs ss) /\
    forall table row, table ∈ ids ∖ temp ->
      read_row (recovered cat next) (fresh_view (txd (recovered cat next)) next) (table, row) =
      read_row e (crash_view (txd e) C) (table, row).
Proof using.
  clear. intros Hr Hids Hk rs C e.
  destruct (reached image index_image temp wl rl pb re ids Hids w Hr) as (vs & ss & Hl).
  destruct (crash_pass _ _ _ _ _ _ _ _ Hl Hk) as (HV & p & Ep & Hp & Hm).
  fold rs in HV, Ep, Hp. fold C in HV, Hp.
  pose proof (proj1 (li_sys _ _ _ _ _ _ _ Hl)) as Hinv. cbn in Hinv. fold e in Hinv.
  pose proof (do_next _ (in_dom _ _ _ Hinv)) as Hn. unfold dom_of in Hm. fold e in Hm.
  set (next := Z.max 1 (max_txn p + 1)).
  assert (max_txn p < next /\ 1 <= next <= U64_MAX)%Z as [Hlt Hrange] by (unfold next; lia).
  destruct (recovered_inv _ _ _ next Hp Hlt Hrange) as [HI Hread].
  exists (p_state p).1, (p_state p).2, next. split_and!.
  - unfold replay. fold (image_pass temp ids). rewrite Ep. cbn [rbind]. unfold succ_u64.
    rewrite (proj2 (Z.ltb_lt _ _)) by lia. cbn [rbind]. rewrite (rb_waiting _ _ _ Hp). by destruct (p_state p).
  - apply HV.
  - intros t Ht. destruct (ends_spec _ rs (Forall_take _ _ _ (li_log _ _ _ _ _ _ _ Hl))) as [HC _].
    apply HC in Ht as [[ms Hms] _]. apply elem_of_take in Hms as (i & Hi & _).
    destruct (li_commit _ _ _ _ _ _ _ Hl i t ms Hi) as [[?|?] _]; set_solver.
  - exists (fresh_rows (p_state p).1), (fun _ => []). split; [done|constructor].
  - intros table row Htb. rewrite (rep_read _ _ _ _ _ (in_rep _ _ _ HI)), (rep_read _ _ _ _ _ (in_rep _ _ _ Hinv)).
    f_equal. rewrite Hread; [done|done|]. intros x Hx. unfold sees. cbn.
    rewrite (proj2 (Z.ltb_lt _ _)) by lia. apply orb_true_iff. right. cbn. apply bool_decide_eq_true. set_solver.
Qed.

Lemma record_ok_wf n r : (n <= U64_MAX)%Z -> record_ok n r -> Rec.wf r.
Proof using. clear. unfold U64_MAX. destruct r; cbn; try done; unfold u64; [intros ? [? ?]; split|]; lia. Qed.

(** What the engine has logged, as a file: the synced records flushed, the rest
    behind them. *)
Definition logged_file (w : LSys) (s : option RecordSeal) (first : Z) (flushed whole : WalWriter bytes) : Prop :=
  exists ls1 ls2 w1,
    append_all (take (synced w) (wal (logged w))) (MkWriter [] first s []) = (Ok ls1, w1) /\
    flush w1 = (Ok tt, flushed) /\
    append_all (drop (synced w) (wal (logged w))) flushed = (Ok ls2, whole).

(** The file cut at [k] reads as a prefix of the log. *)
Lemma file_prefix w s first flushed whole k :
  lreachable temp wl rl pb re ids w -> (forall id, id ∈ ids -> u64 id) ->
  wf_seal s -> u64 first -> logged_file w s first flushed whole -> length (inner flushed) <= k ->
  exists p j, recover_sealed_prefix (take k (into_inner whole)) s = Ok p /\ synced w <= j /\
    (records p).*2 = take j (wal (logged w)).
Proof using LOk.
  intros Hr Hids Hs Hf (ls1 & ls2 & w1 & H1 & H2 & H3) Hk.
  destruct (reached (fun _ => ∅) (fun _ => ∅) temp wl rl pb re ids Hids w Hr) as (vs & ss & Hl).
  pose proof (do_next _ (in_dom _ _ _ (proj1 (li_sys _ _ _ _ _ _ _ Hl)))) as Hn. cbn in Hn.
  destruct (cut_keeps_prefix s first (take (synced w) (wal (logged w))) (drop (synced w) (wal (logged w)))
    ls1 ls2 w1 flushed whole k Hs Hf) as (j & p & Hp & Hj & Hrec & _ & _); try done.
  { rewrite take_drop. eapply Forall_impl; [apply (li_log _ _ _ _ _ _ _ Hl)|].
    intros r Hrk. apply (record_ok_wf (next_txn_id (dom_of w))); [apply Hn|done]. }
  rewrite take_drop in Hrec. rewrite length_take in Hj. pose proof (proj1 (li_synced _ _ _ _ _ _ _ Hl)).
  exists p, j. split_and!; [done|lia|]. rewrite Hrec. apply snd_zip.
  rewrite length_seqZ, length_take. lia.
Qed.


(** C6: The engine that reopens is a running engine like any other: whatever
    steps its sessions and purger then take, the invariant holds that the other
    theorems about the engine rest on (rows decode, chains end, undo logs match
    the versions they undo, locks and the transaction table agree). *)
Theorem recovered_engine_runs w k w' :
  lreachable temp wl rl pb re ids w -> (forall id, id ∈ ids -> u64 id) -> synced w <= k ->
  exists cat q next,
    replay image index_image (take k (wal (logged w))) (image_cat (ids ∖ temp), seqs_default) 1 =
      Ok ((cat, q), next, []) /\
    (rtc (fun a b => exists t, step wl rl pb re a t b) (recovered cat next, []) w' ->
     exists vs ss, SysInv w' vs ss).
Proof using.
  clear LOk L. intros Hr Hids Hk. destruct (prefix_restores w k Hr Hids Hk) as (cat & q & next & H1 & _ & _ & Hi & _).
  exists cat, q, next. split; [done|]. intros Hsteps. revert Hi. generalize dependent (recovered cat next, @nil PurgeSnapshot).
  intros w0 Hsteps Hi. induction Hsteps as [|a b c [t Hst] _ IH]; [done|]. apply IH.
  destruct Hi as (vs & ss & Hi). destruct (step_inv _ _ _ _ _ _ _ _ _ Hi Hst) as (vs' & ss' & ? & _). eauto.
Qed.
End Durability.

(** ** A run

    Transaction 1 writes a row and commits; transaction 2 overwrites it and adds
    another, and the crash comes before its commit. *)

Module CrashRun.
Definition no_overhead (_ : Engine) : Z := 0.
Definition over_limit (_ _ : Z) : Error := FsyncFailed "memory".
Definition run_ids : gset Z := {[ 7%Z ]}.

Definition plain_step (a : action) (w : LSys) : LSys :=
  MkLSys (MkLogged (perform None None no_overhead over_limit a (l_eng (logged w))).2 (wal (logged w)) (disk (logged w)))
    (snaps w) (synced w) (acked w) (doomed w).

Definition write_step (a : laction) (w : LSys) : LSys :=
  let l' := (lperform ∅ None None no_overhead over_limit a (MkLogged (l_eng (logged w)) (wal (logged w)) [])).2 in
  MkLSys l' (snaps w) (synced w) (acked w)
    (if row_action a then doom (lactor a) [] (txd (l_eng l')) (doomed w) else doomed w).

Definition sync_step (n : nat) (w : LSys) : LSys := MkLSys (logged w) (snaps w) n (acked w) (doomed w).

Definition finish_step (t : Z) (w : LSys) : LSys :=
  MkLSys (MkLogged (commit_finish t (l_eng (logged w))).2 (wal (logged w)) (disk (logged w)))
    (snaps w) (synced w) (acked w ∪ {[t]}) (doomed w).

Abbreviation run_step := (lstep ∅ None None no_overhead over_limit).

Lemma plain_run a w :
  plain a = true -> enabled (l_eng (logged w)) a ->
  (perform None None no_overhead over_limit a (l_eng (logged w))).1 <> Panic -> run_step w (plain_step a w).
Proof.
  intros Hp He Hr. destruct w as [[e lw d] sn sy ak dm].
  eapply (ls_plain _ _ _ _ _ e lw d sn sy ak dm a); [done|done|apply surjective_pairing|done].
Qed.

Lemma write_run a w :
  lenabled w a [] ->
  (lperform ∅ None None no_overhead over_limit a (MkLogged (l_eng (logged w)) (wal (logged w)) [])).1 <> Panic ->
  run_step w (write_step a w).
Proof. intros He Hr. eapply ls_write; [done|apply surjective_pairing|done]. Qed.

Lemma sync_run n w : synced w <= n <= length (wal (logged w)) -> run_step w (sync_step n w).
Proof. intros Hn. destruct w as [l sn sy ak dm]. by apply ls_sync. Qed.

Definition started : LSys := MkLSys (MkLogged (initial run_ids) [] []) [] 0 ∅ ∅.
Definition first_begun : LSys := plain_step (ABegin ReadCommitted) started.
Definition first_wrote : LSys := write_step (LInsert 1 7 ["a"%byte]) first_begun.
Definition first_staged : LSys := write_step (LStage 1 1700000000000) first_wrote.
Definition first_synced : LSys := sync_step 2 first_staged.
Definition first_committed : LSys := finish_step 1 first_synced.
Definition second_begun : LSys := plain_step (ABegin ReadCommitted) first_committed.
Definition second_updated : LSys := write_step (LUpdate 2 7 (tid_of 0) ["b"%byte]) second_begun.
Definition second_inserted : LSys := write_step (LInsert 2 7 ["c"%byte]) second_updated.

Definition run_log : list Rec.WalRecord :=
  [Op.to_record (Op.Insert 1 7 0 ["a"%byte]); Rec.CommitTxn 1 1700000000000;
   Op.to_record (Op.Update 2 7 0 ["b"%byte]); Op.to_record (Op.Insert 2 7 1 ["c"%byte])].

Lemma run_logs : wal (logged second_inserted) = run_log.
Proof. vm_compute. reflexivity. Qed.

Ltac outside := apply (bool_decide_unpack _); vm_compute; exact I.

Abbreviation run_reaches := (lreachable ∅ None None no_overhead over_limit run_ids).

Lemma first_reached : run_reaches first_committed.
Proof.
  assert (run_reaches first_begun) as H1.
  { eapply lreach_step; [apply lreach_init|].
    apply (plain_run (ABegin ReadCommitted) started); [done|done|by vm_compute]. }
  assert (run_reaches first_wrote) as H2.
  { eapply lreach_step; [exact H1|]. apply write_run; [split; [outside|cbn; unfold u64; lia]|by vm_compute]. }
  assert (run_reaches first_staged) as H3.
  { eapply lreach_step; [exact H2|]. apply write_run; [|by vm_compute].
    split; [outside|split; [outside|unfold u64; lia]]. }
  assert (run_reaches first_synced) as H4.
  { eapply lreach_step; [exact H3|]. apply sync_run.
    assert (length (wal (logged first_staged)) = 2) as -> by (by vm_compute).
    assert (synced first_staged = 0) as -> by (by vm_compute). lia. }
  eapply lreach_step; [exact H4|].
  eapply (ls_finish _ _ _ _ _ (l_eng (logged first_synced)) (wal (logged first_synced)) (disk (logged first_synced))
    (snaps first_synced) 2 (acked first_synced) (doomed first_synced) 1 1); [outside|by vm_compute|lia|].
  apply surjective_pairing.
Qed.

Lemma run_reached : run_reaches second_inserted.
Proof.
  assert (run_reaches second_begun) as H1.
  { eapply lreach_step; [exact first_reached|]. apply plain_run; [done|by vm_compute|by vm_compute]. }
  assert (run_reaches second_updated) as H2.
  { eapply lreach_step; [exact H1|]. apply write_run; [split; [outside|cbn; unfold u64; lia]|by vm_compute]. }
  eapply lreach_step; [exact H2|]. apply write_run; [split; [outside|cbn; unfold u64; lia]|by vm_compute].
Qed.

(** The log as a file: the first two records flushed, the last two behind
    them; the crash cuts the last frame. *)
#[local] Existing Instance plain_libs.
Definition run_writer : WalWriter bytes := (append_all (take 2 run_log) (MkWriter [] 1 None [])).2.
Definition run_flushed : WalWriter bytes := (flush run_writer).2.
Definition run_whole : WalWriter bytes := (append_all (drop 2 run_log) run_flushed).2.

Lemma run_file : logged_file second_inserted None 1 run_flushed run_whole.
Proof.
  assert (synced second_inserted = 2) as Es by (by vm_compute).
  unfold logged_file. rewrite Es, run_logs. exists [1; 2]%Z, [3; 4]%Z, run_writer.
  split_and!; reflexivity.
Qed.
End CrashRun.

Import CrashRun.
#[local] Existing Instance plain_libs.


Lemma recovered_engine_runs_witness :
  exists cat q next,
    replay (fun _ => ∅) (fun _ => ∅) (take 3 (wal (logged second_inserted)))
      (image_cat (run_ids ∖ ∅), seqs_default) 1 = Ok ((cat, q), next, []) /\
    exists vs ss, SysInv (recovered cat next, []) vs ss.
Proof.
  destruct (prefix_restores (fun _ => ∅) (fun _ => ∅) ∅ None None no_overhead over_limit run_ids
    second_inserted 3 run_reached) as (cat & q & next & H1 & _);
    [intros id ->%elem_of_singleton; unfold u64; lia|vm_compute; lia|].
  destruct (recovered_engine_runs (fun _ => ∅) (fun _ => ∅) ∅ None None no_overhead over_limit run_ids
    second_inserted 3 (recovered cat next, [])) as (cat' & q' & next' & H2 & H3).
  - exact run_reached.
  - intros id ->%elem_of_singleton. unfold u64. lia.
  - vm_compute. lia.
  - assert (Ok (cat', q', next', @nil Recovered) = Ok (cat, q, next, [])) as E by (by rewrite <- H1, <- H2).
    injection E as -> -> ->. exists cat, q, next. split; [exact H1|]. apply H3. constructor.
Defined.
