(* ===== verification/Numeric.v ===== *)
(** * Exact decimals ([numeric.rs])

    [NUMERIC] values: a 128-bit significand and a decimal scale. Significands
    are integers kept within [i128] by the checked operations the code uses;
    the two wrapping or unchecked places ([wrapping_neg], [/] and [%]) are
    written out. The square root, which falls back to floats, is left out. *)

From S2P Require Import Prelude.
From stdpp Require Import base list.
From Stdlib Require Import ZArith Lia Strings.Byte QArith.
#[local] Open Scope Z_scope.

(** ** 128-bit integers *)

Definition I128_MIN : Z := - 2 ^ 127.
Definition I128_MAX : Z := 2 ^ 127 - 1.
Definition U128_MAX : Z := 2 ^ 128 - 1.

Definition i128 (z : Z) : Prop := I128_MIN <= z <= I128_MAX.

#[global] Instance i128_dec z : Decision (i128 z).
Proof. unfold i128. apply _. Defined.

Definition checked_i128 (z : Z) : option Z := if decide (i128 z) then Some z else None.

(** [wrapping_neg] *)
Definition wrapping_neg (z : Z) : Z := if decide (z = I128_MIN) then I128_MIN else - z.

(** [/] and [%] on [i128]: they panic on zero, and on the one quotient that
    does not fit. *)
Definition quot_i128 (a b : Z) : res Empty_set Z :=
  if decide (b = 0 \/ (a = I128_MIN /\ b = -1)) then Panic else Ok (Z.quot a b).
Definition rem_i128 (a b : Z) : res Empty_set Z :=
  if decide (b = 0 \/ (a = I128_MIN /\ b = -1)) then Panic else Ok (Z.rem a b).

(** The decimal digits of [n], most significant first; one digit for zero. *)
Fixpoint digits_from (fuel : nat) (n : Z) (acc : list Z) : list Z :=
  match fuel with
  | O => acc
  | S fuel => if n <? 10 then n :: acc else digits_from fuel (n / 10) (n mod 10 :: acc)
  end.

(** A number has no more decimal digits than binary ones. *)
Definition digits_of (n : Z) : list Z := digits_from (S (Z.to_nat (Z.log2 n))) n [].

Definition ilog10 (n : Z) : Z := Z.of_nat (length (digits_of n)) - 1.

Definition ascii_digit (d : Z) : byte := z2b (48 + d).

(** [u128::to_string] *)
Definition to_string (n : Z) : bytes := ascii_digit <$> digits_of n.

(** ** Decimals *)

Definition MIN_SIG_DIGITS : Z := 16.
Definition DEC_DIGITS : Z := 4.
Definition MAX_SCALE : Z := 38.
Definition NAN_SCALE : Z := 255.

Record Decimal := MkDec { mantissa : Z; scale : Z }.

#[global] Instance Decimal_eq_dec : EqDecision Decimal.
Proof. solve_decision. Defined.

Definition pow10 (exp : Z) : option Z := checked_i128 (10 ^ exp).

Definition ZERO : Decimal := MkDec 0 0.
Definition from_i64 (value : Z) : Decimal := MkDec value 0.
Definition from_i128 (value : Z) : Decimal := MkDec value 0.
Definition nan : Decimal := MkDec 0 NAN_SCALE.

Definition is_nan (d : Decimal) : bool := scale d =? NAN_SCALE.
Definition is_zero (d : Decimal) : bool := (mantissa d =? 0) && negb (is_nan d).

Definition neg (d : Decimal) : Decimal := MkDec (wrapping_neg (mantissa d)) (scale d).

Definition rescale (d : Decimal) (target : Z) : option Decimal :=
  if is_nan d then Some nan
  else
    match target ?= scale d with
    | Eq => Some d
    | Gt =>
        factor ← pow10 (target - scale d);
        m ← checked_i128 (mantissa d * factor);
        Some (MkDec m target)
    | Lt =>
        factor ← pow10 (scale d - target);
        let q := Z.quot (mantissa d) factor in
        let r := Z.rem (mantissa d) factor in
        Some (MkDec (if Z.abs factor <=? Z.abs r * 2 then q + Z.sgn (mantissa d) else q) target)
    end.

Definition compare (a b : Decimal) : comparison :=
  match is_nan a, is_nan b with
  | true, true => Eq
  | true, false => Gt
  | false, true => Lt
  | false, false =>
      let s := Z.max (scale a) (scale b) in
      match rescale a s, rescale b s with
      | Some x, Some y => mantissa x ?= mantissa y
      | _, _ => mantissa a ?= mantissa b
      end
  end.

Definition checked_add (a b : Decimal) : option Decimal :=
  if is_nan a || is_nan b then Some nan
  else
    let s := Z.max (scale a) (scale b) in
    x ← rescale a s;
    y ← rescale b s;
    m ← checked_i128 (mantissa x + mantissa y);
    Some (MkDec m s).

Definition checked_sub (a b : Decimal) : option Decimal := checked_add a (neg b).

Definition checked_mul (a b : Decimal) : option Decimal :=
  if is_nan a || is_nan b then Some nan
  else if decide (scale a + scale b <= 255) then
    let s := scale a + scale b in
    product ← checked_i128 (mantissa a * mantissa b);
    if MAX_SCALE <? s then rescale (MkDec product s) MAX_SCALE
    else Some (MkDec product s)
  else None.

(** The base-10000 weight and leading base-10000 digit. [10u128.pow] and the
    products panic on overflow. *)
Definition weight_and_first_digit (d : Decimal) : res Empty_set (Z * Z) :=
  if mantissa d =? 0 then Ok (0, 0)
  else
    let abs := Z.abs (mantissa d) in
    let ndigits := ilog10 abs + 1 in
    let decimal_weight := ndigits - 1 - scale d in
    let weight := decimal_weight / DEC_DIGITS in
    let k := scale d + DEC_DIGITS * weight in
    let? first :=
      if 0 <=? k then if decide (10 ^ k <= U128_MAX) then Ok (abs / 10 ^ k) else Panic
      else if decide (10 ^ (- k) <= U128_MAX /\ (abs * 10 ^ (- k) <= U128_MAX)%Z) then Ok (abs * 10 ^ (- k))
      else Panic in
    Ok (weight, if decide (first < 2 ^ 32) then first else 0).

Definition div_result_scale (dividend divisor : Decimal) : res Empty_set Z :=
  let? '(weight1, first1) := weight_and_first_digit dividend in
  let? '(weight2, first2) := weight_and_first_digit divisor in
  let qweight := weight1 - weight2 - (if first1 <=? first2 then 1 else 0) in
  Ok (Z.min (Z.max (Z.max (Z.max (MIN_SIG_DIGITS - qweight * DEC_DIGITS) (scale dividend)) (scale divisor)) 0)
        MAX_SCALE).

(** The two sides of the division, aligned to the result's scale. *)
Definition align_div (a b : Decimal) (exp : Z) : option (Z * Z) :=
  if 0 <=? exp then
    p ← pow10 exp; num ← checked_i128 (mantissa a * p); Some (num, mantissa b)
  else
    p ← pow10 (- exp); den ← checked_i128 (mantissa b * p); Some (mantissa a, den).

Definition checked_div (a b : Decimal) : res Empty_set (option Decimal) :=
  if is_nan a || is_nan b then Ok (Some nan)
  else if mantissa b =? 0 then Ok None
  else
    let? result_scale := div_result_scale a b in
    let exp := result_scale + scale b - scale a in
    match align_div a b exp with
    | None => Ok None
    | Some (num, den) =>
        let? q := quot_i128 num den in
        let? r := rem_i128 num den in
        Ok (Some (MkDec (if Z.abs den <=? Z.abs r * 2 then q + Z.sgn num * Z.sgn den else q) result_scale))
    end.

Definition checked_rem (a b : Decimal) : res Empty_set (option Decimal) :=
  if is_nan a || is_nan b then Ok (Some nan)
  else if mantissa b =? 0 then Ok None
  else
    let s := Z.max (scale a) (scale b) in
    match rescale a s, rescale b s with
    | Some x, Some y =>
        let? m := rem_i128 (mantissa x) (mantissa y) in Ok (Some (MkDec m s))
    | _, _ => Ok None
    end.

Definition to_i64 (d : Decimal) : option Z :=
  factor ← pow10 (scale d);
  let q := Z.quot (mantissa d) factor in
  if decide (- 2 ^ 63 <= q < 2 ^ 63) then Some q else None.

Definition to_i64_rounded (d : Decimal) : option Z := x ← rescale d 0; to_i64 x.

Definition required_precision (d : Decimal) : Z :=
  if is_nan d then 0
  else
    let factor := if decide (10 ^ scale d <= U128_MAX) then 10 ^ scale d else U128_MAX in
    let int_part := Z.abs (mantissa d) / factor in
    (if int_part =? 0 then 0 else ilog10 int_part + 1) + scale d.

(** The loop that drops trailing zeros, on the scale it counts down. *)
Fixpoint trim_loop (s : nat) (m : Z) : Z * nat :=
  match s with
  | O => (m, O)
  | S s' => if Z.rem m 10 =? 0 then trim_loop s' (Z.quot m 10) else (m, s)
  end.

Definition min_scale (d : Decimal) : Z :=
  if is_nan d then 0 else Z.of_nat (trim_loop (Z.to_nat (scale d)) (mantissa d)).2.

Definition trim_scale (d : Decimal) : Decimal :=
  if is_nan d then nan
  else let '(m, s) := trim_loop (Z.to_nat (scale d)) (mantissa d) in MkDec m (Z.of_nat s).

(** ** Text *)

Definition byte_in (lo hi : Z) (b : byte) : bool := (lo <=? b2z b) && (b2z b <=? hi).
Definition is_digit : byte -> bool := byte_in 48 57.
Definition digit_val (b : byte) : Z := b2z b - 48.

(** The UTF-8 forms of the characters with the [White_Space] property, which
    [str::trim] strips. *)
Definition whitespace : list bytes :=
  (fun z => [z2b z]) <$> [9; 10; 11; 12; 13; 32].

Definition whitespace_wide : list bytes :=
  [[z2b 194; z2b 133]; [z2b 194; z2b 160]; [z2b 225; z2b 154; z2b 128]; [z2b 226; z2b 129; z2b 159];
   [z2b 227; z2b 128; z2b 128]] ++
  ((fun z => [z2b 226; z2b 128; z2b z]) <$> [128; 129; 130; 131; 132; 133; 134; 135; 136; 137; 138; 168; 169; 175]).

Fixpoint strip_prefix (p s : bytes) : option bytes :=
  match p, s with
  | [], _ => Some s
  | a :: p, b :: s => if decide (a = b) then strip_prefix p s else None
  | _ :: _, [] => None
  end.

Fixpoint first_stripped (ps : list bytes) (s : bytes) : option bytes :=
  match ps with
  | [] => None
  | p :: ps => match strip_prefix p s with Some r => Some r | None => first_stripped ps s end
  end.

Fixpoint trim_by (ps : list bytes) (fuel : nat) (s : bytes) : bytes :=
  match fuel with
  | O => s
  | S fuel => match first_stripped ps s with Some r => trim_by ps fuel r | None => s end
  end.

(** Each round strips at least one byte, so the length is fuel enough. *)
Definition trim (s : bytes) : bytes :=
  let ws := whitespace ++ whitespace_wide in
  let s := trim_by ws (length s) s in
  reverse (trim_by (reverse <$> ws) (length s) (reverse s)).

Definition to_lower (b : byte) : byte := if byte_in 65 90 b then z2b (b2z b + 32) else b.

(** [split_once('.')] *)
Fixpoint split_dot (s : bytes) : option (bytes * bytes) :=
  match s with
  | [] => None
  | b :: s => if b2z b =? 46 then Some ([], s) else '(i, f) ← split_dot s; Some (b :: i, f)
  end.

(** [i128::from_str] on digits only. *)
Definition parse_digits (s : bytes) : option Z :=
  checked_i128 (foldl (fun n b => n * 10 + digit_val b) 0 s).

Definition parse_body (negative : bool) (body : bytes) : option Decimal :=
  match body with
  | [] => None
  | _ =>
      let '(int_part, frac_part) := default (body, []) (split_dot body) in
      if MAX_SCALE <? Z.of_nat (length frac_part) then None
      else
        let digits := int_part ++ frac_part in
        if decide (digits = []) then None
        else if negb (forallb is_digit digits) then None
        else
          m ← parse_digits digits;
          Some (MkDec (if negative then - m else m) (Z.of_nat (length frac_part)))
  end.

Definition parse (s : bytes) : option Decimal :=
  let s := trim s in
  if decide (to_lower <$> s = z2b <$> [110; 97; 110]) then Some nan
  else
    match s with
    | [] => None
    | b :: rest =>
        if b2z b =? 45 then parse_body true rest
        else if b2z b =? 43 then parse_body false rest
        else parse_body false s
    end.

(** [i128::to_string] *)
Definition to_string_signed (n : Z) : bytes :=
  (if n <? 0 then [z2b 45] else []) ++ to_string (Z.abs n).

Definition format (d : Decimal) : bytes :=
  if is_nan d then z2b <$> [78; 97; 78]
  else if scale d =? 0 then to_string_signed (mantissa d)
  else
    let digits := to_string (Z.abs (mantissa d)) in
    let s := Z.to_nat (scale d) in
    let sign := if mantissa d <? 0 then [z2b 45] else [] in
    if decide (s < length digits)%nat then
      let point := (length digits - s)%nat in
      sign ++ take point digits ++ [z2b 46] ++ drop point digits
    else sign ++ [z2b 48; z2b 46] ++ replicate (s - length digits)%nat (z2b 48) ++ digits.
