(* ===== verification/NumericFacts.v ===== *)
(** * Facts about exact decimals: digits, text and alignment. *)

From S2P Require Import Prelude Numeric.
From stdpp Require Import base list.
From Stdlib Require Import ZArith Lia Strings.Byte QArith Qabs.
#[local] Open Scope Z_scope.

(** ** Digits *)

Definition digit (d : Z) : Prop := 0 <= d <= 9.

Definition val_from (n : Z) (ds : list Z) : Z := foldl (fun n d => n * 10 + d) n ds.

Lemma val_from_app n a b : val_from n (a ++ b) = val_from (val_from n a) b.
Proof. apply foldl_app. Qed.

Lemma val_from_shift n ds : val_from n ds = n * 10 ^ Z.of_nat (length ds) + val_from 0 ds.
Proof.
  revert n. induction ds as [|d ds IH] using rev_ind; intros n; [cbn; lia|].
  rewrite !val_from_app. cbn. rewrite (IH n), length_app. cbn [length].
  rewrite Nat2Z.inj_add, Z.pow_add_r by lia. cbn [Z.of_nat Z.pow Z.pow_pos Pos.iter]. lia.
Qed.

Lemma val_from_bound ds : Forall digit ds -> 0 <= val_from 0 ds < 10 ^ Z.of_nat (length ds).
Proof.
  induction ds as [|d ds IH] using rev_ind; intros H; [cbn; lia|].
  apply Forall_app in H as [H1 H2]. apply Forall_inv in H2. unfold digit in H2. specialize (IH H1).
  rewrite val_from_app, length_app, Nat2Z.inj_add, Z.pow_add_r by lia.
  change (10 ^ Z.of_nat (length [d])) with 10. change (val_from ?n [d]) with (n * 10 + d). lia.
Qed.

(** Most significant digit first, with no zero in front. *)
Record digits_spec (n : Z) (ds : list Z) : Prop := {
  dg_digits : Forall digit ds;
  dg_val : val_from 0 ds = n;
  dg_least : 0 < n -> 10 ^ (Z.of_nat (length ds) - 1) <= n;
  dg_some : (1 <= length ds)%nat }.

Lemma digits_from_spec fuel n acc :
  0 <= n < 10 ^ Z.of_nat fuel -> (1 <= fuel)%nat ->
  exists ds, digits_from fuel n acc = ds ++ acc /\ digits_spec n ds.
Proof.
  revert n acc. induction fuel as [|fuel IH]; intros n acc Hn Hf; [lia|]. cbn [digits_from].
  destruct (Z.ltb_spec n 10).
  - exists [n]. split; [done|]. split; cbn; [apply Forall_singleton; unfold digit; lia|lia|lia|lia].
  - destruct fuel as [|fuel]; [cbn in Hn; lia|].
    rewrite Nat2Z.inj_succ, Z.pow_succ_r in Hn by lia.
    destruct (IH (n / 10) (n mod 10 :: acc)) as (ds & -> & [D1 D2 D3 D4]).
    { split; [apply Z.div_pos; lia|]. apply Z.div_lt_upper_bound; lia. }
    { lia. }
    pose proof (Z.mod_pos_bound n 10 ltac:(lia)) as Hm.
    exists (ds ++ [n mod 10]). split; [by rewrite <- app_assoc|]. split.
    + apply Forall_app. split; [done|]. apply Forall_singleton. unfold digit. lia.
    + rewrite val_from_app, D2. cbn. pose proof (Z.div_mod n 10). lia.
    + intros _. rewrite length_app. cbn. specialize (D3 ltac:(apply Z.div_str_pos; lia)).
      replace (Z.of_nat (length ds + 1) - 1) with (Z.succ (Z.of_nat (length ds) - 1)) by lia.
      rewrite Z.pow_succ_r by lia. pose proof (Z.mul_div_le n 10). lia.
    + rewrite length_app. cbn. lia.
Qed.

Lemma digits_of_spec n : 0 <= n -> digits_spec n (digits_of n).
Proof.
  intros Hn. unfold digits_of.
  destruct (digits_from_spec (S (Z.to_nat (Z.log2 n))) n []) as (ds & -> & Hs); [|lia|by rewrite app_nil_r].
  split; [done|]. rewrite Nat2Z.inj_succ, Z2Nat.id by apply Z.log2_nonneg.
  destruct (Z.eq_dec n 0) as [->|]; [done|].
  eapply Z.lt_le_trans; [apply Z.log2_spec; lia|]. apply Z.pow_le_mono_l. lia.
Qed.

(** How many digits a number has. *)
Lemma digits_length n k : 0 <= n < 10 ^ Z.of_nat k -> (1 <= k)%nat -> (length (digits_of n) <= k)%nat.
Proof.
  intros Hn Hk. destruct (digits_of_spec n) as [D1 D2 D3 D4]; [lia|].
  destruct (Z.eq_dec n 0) as [->|]; [done|].
  assert (10 ^ (Z.of_nat (length (digits_of n)) - 1) < 10 ^ Z.of_nat k) as Hlt by lia.
  apply Z.pow_lt_mono_r_iff in Hlt; lia.
Qed.

Lemma ilog10_spec n : 0 < n -> 10 ^ ilog10 n <= n < 10 ^ (ilog10 n + 1) /\ 0 <= ilog10 n.
Proof.
  intros Hn. destruct (digits_of_spec n) as [D1 D2 D3 D4]; [lia|]. unfold ilog10.
  pose proof (val_from_bound _ D1) as Hb. rewrite D2 in Hb.
  replace (Z.of_nat (length (digits_of n)) - 1 + 1) with (Z.of_nat (length (digits_of n))) by lia.
  specialize (D3 Hn). lia.
Qed.

(** ** Text *)

Lemma ascii_digit_val d : digit d -> b2z (ascii_digit d) = 48 + d.
Proof. unfold digit, ascii_digit. intros H. rewrite b2z_z2b, Z.mod_small; lia. Qed.

(** The bytes a formatted number is made of. *)
Definition plain_byte (b : byte) : Prop := 45 <= b2z b <= 57.

Lemma plain_digit d : digit d -> plain_byte (ascii_digit d).
Proof. intros H. unfold plain_byte. rewrite ascii_digit_val by done. unfold digit in H. lia. Qed.

Lemma to_string_digits n : 0 <= n -> exists ds, to_string n = ascii_digit <$> ds /\ digits_spec n ds.
Proof. intros H. eexists. split; [done|]. by apply digits_of_spec. Qed.

Lemma first_stripped_plain ps s :
  forallb (fun p => match p with a :: _ => negb (byte_in 45 57 a) | [] => false end) ps = true ->
  Forall plain_byte s -> first_stripped ps s = None.
Proof.
  intros Hps Hs. induction ps as [|p ps IH]; [done|]. cbn in Hps. apply andb_prop in Hps as [Hp Hps].
  cbn. destruct p as [|a p]; [done|]. destruct s as [|b s]; cbn; [by apply IH|].
  rewrite decide_False; [by apply IH|]. intros ->. apply Forall_inv in Hs. unfold plain_byte in Hs.
  unfold byte_in in Hp. lia.
Qed.

Lemma trim_by_plain ps fuel s :
  forallb (fun p => match p with a :: _ => negb (byte_in 45 57 a) | [] => false end) ps = true ->
  Forall plain_byte s -> trim_by ps fuel s = s.
Proof. intros Hps Hs. destruct fuel; [done|]. cbn. by rewrite first_stripped_plain. Qed.

Lemma trim_plain s : Forall plain_byte s -> trim s = s.
Proof.
  intros Hs. unfold trim. rewrite (trim_by_plain (whitespace ++ whitespace_wide) _ s) by (done || by vm_compute).
  rewrite trim_by_plain; [apply reverse_involutive|by vm_compute|by apply Forall_reverse].
Qed.

Lemma forallb_digits ds : Forall digit ds -> forallb is_digit (ascii_digit <$> ds) = true.
Proof.
  induction 1 as [|d ds Hd _ IH]; [done|]. cbn. rewrite IH. unfold is_digit, byte_in.
  rewrite ascii_digit_val by done. unfold digit in Hd. lia.
Qed.

Lemma fold_digits ds n :
  Forall digit ds -> foldl (fun n b => n * 10 + digit_val b) n (ascii_digit <$> ds) = val_from n ds.
Proof.
  intros H. revert n. induction H as [|d ds Hd _ IH]; intros n; [done|]. cbn. rewrite IH.
  unfold digit_val. rewrite ascii_digit_val by done. f_equal. lia.
Qed.

Lemma parse_digits_val ds : Forall digit ds -> parse_digits (ascii_digit <$> ds) = checked_i128 (val_from 0 ds).
Proof. intros H. unfold parse_digits. by rewrite fold_digits. Qed.

Lemma split_dot_digits ds : Forall digit ds -> split_dot (ascii_digit <$> ds) = None.
Proof.
  induction 1 as [|d ds Hd _ IH]; [done|]. cbn. rewrite ascii_digit_val, IH by done.
  rewrite (proj2 (Z.eqb_neq _ _)); [done|]. unfold digit in Hd. lia.
Qed.

Lemma split_dot_at ds f : Forall digit ds -> split_dot ((ascii_digit <$> ds) ++ z2b 46 :: f) = Some (ascii_digit <$> ds, f).
Proof.
  induction 1 as [|d ds Hd _ IH]; [done|]. cbn. rewrite ascii_digit_val, IH by done.
  rewrite (proj2 (Z.eqb_neq _ _)); [done|]. unfold digit in Hd. lia.
Qed.

(** What the body of a formatted number parses to. *)
Definition signed (negative : bool) (n : nat) (m : Z) : option Decimal :=
  Some (MkDec (if negative then - m else m) (Z.of_nat n)).

Lemma parse_body_parts negative body ds fs :
  body <> [] -> default (body, []) (split_dot body) = (ascii_digit <$> ds, ascii_digit <$> fs) ->
  Forall digit ds -> Forall digit fs -> ds <> [] -> (length fs <= 38)%nat ->
  parse_body negative body = checked_i128 (val_from 0 (ds ++ fs)) ≫= signed negative (length fs).
Proof.
  intros Hb Hsp Hd Hf Hne Hl. unfold parse_body. destruct body as [|b body]; [done|]. rewrite Hsp.
  rewrite <- fmap_app, length_fmap. rewrite (proj2 (Z.ltb_ge _ _)) by (unfold MAX_SCALE; lia).
  assert (Forall digit (ds ++ fs)) by (by apply Forall_app).
  rewrite decide_False by (destruct ds; done). rewrite forallb_digits by done. cbn [negb].
  by rewrite parse_digits_val.
Qed.

(** The sign in front. *)
Lemma parse_signed (negative : bool) d ds s :
  digit d -> s = (ascii_digit d :: ds) -> Forall plain_byte s ->
  parse ((if negative then [z2b 45] else []) ++ s) = parse_body negative s.
Proof.
  intros Hd -> Hp. unfold parse. rewrite trim_plain.
  2: { apply Forall_app. split; [|done]. destruct negative; [|constructor].
       apply Forall_singleton. by vm_compute. }
  assert (b2z (to_lower (ascii_digit d)) = 48 + d) as Hl.
  { unfold to_lower, byte_in. rewrite ascii_digit_val by done. unfold digit in Hd.
    rewrite (proj2 (Z.leb_gt _ _)) by lia. by apply ascii_digit_val. }
  rewrite decide_False.
  2: { destruct negative; cbn; [by intros [=]|]. intros [= E _]. apply (f_equal b2z) in E. rewrite Hl in E.
       change (b2z (z2b 110)) with 110 in E. unfold digit in Hd. lia. }
  destruct negative; cbn [app].
  - by change (b2z (z2b 45)) with 45.
  - rewrite ascii_digit_val by done. unfold digit in Hd.
    rewrite !(proj2 (Z.eqb_neq _ _)) by lia. done.
Qed.

(** ** Formatted numbers *)

Definition wf_decimal (d : Decimal) : Prop := i128 (mantissa d) /\ 0 <= scale d <= MAX_SCALE.

Lemma wf_not_nan d : wf_decimal d -> is_nan d = false.
Proof. intros [_ H]. unfold is_nan, MAX_SCALE, NAN_SCALE in *. lia. Qed.

Lemma val_from_zeros k ds : val_from 0 (replicate k 0 ++ ds) = val_from 0 ds.
Proof. induction k as [|k IH]; [done|]. exact IH. Qed.

Lemma zeros_digits k : Forall digit (replicate k 0).
Proof. apply Forall_replicate. unfold digit. lia. Qed.

Lemma plain_digits ds : Forall digit ds -> Forall plain_byte (ascii_digit <$> ds).
Proof. intros H. apply Forall_fmap. eapply Forall_impl; [exact H|]. exact plain_digit. Qed.

(** A sign, an integer part and a fraction. *)
Definition spelled (negative : bool) (ds fs : list Z) : bytes :=
  (if negative then [z2b 45] else []) ++ (ascii_digit <$> ds) ++
  (if decide (fs = []) then [] else z2b 46 :: (ascii_digit <$> fs)).

Lemma parse_spelled negative ds fs :
  Forall digit ds -> Forall digit fs -> ds <> [] -> (length fs <= 38)%nat ->
  parse (spelled negative ds fs) = checked_i128 (val_from 0 (ds ++ fs)) ≫= signed negative (length fs).
Proof.
  intros Hd Hf Hne Hl. unfold spelled. set (tail := if decide (fs = []) then _ else _).
  destruct ds as [|d ds]; [done|].
  rewrite (parse_signed negative d ((ascii_digit <$> ds) ++ tail)); [|by apply Forall_inv in Hd|done|].
  - apply parse_body_parts; try done. unfold tail. case_decide as Hfs.
    + subst fs. by rewrite app_nil_r, split_dot_digits.
    + by rewrite split_dot_at.
  - apply Forall_app. split; [by apply plain_digits|]. unfold tail. case_decide; [constructor|].
    constructor; [by vm_compute|by apply plain_digits].
Qed.

(** A formatted number is such a spelling of its significand. *)
Lemma format_spelled d :
  wf_decimal d ->
  exists ds fs, format d = spelled (mantissa d <? 0) ds fs /\ Forall digit ds /\ Forall digit fs /\ ds <> [] /\
    Z.of_nat (length fs) = scale d /\ val_from 0 (ds ++ fs) = Z.abs (mantissa d).
Proof.
  intros Hwf. pose proof Hwf as [_ Hs]. unfold format. rewrite wf_not_nan by done.
  destruct (to_string_digits (Z.abs (mantissa d))) as (ds & E & [D1 D2 _ D4]); [lia|].
  assert (ds <> []) as Hne by (intros ->; cbn in D4; lia).
  destruct (Z.eqb_spec (scale d) 0) as [E0|E0].
  - exists ds, []. split_and!; try done; [|by rewrite app_nil_r].
    unfold to_string_signed, spelled. rewrite E, decide_True by done. by rewrite app_nil_r.
  - rewrite E, length_fmap. case_decide as Hlen.
    + set (n := (length ds - Z.to_nat (scale d))%nat). exists (take n ds), (drop n ds).
      assert (length (drop n ds) = Z.to_nat (scale d)) as Hd by (rewrite length_drop; unfold n; lia).
      split_and!; [|by apply Forall_take|by apply Forall_drop| |lia|by rewrite take_drop].
      * unfold spelled. rewrite decide_False by (intros Hx; rewrite Hx in Hd; cbn in Hd; lia).
        by rewrite fmap_take, fmap_drop.
      * intros Hx. apply (f_equal length) in Hx. rewrite length_take in Hx. unfold n in Hx. cbn in Hx. lia.
    + set (k := (Z.to_nat (scale d) - length ds)%nat). exists [0], (replicate k 0 ++ ds).
      split_and!; try done.
      * unfold spelled. rewrite decide_False by (destruct k, ds; done).
        rewrite fmap_app, fmap_replicate. done.
      * apply Forall_singleton. unfold digit. lia.
      * apply Forall_app. split; [apply zeros_digits|done].
      * rewrite length_app, length_replicate. unfold k. lia.
      * change ([0] ++ replicate k 0 ++ ds) with (replicate (S k) 0 ++ ds). by rewrite val_from_zeros.
Qed.
