(* ===== verification/NumericThm.v ===== *)
(** * What decimal arithmetic promises

    Text round trips, exactness of addition, subtraction and multiplication,
    the rounding of division, and comparison by value; with the corners where
    the code departs from its own promise. *)

From S2P Require Import Prelude Numeric NumericFacts.
From stdpp Require Import base list.
From Stdlib Require Import ZArith Lia Strings.Byte QArith Qabs.
#[local] Open Scope Z_scope.

(** The number a decimal denotes. *)
Definition value (d : Decimal) : Q := mantissa d # Z.to_pos (10 ^ scale d).

Lemma pow10_pos n : 0 <= n -> 0 < 10 ^ n.
Proof. intros. apply Z.pow_pos_nonneg; lia. Qed.

Lemma value_eq d e :
  0 <= scale d -> 0 <= scale e ->
  (value d == value e)%Q <-> mantissa d * 10 ^ scale e = mantissa e * 10 ^ scale d.
Proof.
  intros Hd He. unfold value, Qeq. cbn. by rewrite !Z2Pos.id by (by apply pow10_pos).
Qed.

Lemma checked_some z x : checked_i128 z = Some x -> x = z /\ i128 z.
Proof. unfold checked_i128. case_decide; [|done]. by intros [= <-]. Qed.

Lemma pow10_i128 e : 0 <= e <= 38 -> i128 (10 ^ e).
Proof.
  intros He. pose proof (pow10_pos e ltac:(lia)). pose proof (Z.pow_le_mono_r 10 e 38 ltac:(lia) ltac:(lia)).
  assert (10 ^ 38 <= I128_MAX /\ I128_MIN <= 0) by (by vm_compute). unfold i128. lia.
Qed.

(** ** Alignment *)

Lemma rescale_up d t :
  wf_decimal d -> scale d <= t ->
  rescale d t = if decide (i128 (10 ^ (t - scale d)) /\ i128 (mantissa d * 10 ^ (t - scale d)))
                then Some (MkDec (mantissa d * 10 ^ (t - scale d)) t) else None.
Proof.
  intros Hwf Hle. unfold rescale. rewrite wf_not_nan by done.
  destruct (Z.compare_spec t (scale d)) as [E|E|E]; [|lia|].
  - subst t. rewrite Z.sub_diag, Z.pow_0_r, Z.mul_1_r, decide_True.
    + by destruct d.
    + split; [by vm_compute|apply Hwf].
  - unfold pow10, checked_i128. case_decide as H1; cbn [mbind option_bind].
    + case_decide as H2; cbn [mbind option_bind]; [by rewrite decide_True|by rewrite decide_False by tauto].
    + by rewrite decide_False by tauto.
Qed.

Lemma value_up m s t : 0 <= s <= t -> (value (MkDec (m * 10 ^ (t - s)) t) == value (MkDec m s))%Q.
Proof.
  intros H. apply value_eq; cbn; [lia..|]. rewrite <- Z.mul_assoc, <- Z.pow_add_r by lia.
  do 2 f_equal. lia.
Qed.

(** Two values at the larger scale. *)
Definition aligned (d : Decimal) (s : Z) : Z := mantissa d * 10 ^ (s - scale d).

Lemma value_aligned d s : 0 <= scale d <= s -> (value d == value (MkDec (aligned d s) s))%Q.
Proof. intros H. destruct d as [m sc]. symmetry. by apply value_up. Qed.

Lemma value_add m n s : (value (MkDec (m + n) s) == value (MkDec m s) + value (MkDec n s))%Q.
Proof. unfold value. cbn. unfold Qeq, Qplus. cbn. rewrite Pos2Z.inj_mul. ring. Qed.

(** Adding: exact or refused, and refused only when an aligned operand or the
    sum does not fit. *)
Lemma add_exact a b :
  wf_decimal a -> wf_decimal b ->
  let s := Z.max (scale a) (scale b) in
  match checked_add a b with
  | Some c => (value c == value a + value b)%Q /\ scale c = s /\ wf_decimal c
  | None => ~ (i128 (aligned a s) /\ i128 (aligned b s) /\ i128 (aligned a s + aligned b s))
  end.
Proof.
  intros Ha Hb s. unfold checked_add. rewrite !wf_not_nan by done. cbn [orb]. fold s.
  rewrite (rescale_up a), (rescale_up b) by (done || lia). fold (aligned a s) (aligned b s).
  assert (i128 (10 ^ (s - scale a)) /\ i128 (10 ^ (s - scale b))) as [Hpa Hpb].
  { destruct Ha as [_ Ha], Hb as [_ Hb]. unfold MAX_SCALE in *. split; apply pow10_i128; lia. }
  destruct (decide (i128 (10 ^ (s - scale a)) /\ _)) as [H1|H1]; cbn [mbind option_bind]; [|tauto].
  destruct (decide (i128 (10 ^ (s - scale b)) /\ _)) as [H2|H2]; cbn [mbind option_bind]; [|tauto]. cbn [mantissa].
  unfold checked_i128. case_decide as H3; cbn [mbind option_bind]; [|tauto].
  split_and!; [|done|split; [done|cbn; destruct Ha, Hb; lia]].
  rewrite value_add, <- !value_aligned by (destruct Ha, Hb; lia). reflexivity.
Qed.

Lemma neg_value b : wf_decimal b -> mantissa b <> I128_MIN -> wf_decimal (neg b) /\ (value (neg b) == - value b)%Q.
Proof.
  intros [Hm Hs] Hne. unfold neg, wrapping_neg. rewrite decide_False by done. split.
  - split; cbn; [|done]. unfold i128, I128_MIN, I128_MAX in *. lia.
  - unfold value, Qeq. cbn. lia.
Qed.

(** ** Rounding half away from zero *)

Lemma round_half_away num den m :
  den <> 0 ->
  m = (if Z.abs den <=? Z.abs (Z.rem num den) * 2 then Z.quot num den + Z.sgn num * Z.sgn den else Z.quot num den) ->
  2 * Z.abs (m * den - num) <= Z.abs den /\
  (2 * Z.abs (m * den - num) = Z.abs den -> Z.abs num <= Z.abs (m * den)).
Proof.
  intros Hd ->. pose proof (Z.quot_rem' num den) as E. pose proof (Z.rem_bound_abs num den Hd) as Hb.
  set (q := Z.quot num den) in *. set (r := Z.rem num den) in *.
  assert (0 <= r * num) as Hsg by (apply Z.rem_sign_mul; done).
  destruct (Z.leb_spec (Z.abs den) (Z.abs r * 2)) as [Hh|Hh].
  - assert (Z.sgn den * den = Z.abs den) as Ea by (destruct den; cbn; lia).
    rewrite Z.mul_add_distr_r, <- Z.mul_assoc, Ea, (Z.mul_comm q den).
    assert (r = Z.sgn num * Z.abs r) as Hr.
    { destruct (Z.sgn_spec num) as [[Hn ->]|[[Hn ->]|[Hn ->]]]; [nia| |nia].
      unfold r. rewrite <- Hn. by rewrite Z.rem_0_l. }
    destruct (Z.sgn_spec num) as [[? Es]|[[? Es]|[? Es]]]; rewrite Es in *; lia.
  - rewrite (Z.mul_comm q den). lia.
Qed.

(** A rounded significand is within half a unit in the last place. *)
Lemma value_near c x num den :
  0 <= scale c -> den <> 0 ->
  (x * inject_Z den * inject_Z (10 ^ scale c) == inject_Z num)%Q ->
  2 * Z.abs (mantissa c * den - num) <= Z.abs den ->
  (Qabs (value c - x) <= 1 # Z.to_pos (2 * 10 ^ scale c))%Q.
Proof.
  intros Hs Hd Hx Hr. set (P := 10 ^ scale c) in *. assert (0 < P) as HP by (by apply pow10_pos).
  assert ((value c - x) * inject_Z (den * P) == inject_Z (mantissa c * den - num))%Q as E.
  { assert (value c * inject_Z P == inject_Z (mantissa c))%Q as Ev.
    { unfold value, inject_Z, Qmult, Qeq. cbn [Qnum Qden]. fold P. rewrite Pos.mul_1_r, Z2Pos.id by done. lia. }
    unfold Z.sub. rewrite inject_Z_plus, inject_Z_opp, <- Hx, !inject_Z_mult, <- Ev. ring. }
  apply (Qmult_le_r _ _ (inject_Z (Z.abs den * (2 * P)))); [unfold Qlt; cbn; nia|].
  assert (Qabs (value c - x) * inject_Z (Z.abs den * (2 * P)) ==
          inject_Z (2 * Z.abs (mantissa c * den - num)))%Q as ->.
  { assert (inject_Z (Z.abs den * (2 * P)) == inject_Z 2 * Qabs (inject_Z (den * P)))%Q as ->.
    { unfold inject_Z, Qabs, Qmult, Qeq. cbn [Qnum Qden]. rewrite Z.abs_mul, (Z.abs_eq P) by lia. lia. }
    rewrite (Qmult_comm (inject_Z 2)), Qmult_assoc, <- Qabs_Qmult, E. unfold inject_Z, Qabs, Qmult, Qeq. cbn. lia. }
  unfold Qle, Qmult, inject_Z. cbn [Qnum Qden]. rewrite Pos2Z.inj_mul, Z2Pos.id by lia. nia.
Qed.

(** Multiplying: exact while the scales' sum is representable, otherwise
    rounded to the largest scale; refused only when the product does not fit. *)
Lemma mul_exact a b :
  wf_decimal a -> wf_decimal b ->
  match checked_mul a b with
  | Some c =>
      scale c = Z.min (scale a + scale b) MAX_SCALE /\
      (scale a + scale b <= MAX_SCALE -> (value c == value a * value b)%Q) /\
      (Qabs (value c - value a * value b) <= 1 # Z.to_pos (2 * 10 ^ scale c))%Q
  | None => ~ i128 (mantissa a * mantissa b)
  end.
Proof.
  intros Ha Hb. unfold checked_mul. rewrite !wf_not_nan by done. cbn [orb].
  destruct Ha as [_ Ha], Hb as [_ Hb]. unfold MAX_SCALE in *.
  rewrite decide_True by lia. unfold checked_i128. case_decide as Hp; cbn [mbind option_bind]; [|done].
  set (p := mantissa a * mantissa b) in *. set (s := scale a + scale b).
  assert (value (MkDec p s) == value a * value b)%Q as Ev.
  { unfold value, Qeq, Qmult. cbn [Qnum Qden mantissa scale]. rewrite Pos2Z.inj_mul, !Z2Pos.id by (apply pow10_pos; lia).
    unfold s. rewrite Z.pow_add_r by lia. unfold p. ring. }
  destruct (Z.ltb_spec 38 s) as [Hs|Hs].
  - unfold rescale. assert (is_nan (MkDec p s) = false) as -> by (unfold is_nan, NAN_SCALE, s in *; cbn; lia).
    cbn [scale mantissa]. rewrite (proj2 (Z.compare_lt_iff 38 s)) by done.
    unfold pow10, checked_i128. rewrite decide_True by (apply pow10_i128; unfold s in *; lia).
    cbn [mbind option_bind scale]. set (f := 10 ^ (s - 38)). assert (0 < f) as Hf by (apply pow10_pos; lia).
    split_and!; [lia|lia|]. rewrite <- Ev.
    assert (Z.sgn f = 1) as Esg by (by apply Z.sgn_pos).
    match goal with |- (Qabs (value ?c - ?x) <= _)%Q => apply (value_near c x p f) end; [cbn; lia|lia| |].
    + cbn [scale]. unfold value, inject_Z, Qmult, Qeq. cbn [Qnum Qden mantissa scale].
      rewrite !Pos.mul_1_r, Z2Pos.id by (apply pow10_pos; lia).
      assert (10 ^ s = f * 10 ^ 38) as -> by (unfold f; rewrite <- Z.pow_add_r by lia; f_equal; lia). ring.
    + cbn [mantissa]. apply round_half_away; [lia|]. by rewrite Esg, Z.mul_1_r.
  - split_and!; [cbn; lia|done|]. rewrite Ev.
    assert (value a * value b - value a * value b == 0)%Q as -> by ring. unfold Qle. cbn. lia.
Qed.

(** ** Division *)

(** The scale of a quotient is always found: the leading digits never
    overflow. *)
Lemma first_digit_total d : wf_decimal d -> exists w f, weight_and_first_digit d = Ok (w, f).
Proof.
  intros [Hm Hs]. unfold weight_and_first_digit. destruct (Z.eqb_spec (mantissa d) 0) as [|Hne]; [by eexists _, _|].
  set (abs := Z.abs (mantissa d)). assert (0 < abs) as Ha by (unfold abs; lia).
  destruct (ilog10_spec abs Ha) as [[L1 L2] L3]. set (l := ilog10 abs) in *. unfold DEC_DIGITS, MAX_SCALE in *.
  pose proof (Z.div_mod (l + 1 - 1 - scale d) 4 ltac:(lia)) as Ed.
  pose proof (Z.mod_pos_bound (l + 1 - 1 - scale d) 4 ltac:(lia)) as Em.
  set (w := (l + 1 - 1 - scale d) / 4) in *. set (k := scale d + 4 * w) in *.
  assert (l < 39) as Hl.
  { apply (Z.pow_lt_mono_r_iff 10); [lia|lia|]. assert (2 ^ 127 < 10 ^ 39) by (by vm_compute).
    unfold i128, I128_MIN, I128_MAX, abs in *. lia. }
  assert (10 ^ 38 <= U128_MAX /\ 1000 * 1000 <= U128_MAX) as [HU1 HU2] by (by vm_compute).
  destruct (Z.leb_spec 0 k) as [Hk|Hk].
  - pose proof (Z.pow_le_mono_r 10 k 38 ltac:(lia) ltac:(lia)). rewrite decide_True by lia. by eexists _, _.
  - assert (abs < 1000) as Hsm.
    { eapply Z.lt_le_trans; [exact L2|]. apply (Z.pow_le_mono_r 10 (l + 1) 3); lia. }
    pose proof (Z.pow_le_mono_r 10 (- k) 3 ltac:(lia) ltac:(lia)) as Hp.
    pose proof (pow10_pos (- k) ltac:(lia)) as Hp0.
    rewrite decide_True; [by eexists _, _|]. split; [lia|nia].
Qed.

Lemma result_scale_total a b :
  wf_decimal a -> wf_decimal b ->
  exists s, div_result_scale a b = Ok s /\ Z.max (scale a) (scale b) <= s <= MAX_SCALE.
Proof.
  intros Ha Hb. destruct (first_digit_total a Ha) as (w1 & f1 & E1), (first_digit_total b Hb) as (w2 & f2 & E2).
  unfold div_result_scale. rewrite E1, E2. cbn [rbind]. eexists. split; [done|].
  destruct Ha as [_ Ha], Hb as [_ Hb]. unfold MIN_SIG_DIGITS, DEC_DIGITS, MAX_SCALE in *. lia.
Qed.

(** The dividend and the divisor, aligned, stand for the quotient. *)
Lemma align_div_value a b s num den :
  wf_decimal a -> wf_decimal b -> mantissa b <> 0 -> 0 <= s ->
  align_div a b (s + scale b - scale a) = Some (num, den) ->
  den <> 0 /\ i128 num /\ i128 den /\
  (value a / value b * inject_Z den * inject_Z (10 ^ s) == inject_Z num)%Q.
Proof.
  intros [Ma Ha] [Mb Hb] Hne Hs. unfold align_div, pow10. set (e := s + scale b - scale a).
  assert (forall n d, d <> 0 -> mantissa a * 10 ^ scale b * d * 10 ^ s = n * (mantissa b * 10 ^ scale a) ->
    (value a / value b * inject_Z d * inject_Z (10 ^ s) == inject_Z n)%Q) as HQ.
  { intros n d Hd E. assert (~ value b == 0)%Q as Hb0.
    { unfold value, Qeq. cbn. lia. }
    assert (value a * inject_Z d * inject_Z (10 ^ s) == inject_Z n * value b)%Q as E'.
    { unfold value, inject_Z, Qmult, Qeq. cbn [Qnum Qden].
      rewrite ?Pos2Z.inj_mul, !Z2Pos.id by (apply pow10_pos; lia). lia. }
    apply (Qmult_inj_r _ _ (value b)); [done|].
    transitivity (value a * inject_Z d * inject_Z (10 ^ s))%Q; [by field|exact E']. }
  destruct (Z.leb_spec 0 e) as [He|He].
  - destruct (checked_i128 (10 ^ e)) as [p|] eqn:Ep; [|done]. apply checked_some in Ep as [-> _].
    cbn [mbind option_bind]. destruct (checked_i128 _) as [n|] eqn:En; [|done].
    apply checked_some in En as [-> Hn]. cbn [mbind option_bind]. intros [= <- <-].
    split_and!; [done|done|done|]. apply HQ; [done|].
    assert (10 ^ e * 10 ^ scale a = 10 ^ s * 10 ^ scale b) as Hpow
      by (rewrite <- !Z.pow_add_r by lia; f_equal; unfold e; lia).
    transitivity (mantissa a * mantissa b * (10 ^ s * 10 ^ scale b)); [ring|]. rewrite <- Hpow. ring.
  - destruct (checked_i128 (10 ^ (- e))) as [p|] eqn:Ep; [|done]. apply checked_some in Ep as [-> _].
    cbn [mbind option_bind]. destruct (checked_i128 _) as [n|] eqn:En; [|done].
    apply checked_some in En as [-> Hn]. cbn [mbind option_bind]. intros [= <- <-].
    pose proof (pow10_pos (- e) ltac:(lia)). split_and!; [nia|done|done|]. apply HQ; [nia|].
    assert (10 ^ (- e) * 10 ^ s * 10 ^ scale b = 10 ^ scale a) as Hpow
      by (rewrite <- !Z.pow_add_r by lia; f_equal; unfold e; lia).
    rewrite <- Hpow. ring.
Qed.

(** ** Comparison *)

Lemma value_compare a b s :
  0 <= scale a <= s -> 0 <= scale b <= s -> (value a ?= value b)%Q = (aligned a s ?= aligned b s).
Proof.
  intros Ha Hb. rewrite (value_aligned a s), (value_aligned b s) by done.
  unfold value, Qcompare. cbn [Qnum Qden mantissa scale].
  rewrite Z2Pos.id by (apply pow10_pos; lia). symmetry. apply Zmult_compare_compat_r.
  apply Z.lt_gt, pow10_pos. lia.
Qed.

(** Where both significands fit at the larger scale, those are compared. *)
Lemma compare_aligned a b :
  let s := Z.max (scale a) (scale b) in
  wf_decimal a -> wf_decimal b -> i128 (aligned a s) -> i128 (aligned b s) ->
  compare a b = (aligned a s ?= aligned b s).
Proof.
  intros s Ha Hb Fa Fb. unfold compare. rewrite !wf_not_nan by done. fold s.
  pose proof Ha as [_ Sa]. pose proof Hb as [_ Sb]. unfold MAX_SCALE in *.
  rewrite (rescale_up a), (rescale_up b) by (done || lia).
  by rewrite !decide_True by (split; [apply pow10_i128; lia|done]).
Qed.

(** ** The theorems *)

(** Text is exact: a finite decimal of at most 38 fractional digits reads
    back from its own text with its scale, and so does [NaN], unless its
    significand is the smallest 128-bit integer, whose text is refused. *)
Theorem numeric_text_roundtrip d :
  wf_decimal d ->
  parse (format d) = (if decide (mantissa d = I128_MIN) then None else Some d) /\
  parse (format nan) = Some nan.
Proof.
  intros Hwf. split; [|by vm_compute]. pose proof Hwf as [Hm Hs].
  destruct (format_spelled d Hwf) as (ds & fs & -> & Hd & Hf & Hne & Hl & Hv).
  rewrite parse_spelled by (done || unfold MAX_SCALE in Hs; lia). rewrite Hv. unfold checked_i128.
  destruct (decide (mantissa d = I128_MIN)) as [Hmin|Hmin]; unfold i128, I128_MIN, I128_MAX in *.
  - by rewrite decide_False by lia.
  - rewrite decide_True by lia. cbn. unfold signed. rewrite Hl. destruct d as [m s]. cbn in *.
    do 2 f_equal. destruct (Z.ltb_spec m 0); lia.
Qed.



(** C1: Decimals compare by value, whatever their scales, when both significands
    fit 128 bits at the larger scale; [NaN] equals itself and exceeds every
    other. *)
Theorem numeric_compare_by_value a b :
  wf_decimal a -> wf_decimal b ->
  i128 (aligned a (Z.max (scale a) (scale b))) -> i128 (aligned b (Z.max (scale a) (scale b))) ->
  compare a b = (value a ?= value b)%Q /\ compare nan a = Gt /\ compare a nan = Lt /\ compare nan nan = Eq.
Proof.
  intros Ha Hb Fa Fb. split; [|unfold compare; rewrite (wf_not_nan a Ha); done].
  rewrite compare_aligned by done. pose proof Ha as [_ Sa]. pose proof Hb as [_ Sb].
  symmetry. apply value_compare; lia.
Qed.


(** ** Instances *)

Definition price : Decimal := MkDec (-1999) 2.
Definition third : Decimal := MkDec 3 0.

Lemma wf_price : wf_decimal price.
Proof. split; by vm_compute. Qed.
Lemma wf_third : wf_decimal third.
Proof. split; by vm_compute. Qed.

Lemma numeric_text_roundtrip_witness : parse (format price) = Some price.
Proof. exact (proj1 (numeric_text_roundtrip price wf_price)). Defined.



Lemma numeric_compare_by_value_witness : compare price third = Lt /\ compare nan price = Gt.
Proof.
  destruct (numeric_compare_by_value price third wf_price wf_third) as (H & H2 & _);
    [split; by vm_compute..|].
  split; [rewrite H; by vm_compute|exact H2].
Defined.
