(* ===== verification/Float.v ===== *)
(** * Doubles

    [f64] values as their 64 bits, read as IEEE 754 binary64 numbers through the
    Standard Library's executable float specification: comparison, conversion
    from integers, the correctly rounded reading of decimal text and the
    shortest decimal text that reads back, which is how [{}] prints one.
    [f32] values, which the code only compares, are their 32 bits. *)

From S2P Require Import Prelude Order Numeric.
From stdpp Require Import base list.
From Stdlib Require Import ZArith Lia Strings.Byte Floats.SpecFloat.
#[local] Open Scope Z_scope.

Definition SIGN64 : Z := 2 ^ 63.

Definition f64_sign (bits : Z) : bool := SIGN64 <=? bits.
Definition f64_exp (bits : Z) : Z := bits / 2 ^ 52 mod 2048.
Definition f64_frac (bits : Z) : Z := bits mod 2 ^ 52.

(** [f64::is_nan] *)
Definition f64_is_nan (bits : Z) : bool := (f64_exp bits =? 2047) && negb (f64_frac bits =? 0).

Definition f64_unpack (bits : Z) : spec_float :=
  let s := f64_sign bits in
  if f64_exp bits =? 2047 then
    if f64_frac bits =? 0 then S754_infinity s else S754_nan
  else if f64_exp bits =? 0 then
    match f64_frac bits with Zpos m => S754_finite s m (-1074) | _ => S754_zero s end
  else
    match 2 ^ 52 + f64_frac bits with Zpos m => S754_finite s m (f64_exp bits - 1075) | _ => S754_nan end.

(** [f64::NAN] *)
Definition F64_NAN : Z := 2047 * 2 ^ 52 + 2 ^ 51.

Definition f64_pack (f : spec_float) : Z :=
  let signed (s : bool) := if s then SIGN64 else 0 in
  match f with
  | S754_zero s => signed s
  | S754_infinity s => signed s + 2047 * 2 ^ 52
  | S754_nan => F64_NAN
  | S754_finite s m e =>
      signed s + (if Zpos m <? 2 ^ 52 then Zpos m else (e + 1075) * 2 ^ 52 + (Zpos m - 2 ^ 52))
  end.

(** [PartialOrd for f64] *)
Definition f64_partial_cmp (a b : Z) : option comparison := SFcompare (f64_unpack a) (f64_unpack b).

(** The quotient of two integers, to the nearest double and to even on a tie. *)
Definition f64_round (negative : bool) (num den : positive) : Z :=
  f64_pack (SFdiv 53 1024 (S754_finite negative num 0) (S754_finite false den 0)).

(** [i64 as f64] *)
Definition f64_of_i64 (i : Z) : Z :=
  match i with
  | Z0 => 0
  | Zpos p => f64_round false p 1
  | Zneg p => f64_round true p 1
  end.

(** [str::parse::<f64>] on a plain decimal, [[-]digits[.digits]]. *)
Definition f64_parse (s : bytes) : option Z :=
  let '(negative, body) :=
    match s with b :: r => if b2z b =? 45 then (true, r) else (false, s) | [] => (false, s) end in
  let '(whole, frac) := default (body, []) (split_dot body) in
  let ds := whole ++ frac in
  if bool_decide (ds = []) || negb (forallb is_digit ds) then None
  else
    match foldl (fun n b => n * 10 + digit_val b) 0 ds, 10 ^ Z.of_nat (length frac) with
    | Zpos n, Zpos d => Some (f64_round negative n d)
    | _, _ => Some (f64_pack (S754_zero negative))
    end.

(** [Decimal::to_f64] *)
Definition to_f64 (d : Decimal) : Z :=
  if is_nan d then F64_NAN else default F64_NAN (f64_parse (format d)).

(** ** Shortest decimal text *)

(** [10 ^ u] as a fraction. *)
Definition ten_to (u : Z) : Z * Z := if 0 <=? u then (10 ^ u, 1) else (1, 10 ^ (- u)).

(** How many digits stand before the point: [num / den < 10 ^ p]. *)
Definition point_pos (num den : Z) : Z :=
  if den <=? num then Z.of_nat (length (digits_of (num / den)))
  else
    let l := ilog10 (den / num) in
    if num * 10 ^ l <? den then - l else 1 - l.

(** The decimals with [k] digits next to [num / den], and whether they read back. *)
Definition reads_back (bits : Z) (c u : Z) : bool :=
  let '(un, ud) := ten_to u in
  match c * un, ud with
  | Zpos n, Zpos d => f64_round false n d =? bits
  | _, _ => false
  end.

Fixpoint shortest (fuel : nat) (bits num den : Z) (k : Z) : Z * Z :=
  match fuel with
  | O => (0, 0)
  | S fuel =>
      let u := point_pos num den - k in
      let '(un, ud) := ten_to u in
      let n := num * ud in
      let d := den * un in
      let q := n / d in
      let low := n - q * d <=? (q + 1) * d - n in
      let first := if low then q else q + 1 in
      let second := if low then q + 1 else q in
      if reads_back bits first u then (first, u)
      else if reads_back bits second u then (second, u)
      else shortest fuel bits num den (k + 1)
  end.

Definition place_point (c u : Z) : bytes :=
  if 0 <=? u then to_string c ++ replicate (Z.to_nat u) (z2b 48)
  else
    let '(c, u) := if c mod 10 =? 0 then (c / 10, u + 1) else (c, u) in
    let f := Z.to_nat (- u) in
    let ds := to_string c in
    let ds := replicate (S f - length ds) (z2b 48) ++ ds in
    let whole := take (length ds - f) ds in
    if bool_decide (f = 0%nat) then whole else whole ++ z2b 46 :: drop (length ds - f) ds.

(** [format!("{v}")]: seventeen digits always read back. *)
Definition f64_display (bits : Z) : bytes :=
  let sign := if f64_sign bits then [z2b 45] else [] in
  match f64_unpack bits with
  | S754_nan => [z2b 78; z2b 97; z2b 78]
  | S754_infinity _ => sign ++ [z2b 105; z2b 110; z2b 102]
  | S754_zero _ => sign ++ [z2b 48]
  | S754_finite _ m e =>
      let '(num, den) := if 0 <=? e then (Zpos m * 2 ^ e, 1) else (Zpos m, 2 ^ (- e)) in
      let '(c, u) := shortest 17 (bits mod SIGN64) num den 1 in
      sign ++ place_point c u
  end.

(** ** Total order of [f32] *)

(** [f32::total_cmp]: the bits as an integer, the magnitude of a negative one
    inverted. *)
Definition f32_total_cmp (a b : Z) : comparison :=
  let key bits := if bits <? 2 ^ 31 then bits else 2 ^ 31 - 1 - bits in
  key a ?= key b.
