(* ===== verification/FloatFacts.v ===== *)
(** * Facts about floats: every rounded result is a 64-bit pattern *)

From stdpp Require Import base list.
From Stdlib Require Import ZArith Lia Strings.Byte Floats.SpecFloat.
From S2P Require Import Prelude Order Numeric Float.
#[local] Open Scope Z_scope.

Lemma digits2_bound (p : positive) : Zpos p < 2 ^ Zpos (digits2_pos p).
Proof.
  induction p as [p IH|p IH|]; cbn [digits2_pos]; [| |done]; rewrite Pos2Z.inj_succ, Z.pow_succ_r by lia; lia.
Qed.

Lemma shr_1_div2 mrs : 0 <= shr_m mrs -> shr_m (shr_1 mrs) = shr_m mrs / 2.
Proof.
  destruct mrs as [m r s]. cbn. destruct m as [|[p|p|]|p]; try done; intros _; cbn [shr_m].
  - rewrite Pos2Z.inj_xI, Z.mul_comm, Z.div_add_l by lia. by rewrite Z.add_0_r.
  - by rewrite Pos2Z.inj_xO, Z.mul_comm, Z.div_mul by lia.
Qed.

Lemma iter_shr p : forall mrs, 0 <= shr_m mrs -> shr_m (iter_pos shr_1 p mrs) = shr_m mrs / 2 ^ Zpos p.
Proof.
  induction p as [p IH|p IH|]; intros mrs H; cbn [iter_pos].
  - assert (2 ^ Zpos p~1 = 2 * 2 ^ Zpos p * 2 ^ Zpos p) as ->.
    { rewrite <- Z.pow_succ_r, <- Z.pow_add_r by lia. f_equal. lia. }
    assert (0 <= shr_m (shr_1 mrs)) as H1 by (rewrite shr_1_div2 by done; apply Z.div_pos; lia).
    assert (0 <= shr_m (iter_pos shr_1 p (shr_1 mrs))) as H2 by (rewrite IH by done; apply Z.div_pos; lia).
    rewrite IH, IH, shr_1_div2 by done. by rewrite !Z.div_div, Z.mul_assoc by lia.
  - assert (2 ^ Zpos p~0 = 2 ^ Zpos p * 2 ^ Zpos p) as -> by (rewrite <- Z.pow_add_r by lia; f_equal; lia).
    assert (0 <= shr_m (iter_pos shr_1 p mrs)) as H2 by (rewrite IH by done; apply Z.div_pos; lia).
    rewrite IH, IH by done. by rewrite Z.div_div by lia.
  - by rewrite shr_1_div2.
Qed.

Lemma iter_shr_neg p : forall mrs, shr_m mrs < 0 -> shr_m (iter_pos shr_1 p mrs) <= 0.
Proof.
  assert (forall mrs, shr_m mrs <= 0 -> shr_m (shr_1 mrs) <= 0) as H1 by (intros [[|q|[q|q|]] r s]; cbn; lia).
  assert (forall q mrs, shr_m mrs <= 0 -> shr_m (iter_pos shr_1 q mrs) <= 0) as H by (induction q; cbn; auto). intros. apply H. lia.
Qed.

(** A finite result has a 53-bit significand and an exponent in range. *)
Lemma shr_fexp_finite r e mrs e'' m :
  shr_fexp 53 1024 r e loc_Exact = (mrs, e'') -> shr_m mrs = Zpos m -> Zpos m < 2 ^ 53 /\ -1074 <= e''.
Proof.
  unfold shr_fexp, fexp, SpecFloat.emin. change (3 - 1024 - 53) with (-1074). set (n := Z.max _ _ - e). cbn [shr_record_of_loc].
  intros H Hm. destruct r as [|r|r].
  - unfold shr in H. destruct n; injection H as <- _; cbn in Hm; try done. rewrite iter_shr in Hm by (cbn; lia). cbn in Hm. by rewrite Z.div_0_l in Hm by lia.
  - cbn [Zdigits2] in n. pose proof (digits2_bound r) as Hd. set (d := Zpos (digits2_pos r)) in *. unfold shr in H.
    destruct n as [|p|p] eqn:En; injection H as <- <-.
    + cbn in Hm. injection Hm as ->. split; [|lia]. eapply Z.lt_le_trans; [exact Hd|]. apply Z.pow_le_mono_r; lia.
    + rewrite iter_shr in Hm by (cbn; lia). cbn [shr_m] in Hm. split; [|lia]. rewrite <- Hm. apply Z.div_lt_upper_bound; [lia|].
      eapply Z.lt_le_trans; [exact Hd|]. rewrite <- Z.pow_add_r by lia. apply Z.pow_le_mono_r; lia.
    + cbn in Hm. injection Hm as ->. split; [|lia]. eapply Z.lt_le_trans; [exact Hd|]. apply Z.pow_le_mono_r; lia.
  - exfalso. unfold shr in H. destruct n as [|p|p]; injection H as <- _; cbn in Hm; try done.
    pose proof (iter_shr_neg p {| shr_m := Zneg r; shr_r := false; shr_s := false |} ltac:(cbn; lia)). lia.
Qed.

Definition finite_ok (f : spec_float) : Prop :=
  match f with S754_finite _ m e => Zpos m < 2 ^ 53 /\ -1074 <= e <= 971 | _ => True end.

Lemma round_aux_ok sx mx ex lx : finite_ok (binary_round_aux 53 1024 sx mx ex lx).
Proof.
  unfold binary_round_aux. destruct (shr_fexp 53 1024 mx ex lx) as [mrs' e']. set (r := round_nearest_even _ _).
  destruct (shr_fexp 53 1024 r e' loc_Exact) as [mrs'' e''] eqn:E. destruct (shr_m mrs'') as [|m|m] eqn:Em; try done.
  destruct (Z.leb_spec e'' (1024 - 53)); [|done]. cbn. pose proof (shr_fexp_finite _ _ _ _ _ E Em). lia.
Qed.

Lemma pack_u64 f : finite_ok f -> u64 (f64_pack f).
Proof.
  unfold u64, f64_pack, SIGN64, F64_NAN. change (2 ^ 52) with 4503599627370496. change (2 ^ 51) with 2251799813685248.
  destruct f as [s|s| |s m e]; cbn [finite_ok].
  1-3: intros _; try destruct s; lia.
  change (2 ^ 53) with 9007199254740992. intros [H1 H2]. destruct (Z.ltb_spec (Zpos m) 4503599627370496); destruct s; lia.
Qed.

Lemma round_u64 negative num den : u64 (f64_round negative num den).
Proof.
  unfold f64_round. apply pack_u64. cbn [SFdiv]. destruct (SFdiv_core_binary _ _ _ _ _ _) as [[mz ez] lz]. apply round_aux_ok.
Qed.

Lemma of_i64_u64 i : u64 (f64_of_i64 i).
Proof. destruct i; [done|apply round_u64|apply round_u64]. Qed.

Lemma to_f64_u64 d : u64 (to_f64 d).
Proof.
  assert (u64 F64_NAN) as Hn by (by vm_compute). unfold to_f64. destruct (is_nan d); [done|].
  unfold f64_parse. destruct (match format d with [] => _ | _ :: _ => _ end) as [negative body].
  destruct (default (body, []) (split_dot body)) as [whole frac]. destruct (_ || _); [done|].
  assert (forall b, u64 (f64_pack (S754_zero b))) as Hz by (by intros []; vm_compute).
  destruct (foldl _ 0 _); [apply Hz| |apply Hz]. destruct (10 ^ Z.of_nat (length frac)); [apply Hz| |apply Hz]. apply round_u64.
Qed.
