(* ===== verification/Interval.v ===== *)
(** * Calendar durations ([interval.rs])

    [INTERVAL] values: months, days and microseconds, each an integer of its
    width. Comparison by the canonical estimate, the checked arithmetic,
    truncation and the three normalizations. Scaling by a fraction and the text
    forms are left out. *)

From S2P Require Import Prelude Order Codec.
From stdpp Require Import base list strings.
From Stdlib Require Import ZArith Lia Strings.Byte.
#[local] Open Scope Z_scope.

Definition i32 (z : Z) : Prop := - 2 ^ 31 <= z < 2 ^ 31.

#[global] Instance i32_dec z : Decision (i32 z).
Proof. unfold i32. apply _. Defined.
#[global] Instance i64_dec z : Decision (i64 z).
Proof. unfold i64. apply _. Defined.

(** The checked operations and [i32::try_from]. *)
Definition checked_i32 (z : Z) : option Z := if decide (i32 z) then Some z else None.
Definition checked_i64 (z : Z) : option Z := if decide (i64 z) then Some z else None.

Definition MICROS_PER_SEC : Z := 1000000.
Definition MICROS_PER_DAY : Z := 86400 * MICROS_PER_SEC.
Definition DAYS_PER_MONTH_EST : Z := 30.

Record Interval := MkInterval { months : Z; days : Z; micros : Z }.

#[global] Instance Interval_eq_dec : EqDecision Interval.
Proof. solve_decision. Defined.

Module Ival.

Definition ZERO : Interval := MkInterval 0 0 0.

Definition estimate_micros (i : Interval) : Z :=
  months i * DAYS_PER_MONTH_EST * MICROS_PER_DAY + days i * MICROS_PER_DAY + micros i.

Definition compare (a b : Interval) : comparison := estimate_micros a ?= estimate_micros b.

Definition checked_add (a b : Interval) : option Interval :=
  mo ← checked_i32 (months a + months b);
  d ← checked_i32 (days a + days b);
  us ← checked_i64 (micros a + micros b);
  Some (MkInterval mo d us).

Definition checked_neg (a : Interval) : option Interval :=
  mo ← checked_i32 (- months a);
  d ← checked_i32 (- days a);
  us ← checked_i64 (- micros a);
  Some (MkInterval mo d us).

Definition checked_sub (a b : Interval) : option Interval :=
  n ← checked_neg b;
  checked_add a n.

Definition checked_mul (a : Interval) (factor : Z) : option Interval :=
  mo ← checked_i64 (months a * factor) ≫= checked_i32;
  d ← checked_i64 (days a * factor) ≫= checked_i32;
  us ← checked_i64 (micros a * factor);
  Some (MkInterval mo d us).

Inductive Field : Set :=
| microsecond | millisecond | second | minute | hour | day | month | quarter | year | decade | century | millennium.

Definition field_of (name : string) : option Field :=
  if decide (name ∈ ["microsecond"; "microseconds"]) then Some microsecond
  else if decide (name ∈ ["millisecond"; "milliseconds"]) then Some millisecond
  else if decide (name = "second") then Some second
  else if decide (name = "minute") then Some minute
  else if decide (name = "hour") then Some hour
  else if decide (name = "day") then Some day
  else if decide (name = "month") then Some month
  else if decide (name = "quarter") then Some quarter
  else if decide (name = "year") then Some year
  else if decide (name = "decade") then Some decade
  else if decide (name = "century") then Some century
  else if decide (name = "millennium") then Some millennium
  else None.

Definition trunc (field : string) (i : Interval) : option Interval :=
  let keep_time unit := Z.quot (micros i) unit * unit in
  let keep_months unit := Z.quot (months i) unit * unit in
  f ← field_of field;
  Some
    match f with
    | microsecond => i
    | millisecond => MkInterval (months i) (days i) (keep_time 1000)
    | second => MkInterval (months i) (days i) (keep_time MICROS_PER_SEC)
    | minute => MkInterval (months i) (days i) (keep_time (60 * MICROS_PER_SEC))
    | hour => MkInterval (months i) (days i) (keep_time (60 * (60 * MICROS_PER_SEC)))
    | day => MkInterval (months i) (days i) 0
    | month => MkInterval (months i) 0 0
    | quarter => MkInterval (keep_months 12 + Z.quot (Z.rem (months i) 12) 3 * 3) 0 0
    | year => MkInterval (keep_months 12) 0 0
    | decade => MkInterval (keep_months 120) 0 0
    | century => MkInterval (keep_months 1200) 0 0
    | millennium => MkInterval (keep_months 12000) 0 0
    end.

Definition justify_days (i : Interval) : option Interval :=
  mo ← checked_i32 (months i + Z.quot (days i) 30);
  Some (MkInterval mo (Z.rem (days i) 30) (micros i)).

Definition justify_hours (i : Interval) : option Interval :=
  d ← checked_i64 (days i + Z.quot (micros i) MICROS_PER_DAY) ≫= checked_i32;
  Some (MkInterval (months i) d (Z.rem (micros i) MICROS_PER_DAY)).

(** The first sign pass borrows a month, the second a day. *)
Definition justify_signs (r : Interval) : Interval :=
  let r :=
    if (0 <? months r) && ((days r <? 0) || ((days r =? 0) && (micros r <? 0)))
    then MkInterval (months r - 1) (days r + 30) (micros r)
    else if (months r <? 0) && ((0 <? days r) || ((days r =? 0) && (0 <? micros r)))
    then MkInterval (months r + 1) (days r - 30) (micros r)
    else r in
  if (0 <? days r) && (micros r <? 0)
  then MkInterval (months r) (days r - 1) (micros r + MICROS_PER_DAY)
  else if (days r <? 0) && (0 <? micros r)
  then MkInterval (months r) (days r + 1) (micros r - MICROS_PER_DAY)
  else r.

Definition justify_interval (i : Interval) : option Interval :=
  h ← justify_hours i;
  r ← justify_days h;
  Some (justify_signs r).

End Ival.
