(* ===== verification/IntervalThm.v ===== *)
(** * What intervals promise *)

From stdpp Require Import base list strings.
From Stdlib Require Import ZArith Lia Strings.Byte.
From S2P Require Import Prelude Order Codec Interval.
Import Ival.
#[local] Open Scope Z_scope.

Definition wf_interval (i : Interval) : Prop := i32 (months i) /\ i32 (days i) /\ i64 (micros i).

Lemma checked_i32_some z x : checked_i32 z = Some x -> x = z /\ i32 z.
Proof. unfold checked_i32. case_decide; [by intros [= <-]|done]. Qed.
Lemma checked_i64_some z x : checked_i64 z = Some x -> x = z /\ i64 z.
Proof. unfold checked_i64. case_decide; [by intros [= <-]|done]. Qed.
Lemma checked_i32_none z : checked_i32 z = None -> ~ i32 z.
Proof. unfold checked_i32. by case_decide. Qed.
Lemma checked_i64_none z : checked_i64 z = None -> ~ i64 z.
Proof. unfold checked_i64. by case_decide. Qed.

Ltac checked :=
  repeat match goal with
  | H : (_ ≫= _) = Some _ |- _ => apply bind_Some in H as (? & ? & H)
  | H : checked_i32 _ = Some _ |- _ => apply checked_i32_some in H as [-> ?]
  | H : checked_i64 _ = Some _ |- _ => apply checked_i64_some in H as [-> ?]
  end.

(** Fields of one sign, days below a month and time below a day. *)
Definition normal (i : Interval) : Prop :=
  -30 < days i < 30 /\ - MICROS_PER_DAY < micros i < MICROS_PER_DAY /\
  ((0 <= months i /\ 0 <= days i /\ 0 <= micros i) \/ (months i <= 0 /\ days i <= 0 /\ micros i <= 0)).

(** The two justify passes bound the fields. *)
Definition bounded (i : Interval) : Prop := -30 < days i < 30 /\ - MICROS_PER_DAY < micros i < MICROS_PER_DAY.

Lemma rem_bounds a b : 0 < b -> - b < Z.rem a b < b.
Proof. intros H. pose proof (Z.rem_bound_abs a b ltac:(lia)). lia. Qed.

Lemma justify_bounded i h r :
  justify_hours i = Some h -> justify_days h = Some r -> bounded r /\ estimate_micros r = estimate_micros i /\ i32 (months r).
Proof.
  unfold justify_hours, justify_days, bounded, estimate_micros, DAYS_PER_MONTH_EST. intros H1 H2. checked.
  injection H1 as <-. cbn [months days micros] in *. injection H2 as <-. cbn [months days micros] in *.
  pose proof (Z.quot_rem' (micros i) MICROS_PER_DAY). set (d := days i + Z.quot (micros i) MICROS_PER_DAY) in *.
  pose proof (Z.quot_rem' d 30). pose proof (rem_bounds d 30 ltac:(lia)). pose proof (rem_bounds (micros i) MICROS_PER_DAY ltac:(by vm_compute)).
  split_and!; try done; try lia.
Qed.

Lemma signs_normal r : bounded r -> normal (justify_signs r) /\ estimate_micros (justify_signs r) = estimate_micros r.
Proof.
  unfold bounded, normal, justify_signs, estimate_micros, DAYS_PER_MONTH_EST. change MICROS_PER_DAY with 86400000000.
  destruct r as [mo d us]. cbn [months days micros]. intros [H1 H2].
  destruct (Z.ltb_spec 0 mo), (Z.ltb_spec mo 0), (Z.ltb_spec d 0), (Z.ltb_spec 0 d), (Z.eqb_spec d 0), (Z.ltb_spec us 0), (Z.ltb_spec 0 us);
    try lia; cbn [andb orb months days micros];
    repeat match goal with |- context [Z.ltb ?a ?b] => destruct (Z.ltb_spec a b); cbn [andb orb months days micros] end; lia.
Qed.

(** A normal interval is determined by its estimate. *)
Lemma normal_unique a b : normal a -> normal b -> estimate_micros a = estimate_micros b -> a = b.
Proof.
  unfold normal, estimate_micros, DAYS_PER_MONTH_EST. change MICROS_PER_DAY with 86400000000.
  destruct a as [m d u], b as [m' d' u']. cbn [months days micros]. intros (A1 & A2 & A3) (B1 & B2 & B3) E.
  assert (m = m' /\ d = d' /\ u = u') as (-> & -> & ->); [|done]. lia.
Qed.

(** Justifying an interval keeps its length and is a normal form. The
    result has the same estimated length, all its fields of one sign, fewer than
    thirty days and less than a day of time; two intervals that compare equal
    justify to the same interval; and justifying fails only where the days or
    the months leave 32 bits. Sum, difference, negation and multiple act field by
    field and so on the estimate, and fail only where a field leaves its width. *)
Theorem interval_normal_form i :
  wf_interval i ->
  match justify_interval i with
  | Some r =>
      normal r /\ estimate_micros r = estimate_micros i /\
      (forall j r', compare i j = Eq -> justify_interval j = Some r' -> r' = r)
  | None =>
      let d := days i + Z.quot (micros i) MICROS_PER_DAY in
      ~ i32 d \/ ~ i32 (months i + Z.quot d 30)
  end /\
  (forall j r, checked_add i j = Some r -> wf_interval r /\ estimate_micros r = estimate_micros i + estimate_micros j) /\
  (forall j r, checked_sub i j = Some r -> wf_interval r /\ estimate_micros r = estimate_micros i - estimate_micros j) /\
  (forall k r, checked_mul i k = Some r -> wf_interval r /\ estimate_micros r = estimate_micros i * k) /\
  (forall j, wf_interval j -> checked_add i j = None <->
     ~ wf_interval (MkInterval (months i + months j) (days i + days j) (micros i + micros j))).
Proof.
  intros (W1 & W2 & W3). unfold wf_interval, estimate_micros. split_and!.
  - destruct (justify_interval i) as [r|] eqn:E; unfold justify_interval in E.
    + checked. injection E as <-. edestruct justify_bounded as (B & Hb & _); [eassumption..|]. destruct (signs_normal _ B) as [N Es].
      split_and!; [done|fold (estimate_micros i); by rewrite <- Hb, <- Es|]. intros j r' Hc Hj. unfold justify_interval in Hj. checked. injection Hj as <-.
      edestruct (justify_bounded j) as (B' & Hb' & _); [eassumption..|]. destruct (signs_normal _ B') as [N' Es'].
      apply normal_unique; [done|done|]. rewrite Es', Hb', Es, Hb. unfold compare in Hc. by apply Z.compare_eq in Hc.
    + cbn zeta. unfold justify_hours, justify_days in E.
      destruct (checked_i64 (days i + Z.quot (micros i) MICROS_PER_DAY)) as [d|] eqn:E1; cbn [mbind option_bind] in E.
      * apply checked_i64_some in E1 as [-> _]. destruct (checked_i32 (days i + Z.quot (micros i) MICROS_PER_DAY)) as [d|] eqn:E2;
          cbn [mbind option_bind] in E; [|left; by apply checked_i32_none].
        apply checked_i32_some in E2 as [-> _]. cbn [months days micros] in E. right. apply checked_i32_none.
        by destruct (checked_i32 _).
      * left. apply checked_i64_none in E1. unfold i64, i32 in *. lia.
  - intros j r H. unfold checked_add in H. checked. injection H as <-. cbn. split; [done|lia].
  - intros j r H. unfold checked_sub, checked_neg, checked_add in H. checked. injection H as <-. cbn in *.
    match goal with H : Some _ = Some _ |- _ => injection H as <- end. cbn in *. split; [done|lia].
  - intros k r H. unfold checked_mul in H. checked. injection H as <-. cbn. split; [done|lia].
  - intros j (V1 & V2 & V3). unfold checked_add, checked_i32, checked_i64. cbn. split.
    + intros H (A & B & C). by rewrite !decide_True in H.
    + intros H. destruct (decide (i32 (months i + months j))); [|done]. destruct (decide (i32 (days i + days j))); [|done].
      destruct (decide (i64 (micros i + micros j))); [|done]. by destruct H.
Qed.

Lemma interval_normal_form_witness :
  justify_interval (MkInterval 1 0 (-3600000000)) = Some (MkInterval 0 29 82800000000) /\
  match justify_interval (MkInterval 1 0 (-3600000000)) with Some r => normal r | None => False end.
Proof.
  split; [reflexivity|].
  pose proof (interval_normal_form (MkInterval 1 0 (-3600000000)) ltac:(split_and!; by vm_compute)) as [H _].
  destruct (justify_interval _) as [r|] eqn:E; [apply H|vm_compute in E; discriminate E].
Defined.
