(* ===== verification/Inet.v ===== *)
(** * Network addresses ([inet.rs])

    [INET] and [CIDR] values: an address, as its octets, a mask length in bits
    and the flag that tells the two types apart. The text forms are left out. *)

From S2P Require Import Prelude Order Codec Interval.
From stdpp Require Import base list.
From Stdlib Require Import ZArith Lia Strings.Byte.
#[local] Open Scope Z_scope.

Inductive IpAddr : Set :=
| V4 (octets : bytes)
| V6 (octets : bytes).

Record InetAddr := MkInet { addr : IpAddr; masklen : Z; is_cidr : bool }.

#[global] Instance IpAddr_eq_dec : EqDecision IpAddr.
Proof. solve_decision. Defined.
#[global] Instance InetAddr_eq_dec : EqDecision InetAddr.
Proof. solve_decision. Defined.

Module Inet.

Definition max_masklen (a : IpAddr) : Z := match a with V4 _ => 32 | V6 _ => 128 end.
Definition is_v6 (a : IpAddr) : bool := match a with V4 _ => false | V6 _ => true end.
Definition addr_octets (a : IpAddr) : bytes := match a with V4 o | V6 o => o end.

Definition addr_to_u128 (a : IpAddr) : Z :=
  foldl (fun acc b => Z.lor (Z.shiftl acc 8) (b2z b)) 0 (addr_octets a).

(** [try_into().unwrap_or([0; n])] *)
Definition octets_to_addr (octets : bytes) (v6 : bool) : IpAddr :=
  let fixed n := if bool_decide (length octets = n) then octets else replicate n (z2b 0) in
  if v6 then V6 (fixed 16%nat) else V4 (fixed 4%nat).

(** [!byte] *)
Definition not_u8 (z : Z) : Z := 255 - z.

Definition host_mask (bits bit_lo : Z) : Z :=
  if bits <=? bit_lo then 255
  else if bits <? bit_lo + 8 then Z.shiftl 1 (bit_lo + 8 - bits) - 1
  else 0.

Definition masked_addr (v : InetAddr) (set : bool) : IpAddr :=
  let octets := imap (fun i b =>
    let m := host_mask (masklen v) (Z.of_nat i * 8) in
    z2b (if set then Z.lor (b2z b) m else Z.land (b2z b) (not_u8 m))) (addr_octets (addr v)) in
  octets_to_addr octets (is_v6 (addr v)).

Definition to_cidr (v : InetAddr) : InetAddr := MkInet (masked_addr v false) (masklen v) true.
Definition broadcast (v : InetAddr) : InetAddr := MkInet (masked_addr v true) (masklen v) false.
Definition to_inet (v : InetAddr) : InetAddr := MkInet (addr v) (masklen v) false.

Definition with_masklen (v : InetAddr) (m : Z) : option InetAddr :=
  if m <=? max_masklen (addr v) then Some (MkInet (addr v) m (is_cidr v)) else None.

Definition family (v : InetAddr) : Z := if is_v6 (addr v) then 6 else 4.

(** The loop over the octets, from octet [i]. *)
Fixpoint host_bits_zero_from (bits : Z) (i : nat) (octets : bytes) : bool :=
  match octets with
  | [] => true
  | b :: octets =>
      let bit_lo := Z.of_nat i * 8 in
      let ok :=
        if bits <=? bit_lo then b2z b =? 0
        else if bits <? bit_lo + 8 then
          let host_bits := bit_lo + 8 - bits in
          Z.land (b2z b) (Z.shiftr 255 (8 - host_bits)) =? 0
        else true in
      if ok then host_bits_zero_from bits (S i) octets else false
  end.

Definition host_bits_zero (v : InetAddr) : bool :=
  host_bits_zero_from (masklen v) 0 (addr_octets (addr v)).

Definition index_key (v : InetAddr) : bytes :=
  z2b (Z.b2z (is_v6 (addr v))) :: addr_octets (addr v) ++ [z2b (masklen v)].

Definition encode (v : InetAddr) : bytes :=
  let flags := Z.lor (Z.b2z (is_cidr v)) (Z.shiftl (Z.b2z (is_v6 (addr v))) 1) in
  z2b flags :: z2b (masklen v) :: addr_octets (addr v).

Definition decode (bs : bytes) : option InetAddr :=
  flags ← bs !! 0%nat;
  m ← bs !! 1%nat;
  let cidr := negb (Z.land (b2z flags) 1 =? 0) in
  let v6 := negb (Z.land (b2z flags) 2 =? 0) in
  rest ← get_range bs 2 (length bs);
  a ← (if v6 then V6 <$> get_range rest 0 16 else V4 <$> get_range rest 0 4);
  if max_masklen a <? b2z m then None else Some (MkInet a (b2z m) cidr).

(** Octets compared while both last: [iter().zip()]. *)
Fixpoint zip_cmp (a b : bytes) : comparison :=
  match a, b with
  | x :: a, y :: b => then_cmp (cmp_byte x y) (zip_cmp a b)
  | _, _ => Eq
  end.

Definition octet (a : bytes) (i : nat) : Z := default 0 (b2z <$> a !! i).

Definition bitncmp (a b : bytes) (bits : Z) : comparison :=
  let whole := Z.to_nat (bits / 8) in
  match zip_cmp (take whole a) b with
  | Eq =>
      let leftover := bits mod 8 in
      if leftover =? 0 then Eq
      else
        let mask := Z.land (Z.shiftl 255 (8 - leftover)) 255 in
        Z.land (octet a whole) mask ?= Z.land (octet b whole) mask
  | c => c
  end.

Definition network_cmp (a b : InetAddr) : comparison :=
  if negb (Bool.eqb (is_v6 (addr a)) (is_v6 (addr b))) then cmp_bool (is_v6 (addr a)) (is_v6 (addr b))
  else
    match bitncmp (addr_octets (addr a)) (addr_octets (addr b)) (Z.min (masklen a) (masklen b)) with
    | Eq =>
        match masklen a ?= masklen b with
        | Eq => cmp_bytes (addr_octets (addr a)) (addr_octets (addr b))
        | c => c
        end
    | c => c
    end.

Fixpoint prefix_eq (oa ob : bytes) (remaining : Z) : bool :=
  match oa, ob with
  | x :: oa, y :: ob =>
      if 8 <=? remaining then
        if b2z x =? b2z y then prefix_eq oa ob (remaining - 8) else false
      else if remaining =? 0 then true
      else
        let mask := Z.land (Z.shiftl 255 (8 - remaining)) 255 in
        Z.land (b2z x) mask =? Z.land (b2z y) mask
  | _, _ => true
  end.

Definition network_prefix_eq (a b : IpAddr) (bits : Z) : bool :=
  prefix_eq (addr_octets a) (addr_octets b) bits.

Definition contains_or_equal (a b : InetAddr) : bool :=
  if negb (Bool.eqb (is_v6 (addr a)) (is_v6 (addr b))) || (masklen b <? masklen a) then false
  else network_prefix_eq (addr a) (addr b) (masklen a).

Definition U32_MAX : Z := 2 ^ 32 - 1.
Definition U128_MAX : Z := 2 ^ 128 - 1.

Definition add_offset (v : InetAddr) (delta : Z) : option InetAddr :=
  let cur := addr_to_u128 (addr v) in
  let magnitude := Z.abs delta in
  next ← (if 0 <=? delta
          then if cur + magnitude <=? U128_MAX then Some (cur + magnitude) else None
          else if magnitude <=? cur then Some (cur - magnitude) else None);
  a ← (if is_v6 (addr v) then Some (V6 (be_bytes 16 next))
       else if next <=? U32_MAX then Some (V4 (be_bytes 4 next)) else None);
  Some (MkInet a (masklen v) (is_cidr v)).

Definition diff (a b : InetAddr) : option Z :=
  if negb (Bool.eqb (is_v6 (addr a)) (is_v6 (addr b))) then None
  else
    let '(x, y) := (addr_to_u128 (addr a), addr_to_u128 (addr b)) in
    let '(magnitude, negative) := if y <=? x then (x - y, false) else (y - x, true) in
    signed ← checked_i64 magnitude;
    Some (if negative : bool then - signed else signed).

Definition mask_octets (len : nat) (bits : Z) (ones_in_prefix : bool) : bytes :=
  (fun i =>
     let bit_lo := Z.of_nat i * 8 in
     let prefix :=
       if bit_lo + 8 <=? bits then 255
       else if bits <=? bit_lo then 0
       else Z.land (Z.shiftl 255 (8 - (bits - bit_lo))) 255 in
     z2b (if ones_in_prefix then prefix else not_u8 prefix)) <$> seq 0 len.

Definition mask_value (v : InetAddr) (ones_in_prefix : bool) : InetAddr :=
  let octets := mask_octets (length (addr_octets (addr v))) (masklen v) ones_in_prefix in
  MkInet (octets_to_addr octets (is_v6 (addr v))) (max_masklen (addr v)) false.

Definition netmask (v : InetAddr) : InetAddr := mask_value v true.
Definition hostmask (v : InetAddr) : InetAddr := mask_value v false.

Definition same_family (a b : InetAddr) : bool := Bool.eqb (is_v6 (addr a)) (is_v6 (addr b)).

(** The [while n < maxbits] loop: it runs at most [maxbits] times. *)
Fixpoint common_prefix_from (fuel : nat) (a b : bytes) (maxbits n : Z) : Z :=
  match fuel with
  | O => n
  | S fuel =>
      if n <? maxbits then
        let idx := Z.to_nat (n / 8) in
        let mask := Z.shiftr 128 (n mod 8) in
        if Z.land (octet a idx) mask =? Z.land (octet b idx) mask
        then common_prefix_from fuel a b maxbits (n + 1) else n
      else n
  end.

Definition common_prefix_len (a b : bytes) (maxbits : Z) : Z :=
  common_prefix_from (Z.to_nat maxbits) a b maxbits 0.

Definition merge (a b : InetAddr) : option InetAddr :=
  if negb (Bool.eqb (is_v6 (addr a)) (is_v6 (addr b))) then None
  else
    let limit := Z.min (masklen a) (masklen b) in
    let common := common_prefix_len (addr_octets (addr a)) (addr_octets (addr b)) limit in
    Some (to_cidr (MkInet (addr a) common false)).

End Inet.
