(* ===== verification/Values.v ===== *)
(** * SQL values and their comparison ([ast/expr.rs], [executor/eval.rs])

    [Value] has the constructors of [ast::Value]. Integers are [Z] within their
    width, floats are their bits, text is its UTF-8 bytes, fixed byte arrays are
    byte lists of their length; [wf_value] says so. [compare] is the comparator
    behind [ORDER BY], [DISTINCT] and every index. *)

From S2P Require Import Prelude Order Codec Catalog Numeric Float Interval Inet.
From stdpp Require Import base list strings.
From Stdlib Require Import ZArith Lia Strings.Byte.
#[local] Open Scope Z_scope.

(** ** Geometric values ([geometry.rs]) *)

Module Geometry.

Inductive GeomVal : Set :=
| Point (x y : Z)
| Box (high_x high_y low_x low_y : Z)
| Circle (cx cy r : Z)
| Lseg (x1 y1 x2 y2 : Z)
| Line (a b c : Z)
| Path (points : list (Z * Z)) (closed : bool)
| Polygon (points : list (Z * Z)).

Definition kind (v : GeomVal) : Geom.GeomKind :=
  match v with
  | Point _ _ => Geom.Point
  | Box _ _ _ _ => Geom.Box
  | Circle _ _ _ => Geom.Circle
  | Lseg _ _ _ _ => Geom.Lseg
  | Line _ _ _ => Geom.Line
  | Path _ _ => Geom.Path
  | Polygon _ => Geom.Polygon
  end.

Definition chr (s : string) : bytes := String.list_byte_of_string s.

(** A negative zero prints as a zero. *)
Definition fmt_num (v : Z) : bytes :=
  f64_display (if bool_decide (f64_partial_cmp v 0 = Some Eq) then 0 else v).

Definition fmt_pair (x y : Z) : bytes := chr "(" ++ fmt_num x ++ chr "," ++ fmt_num y ++ chr ")".

(** [collect().join(",")] *)
Fixpoint join_pairs (ps : list (Z * Z)) : bytes :=
  match ps with
  | [] => []
  | [(x, y)] => fmt_pair x y
  | (x, y) :: ps => fmt_pair x y ++ chr "," ++ join_pairs ps
  end.

Definition format (v : GeomVal) : bytes :=
  match v with
  | Point x y => fmt_pair x y
  | Box hx hy lx ly => fmt_pair hx hy ++ chr "," ++ fmt_pair lx ly
  | Circle cx cy r => chr "<" ++ fmt_pair cx cy ++ chr "," ++ fmt_num r ++ chr ">"
  | Lseg x1 y1 x2 y2 => chr "[" ++ fmt_pair x1 y1 ++ chr "," ++ fmt_pair x2 y2 ++ chr "]"
  | Line a b c => chr "{" ++ fmt_num a ++ chr "," ++ fmt_num b ++ chr "," ++ fmt_num c ++ chr "}"
  | Path points closed =>
      if closed then chr "(" ++ join_pairs points ++ chr ")" else chr "[" ++ join_pairs points ++ chr "]"
  | Polygon points => chr "(" ++ join_pairs points ++ chr ")"
  end.

End Geometry.

(** ** Values *)

(** The bounds of a range ([range.rs]), over the type of its elements. *)
Record RangeVal (V : Type) := MkRange {
  kind : RangeOf.RangeKind;
  empty : bool;
  lower : option V;
  upper : option V;
  lower_inc : bool;
  upper_inc : bool;
}.
Arguments MkRange {V}.
Arguments kind {V}.
Arguments empty {V}.
Arguments lower {V}.
Arguments upper {V}.
Arguments lower_inc {V}.
Arguments upper_inc {V}.

Module Val.
Inductive Value : Set :=
| Null
| Bool (b : bool)
| Int (v : Z)
| Float (f : Z)
| Text (s : bytes)
| Date (v : Z)
| Time (v : Z)
| Timestamp (v : Z)
| TimestampTz (v : Z)
| TimeTz (v : Z)
| Uuid (b : bytes)
| Macaddr (b : bytes)
| Macaddr8 (b : bytes)
| Inet (a : InetAddr)
| Bit (b : list bool)
| Range (r : RangeVal Value)
| Numeric (d : Decimal)
| Json (s : bytes)
| Interval (i : Interval)
| Array (items : list Value)
| Vector (v : list Z)
| Bytes (b : bytes)
| Geometry (g : Geometry.GeomVal)
| Tsvector (s : bytes)
| Tsquery (s : bytes)
| Xml (s : bytes)
| Enum (ordinal : Z) (label : bytes).
End Val.
Abbreviation Value := Val.Value.

(** ** Comparison *)

Definition float_total_cmp (a b : Z) : comparison :=
  match f64_is_nan a, f64_is_nan b with
  | true, true => Eq
  | true, false => Gt
  | false, true => Lt
  | false, false => default Eq (f64_partial_cmp a b)
  end.

Definition type_rank (v : Value) : Z :=
  match v with
  | Val.Null => 0
  | Val.Bool _ => 1
  | Val.Int _ => 2
  | Val.Float _ => 3
  | Val.Numeric _ => 4
  | Val.Text _ => 5
  | Val.Json _ => 6
  | Val.Date _ => 7
  | Val.Time _ => 8
  | Val.Timestamp _ => 9
  | Val.TimestampTz _ => 10
  | Val.Uuid _ => 11
  | Val.Interval _ => 12
  | Val.Array _ => 13
  | Val.TimeTz _ => 14
  | Val.Vector _ => 15
  | Val.Bytes _ => 16
  | Val.Macaddr _ => 17
  | Val.Inet _ => 18
  | Val.Bit _ => 19
  | Val.Range _ => 20
  | Val.Macaddr8 _ => 21
  | Val.Geometry _ => 22
  | Val.Tsvector _ => 23
  | Val.Tsquery _ => 24
  | Val.Xml _ => 25
  | Val.Enum _ _ => 26
  end.

(** [RangeVal::range_cmp], with the comparison of the bounds as an argument. *)
Definition range_cmp_with {V} (cmp : V -> V -> comparison) (a b : RangeVal V) : comparison :=
  then_cmp (cmp_byte (range_tag (kind a)) (range_tag (kind b)))
    match empty a, empty b with
    | true, true => Eq
    | true, false => Lt
    | false, true => Gt
    | false, false =>
        then_cmp
          match lower a, lower b with
          | None, None => Eq
          | None, Some _ => Lt
          | Some _, None => Gt
          | Some x, Some y => then_cmp (cmp x y) (cmp_bool (lower_inc b) (lower_inc a))
          end
          match upper a, upper b with
          | None, None => Eq
          | None, Some _ => Gt
          | Some _, None => Lt
          | Some x, Some y => then_cmp (cmp x y) (cmp_bool (upper_inc a) (upper_inc b))
          end
    end.

Fixpoint compare (l r : Value) {struct l} : comparison :=
  match l, r with
  | Val.Null, Val.Null => Eq
  | Val.Null, _ => Gt
  | _, Val.Null => Lt
  | Val.Bool a, Val.Bool b => cmp_bool a b
  | Val.Float a, Val.Float b => float_total_cmp a b
  | Val.Int a, Val.Float b => float_total_cmp (f64_of_i64 a) b
  | Val.Float a, Val.Int b => float_total_cmp a (f64_of_i64 b)
  | Val.Text a, Val.Text b
  | Val.Json a, Val.Json b
  | Val.Tsvector a, Val.Tsvector b
  | Val.Tsquery a, Val.Tsquery b
  | Val.Xml a, Val.Xml b => cmp_bytes a b
  | Val.Numeric a, Val.Numeric b => Numeric.compare a b
  | Val.Numeric a, Val.Int b => Numeric.compare a (from_i64 b)
  | Val.Int a, Val.Numeric b => Numeric.compare (from_i64 a) b
  | Val.Numeric a, Val.Float b => float_total_cmp (to_f64 a) b
  | Val.Float a, Val.Numeric b => float_total_cmp a (to_f64 b)
  | Val.Date a, Val.Date b
  | Val.Int a, Val.Int b
  | Val.Time a, Val.Time b
  | Val.TimeTz a, Val.TimeTz b
  | Val.Timestamp a, Val.Timestamp b
  | Val.TimestampTz a, Val.TimestampTz b => a ?= b
  | Val.Uuid a, Val.Uuid b
  | Val.Macaddr a, Val.Macaddr b
  | Val.Macaddr8 a, Val.Macaddr8 b => cmp_bytes a b
  | Val.Inet a, Val.Inet b => Inet.network_cmp a b
  | Val.Bit a, Val.Bit b => cmp_list cmp_bool a b
  | Val.Range a, Val.Range b => range_cmp_with compare a b
  | Val.Bytes a, Val.Bytes b => cmp_bytes a b
  | Val.Geometry a, Val.Geometry b => cmp_bytes (Geometry.format a) (Geometry.format b)
  | Val.Interval a, Val.Interval b => Ival.compare a b
  | Val.Array a, Val.Array b => cmp_list compare a b
  | Val.Vector a, Val.Vector b => cmp_list f32_total_cmp a b
  | Val.Enum a _, Val.Enum b _ => a ?= b
  | _, _ => type_rank l ?= type_rank r
  end.

Inductive NullOrdering : Set := Default | First | Last.

Definition is_null (v : Value) : bool := match v with Val.Null => true | _ => false end.

Definition compare_order_key (a b : Value) (ascending : bool) (nulls : NullOrdering) : comparison :=
  let pinned := match nulls with First | Last => true | Default => false end in
  if negb (Bool.eqb (is_null a) (is_null b)) && pinned then
    let nulls_first := match nulls with First => true | _ => false end in
    if Bool.eqb (is_null a) nulls_first then Lt else Gt
  else if ascending then compare a b else CompOpp (compare a b).

(** ** Errors of the SQL layer ([error.rs]): the variants the modelled code
    returns. Message texts are kept where the source writes a literal. *)

Module Sql.
Inductive Error : Type :=
| Unsupported (what : string)
| LimitExceeded (what : string)
| InvalidParameterValue (what : string)
| TypeMismatch (context : string) (expected found : Ty.ColumnType)
| StringTooLong (ty : Ty.ColumnType)
| MalformedBatch (context : string) (expected found : nat)
| MalformedTuple (offset : nat)
| InvalidValue (ty : Ty.ColumnType)
| Coded (sqlstate : string).

Definition result (A : Type) : Type := res Error A.
End Sql.
