(* ===== verification/IndexKey.v ===== *)
(** * Index keys and the set operations built on them

    The order-preserving key encoding ([executor/index_key.rs]), the key range
    of an index scan ([executor/scan.rs]) and the duplicate elimination and set
    operations of [executor/ops.rs], which hash rows by their encoded keys. A
    [Vec<u8>] passed to be extended is an argument and the result. *)

From S2P Require Import Prelude Order Codec Catalog Numeric Float Interval Inet Values.
From stdpp Require Import base list gmap strings.
From Stdlib Require Import ZArith Lia Strings.Byte.
#[local] Open Scope Z_scope.

Module Key.

Definition SIGN32 : Z := 2 ^ 31.

Definition NUMERIC_INT_DIGITS : nat := 39.
Definition NUMERIC_FRAC_DIGITS : nat := 38.

(** [a - b] on [usize], which panics below zero. *)
Definition usize_sub (a b : nat) : Sql.result nat := if (b <=? a)%nat then Ok (a - b)%nat else Panic.

Fixpoint encode_ordered_bytes (bs out : bytes) : bytes :=
  match bs with
  | [] => out ++ [z2b 0]
  | b :: bs => encode_ordered_bytes bs (if b2z b =? 0 then out ++ [z2b 0; z2b 255] else out ++ [b])
  end.

Definition emit (negative : bool) (c : byte) : byte :=
  if negative then z2b (57 - (b2z c - 48)) else c.

Definition encode_numeric (d : Decimal) (out : bytes) : Sql.result bytes :=
  if is_nan d then Ok (out ++ z2b 3 :: replicate (NUMERIC_INT_DIGITS + NUMERIC_FRAC_DIGITS) (z2b 48))
  else
    let scale := Z.to_nat (scale d) in
    if (NUMERIC_FRAC_DIGITS <? scale)%nat then Err (Sql.LimitExceeded "NUMERIC scale beyond the index key limit")
    else
      let negative := mantissa d <? 0 in
      let dbytes := to_string (Z.abs (mantissa d)) in
      let dlen := length dbytes in
      let '(int_part, frac_part) :=
        if (scale <? dlen)%nat then (take (dlen - scale) dbytes, drop (dlen - scale) dbytes)
        else ([], replicate (scale - dlen) (z2b 48) ++ dbytes) in
      let? pad_int := usize_sub NUMERIC_INT_DIGITS (length int_part) in
      let? pad_frac := usize_sub NUMERIC_FRAC_DIGITS (length frac_part) in
      Ok (out ++ z2b (if negative then 0 else 2)
              :: (emit negative <$> replicate pad_int (z2b 48) ++ int_part ++ frac_part ++ replicate pad_frac (z2b 48))).

(** The bits of a float, so that their unsigned order is the float order. *)
Definition ordered_bits (bits : Z) : Z :=
  if Z.land bits SIGN64 =? 0 then Z.lor bits SIGN64 else 2 ^ 64 - 1 - bits.

Definition encode_non_null (value : Value) (out : bytes) : Sql.result bytes :=
  match value with
  | Val.Bool b => Ok (out ++ [z2b (Z.b2z b)])
  | Val.Int v | Val.Time v | Val.TimeTz v | Val.Timestamp v | Val.TimestampTz v =>
      Ok (out ++ be_bytes 8 (Z.lxor (v mod 2 ^ 64) SIGN64))
  | Val.Date v => Ok (out ++ be_bytes 4 (Z.lxor (v mod 2 ^ 32) SIGN32))
  | Val.Float f =>
      if f64_is_nan f then Err (Sql.InvalidParameterValue "NaN cannot be used as an index key")
      else Ok (out ++ be_bytes 8 (ordered_bits f))
  | Val.Uuid bs | Val.Macaddr bs | Val.Macaddr8 bs => Ok (out ++ bs)
  | Val.Text s | Val.Json s => Ok (encode_ordered_bytes s out)
  | Val.Bytes b => Ok (encode_ordered_bytes b out)
  | Val.Numeric d => encode_numeric d out
  | Val.Enum ordinal _ => Ok (out ++ be_bytes 4 ordinal)
  | Val.Interval _ | Val.Array _ | Val.Vector _ | Val.Inet _ | Val.Bit _ | Val.Range _
  | Val.Geometry _ | Val.Tsvector _ | Val.Tsquery _ | Val.Xml _ =>
      Err (Sql.Unsupported "columns cannot yet be index keys")
  | Val.Null => Panic
  end.

Definition encode_field (value : Value) (out : bytes) : Sql.result bytes :=
  match value with
  | Val.Null => Ok (out ++ [z2b 0])
  | non_null => encode_non_null non_null (out ++ [z2b 1])
  end.

Fixpoint encode_fields (values : list Value) (out : bytes) : Sql.result bytes :=
  match values with
  | [] => Ok out
  | value :: values => let? out := encode_field value out in encode_fields values out
  end.

Definition encode_index_key (values : list Value) : Sql.result bytes := encode_fields values [].

(** ** The key range of a scan ([encode_key_range]) *)

Definition PAST_PREFIX : byte := z2b 2.

Definition encode_bound (values : list Value) (past : bool) : Sql.result bytes :=
  let? key := encode_index_key values in
  Ok (if past then key ++ [PAST_PREFIX] else key).

Definition encode_key_range (lo hi : Bound (list Value)) (key_columns : nat) : Sql.result (Bound bytes * Bound bytes) :=
  let? lo :=
    match lo with
    | Unbounded => Ok Unbounded
    | Included values => rmap Included (encode_bound values false)
    | Excluded values =>
        if (length values <? key_columns)%nat then rmap Included (encode_bound values true)
        else rmap Excluded (encode_bound values false)
    end in
  let? hi :=
    match hi with
    | Unbounded => Ok Unbounded
    | Included values =>
        if (length values <? key_columns)%nat then rmap Excluded (encode_bound values true)
        else rmap Included (encode_bound values false)
    | Excluded values => rmap Excluded (encode_bound values false)
    end in
  Ok (lo, hi).

End Key.

(** ** Duplicate elimination and set operations *)

Module SetOps.

Definition Row : Type := list Value.

Definition not_distinct (x y : Value) : bool :=
  match x, y with
  | Val.Null, Val.Null => true
  | Val.Null, _ | _, Val.Null => false
  | _, _ => bool_decide (compare x y = Eq)
  end.

Definition group_keys_equal (a b : Row) : bool :=
  (length a =? length b)%nat && forallb (fun '(x, y) => not_distinct x y) (zip a b).

Definition is_hash_safe_value (value : Value) : bool :=
  match value with
  | Val.Null | Val.Bool _ | Val.Int _ | Val.Text _ | Val.Date _ | Val.Time _ | Val.Timestamp _
  | Val.TimestampTz _ | Val.Uuid _ | Val.Macaddr _ | Val.Macaddr8 _ | Val.Inet _ | Val.Bit _ => true
  | _ => false
  end.

Definition all_safe (rows : list Row) : bool := forallb (forallb is_hash_safe_value) rows.

(** [encode_index_key(row).ok()]; on hash-safe values the encoder does not panic. *)
Definition key_ok (row : Row) : option bytes :=
  match Key.encode_index_key row with Ok key => Some key | _ => None end.

Fixpoint dedupe_hashed (rows : list Row) (seen : gset bytes) (out : list Row) : list Row :=
  match rows with
  | [] => out
  | row :: rows =>
      match key_ok row with
      | Some key =>
          if decide (key ∈ seen) then dedupe_hashed rows seen out
          else dedupe_hashed rows ({[key]} ∪ seen) (out ++ [row])
      | None =>
          if existsb (fun e => group_keys_equal e row) out then dedupe_hashed rows seen out
          else dedupe_hashed rows seen (out ++ [row])
      end
  end.

Fixpoint dedupe_linear (rows out : list Row) : list Row :=
  match rows with
  | [] => out
  | row :: rows =>
      if existsb (fun existing => group_keys_equal existing row) out then dedupe_linear rows out
      else dedupe_linear rows (out ++ [row])
  end.

Definition dedupe_rows (rows : list Row) : list Row :=
  if all_safe rows then dedupe_hashed rows ∅ [] else dedupe_linear rows [].

Definition filter_by_membership (left right : list Row) (keep_present : bool) : list Row :=
  if all_safe (left ++ right) then
    let set : gset bytes := list_to_set (omap key_ok right) in
    filter (fun row =>
      let present := match key_ok row with Some key => bool_decide (key ∈ set) | None => false end in
      present = keep_present) left
  else filter (fun row => existsb (fun x => group_keys_equal x row) right = keep_present) left.

Definition count_key (counts : gmap bytes nat) (row : Row) : gmap bytes nat :=
  match key_ok row with
  | Some key => <[key := S (default 0%nat (counts !! key))]> counts
  | None => counts
  end.

Fixpoint consume_hashed (left : list Row) (counts : gmap bytes nat) (keep_matched : bool) : list Row :=
  match left with
  | [] => []
  | row :: others =>
      let '(matched, counts) :=
        match key_ok row with
        | Some key =>
            match counts !! key with
            | Some (S n) => (true, <[key := n]> counts)
            | _ => (false, counts)
            end
        | None => (false, counts)
        end in
      let rest := consume_hashed others counts keep_matched in
      if Bool.eqb matched keep_matched then row :: rest else rest
  end.

Definition consume_matching_hashed (left right : list Row) (keep_matched : bool) : list Row :=
  consume_hashed left (foldl count_key ∅ right) keep_matched.

(** [counts.iter_mut().find(..)] and [*n += 1], or a new count of one. *)
Fixpoint add_count (counts : list (Row * nat)) (row : Row) : list (Row * nat) :=
  match counts with
  | [] => [(row, 1%nat)]
  | (k, n) :: counts => if group_keys_equal k row then (k, S n) :: counts else (k, n) :: add_count counts row
  end.

(** The first equal row, consumed if its count is positive. *)
Fixpoint take_count (counts : list (Row * nat)) (row : Row) : bool * list (Row * nat) :=
  match counts with
  | [] => (false, [])
  | (k, n) :: counts =>
      if group_keys_equal k row then
        match n with S n => (true, (k, n) :: counts) | O => (false, (k, O) :: counts) end
      else let '(matched, counts) := take_count counts row in (matched, (k, n) :: counts)
  end.

Fixpoint consume_linear (left : list Row) (counts : list (Row * nat)) (keep_matched : bool) : list Row :=
  match left with
  | [] => []
  | row :: others =>
      let '(matched, counts) := take_count counts row in
      let rest := consume_linear others counts keep_matched in
      if Bool.eqb matched keep_matched then row :: rest else rest
  end.

Definition consume_matching (left right : list Row) (keep_matched : bool) : list Row :=
  if all_safe (left ++ right) then consume_matching_hashed left right keep_matched
  else consume_linear left (foldl add_count [] right) keep_matched.

Inductive SetOp : Set := Union | Intersect | Except.

Definition combine_set (op : SetOp) (all : bool) (left right : list Row) : list Row :=
  match op, all with
  | Union, true => left ++ right
  | Union, false => dedupe_rows (left ++ right)
  | Intersect, true => consume_matching left right true
  | Intersect, false => filter_by_membership (dedupe_rows left) right true
  | Except, true => consume_matching left right false
  | Except, false => filter_by_membership (dedupe_rows left) right false
  end.

End SetOps.
