(* ===== verification/IndexKeyFacts.v ===== *)
(** * Facts about index keys

    Every field of a key is self-delimiting and keeps the order of its column's
    values: whatever follows two fields, their comparison is the comparison of
    the values, and what follows decides only on a tie. *)

From S2P Require Import Prelude Order Codec Catalog Numeric NumericFacts NumericThm Float Interval Inet Values IndexKey.
From stdpp Require Import base list strings.
From Stdlib Require Import ZArith Lia Strings.Byte Floats.SpecFloat QArith.
#[local] Open Scope Z_scope.

(** What may follow a field: nothing, the tag of the next field or a byte above
    every tag. *)
Definition tail_ok (x : bytes) : Prop := match x with [] => True | b :: _ => b2z b < 255 end.

(** [fa] and [fb] compare as [c] whatever follows them. *)
Definition decides (fa fb : bytes) (c : comparison) : Prop :=
  forall x y, tail_ok x -> tail_ok y -> cmp_bytes (fa ++ x) (fb ++ y) = then_cmp c (cmp_bytes x y).

Lemma then_cmp_assoc a b c : then_cmp (then_cmp a b) c = then_cmp a (then_cmp b c).
Proof. by destruct a. Qed.

Lemma decides_fixed fa fb : length fa = length fb -> decides fa fb (cmp_bytes fa fb).
Proof. intros H x y _ _. by apply cmp_list_app. Qed.

Lemma decides_be n a b :
  0 <= a < 256 ^ Z.of_nat n -> 0 <= b < 256 ^ Z.of_nat n -> decides (be_bytes n a) (be_bytes n b) (a ?= b).
Proof.
  intros Ha Hb. rewrite <- (cmp_be_bytes n a b) by done. apply decides_fixed. by rewrite !be_bytes_length.
Qed.

(** ** Escaped strings *)

Fixpoint escape (s : bytes) : bytes :=
  match s with
  | [] => [z2b 0]
  | b :: s => (if b2z b =? 0 then [z2b 0; z2b 255] else [b]) ++ escape s
  end.

Lemma encode_ordered_bytes_app s out : Key.encode_ordered_bytes s out = out ++ escape s.
Proof.
  revert out. induction s as [|b s IH]; intros out; [done|]. cbn. rewrite IH.
  destruct (b2z b =? 0); by rewrite <- app_assoc.
Qed.

Lemma cmp_cons x y a b : cmp_bytes (x :: a) (y :: b) = then_cmp (b2z x ?= b2z y) (cmp_bytes a b).
Proof. done. Qed.

Lemma escape_head s : exists b r, escape s = b :: r /\ (s = [] -> r = []).
Proof. destruct s as [|b s]; [by eexists _, _|]. cbn. destruct (b2z b =? 0); by eexists _, _. Qed.

Lemma decides_escape_nil y b u v :
  tail_ok u -> cmp_bytes (escape [] ++ u) (escape (y :: b) ++ v) = Lt /\
               cmp_bytes (escape (y :: b) ++ v) (escape [] ++ u) = Gt.
Proof.
  intros Hu. cbn [escape app]. pose proof (b2z_range y).
  destruct (Z.eqb_spec (b2z y) 0) as [E|E]; cbn [app]; rewrite !cmp_cons; change (b2z (z2b 0)) with 0.
  - rewrite Z.compare_refl. cbn [then_cmp]. destruct u as [|c u]; [done|]. rewrite !cmp_cons.
    cbn in Hu. change (b2z (z2b 255)) with 255.
    by rewrite (proj2 (Z.compare_lt_iff _ _)), (proj2 (Z.compare_gt_iff _ _)) by lia.
  - by rewrite (proj2 (Z.compare_lt_iff _ _)), (proj2 (Z.compare_gt_iff _ _)) by lia.
Qed.

Lemma decides_escape a b : decides (escape a) (escape b) (cmp_bytes a b).
Proof.
  revert b. induction a as [|x a IH]; intros [|y b] u v Hu Hv.
  - cbn [escape app]. rewrite cmp_cons, Z.compare_refl. done.
  - by apply decides_escape_nil.
  - by apply decides_escape_nil.
  - rewrite (cmp_cons x y). cbn [escape]. pose proof (b2z_range x). pose proof (b2z_range y).
    destruct (Z.eqb_spec (b2z x) 0) as [Ex|Ex], (Z.eqb_spec (b2z y) 0) as [Ey|Ey]; cbn [app]; rewrite !cmp_cons;
      change (b2z (z2b 0)) with 0; rewrite ?Ex, ?Ey.
    + rewrite !Z.compare_refl. cbn [then_cmp]. by apply IH.
    + by rewrite (proj2 (Z.compare_lt_iff _ _)) by lia.
    + by rewrite (proj2 (Z.compare_gt_iff _ _)) by lia.
    + rewrite then_cmp_assoc. f_equal. by apply IH.
Qed.

(** ** Signed integers: flipping the sign bit adds half the range *)

Lemma land_high v k : 0 <= k -> 0 <= v < 2 ^ k -> Z.land v (2 ^ k) = 0.
Proof.
  intros Hk Hv. destruct (Z.eq_dec v 0) as [->|]; [apply Z.land_0_l|].
  apply Z.bits_inj'. intros i Hi. rewrite Z.land_spec, Z.bits_0, Z.pow2_bits_eqb by done.
  destruct (Z.eqb_spec k i) as [<-|]; [|by rewrite andb_false_r].
  rewrite Z.bits_above_log2; [done|lia|]. apply Z.log2_lt_pow2; lia.
Qed.

Lemma lor_high v k : 0 <= k -> 0 <= v < 2 ^ k -> Z.lor v (2 ^ k) = v + 2 ^ k.
Proof. intros Hk Hv. pose proof (Z.add_lor_land v (2 ^ k)) as E. rewrite land_high in E by done. lia. Qed.

Lemma bias n v :
  0 < n -> - 2 ^ (n - 1) <= v < 2 ^ (n - 1) -> Z.lxor (v mod 2 ^ n) (2 ^ (n - 1)) = v + 2 ^ (n - 1).
Proof.
  intros Hn Hv. assert (2 ^ n = 2 * 2 ^ (n - 1)) as En.
  { replace n with (Z.succ (n - 1)) at 1 by lia. apply Z.pow_succ_r. lia. }
  destruct (Z.le_gt_cases 0 v).
  - rewrite Z.mod_small by lia. by rewrite <- Z.add_nocarry_lxor by (apply land_high; lia).
  - set (h := 2 ^ (n - 1)) in *. assert (v mod 2 ^ n = v + h + h) as ->.
    { symmetry. apply (Z.mod_unique v (2 ^ n) (-1)); [left; lia|lia]. }
    rewrite (Z.add_nocarry_lxor (v + h) h) by (apply land_high; lia).
    by rewrite Z.lxor_assoc, Z.lxor_nilpotent, Z.lxor_0_r.
Qed.

Lemma add_cmp_r a b k : (a + k ?= b + k) = (a ?= b).
Proof. rewrite !(Z.add_comm _ k). apply Z.add_compare_mono_l. Qed.

Lemma decides_int a b :
  i64 a -> i64 b ->
  decides (be_bytes 8 (Z.lxor (a mod 2 ^ 64) SIGN64)) (be_bytes 8 (Z.lxor (b mod 2 ^ 64) SIGN64)) (a ?= b).
Proof.
  unfold i64. intros Ha Hb. unfold SIGN64. change (2 ^ 63) with (2 ^ (64 - 1)).
  rewrite !(bias 64) by (change (2 ^ (64 - 1)) with 9223372036854775808; lia).
  change (2 ^ (64 - 1)) with 9223372036854775808.
  rewrite <- (add_cmp_r a b 9223372036854775808). apply decides_be; change (256 ^ Z.of_nat 8) with 18446744073709551616; lia.
Qed.

Lemma decides_date a b :
  i32 a -> i32 b ->
  decides (be_bytes 4 (Z.lxor (a mod 2 ^ 32) Key.SIGN32)) (be_bytes 4 (Z.lxor (b mod 2 ^ 32) Key.SIGN32)) (a ?= b).
Proof.
  unfold i32. change (2 ^ 31) with 2147483648. intros Ha Hb. unfold Key.SIGN32. change (2 ^ 31) with (2 ^ (32 - 1)).
  rewrite !(bias 32) by (change (2 ^ (32 - 1)) with 2147483648; lia).
  change (2 ^ (32 - 1)) with 2147483648.
  rewrite <- (add_cmp_r a b 2147483648). apply decides_be; change (256 ^ Z.of_nat 4) with 4294967296; lia.
Qed.

(** ** Doubles *)

(** Where a double stands among the doubles; both zeros stand at zero. *)
Definition f64_rank (bits : Z) : Z := if f64_sign bits then SIGN64 - bits else bits.

Inductive unpacked (s : bool) (mag : Z) : spec_float -> Prop :=
| up_zero : mag = 0 -> unpacked s mag (S754_zero s)
| up_inf : mag = 2047 * 2 ^ 52 -> unpacked s mag (S754_infinity s)
| up_finite m e :
    mag = (e + 1074) * 2 ^ 52 + Zpos m -> -1074 <= e -> 0 < mag < 2047 * 2 ^ 52 ->
    Zpos m < 2 ^ 53 -> (2 ^ 52 <= Zpos m \/ e = -1074) -> unpacked s mag (S754_finite s m e).

Lemma f64_unpacked bits :
  u64 bits -> f64_is_nan bits = false ->
  exists mag, bits = (if f64_sign bits then SIGN64 else 0) + mag /\ unpacked (f64_sign bits) mag (f64_unpack bits).
Proof.
  unfold u64. intros Hu Hn. exists (bits mod SIGN64).
  unfold f64_is_nan in Hn. unfold f64_unpack.
  assert (bits mod SIGN64 = f64_exp bits * 2 ^ 52 + f64_frac bits) as Em.
  { unfold f64_exp, f64_frac, SIGN64. change (2 ^ 63) with (2 ^ 52 * 2048).
    rewrite Z.rem_mul_r by lia. lia. }
  pose proof (Z.mod_pos_bound bits SIGN64 ltac:(by vm_compute)) as Hm.
  assert (0 <= f64_exp bits < 2048) as He by (apply Z.mod_pos_bound; lia).
  assert (0 <= f64_frac bits < 2 ^ 52) as Hf by (apply Z.mod_pos_bound; lia).
  change (2 ^ 52) with 4503599627370496 in *. split.
  - unfold f64_sign, SIGN64 in *. change (2 ^ 63) with 9223372036854775808 in *.
    destruct (Z.leb_spec 9223372036854775808 bits); [|rewrite Z.mod_small; lia].
    pose proof (Z.mod_unique bits 9223372036854775808 1 (bits - 9223372036854775808)). lia.
  - rewrite Em. destruct (Z.eqb_spec (f64_exp bits) 2047) as [E|E].
    + destruct (Z.eqb_spec (f64_frac bits) 0) as [F|F]; [|done]. apply up_inf. lia.
    + destruct (Z.eqb_spec (f64_exp bits) 0) as [E0|E0].
      * destruct (f64_frac bits) as [|m|m] eqn:F; [apply up_zero; lia| |lia].
        apply up_finite; lia.
      * destruct (4503599627370496 + f64_frac bits) as [|m|m] eqn:F; [lia| |lia].
        apply up_finite; change (2 ^ 52) with 4503599627370496; change (2 ^ 53) with 9007199254740992; lia.
Qed.

Lemma cmp_finite m e m' e' :
  -1074 <= e -> -1074 <= e' -> Zpos m < 2 ^ 53 -> Zpos m' < 2 ^ 53 ->
  (2 ^ 52 <= Zpos m \/ e = -1074) -> (2 ^ 52 <= Zpos m' \/ e' = -1074) ->
  ((e + 1074) * 2 ^ 52 + Zpos m ?= (e' + 1074) * 2 ^ 52 + Zpos m') =
  then_cmp (e ?= e') (Zpos m ?= Zpos m').
Proof.
  change (2 ^ 52) with 4503599627370496. change (2 ^ 53) with 9007199254740992. intros.
  destruct (Z.compare_spec e e') as [->|?|?]; cbn [then_cmp].
  - apply Z.add_compare_mono_l.
  - apply Z.compare_lt_iff. lia.
  - apply Z.compare_gt_iff. lia.
Qed.

Lemma opp_cmp a b : (- a ?= - b) = CompOpp (a ?= b).
Proof. rewrite Z.compare_opp. apply Z.compare_antisym. Qed.

Lemma unpacked_compare s mag f s' mag' f' :
  unpacked s mag f -> unpacked s' mag' f' ->
  SFcompare f f' = Some ((if s then - mag else mag) ?= (if s' then - mag' else mag')).
Proof.
  intros H H'. destruct H as [Hm|Hm|m e Hm He Hr Hb Hc], H' as [Hm'|Hm'|m' e' Hm' He' Hr' Hb' Hc'];
    change (2 ^ 52) with 4503599627370496 in *; change (2 ^ 53) with 9007199254740992 in *;
    try (destruct s, s'; cbn [SFcompare]; f_equal; symmetry; first [apply Z.compare_lt_iff; lia|apply Z.compare_gt_iff; lia|apply Z.compare_eq_iff; lia]).
  pose proof (cmp_finite m e m' e' He He' Hb Hb' Hc Hc') as E.
  change (2 ^ 52) with 4503599627370496 in E. rewrite <- Hm, <- Hm' in E.
  destruct s, s'; cbn [SFcompare]; f_equal.
  - rewrite opp_cmp, E. by destruct (e ?= e').
  - symmetry. apply Z.compare_lt_iff. lia.
  - symmetry. apply Z.compare_gt_iff. lia.
  - rewrite E. by destruct (e ?= e').
Qed.

Lemma f64_cmp_rank a b :
  u64 a -> u64 b -> f64_is_nan a = false -> f64_is_nan b = false ->
  f64_partial_cmp a b = Some (f64_rank a ?= f64_rank b).
Proof.
  intros Ha Hb Na Nb. destruct (f64_unpacked a Ha Na) as (ma & Ea & Ua).
  destruct (f64_unpacked b Hb Nb) as (mb & Eb & Ub). unfold f64_partial_cmp.
  rewrite (unpacked_compare _ _ _ _ _ _ Ua Ub). clear Ua Ub. unfold f64_rank. revert Ea Eb.
  destruct (f64_sign a), (f64_sign b); intros Ea Eb; do 2 f_equal; lia.
Qed.

Lemma ordered_bits_rank bits :
  u64 bits ->
  Key.ordered_bits bits = f64_rank bits + (if f64_sign bits then SIGN64 - 1 else SIGN64) /\
  0 <= Key.ordered_bits bits < 2 ^ 64.
Proof.
  unfold u64. intros Hu. unfold Key.ordered_bits, f64_rank, f64_sign.
  assert (SIGN64 = 9223372036854775808) as ES by done.
  destruct (Z.leb_spec SIGN64 bits).
  - assert (Z.land bits SIGN64 = SIGN64) as ->; [|by rewrite ES in *; cbn; lia].
    rewrite <- (Z.sub_add SIGN64 bits) at 1. unfold SIGN64 in *. rewrite <- lor_high by lia.
    rewrite Z.land_lor_distr_l, land_high by lia. by rewrite Z.land_diag.
  - unfold SIGN64 in *. rewrite land_high by lia. cbn [Z.eqb]. rewrite lor_high by lia. lia.
Qed.

(** Byte order is float order, but for the two zeros. *)
Lemma decides_float a b :
  u64 a -> u64 b -> f64_is_nan a = false -> f64_is_nan b = false -> a <> SIGN64 -> b <> SIGN64 ->
  decides (be_bytes 8 (Key.ordered_bits a)) (be_bytes 8 (Key.ordered_bits b)) (float_total_cmp a b).
Proof.
  intros Ha Hb Na Nb Za Zb. unfold float_total_cmp. rewrite Na, Nb, f64_cmp_rank by done. cbn [default].
  destruct (ordered_bits_rank a Ha) as [Ea Ra], (ordered_bits_rank b Hb) as [Eb Rb].
  assert ((f64_rank a ?= f64_rank b) = (Key.ordered_bits a ?= Key.ordered_bits b)) as ->.
  { rewrite Ea, Eb. unfold f64_rank, f64_sign, u64 in *. assert (SIGN64 = 9223372036854775808) as ES by done. rewrite ES in *.
    destruct (Z.leb_spec 9223372036854775808 a), (Z.leb_spec 9223372036854775808 b); rewrite ?add_cmp_r; try done; symmetry.
    - rewrite (proj2 (Z.compare_lt_iff _ _)); [symmetry; apply Z.compare_lt_iff; lia|lia].
    - rewrite (proj2 (Z.compare_gt_iff _ _)); [symmetry; apply Z.compare_gt_iff; lia|lia]. }
  apply decides_be; done.
Qed.

(** ** Decimals *)

Lemma cmp_digits a b :
  length a = length b -> Forall digit a -> Forall digit b ->
  cmp_bytes (ascii_digit <$> a) (ascii_digit <$> b) = (val_from 0 a ?= val_from 0 b).
Proof.
  revert b. induction a as [|x a IH]; intros [|y b] Hl; try done.
  intros [Hx Ha]%Forall_cons [Hy Hb]%Forall_cons. cbn [fmap list_fmap]. rewrite cmp_cons, IH by (done || cbn in Hl; lia).
  rewrite !ascii_digit_val by done. rewrite Z.add_compare_mono_l.
  cbn [val_from foldl]. change (foldl _ ?n ?l) with (val_from n l).
  rewrite (val_from_shift (0 * 10 + x)), (val_from_shift (0 * 10 + y)).
  replace (length b) with (length a) by (cbn in Hl; lia).
  pose proof (val_from_bound a Ha) as Va. pose proof (val_from_bound b Hb) as Vb.
  replace (length b) with (length a) in Vb by (cbn in Hl; lia).
  set (p := 10 ^ Z.of_nat (length a)) in *. unfold digit in *.
  destruct (Z.compare_spec x y) as [->|?|?]; cbn [then_cmp]; symmetry.
  - apply Z.add_compare_mono_l.
  - apply Z.compare_lt_iff. nia.
  - apply Z.compare_gt_iff. nia.
Qed.

(** Nine's complement, digit by digit. *)
Definition inverted (ds : list Z) : list Z := (fun d => 9 - d) <$> ds.

Lemma inverted_digits ds : Forall digit ds -> Forall digit (inverted ds).
Proof. intros H. apply Forall_fmap. eapply Forall_impl; [exact H|]. unfold digit. cbn. lia. Qed.

Lemma val_inverted ds : val_from 0 (inverted ds) = 10 ^ Z.of_nat (length ds) - 1 - val_from 0 ds.
Proof.
  induction ds as [|d ds IH] using rev_ind; [done|].
  unfold inverted in *. rewrite fmap_app, !val_from_app, IH, length_app. cbn [fmap list_fmap length].
  rewrite Nat2Z.inj_add, Z.pow_add_r by lia. cbn. lia.
Qed.

(** The digit columns of a magnitude at scale 38. *)
Definition columns (d : Decimal) (ds : list Z) : Prop :=
  length ds = 77%nat /\ Forall digit ds /\ val_from 0 ds = Z.abs (mantissa d) * 10 ^ (38 - scale d).

Lemma emit_digits (negative : bool) ds :
  Forall digit ds ->
  Key.emit negative <$> (ascii_digit <$> ds) = ascii_digit <$> (if negative then inverted ds else ds).
Proof.
  intros H. destruct negative; [|by rewrite list_fmap_id]. unfold inverted. rewrite <- !list_fmap_compose.
  apply list_fmap_ext. intros i d Hd. apply (Forall_lookup_1 _ _ _ _ H) in Hd. cbn. unfold Key.emit.
  rewrite ascii_digit_val by done. unfold ascii_digit. f_equal. lia.
Qed.

Lemma pad_columns d dg ip fp :
  wf_decimal d -> Forall digit dg -> val_from 0 dg = Z.abs (mantissa d) ->
  (length ip <= 39)%nat -> length fp = Z.to_nat (scale d) ->
  (exists k, ip ++ fp = replicate k 0 ++ dg) ->
  columns d (replicate (39 - length ip) 0 ++ ip ++ fp ++ replicate (38 - length fp) 0).
Proof.
  intros [_ Hs] Hd Hv Hi Hf (k & E). unfold MAX_SCALE in Hs. split_and!.
  - rewrite !length_app, !length_replicate. lia.
  - rewrite (app_assoc ip), E. repeat (apply Forall_app; split); try done; apply zeros_digits.
  - rewrite val_from_zeros, (app_assoc ip), E, val_from_app, val_from_zeros, Hv, val_from_shift, length_replicate.
    rewrite <- (app_nil_r (replicate _ 0)), val_from_zeros, Hf.
    replace (Z.of_nat (38 - Z.to_nat (scale d))) with (38 - scale d) by lia. cbn [val_from foldl]. lia.
Qed.

Lemma numeric_parts (scale : nat) dg :
  (length dg <= 39)%nat ->
  exists ip fp,
    (if (scale <? length dg)%nat
     then (take (length dg - scale) (ascii_digit <$> dg), drop (length dg - scale) (ascii_digit <$> dg))
     else ([], replicate (scale - length dg) (z2b 48) ++ (ascii_digit <$> dg))) = (ascii_digit <$> ip, ascii_digit <$> fp) /\
    (length ip <= 39)%nat /\ length fp = scale /\ exists k, ip ++ fp = replicate k 0 ++ dg.
Proof.
  intros H. destruct (Nat.ltb_spec scale (length dg)).
  - eexists _, _. rewrite <- fmap_take, <- fmap_drop. split_and!; [done|rewrite length_take; lia|rewrite length_drop; lia|].
    exists 0%nat. apply take_drop.
  - exists [], (replicate (scale - length dg) 0 ++ dg).
    rewrite fmap_app, fmap_replicate. split_and!; [done|cbn; lia| |by eexists].
    rewrite length_app, length_replicate. lia.
Qed.

(** The key of a decimal: a sign class, then the digit columns. *)
Definition numeric_field (d : Decimal) (ds : list Z) : bytes :=
  z2b (if mantissa d <? 0 then 0 else 2) :: (ascii_digit <$> (if mantissa d <? 0 then inverted ds else ds)).

Lemma encode_numeric_columns d :
  wf_decimal d ->
  exists ds, columns d ds /\ forall out, Key.encode_numeric d out = Ok (out ++ numeric_field d ds).
Proof.
  intros Hwf. pose proof Hwf as [Hm Hs].
  assert (length (digits_of (Z.abs (mantissa d))) <= 39)%nat as D5.
  { apply digits_length; [|lia]. assert (2 ^ 127 < 10 ^ Z.of_nat 39) by (by vm_compute).
    unfold i128, I128_MIN, I128_MAX in Hm. lia. }
  destruct (digits_of_spec (Z.abs (mantissa d))) as [D1 D2 _ D4]; [lia|].
  destruct (numeric_parts (Z.to_nat (scale d)) _ D5) as (ip & fp & E & Hi & Hf & Hk).
  pose proof (pad_columns d _ ip fp Hwf D1 D2 Hi Hf Hk) as Hc.
  eexists. split; [exact Hc|]. intros out. unfold Key.encode_numeric. rewrite wf_not_nan by done.
  unfold Key.NUMERIC_FRAC_DIGITS, Key.NUMERIC_INT_DIGITS, MAX_SCALE in *.
  rewrite (proj2 (Nat.ltb_ge _ _)) by lia. unfold to_string. rewrite length_fmap, E.
  unfold Key.usize_sub. rewrite !length_fmap, !(proj2 (Nat.leb_le _ _)) by lia. cbn [rbind].
  unfold numeric_field. do 3 f_equal. rewrite <- emit_digits by apply Hc. by rewrite !fmap_app, !fmap_replicate.
Qed.

(** The value of a decimal at scale 38. *)
Definition at38 (d : Decimal) : Z := mantissa d * 10 ^ (38 - scale d).

Lemma columns_cmp a b da db :
  wf_decimal a -> wf_decimal b -> columns a da -> columns b db -> Bool.eqb (mantissa a <? 0) (mantissa b <? 0) = true ->
  cmp_bytes (ascii_digit <$> (if mantissa a <? 0 then inverted da else da))
            (ascii_digit <$> (if mantissa b <? 0 then inverted db else db)) = (at38 a ?= at38 b).
Proof.
  intros [_ Wa] [_ Wb] (La & Fa & Va) (Lb & Fb & Vb) Hs. unfold MAX_SCALE in *.
  assert (0 < 10 ^ (38 - scale a) /\ 0 < 10 ^ (38 - scale b)) as [Pa Pb] by (split; apply pow10_pos; lia).
  assert (length (inverted da) = 77%nat /\ length (inverted db) = 77%nat) as [Ia Ib]
    by (unfold inverted; rewrite !length_fmap; done).
  unfold at38. destruct (Z.ltb_spec (mantissa a) 0), (Z.ltb_spec (mantissa b) 0); try done.
  - rewrite cmp_digits by (congruence || by apply inverted_digits). rewrite !val_inverted, La, Lb, Va, Vb.
    replace (Z.abs (mantissa a)) with (- mantissa a) by lia. replace (Z.abs (mantissa b)) with (- mantissa b) by lia.
    rewrite !Z.mul_opp_l, !Z.sub_opp_r. by rewrite Z.add_compare_mono_l.
  - rewrite cmp_digits by congruence. rewrite Va, Vb. by rewrite !Z.abs_eq by lia.
Qed.

Lemma at38_sign a : wf_decimal a -> (at38 a < 0 <-> mantissa a < 0).
Proof.
  intros [_ Wa]. unfold MAX_SCALE in *. assert (0 < 10 ^ (38 - scale a)) by (apply pow10_pos; lia). unfold at38. nia.
Qed.

Lemma numeric_field_length d ds : columns d ds -> length (numeric_field d ds) = 78%nat.
Proof.
  intros (L & _). unfold numeric_field. cbn [length]. rewrite length_fmap.
  destruct (mantissa d <? 0); unfold inverted; rewrite ?length_fmap; lia.
Qed.

(** Byte order of decimal keys is the order of their values, at any scales. *)
Lemma decides_numeric a b da db :
  wf_decimal a -> wf_decimal b -> columns a da -> columns b db ->
  decides (numeric_field a da) (numeric_field b db) (at38 a ?= at38 b).
Proof.
  intros Wa Wb Ca Cb. pose proof (at38_sign a Wa) as Sa. pose proof (at38_sign b Wb) as Sb.
  assert (cmp_bytes (numeric_field a da) (numeric_field b db) = (at38 a ?= at38 b)) as <-.
  2: { apply decides_fixed. by rewrite !numeric_field_length. }
  unfold numeric_field at 1 2. rewrite cmp_cons.
  destruct (Bool.eqb (mantissa a <? 0) (mantissa b <? 0)) eqn:E.
  - rewrite (columns_cmp a b) by done. apply Bool.eqb_prop in E. rewrite E, Z.compare_refl. done.
  - destruct (Z.ltb_spec (mantissa a) 0), (Z.ltb_spec (mantissa b) 0); try done;
      change (b2z (z2b 0)) with 0; change (b2z (z2b 2)) with 2; symmetry.
    + apply Z.compare_lt_iff. lia.
    + apply Z.compare_gt_iff. lia.
Qed.

Lemma compare_at38 a b :
  let s := Z.max (scale a) (scale b) in
  wf_decimal a -> wf_decimal b -> i128 (aligned a s) -> i128 (aligned b s) ->
  Numeric.compare a b = (at38 a ?= at38 b).
Proof.
  intros s Wa Wb Fa Fb. rewrite compare_aligned by done. fold s. destruct Wa as [_ Wa], Wb as [_ Wb].
  unfold MAX_SCALE in *. assert (0 < 10 ^ (38 - s)) by (apply pow10_pos; lia).
  assert (forall d, 0 <= scale d <= s -> at38 d = aligned d s * 10 ^ (38 - s)) as Eq.
  { intros d Hd. unfold at38, aligned. rewrite <- Z.mul_assoc, <- Z.pow_add_r by lia. do 2 f_equal. lia. }
  rewrite !Eq by lia. apply Zmult_compare_compat_r. lia.
Qed.

(** ** Values of an indexable column *)

Definition numeric_ok (d : Decimal) : Prop := is_nan d = true \/ wf_decimal d.

(** [v] is what a column of type [t] stores and the encoder accepts; a float is
    neither [NaN] nor the negative zero. *)
Definition key_value (t : Ty.ColumnType) (v : Value) : Prop :=
  match Ty.physical t, v with
  | _, Val.Null => True
  | Ty.Bool, Val.Bool _ => True
  | Ty.Int, Val.Int v | Ty.Time, Val.Time v | Ty.TimeTz, Val.TimeTz v
  | Ty.Timestamp, Val.Timestamp v | Ty.TimestampTz, Val.TimestampTz v => i64 v
  | Ty.Date, Val.Date v => i32 v
  | Ty.Float, Val.Float f => u64 f /\ f64_is_nan f = false /\ f <> SIGN64
  | Ty.Text, Val.Text _ | Ty.Json, Val.Json _ | Ty.Bytes, Val.Bytes _ => True
  | Ty.Uuid, Val.Uuid b => length b = 16%nat
  | Ty.Macaddr, Val.Macaddr b => length b = 6%nat
  | Ty.Macaddr8, Val.Macaddr8 b => length b = 8%nat
  | Ty.Numeric _ _, Val.Numeric d => numeric_ok d
  | Ty.Enum, Val.Enum o _ => u32 o
  | _, _ => False
  end.

(** The order of an index: [NULLS FIRST], ascending. *)
Definition key_order (a b : Value) : comparison := compare_order_key a b true First.

(** The same, decimals by their value. *)
Definition exact_order (a b : Value) : comparison :=
  match a, b with
  | Val.Numeric x, Val.Numeric y =>
      match is_nan x, is_nan y with
      | true, true => Eq
      | true, false => Gt
      | false, true => Lt
      | false, false => (value x ?= value y)%Q
      end
  | _, _ => key_order a b
  end.

(** Two decimals whose significands fit at the larger scale. *)
Definition comparable (a b : Value) : Prop :=
  match a, b with
  | Val.Numeric x, Val.Numeric y =>
      is_nan x = true \/ is_nan y = true \/
      (i128 (aligned x (Z.max (scale x) (scale y))) /\ i128 (aligned y (Z.max (scale x) (scale y))))
  | _, _ => True
  end.

Lemma exact_comparable a b t :
  key_value t a -> key_value t b -> comparable a b -> exact_order a b = key_order a b.
Proof.
  intros Ha Hb. destruct a as [| | | | | | | | | | | | | | | |x| | | | | | | | | |], b as [| | | | | | | | | | | | | | | |y| | | | | | | | | |]; try done.
  intros Hc. unfold exact_order, key_order, compare_order_key. cbn [is_null Bool.eqb negb andb compare].
  unfold key_value in *. destruct (Ty.physical t); try done. cbn [comparable] in Hc.
  destruct (is_nan x) eqn:Nx, (is_nan y) eqn:Ny; try (unfold Numeric.compare; by rewrite Nx, Ny).
  destruct Ha as [?|Wa], Hb as [?|Wb]; try congruence. destruct Hc as [?|[?|[Fa Fb]]]; try congruence.
  rewrite compare_aligned by done. destruct Wa as [_ Wa], Wb as [_ Wb]. apply value_compare; lia.
Qed.

Definition field (v : Value) : bytes := match Key.encode_field v [] with Ok f => f | _ => [] end.

(** The field of a non-null value: its tag and its payload. *)
Definition encodes (v : Value) (p : bytes) : Prop := forall out, Key.encode_non_null v out = Ok (out ++ p).

Lemma field_some v p :
  encodes v p -> (forall out, Key.encode_field v out = Ok (out ++ z2b 1 :: p)) /\ field v = z2b 1 :: p.
Proof.
  intros H. assert (is_null v = false) as Hn by (destruct v; try done; by specialize (H [])).
  assert (forall out, Key.encode_field v out = Ok (out ++ z2b 1 :: p)) as E.
  { intros out. transitivity (Key.encode_non_null v (out ++ [z2b 1])); [by destruct v|]. by rewrite H, <- app_assoc. }
  split; [done|]. unfold field. by rewrite E.
Qed.

Lemma field_null : (forall out, Key.encode_field Val.Null out = Ok (out ++ [z2b 0])) /\ field Val.Null = [z2b 0].
Proof. done. Qed.

Lemma decides_tagged a b c : decides a b c -> decides (z2b 1 :: a) (z2b 1 :: b) c.
Proof. intros H x y Hx Hy. cbn [app]. rewrite cmp_cons, Z.compare_refl. by apply H. Qed.

Lemma nan_encodes d : is_nan d = true -> encodes (Val.Numeric d) (z2b 3 :: replicate 77 (z2b 48)).
Proof. intros H out. cbn. unfold Key.encode_numeric. by rewrite H. Qed.

Lemma decides_nan a b da :
  is_nan b = true -> wf_decimal a -> columns a da ->
  decides (numeric_field a da) (z2b 3 :: replicate 77 (z2b 48)) Lt /\
  decides (z2b 3 :: replicate 77 (z2b 48)) (numeric_field a da) Gt.
Proof.
  intros Hb Wa Ca. unfold numeric_field. split; intros x y _ _; cbn [app]; rewrite cmp_cons;
    change (b2z (z2b 3)) with 3; by destruct (mantissa a <? 0).
Qed.

(** The payloads of two decimals. *)
Lemma numeric_payloads x y :
  numeric_ok x -> numeric_ok y ->
  exists p q, encodes (Val.Numeric x) p /\ encodes (Val.Numeric y) q /\
    decides p q (exact_order (Val.Numeric x) (Val.Numeric y)).
Proof.
  intros Hx Hy. cbn [exact_order].
  destruct (is_nan x) eqn:Nx, (is_nan y) eqn:Ny.
  - set (n := z2b 3 :: replicate 77 (z2b 48)). exists n, n. split_and!; [by apply nan_encodes..|].
    rewrite <- (proj2 (cmp_bytes_eq n n) eq_refl). by apply decides_fixed.
  - destruct Hy as [?|Wy]; [congruence|]. destruct (encode_numeric_columns y Wy) as (dy & Cy & Ey).
    eexists _, _. split_and!; [by apply nan_encodes|exact Ey|by apply (decides_nan y x)].
  - destruct Hx as [?|Wx]; [congruence|]. destruct (encode_numeric_columns x Wx) as (dx & Cx & Ex).
    eexists _, _. split_and!; [exact Ex|by apply nan_encodes|by apply (decides_nan x y)].
  - destruct Hx as [?|Wx]; [congruence|]. destruct Hy as [?|Wy]; [congruence|].
    destruct (encode_numeric_columns x Wx) as (dx & Cx & Ex).
    destruct (encode_numeric_columns y Wy) as (dy & Cy & Ey).
    eexists _, _. split_and!; [exact Ex|exact Ey|].
    rewrite (value_compare x y 38) by (destruct Wx, Wy; unfold MAX_SCALE in *; lia).
    by apply decides_numeric.
Qed.

Lemma text_encodes s : encodes (Val.Text s) (escape s) /\ encodes (Val.Json s) (escape s) /\ encodes (Val.Bytes s) (escape s).
Proof. split_and!; intros out; cbn; by rewrite encode_ordered_bytes_app. Qed.

Lemma decides_bool a b : decides [z2b (Z.b2z a)] [z2b (Z.b2z b)] (cmp_bool a b).
Proof. intros x y _ _. by destruct a, b. Qed.

Lemma float_encodes f : f64_is_nan f = false -> encodes (Val.Float f) (be_bytes 8 (Key.ordered_bits f)).
Proof. intros H out. cbn. by rewrite H. Qed.

(** Two non-null values of one column. *)
Lemma payloads t a b :
  key_value t a -> key_value t b -> is_null a = false -> is_null b = false ->
  exists p q, encodes a p /\ encodes b q /\ decides p q (exact_order a b).
Proof.
  intros Ha Hb Na Nb. unfold key_value in *. destruct (Ty.physical t), a; try done; destruct b; try done;
    cbn [is_null] in Na, Nb; try (by apply numeric_payloads);
    unfold exact_order, key_order, compare_order_key; cbn [is_null Bool.eqb negb andb compare];
    (eexists _, _; split_and!; [first [apply text_encodes|apply float_encodes, Ha|apply float_encodes, Hb|intros out; reflexivity]..|]);
    first [apply decides_int; done|apply decides_date; done|apply decides_bool|apply decides_escape
          |apply decides_fixed; congruence|apply decides_float; naive_solver|apply decides_be; done].
Qed.

(** ** Whole keys *)

Lemma key_value_payload t a : key_value t a -> is_null a = false -> exists p, encodes a p.
Proof. intros Ha Na. destruct (payloads t a a Ha Ha Na Na) as (p & _ & H & _). by exists p. Qed.

Lemma field_encoded t a : key_value t a -> forall out, Key.encode_field a out = Ok (out ++ field a).
Proof.
  intros Ha out. destruct (is_null a) eqn:Na; [by destruct a|].
  destruct (key_value_payload t a Ha Na) as (p & H). destruct (field_some a p H) as [E ->]. by rewrite E.
Qed.

Lemma field_tag t a : key_value t a -> exists r, field a = z2b (if is_null a then 0 else 1) :: r.
Proof.
  intros Ha. destruct (is_null a) eqn:Na; [destruct a; try done; by eexists|].
  destruct (key_value_payload t a Ha Na) as (p & H). destruct (field_some a p H) as [_ ->]. by eexists.
Qed.

Lemma field_decides t a b : key_value t a -> key_value t b -> decides (field a) (field b) (exact_order a b).
Proof.
  intros Ha Hb. destruct (is_null a) eqn:Na, (is_null b) eqn:Nb.
  - by destruct a, b.
  - destruct (field_tag t b Hb) as (r & ->). rewrite Nb. destruct a; try done.
    intros x y _ _. change (field Val.Null) with [z2b 0]. cbn [app]. rewrite cmp_cons. by destruct b.
  - destruct (field_tag t a Ha) as (r & ->). rewrite Na. destruct b; try done.
    intros x y _ _. change (field Val.Null) with [z2b 0]. cbn [app]. rewrite cmp_cons. by destruct a.
  - destruct (payloads t a b Ha Hb Na Nb) as (p & q & Hp & Hq & Hd).
    destruct (field_some a p Hp) as [_ ->], (field_some b q Hq) as [_ ->]. by apply decides_tagged.
Qed.

Definition key_bytes (ks : list Value) : bytes := mjoin (field <$> ks).

Lemma key_encoded ts ks :
  Forall2 key_value ts ks -> forall out, Key.encode_fields ks out = Ok (out ++ key_bytes ks).
Proof.
  induction 1 as [|t k ts ks Hk _ IH]; intros out; [by rewrite app_nil_r|].
  cbn [Key.encode_fields]. rewrite (field_encoded t) by done. cbn [rbind]. rewrite IH. by rewrite <- app_assoc.
Qed.

Lemma key_tail ts ks x : Forall2 key_value ts ks -> tail_ok x -> tail_ok (key_bytes ks ++ x).
Proof.
  intros H Hx. destruct H as [|t k ts ks Hk _]; [done|]. unfold key_bytes. cbn.
  destruct (field_tag t k Hk) as (r & ->). cbn. by destruct (is_null k).
Qed.

Lemma keys_decide ts ka kb :
  Forall2 key_value ts ka -> Forall2 key_value ts kb -> decides (key_bytes ka) (key_bytes kb) (cmp_list exact_order ka kb).
Proof.
  intros Ha. revert kb. induction Ha as [|t a ts ka Ha Hka IH]; intros kb Hb.
  - inversion Hb. by intros x y _ _.
  - inversion Hb as [|? b ? kb' Hkb Hb']; subst. intros x y Hx Hy.
    change (key_bytes (a :: ka)) with (field a ++ key_bytes ka). change (key_bytes (b :: kb')) with (field b ++ key_bytes kb').
    rewrite <- !app_assoc, (field_decides t a b) by (done || by eapply key_tail).
    rewrite IH by done. cbn [cmp_list]. by rewrite then_cmp_assoc.
Qed.

Lemma exact_key_order ts ka kb :
  Forall2 key_value ts ka -> Forall2 key_value ts kb -> Forall2 comparable ka kb ->
  cmp_list exact_order ka kb = cmp_list key_order ka kb.
Proof.
  intros Ha Hb Hc. revert ts Ha Hb. induction Hc as [|a b ka kb Hc _ IH]; intros ts Ha Hb; [done|].
  inversion Ha; inversion Hb; subst; simplify_eq. cbn [cmp_list].
  by erewrite exact_comparable, IH by done.
Qed.
