(* ===== verification/IndexKeyThm.v ===== *)
(** * What index keys promise

    The byte order of encoded keys is the order of the values; a scan's encoded
    range selects exactly the keys its bounds describe. *)

From S2P Require Import Prelude Order Core Codec Catalog Numeric NumericFacts NumericThm Float Interval Inet Values Mvcc Index IndexKey IndexKeyFacts.
From stdpp Require Import base list strings.
From Stdlib Require Import ZArith Lia Strings.Byte QArith.
#[local] Open Scope Z_scope.


(** ** Key ranges *)

(** What a bound says of a key: it names the first columns of the key. *)
Definition lo_admits (lo : Bound (list Value)) (k : list Value) : bool :=
  match lo with
  | Unbounded => true
  | Included vs => bool_decide (cmp_list exact_order (take (length vs) k) vs <> Lt)
  | Excluded vs => bool_decide (cmp_list exact_order (take (length vs) k) vs = Gt)
  end.
Definition hi_admits (hi : Bound (list Value)) (k : list Value) : bool :=
  match hi with
  | Unbounded => true
  | Included vs => bool_decide (cmp_list exact_order (take (length vs) k) vs <> Gt)
  | Excluded vs => bool_decide (cmp_list exact_order (take (length vs) k) vs = Lt)
  end.

(** A bound over a key of types [ts]: values of its first columns. *)
Definition bound_of (ts : list Ty.ColumnType) (b : Bound (list Value)) : Prop :=
  match b with Unbounded => True | Included vs | Excluded vs => Forall2 key_value (take (length vs) ts) vs end.

Lemma prefix_parts ts k vs :
  Forall2 key_value ts k -> Forall2 key_value (take (length vs) ts) vs ->
  (length vs <= length ts)%nat /\ Forall2 key_value (take (length vs) ts) (take (length vs) k) /\
  Forall2 key_value (drop (length vs) ts) (drop (length vs) k) /\
  key_bytes k = key_bytes (take (length vs) k) ++ key_bytes (drop (length vs) k).
Proof.
  intros Hk Hv. pose proof (Forall2_length _ _ _ Hv) as L. rewrite length_take in L.
  split_and!; [lia|by apply Forall2_take|by apply Forall2_drop|].
  rewrite <- (take_drop (length vs) k) at 1. unfold key_bytes. by rewrite fmap_app, join_app.
Qed.

(** A key against an encoded prefix, bare or followed by a byte above every tag. *)
Lemma prefix_cmp ts k vs (past : bool) :
  Forall2 key_value ts k -> Forall2 key_value (take (length vs) ts) vs ->
  cmp_bytes (key_bytes k) (key_bytes vs ++ (if past then [Key.PAST_PREFIX] else [])) =
  then_cmp (cmp_list exact_order (take (length vs) k) vs)
    (if past then Lt else if decide (length vs = length ts) then Eq else Gt).
Proof.
  intros Hk Hv. destruct (prefix_parts ts k vs Hk Hv) as (Hl & H1 & H2 & ->).
  rewrite (keys_decide _ _ _ H1 Hv).
  2: { rewrite <- (app_nil_r (key_bytes _)). by eapply key_tail. }
  2: { by destruct past. }
  f_equal. set (tk := drop (length vs) k) in *. pose proof (Forall2_length _ _ _ H2) as L2. rewrite length_drop in L2.
  destruct tk as [|v tk].
  - cbn in L2. rewrite decide_True by lia. by destruct past.
  - cbn in L2. rewrite decide_False by lia. inversion H2 as [|t ? ? ? Hv0]; subst.
    unfold key_bytes. cbn. destruct (field_tag t v Hv0) as (r & ->). destruct past; [|done]. cbn [app].
    rewrite cmp_cons. by destruct (is_null v).
Qed.

Lemma bound_encoded ts vs past :
  Forall2 key_value ts vs -> Key.encode_bound vs past = Ok (key_bytes vs ++ (if past then [Key.PAST_PREFIX] else [])).
Proof.
  intros H. unfold Key.encode_bound, Key.encode_index_key. rewrite (key_encoded ts vs H []). cbn.
  by destruct past; rewrite ?app_nil_r.
Qed.

Lemma lo_encoded ts lo :
  bound_of ts lo ->
  exists lo', match lo with
    | Unbounded => Ok Unbounded
    | Included values => rmap Included (Key.encode_bound values false)
    | Excluded values =>
        if (length values <? length ts)%nat then rmap Included (Key.encode_bound values true)
        else rmap Excluded (Key.encode_bound values false)
    end = Ok lo' /\ forall k, Forall2 key_value ts k -> negb (below_lo lo' (key_bytes k)) = lo_admits lo k.
Proof.
  intros Hb. destruct lo as [vs|vs|]; cbn [bound_of] in Hb; [..|by eexists].
  - rewrite (bound_encoded _ vs false Hb). eexists. split; [done|]. intros k Hk. cbn [below_lo lo_admits].
    rewrite (prefix_cmp ts k vs false Hk Hb). repeat case_bool_decide; destruct (cmp_list exact_order _ vs), (decide _); done.
  - destruct (Nat.ltb_spec (length vs) (length ts)).
    + rewrite (bound_encoded _ vs true Hb). eexists. split; [done|]. intros k Hk. cbn [below_lo lo_admits].
      rewrite (prefix_cmp ts k vs true Hk Hb). repeat case_bool_decide; destruct (cmp_list exact_order _ vs); done.
    + rewrite (bound_encoded _ vs false Hb). eexists. split; [done|]. intros k Hk. cbn [below_lo lo_admits].
      rewrite (prefix_cmp ts k vs false Hk Hb), decide_True
        by (pose proof (proj1 (prefix_parts ts k vs Hk Hb)); lia).
      repeat case_bool_decide; destruct (cmp_list exact_order _ vs); done.
Qed.

Lemma hi_encoded ts hi :
  bound_of ts hi ->
  exists hi', match hi with
    | Unbounded => Ok Unbounded
    | Included values =>
        if (length values <? length ts)%nat then rmap Excluded (Key.encode_bound values true)
        else rmap Included (Key.encode_bound values false)
    | Excluded values => rmap Excluded (Key.encode_bound values false)
    end = Ok hi' /\ forall k, Forall2 key_value ts k -> negb (above_hi hi' (key_bytes k)) = hi_admits hi k.
Proof.
  intros Hb. destruct hi as [vs|vs|]; cbn [bound_of] in Hb; [..|by eexists].
  - destruct (Nat.ltb_spec (length vs) (length ts)).
    + rewrite (bound_encoded _ vs true Hb). eexists. split; [done|]. intros k Hk. cbn [above_hi hi_admits].
      rewrite (prefix_cmp ts k vs true Hk Hb). repeat case_bool_decide; destruct (cmp_list exact_order _ vs); done.
    + rewrite (bound_encoded _ vs false Hb). eexists. split; [done|]. intros k Hk. cbn [above_hi hi_admits].
      rewrite (prefix_cmp ts k vs false Hk Hb), decide_True
        by (pose proof (proj1 (prefix_parts ts k vs Hk Hb)); lia).
      repeat case_bool_decide; destruct (cmp_list exact_order _ vs); done.
  - rewrite (bound_encoded _ vs false Hb). eexists. split; [done|]. intros k Hk. cbn [above_hi hi_admits].
    rewrite (prefix_cmp ts k vs false Hk Hb). repeat case_bool_decide; destruct (cmp_list exact_order _ vs), (decide _); done.
Qed.


(** ** Instances *)

Definition key_types : list Ty.ColumnType := [Ty.VarChar 10; Ty.Numeric 0 0; Ty.Int].
Definition key_one : list Value := [Val.Text [z2b 97]; Val.Numeric (MkDec 15 1); Val.Int (-3)].
Definition key_two : list Value := [Val.Text [z2b 97; z2b 0]; Val.Numeric (MkDec (-2) 0); Val.Null].

Lemma key_one_typed : Forall2 key_value key_types key_one.
Proof. constructor; [done|]. constructor; [right; split; by vm_compute|]. by repeat constructor. Qed.
Lemma key_two_typed : Forall2 key_value key_types key_two.
Proof. constructor; [done|]. constructor; [right; split; by vm_compute|]. by repeat constructor. Qed.


