(* ===== verification/InetFacts.v ===== *)
(** * Facts about network addresses

    An address as its bits, most significant first. Every octet operation of
    [inet.rs] is a list operation on the bits; the octet-level facts are checked
    on all octets. *)

From S2P Require Import Prelude Order Codec Interval Inet.
From stdpp Require Import base list.
From Stdlib Require Import ZArith Lia Strings.Byte.
#[local] Open Scope Z_scope.

Definition byte_bits (b : byte) : list bool := (fun i => Z.testbit (b2z b) (7 - Z.of_nat i)) <$> seq 0 8.
Definition bits_of (o : bytes) : list bool := mjoin (byte_bits <$> o).
Definition bval (l : list bool) : Z := foldl (fun n b => 2 * n + Z.b2z b) 0 l.

(** An equation on one octet and a count of bits, checked on all of them. *)
Lemma by_octet {A} `{EqDecision A} (f g : byte -> nat -> A) :
  forallb (fun z => forallb (fun r => bool_decide (f (z2b z) r = g (z2b z) r)) (seq 0 9)) (seqZ 0 256) = true ->
  forall b r, (r <= 8)%nat -> f b r = g b r.
Proof.
  intros H b r Hr. rewrite forallb_forall in H. pose proof (b2z_range b) as Hb.
  assert (In (b2z b) (seqZ 0 256)) as Hi by (apply list_elem_of_In, elem_of_seqZ; lia).
  specialize (H _ Hi). rewrite z2b_b2z, forallb_forall in H. apply (bool_decide_eq_true_1 (f b r = g b r)), H, in_seq. lia.
Qed.

Lemma byte_bits_length b : length (byte_bits b) = 8%nat.
Proof. done. Qed.

Lemma bits_of_length o : length (bits_of o) = (8 * length o)%nat.
Proof.
  induction o as [|b o IH]; [done|]. change (bits_of (b :: o)) with (byte_bits b ++ bits_of o).
  rewrite length_app, IH, byte_bits_length. cbn. lia.
Qed.

(** The mask of the leading [r] bits of an octet. *)
Definition lead (r : nat) : Z := 256 - 2 ^ (8 - Z.of_nat r).

Lemma set_host b r :
  (r <= 8)%nat -> byte_bits (z2b (Z.lor (b2z b) (2 ^ (8 - Z.of_nat r) - 1))) = take r (byte_bits b) ++ replicate (8 - r) true.
Proof. apply (by_octet (fun b r => byte_bits (z2b (Z.lor (b2z b) (2 ^ (8 - Z.of_nat r) - 1)))) (fun b r => take r (byte_bits b) ++ replicate (8 - r) true)). by vm_compute. Qed.

Lemma clear_host b r :
  (r <= 8)%nat ->
  byte_bits (z2b (Z.land (b2z b) (Inet.not_u8 (2 ^ (8 - Z.of_nat r) - 1)))) = take r (byte_bits b) ++ replicate (8 - r) false.
Proof.
  apply (by_octet (fun b r => byte_bits (z2b (Z.land (b2z b) (Inet.not_u8 (2 ^ (8 - Z.of_nat r) - 1)))))
    (fun b r => take r (byte_bits b) ++ replicate (8 - r) false)). by vm_compute.
Qed.

Lemma lead_bits b r : (r <= 8)%nat -> Z.land (b2z b) (lead r) = bval (take r (byte_bits b)) * 2 ^ (8 - Z.of_nat r).
Proof.
  apply (by_octet (fun b r => Z.land (b2z b) (lead r)) (fun b r => bval (take r (byte_bits b)) * 2 ^ (8 - Z.of_nat r))).
  by vm_compute.
Qed.

Lemma byte_bval b : b2z b = bval (byte_bits b).
Proof. apply (by_octet (fun b _ => b2z b) (fun b _ => bval (byte_bits b))) with (r := 0%nat); [by vm_compute|lia]. Qed.

Lemma host_zero b r :
  (r <= 8)%nat -> (Z.land (b2z b) (2 ^ (8 - Z.of_nat r) - 1) =? 0) = forallb negb (drop r (byte_bits b)).
Proof.
  apply (by_octet (fun b r => Z.land (b2z b) (2 ^ (8 - Z.of_nat r) - 1) =? 0) (fun b r => forallb negb (drop r (byte_bits b)))).
  by vm_compute.
Qed.

Lemma one_bit b r :
  (r <= 8)%nat -> Z.land (b2z b) (Z.shiftr 128 (Z.of_nat r)) = Z.b2z (nth r (byte_bits b) false) * Z.shiftr 128 (Z.of_nat r).
Proof.
  apply (by_octet (fun b r => Z.land (b2z b) (Z.shiftr 128 (Z.of_nat r)))
    (fun b r => Z.b2z (nth r (byte_bits b) false) * Z.shiftr 128 (Z.of_nat r))). by vm_compute.
Qed.

(** ** Bit lists as numbers *)

Lemma bval_app a b : bval (a ++ b) = bval a * 2 ^ Z.of_nat (length b) + bval b.
Proof.
  unfold bval. rewrite foldl_app. generalize (foldl (fun n b => 2 * n + Z.b2z b) 0 a) as n.
  induction b as [|x b IH] using rev_ind; intros n; [cbn; lia|].
  rewrite !foldl_app, length_app, Nat2Z.inj_add, Z.pow_add_r by lia. cbn. rewrite IH. lia.
Qed.

Lemma bval_range l : 0 <= bval l < 2 ^ Z.of_nat (length l).
Proof.
  induction l as [|x l IH] using rev_ind; [cbn; lia|]. rewrite bval_app, length_app, Nat2Z.inj_add, Z.pow_add_r by lia.
  cbn. destruct x; cbn; lia.
Qed.

Lemma cmp_bits a b : length a = length b -> cmp_list cmp_bool a b = (bval a ?= bval b).
Proof.
  revert b. induction a as [|x a IH]; intros [|y b] H; try done. cbn [cmp_list]. cbn in H. rewrite IH by lia.
  change (x :: a) with ([x] ++ a). change (y :: b) with ([y] ++ b). rewrite !bval_app.
  pose proof (bval_range a). pose proof (bval_range b). replace (length b) with (length a) in * by lia.
  set (p := 2 ^ Z.of_nat (length a)) in *. destruct x, y; cbn; symmetry.
  - apply Z.add_compare_mono_l.
  - apply Z.compare_gt_iff. lia.
  - apply Z.compare_lt_iff. lia.
  - done.
Qed.

Lemma cmp_bool_eq x y : cmp_bool x y = Eq -> x = y.
Proof. by destruct x, y. Qed.

Lemma bval_inj a b : length a = length b -> bval a = bval b -> a = b.
Proof.
  intros Hl E. apply (cmp_list_eq cmp_bool); [exact cmp_bool_eq|]. rewrite cmp_bits by done. by apply Z.compare_eq_iff.
Qed.

Lemma cmp_byte_bits x y : cmp_byte x y = cmp_list cmp_bool (byte_bits x) (byte_bits y).
Proof. rewrite cmp_bits by done. unfold cmp_byte. by rewrite !byte_bval. Qed.

Lemma cmp_bytes_bits a b : length a = length b -> cmp_bytes a b = cmp_list cmp_bool (bits_of a) (bits_of b).
Proof.
  revert b. induction a as [|x a IH]; intros [|y b] H; try done. cbn in H.
  change (bits_of (x :: a)) with (byte_bits x ++ bits_of a). change (bits_of (y :: b)) with (byte_bits y ++ bits_of b).
  rewrite cmp_list_app by done. unfold cmp_bytes in *. cbn [cmp_list]. rewrite IH by lia. by rewrite cmp_byte_bits.
Qed.

(** ** Splitting at a bit *)

Lemma bits_cons b o : bits_of (b :: o) = byte_bits b ++ bits_of o.
Proof. done. Qed.

Lemma bits_app a b : bits_of (a ++ b) = bits_of a ++ bits_of b.
Proof. unfold bits_of. by rewrite fmap_app, join_app. Qed.

Lemma take_bits o (w r : nat) : take (8 * w + r) (bits_of o) = bits_of (take w o) ++ take r (bits_of (drop w o)).
Proof.
  rewrite <- (take_drop w o) at 1. rewrite bits_app.
  destruct (decide (w <= length o)%nat) as [H|H].
  - rewrite take_app_add'; [done|]. rewrite bits_of_length, length_take. lia.
  - rewrite (drop_ge o w) by lia. change (bits_of []) with (@nil bool). rewrite app_nil_r, take_nil, app_nil_r, take_ge; [done|].
    rewrite bits_of_length, length_take. lia.
Qed.

Lemma lead_mask r : (0 < r <= 8)%nat -> Z.land (Z.shiftl 255 (8 - Z.of_nat r)) 255 = lead r.
Proof. intros H. do 9 (destruct r as [|r]; [try lia; done|]). lia. Qed.

(** The leading bits of an octet, compared under the mask. *)
Lemma cmp_lead x y r :
  (r <= 8)%nat ->
  (Z.land (b2z x) (lead r) ?= Z.land (b2z y) (lead r)) = cmp_list cmp_bool (take r (byte_bits x)) (take r (byte_bits y)).
Proof.
  intros Hr. rewrite !lead_bits by done. rewrite cmp_bits by (by rewrite !length_take).
  symmetry. apply Zmult_compare_compat_r. apply Z.lt_gt, Z.pow_pos_nonneg; lia.
Qed.

Lemma zip_cmp_take w a b :
  length a = length b -> Inet.zip_cmp (take w a) b = cmp_bytes (take w a) (take w b).
Proof.
  revert a b. induction w as [|w IH]; intros [|x a] [|y b] H; try done. cbn in *. by rewrite IH by lia.
Qed.

(** Comparing the first [n] bits. *)
Lemma bitncmp_bits a b n :
  length a = length b -> 0 <= n <= 8 * Z.of_nat (length a) ->
  Inet.bitncmp a b n = cmp_list cmp_bool (take (Z.to_nat n) (bits_of a)) (take (Z.to_nat n) (bits_of b)).
Proof.
  intros Hl Hn. unfold Inet.bitncmp. rewrite zip_cmp_take by done.
  set (w := Z.to_nat (n / 8)). pose proof (Z.mod_pos_bound n 8 ltac:(lia)) as Hr. pose proof (Z.div_mod n 8 ltac:(lia)) as Hd.
  assert (0 <= n / 8) by (apply Z.div_pos; lia).
  replace (Z.to_nat n) with (8 * w + Z.to_nat (n mod 8))%nat by (unfold w; lia).
  rewrite !take_bits, cmp_list_app by (rewrite !bits_of_length, !length_take; lia).
  rewrite (cmp_bytes_bits (take w a)) by (rewrite !length_take; lia).
  destruct (cmp_list cmp_bool (bits_of _) (bits_of _)); try done. cbn [then_cmp].
  destruct (Z.eqb_spec (n mod 8) 0) as [E|E]; [by rewrite E|].
  assert (w < length a)%nat as Hw by (unfold w; lia).
  destruct (lookup_lt_is_Some_2 a w Hw) as [x Hx]. destruct (lookup_lt_is_Some_2 b w ltac:(lia)) as [y Hy].
  rewrite (drop_S a x w Hx), (drop_S b y w Hy), !bits_cons. unfold Inet.octet. rewrite Hx, Hy. cbn [fmap option_fmap option_map default].
  rewrite !take_app_le by (rewrite byte_bits_length; lia).
  rewrite <- cmp_lead by lia. replace (8 - n mod 8) with (8 - Z.of_nat (Z.to_nat (n mod 8))) by lia. by rewrite lead_mask by lia.
Qed.

Lemma eq_lead x y r :
  (r <= 8)%nat ->
  (Z.land (b2z x) (lead r) =? Z.land (b2z y) (lead r)) = bool_decide (take r (byte_bits x) = take r (byte_bits y)).
Proof.
  intros Hr. rewrite !lead_bits by done.
  assert (0 < 2 ^ (8 - Z.of_nat r)) by (apply Z.pow_pos_nonneg; lia).
  case_bool_decide as E; [rewrite E; apply Z.eqb_refl|]. apply Z.eqb_neq. intros E'. apply E, bval_inj; [by rewrite !length_take|nia].
Qed.

Lemma take_take_app {A} (n : nat) (p q : list A) : (length p <= n)%nat -> take n (p ++ q) = p ++ take (n - length p) q.
Proof. intros H. rewrite take_app_ge by done. done. Qed.

Lemma prefix_eq_bits a b n :
  length a = length b -> 0 <= n ->
  Inet.prefix_eq a b n = bool_decide (take (Z.to_nat n) (bits_of a) = take (Z.to_nat n) (bits_of b)).
Proof.
  revert b n. induction a as [|x a IH]; intros [|y b] n Hl Hn; try done.
  - by rewrite bool_decide_true.
  - cbn in Hl. cbn [Inet.prefix_eq]. rewrite !bits_cons. destruct (Z.leb_spec 8 n).
    + rewrite !take_take_app by (rewrite byte_bits_length; lia). rewrite !byte_bits_length.
      replace (Z.to_nat n - 8)%nat with (Z.to_nat (n - 8)) by lia.
      destruct (Z.eqb_spec (b2z x) (b2z y)) as [E|E].
      * assert (x = y) as -> by (by rewrite <- (z2b_b2z x), E, z2b_b2z). rewrite IH by lia.
        apply bool_decide_ext. split; [by intros ->|by intros ?%app_inv_head].
      * symmetry. apply bool_decide_eq_false. intros [E' _]%app_inj_1; [|done]. apply E. by rewrite !byte_bval, E'.
    + rewrite !take_app_le by (rewrite byte_bits_length; lia).
      destruct (Z.eqb_spec n 0) as [->|]; [done|].
      replace (8 - n) with (8 - Z.of_nat (Z.to_nat n)) by lia. rewrite lead_mask by lia. apply eq_lead. lia.
Qed.

(** ** Well-formed values *)

Definition wf_addr (a : IpAddr) : Prop := Z.of_nat (8 * length (Inet.addr_octets a)) = Inet.max_masklen a.
Definition wf_inet (v : InetAddr) : Prop := wf_addr (addr v) /\ 0 <= masklen v <= Inet.max_masklen (addr v).

Definition addr_bits (a : IpAddr) : list bool := bits_of (Inet.addr_octets a).
Definition width (v : InetAddr) : nat := Z.to_nat (Inet.max_masklen (addr v)).
Definition mask_len (v : InetAddr) : nat := Z.to_nat (masklen v).
Definition net (v : InetAddr) : list bool := take (mask_len v) (addr_bits (addr v)).

Lemma addr_bits_length v : wf_inet v -> length (addr_bits (addr v)) = width v.
Proof. intros [H _]. unfold addr_bits, width, wf_addr in *. rewrite bits_of_length. lia. Qed.

Lemma mask_width v : wf_inet v -> (mask_len v <= width v)%nat.
Proof. intros [_ H]. unfold mask_len, width. lia. Qed.

Lemma octets_to_addr_same o a :
  wf_addr a -> length o = length (Inet.addr_octets a) ->
  Inet.addr_octets (Inet.octets_to_addr o (Inet.is_v6 a)) = o /\ wf_addr (Inet.octets_to_addr o (Inet.is_v6 a)) /\
  Inet.is_v6 (Inet.octets_to_addr o (Inet.is_v6 a)) = Inet.is_v6 a /\
  Inet.max_masklen (Inet.octets_to_addr o (Inet.is_v6 a)) = Inet.max_masklen a.
Proof.
  unfold wf_addr, Inet.octets_to_addr. intros Ha Hl.
  destruct a as [oa|oa]; cbn [Inet.is_v6 Inet.addr_octets Inet.max_masklen] in *; rewrite bool_decide_true by lia; cbn [Inet.addr_octets]; split_and!; try done; lia.
Qed.

(** How many of the eight bits from [bit_lo] are in the prefix. *)
Definition clamp (d : Z) : nat := Z.to_nat (Z.min 8 d).

Lemma host_mask_clamp bits bit_lo : Inet.host_mask bits bit_lo = 2 ^ (8 - Z.of_nat (clamp (bits - bit_lo))) - 1.
Proof.
  unfold Inet.host_mask, clamp. destruct (Z.leb_spec bits bit_lo).
  - replace (Z.to_nat (Z.min 8 (bits - bit_lo))) with 0%nat by lia. done.
  - destruct (Z.ltb_spec bits (bit_lo + 8)).
    + rewrite Z.shiftl_1_l. do 2 f_equal. lia.
    + replace (Z.to_nat (Z.min 8 (bits - bit_lo))) with 8%nat by lia. done.
Qed.

Definition mask_byte (set : bool) (d : Z) (b : byte) : byte :=
  let m := 2 ^ (8 - Z.of_nat (clamp d)) - 1 in
  z2b (if set then Z.lor (b2z b) m else Z.land (b2z b) (Inet.not_u8 m)).

Lemma mask_byte_bits set d b : byte_bits (mask_byte set d b) = take (clamp d) (byte_bits b) ++ replicate (8 - clamp d) set.
Proof.
  assert (clamp d <= 8)%nat by (unfold clamp; lia). unfold mask_byte. destruct set; [by apply set_host|by apply clear_host].
Qed.

Lemma masked_octets set o d :
  bits_of (imap (fun i b => mask_byte set (d - Z.of_nat i * 8) b) o) =
  take (Z.to_nat d) (bits_of o) ++ replicate (8 * length o - Z.to_nat d) set.
Proof.
  revert d. induction o as [|b o IH]; intros d; [by destruct (Z.to_nat d)|].
  cbn [imap]. rewrite !bits_cons, mask_byte_bits. replace (d - Z.of_nat 0 * 8) with d by lia.
  rewrite (imap_ext _ (fun i b => mask_byte set (d - 8 - Z.of_nat i * 8) b)) by (intros; cbn; f_equal; lia).
  rewrite IH. rewrite take_app, byte_bits_length. unfold clamp. cbn [length].
  destruct (Z.le_gt_cases d 8).
  - replace (Z.to_nat (Z.min 8 d)) with (Z.to_nat d) by lia. replace (Z.to_nat (d - 8)) with 0%nat by lia.
    replace (Z.to_nat d - 8)%nat with 0%nat by lia. rewrite !take_0. cbn [app]. rewrite app_nil_r, <- app_assoc, <- replicate_add.
    do 2 f_equal. lia.
  - replace (Z.to_nat (Z.min 8 d)) with 8%nat by lia. cbn [Nat.sub replicate]. rewrite app_nil_r.
    rewrite !(take_ge (byte_bits b)) by (rewrite byte_bits_length; lia). rewrite <- app_assoc. do 2 f_equal.
    + f_equal. lia.
    + f_equal. lia.
Qed.

(** The network and the broadcast address. *)
Lemma masked_bits v set :
  wf_inet v ->
  addr_bits (Inet.masked_addr v set) = net v ++ replicate (width v - mask_len v) set /\
  wf_addr (Inet.masked_addr v set) /\ Inet.is_v6 (Inet.masked_addr v set) = Inet.is_v6 (addr v) /\
  Inet.max_masklen (Inet.masked_addr v set) = Inet.max_masklen (addr v).
Proof.
  intros Hv. pose proof (addr_bits_length v Hv) as Hl. destruct Hv as [Ha Hm]. unfold Inet.masked_addr.
  set (o := imap _ _).
  assert (o = imap (fun i b => mask_byte set (masklen v - Z.of_nat i * 8) b) (Inet.addr_octets (addr v))) as Eo.
  { unfold o. apply imap_ext. intros i b _. unfold mask_byte. by rewrite host_mask_clamp. }
  destruct (octets_to_addr_same o (addr v) Ha) as (E1 & E2 & E3 & E4); [unfold o; by rewrite length_imap|].
  split_and!; try done. unfold addr_bits at 1. rewrite E1, Eo, masked_octets. unfold net, mask_len. do 2 f_equal.
  unfold addr_bits in Hl. rewrite bits_of_length in Hl. lia.
Qed.

Lemma host_bits_zero_bits bits i o :
  Inet.host_bits_zero_from bits i o = forallb negb (drop (Z.to_nat (bits - Z.of_nat i * 8)) (bits_of o)).
Proof.
  revert i. induction o as [|b o IH]; intros i; [by destruct (Z.to_nat _)|].
  cbn [Inet.host_bits_zero_from]. rewrite IH, bits_cons. set (d := bits - Z.of_nat i * 8).
  replace (Z.to_nat (bits - Z.of_nat (S i) * 8)) with (Z.to_nat d - 8)%nat by (unfold d; lia).
  set (ok := if bits <=? Z.of_nat i * 8 then _ else _).
  assert (ok = forallb negb (drop (clamp d) (byte_bits b))) as Eok.
  { unfold ok. rewrite <- host_zero by (unfold clamp; lia). unfold clamp, d. destruct (Z.leb_spec bits (Z.of_nat i * 8)).
    - replace (Z.to_nat _) with 0%nat by lia. change (2 ^ (8 - Z.of_nat 0) - 1) with (Z.ones 8).
      rewrite Z.land_ones by lia. rewrite Z.mod_small; [done|apply b2z_range].
    - destruct (Z.ltb_spec bits (Z.of_nat i * 8 + 8)).
      + do 2 f_equal. set (h := Z.of_nat i * 8 + 8 - bits). rewrite Z2Nat.id by lia.
        replace (8 - Z.min 8 (bits - Z.of_nat i * 8)) with h by lia. assert (0 < h < 8) as Hh by lia. clearbody h.
        assert (h = 1 \/ h = 2 \/ h = 3 \/ h = 4 \/ h = 5 \/ h = 6 \/ h = 7) as Hc by lia.
        repeat destruct Hc as [->|Hc]; try done. by rewrite Hc.
      + replace (Z.to_nat _) with 8%nat by lia. cbn. by rewrite Z.land_0_r. }
  rewrite Eok, drop_app, byte_bits_length, forallb_app.
  replace (drop (Z.to_nat d) (byte_bits b)) with (drop (clamp d) (byte_bits b)).
  - by destruct (forallb negb (drop (clamp d) (byte_bits b))).
  - unfold clamp. destruct (Z.le_gt_cases d 8); [by replace (Z.min 8 d) with d by lia|].
    by rewrite !drop_ge by (rewrite byte_bits_length; lia).
Qed.

(** ** The longest common prefix *)

Lemma nth_bits o (n : nat) :
  (n < 8 * length o)%nat ->
  Z.land (Inet.octet o (n / 8)) (Z.shiftr 128 (Z.of_nat (n mod 8))) =
  Z.b2z (nth n (bits_of o) false) * Z.shiftr 128 (Z.of_nat (n mod 8)).
Proof.
  intros Hn. pose proof (Nat.mod_upper_bound n 8 ltac:(lia)) as Hr. pose proof (Nat.div_mod_eq n 8) as Hd.
  destruct (lookup_lt_is_Some_2 o (n / 8)) as [b Hb]; [apply Nat.Div0.div_lt_upper_bound; lia|].
  unfold Inet.octet. rewrite Hb. change (default 0 (b2z <$> Some b)) with (b2z b). rewrite one_bit by lia. do 2 f_equal.
  rewrite <- (take_drop_middle o _ _ Hb), bits_app, bits_cons.
  pose proof (lookup_lt_Some _ _ _ Hb).
  rewrite app_nth2; rewrite bits_of_length, length_take, Nat.min_l by lia; [|lia].
  rewrite app_nth1 by (rewrite byte_bits_length; lia). f_equal. lia.
Qed.

Lemma same_bit a b (n : nat) :
  (n < 8 * length a)%nat -> length a = length b ->
  (Z.land (Inet.octet a (Z.to_nat (Z.of_nat n / 8))) (Z.shiftr 128 (Z.of_nat n mod 8)) =?
   Z.land (Inet.octet b (Z.to_nat (Z.of_nat n / 8))) (Z.shiftr 128 (Z.of_nat n mod 8))) =
  Bool.eqb (nth n (bits_of a) false) (nth n (bits_of b) false).
Proof.
  intros Hn Hl. replace (Z.to_nat (Z.of_nat n / 8)) with (n / 8)%nat by (rewrite <- (Nat2Z.id (n / 8)), Nat2Z.inj_div; done).
  replace (Z.of_nat n mod 8) with (Z.of_nat (n mod 8)) by (by rewrite Nat2Z.inj_mod).
  rewrite !nth_bits by lia. pose proof (Nat.mod_upper_bound n 8 ltac:(lia)) as Hr.
  assert (0 < Z.shiftr 128 (Z.of_nat (n mod 8))) as Hpos.
  { clear -Hr. revert Hr. generalize (n mod 8)%nat as r. intros r Hr. do 8 (destruct r as [|r]; [by vm_compute|]). lia. }
  destruct (nth n (bits_of a) false), (nth n (bits_of b) false); cbn [Z.b2z Bool.eqb]; lia.
Qed.

(** [n] leading bits agree, and the next one, if it is examined, differs. *)
Definition common (x y : list bool) (limit n : nat) : Prop :=
  (n <= limit)%nat /\ take n x = take n y /\ (n < limit -> nth n x false <> nth n y false)%nat.

Lemma take_S_nth (l : list bool) n : (n < length l)%nat -> take (S n) l = take n l ++ [nth n l false].
Proof.
  intros H. destruct (lookup_lt_is_Some_2 l n H) as [x Hx]. rewrite nth_lookup, Hx. by apply take_S_r.
Qed.

Lemma common_from fuel a b (limit n : nat) :
  length a = length b -> (limit <= 8 * length a)%nat -> (limit - n <= fuel)%nat -> (n <= limit)%nat ->
  take n (bits_of a) = take n (bits_of b) ->
  exists c : nat, Inet.common_prefix_from fuel a b (Z.of_nat limit) (Z.of_nat n) = Z.of_nat c /\
    common (bits_of a) (bits_of b) limit c.
Proof.
  intros Hl Hw. revert n. induction fuel as [|fuel IH]; intros n Hf Hn Ht; cbn [Inet.common_prefix_from].
  - exists n. split; [done|]. split_and!; [lia|done|lia].
  - destruct (Z.ltb_spec (Z.of_nat n) (Z.of_nat limit)); [|exists n; split; [done|split_and!; [lia|done|lia]]].
    rewrite same_bit by lia. destruct (Bool.eqb _ _) eqn:E.
    + apply Bool.eqb_prop in E. replace (Z.of_nat n + 1) with (Z.of_nat (S n)) by lia. apply IH; [lia|lia|].
      rewrite !take_S_nth by (rewrite bits_of_length; lia). by rewrite Ht, E.
    + exists n. split; [done|]. split_and!; [lia|done|]. intros _ E'. by rewrite E', Bool.eqb_reflx in E.
Qed.

Lemma common_prefix a b (limit : nat) :
  length a = length b -> (limit <= 8 * length a)%nat ->
  exists c : nat, Inet.common_prefix_len a b (Z.of_nat limit) = Z.of_nat c /\ common (bits_of a) (bits_of b) limit c.
Proof.
  intros Hl Hw. unfold Inet.common_prefix_len. rewrite Nat2Z.id.
  apply (common_from limit a b limit 0); [done|done|lia|lia|done].
Qed.

(** Nothing longer agrees. *)
Lemma common_longest x y limit n k :
  length x = length y -> (limit <= length x)%nat -> common x y limit n -> (k <= limit)%nat -> take k x = take k y -> (k <= n)%nat.
Proof.
  intros Hl Hw (H1 & H2 & H3) Hk Ht. destruct (decide (k <= n)%nat) as [|Hgt]; [done|]. exfalso.
  apply H3; [lia|]. assert (nth n (take k x) false = nth n (take k y) false) as E by (by rewrite Ht).
  rewrite !nth_lookup, !lookup_take_lt in E by lia. by rewrite !nth_lookup.
Qed.

(** ** Addresses as numbers *)

Lemma lor_shift acc b : 0 <= acc -> Z.lor (Z.shiftl acc 8) (b2z b) = acc * 256 + b2z b.
Proof.
  intros Ha. pose proof (b2z_range b). rewrite Z.shiftl_mul_pow2 by lia. change (2 ^ 8) with 256.
  assert (Z.land (acc * 256) (b2z b) = 0) as E.
  { apply Z.bits_inj'. intros i Hi. rewrite Z.land_spec, Z.bits_0. change 256 with (2 ^ 8). rewrite Z.mul_pow2_bits by lia.
    destruct (Z.lt_ge_cases i 8); [by rewrite Z.testbit_neg_r by lia|].
    rewrite (Z.bits_above_log2 (b2z b)); [apply andb_false_r|lia|].
    destruct (Z.eq_dec (b2z b) 0) as [->|]; [cbn; lia|]. apply Z.log2_lt_pow2; [lia|].
    assert (2 ^ 8 <= 2 ^ i) by (apply Z.pow_le_mono_r; lia). lia. }
  pose proof (Z.add_lor_land (acc * 256) (b2z b)). lia.
Qed.

Lemma addr_to_u128_bits a : Inet.addr_to_u128 a = bval (addr_bits a).
Proof.
  unfold Inet.addr_to_u128, addr_bits. generalize (Inet.addr_octets a) as o. intros o.
  enough (forall acc, 0 <= acc -> foldl (fun acc b => Z.lor (Z.shiftl acc 8) (b2z b)) acc o =
    acc * 2 ^ Z.of_nat (8 * length o) + bval (bits_of o)) as H by (rewrite H; lia).
  induction o as [|b o IH]; intros acc Ha; [cbn; lia|]. cbn [foldl]. pose proof (b2z_range b).
  rewrite lor_shift, IH by lia. rewrite bits_cons, bval_app, <- byte_bval, bits_of_length.
  replace (8 * length (b :: o))%nat with (8 + 8 * length o)%nat by (cbn; lia).
  rewrite Nat2Z.inj_add, Z.pow_add_r by lia. change (2 ^ Z.of_nat 8) with 256. lia.
Qed.
