(* ===== verification/InetThm.v ===== *)
(** * What network addresses promise

    Networks as sets of addresses, the order, address arithmetic and the stored
    form. *)

From S2P Require Import Prelude Order Codec Interval Inet InetFacts.
From stdpp Require Import base list.
From Stdlib Require Import ZArith Lia Strings.Byte.
#[local] Open Scope Z_scope.

(** [x] is an address of the network of [v]. *)
Definition in_network (v : InetAddr) (x : IpAddr) : Prop :=
  wf_addr x /\ Inet.is_v6 x = Inet.is_v6 (addr v) /\ take (mask_len v) (addr_bits x) = net v.

Lemma family_width a b : wf_addr a -> wf_addr b -> Inet.is_v6 a = Inet.is_v6 b ->
  length (Inet.addr_octets a) = length (Inet.addr_octets b) /\ Inet.max_masklen a = Inet.max_masklen b.
Proof. unfold wf_addr. destruct a, b; cbn; try done; lia. Qed.

Lemma addr_width a : wf_addr a -> length (addr_bits a) = Z.to_nat (Inet.max_masklen a).
Proof. unfold wf_addr, addr_bits. rewrite bits_of_length. lia. Qed.

Lemma own_network v : wf_inet v -> in_network v (addr v).
Proof. intros [H _]. done. Qed.

Lemma octets_of_bits n (l : list bool) : length l = (8 * n)%nat -> exists o, length o = n /\ bits_of o = l.
Proof.
  revert l. induction n as [|n IH]; intros l Hl; [exists []; split; [done|by destruct l]|].
  destruct (IH (drop 8 l)) as (o & Ho & E); [rewrite length_drop; lia|].
  assert (byte_bits (z2b (bval (take 8 l))) = take 8 l) as Eb.
  { apply bval_inj; [by rewrite length_take, Nat.min_l by lia|].
    rewrite <- byte_bval, b2z_z2b. apply Z.mod_small. pose proof (bval_range (take 8 l)) as R.
    rewrite length_take, Nat.min_l in R by lia. done. }
  exists (z2b (bval (take 8 l)) :: o). split; [cbn; lia|]. rewrite bits_cons, Eb, E. apply take_drop.
Qed.

(** An address of any bits, in the family of [a]. *)
Lemma addr_of_bits a l :
  wf_addr a -> length l = length (addr_bits a) -> exists x, wf_addr x /\ Inet.is_v6 x = Inet.is_v6 a /\ addr_bits x = l.
Proof.
  intros Ha Hl. unfold addr_bits in Hl. rewrite bits_of_length in Hl. destruct (octets_of_bits _ _ Hl) as (o & Ho & E).
  destruct (octets_to_addr_same o a Ha Ho) as (E1 & E2 & E3 & _).
  eexists. split_and!; [exact E2|exact E3|]. unfold addr_bits. by rewrite E1.
Qed.

Lemma network_bits a b :
  wf_inet a -> wf_inet b ->
  Inet.contains_or_equal a b = true <->
  Inet.is_v6 (addr a) = Inet.is_v6 (addr b) /\ (mask_len a <= mask_len b)%nat /\ take (mask_len a) (addr_bits (addr b)) = net a.
Proof.
  intros [Wa Ma] [Wb Mb]. unfold Inet.contains_or_equal, Inet.network_prefix_eq, net, mask_len.
  destruct (Bool.eqb (Inet.is_v6 (addr a)) (Inet.is_v6 (addr b))) eqn:Ef; cbn [negb orb].
  2: { split; [done|]. intros [E _]. by rewrite E, Bool.eqb_reflx in Ef. }
  apply Bool.eqb_prop in Ef. destruct (family_width _ _ Wa Wb Ef) as [L _].
  destruct (Z.ltb_spec (masklen b) (masklen a)); [split; [done|lia]|].
  rewrite prefix_eq_bits, bool_decide_eq_true by (done || lia). unfold addr_bits.
  split; [intros E; split_and!; [done|lia|done]|by intros (_ & _ & E)].
Qed.

(** Containment is containment of the sets of addresses. *)
Lemma contains_iff a b :
  wf_inet a -> wf_inet b ->
  Inet.contains_or_equal a b = true <-> forall x, in_network b x -> in_network a x.
Proof.
  intros Wa Wb. rewrite network_bits by done. pose proof (mask_width a Wa) as Ma. pose proof (mask_width b Wb) as Mb.
  pose proof (addr_bits_length b Wb) as Lb. split.
  - intros (Ef & Hm & E) x (Wx & Fx & Ex). split_and!; [done|congruence|].
    rewrite <- E. unfold net in Ex. rewrite <- (Nat.min_l (mask_len a) (mask_len b)), <- !take_take by done. by rewrite Ex.
  - intros H. destruct (H _ (own_network b Wb)) as (_ & Ef & E). split_and!; [done| |done].
    destruct (family_width _ _ (proj1 Wa) (proj1 Wb) (eq_sym Ef)) as [_ Ew].
    destruct (decide (mask_len a <= mask_len b)%nat) as [|Hgt]; [done|]. exfalso.
    set (x := nth (mask_len b) (addr_bits (addr b)) false).
    destruct (addr_of_bits (addr b) (net b ++ negb x :: drop (S (mask_len b)) (addr_bits (addr b))) (proj1 Wb)) as (y & Wy & Fy & Ey).
    { unfold net. rewrite length_app, length_take. cbn [length]. rewrite length_drop. unfold width in *. lia. }
    destruct (H y) as (_ & _ & Eb).
    { split_and!; [done|done|]. rewrite Ey. apply take_app_length'. unfold net. rewrite length_take. lia. }
    rewrite Ey, <- E in Eb. apply (f_equal (fun l => nth (mask_len b) l false)) in Eb.
    rewrite !nth_lookup, !lookup_take_lt, lookup_app_r in Eb by (unfold net; rewrite ?length_take; lia).
    replace (mask_len b - length (net b))%nat with 0%nat in Eb by (unfold net; rewrite length_take; lia).
    cbn in Eb. unfold x in Eb. rewrite nth_lookup in Eb. by destruct (default false _).
Qed.

Lemma bval_replicate n : bval (replicate n false) = 0 /\ bval (replicate n true) = 2 ^ Z.of_nat n - 1.
Proof.
  induction n as [|n [IH1 IH2]]; [done|]. rewrite !replicate_S_end, !bval_app, IH1, IH2, Nat2Z.inj_succ, Z.pow_succ_r by lia.
  cbn. lia.
Qed.

Lemma to_cidr_wf v : wf_inet v -> wf_inet (Inet.to_cidr v) /\ net (Inet.to_cidr v) = net v /\
  Inet.is_v6 (addr (Inet.to_cidr v)) = Inet.is_v6 (addr v) /\ mask_len (Inet.to_cidr v) = mask_len v.
Proof.
  intros Hv. destruct (masked_bits v false Hv) as (E & W & F & M). pose proof Hv as [_ Hm].
  split_and!; [split; [done|cbn; by rewrite M]| |done|done].
  unfold net at 1. cbn [Inet.to_cidr addr]. change (mask_len (Inet.to_cidr v)) with (mask_len v). rewrite E.
  apply take_app_length'. unfold net. rewrite length_take, addr_bits_length by done. pose proof (mask_width v Hv). lia.
Qed.

Lemma net_length v : wf_inet v -> length (net v) = mask_len v.
Proof. intros Hv. unfold net. rewrite length_take, addr_bits_length by done. pose proof (mask_width v Hv). lia. Qed.

(** The network address is the least, the broadcast address the greatest. *)
Lemma network_bounds v :
  wf_inet v ->
  in_network v (addr (Inet.to_cidr v)) /\ in_network v (addr (Inet.broadcast v)) /\
  forall x, in_network v x ->
    Inet.addr_to_u128 (addr (Inet.to_cidr v)) <= Inet.addr_to_u128 x <= Inet.addr_to_u128 (addr (Inet.broadcast v)).
Proof.
  intros Hv. destruct (masked_bits v false Hv) as (E0 & W0 & F0 & _). destruct (masked_bits v true Hv) as (E1 & W1 & F1 & _).
  pose proof (net_length v Hv) as Ln. cbn [Inet.to_cidr Inet.broadcast addr].
  assert (forall b l, addr_bits b = net v ++ l -> take (mask_len v) (addr_bits b) = net v) as Ht.
  { intros b l ->. by apply take_app_length'. }
  split_and!; [by split_and!; [| |eapply Ht]..|].
  intros x (Wx & Fx & Ex). rewrite !addr_to_u128_bits, E0, E1.
  rewrite <- (take_drop (mask_len v) (addr_bits x)), Ex, !bval_app, !length_replicate.
  assert (length (drop (mask_len v) (addr_bits x)) = (width v - mask_len v)%nat) as Ld.
  { rewrite length_drop. unfold width. rewrite addr_width by done.
    by destruct (family_width _ _ Wx (proj1 Hv) Fx) as [_ ->]. }
  pose proof (bval_range (drop (mask_len v) (addr_bits x))) as R. rewrite Ld in *.
  destruct (bval_replicate (width v - mask_len v)) as [-> ->]. lia.
Qed.

Lemma to_cidr_host_zero v : wf_inet v -> Inet.host_bits_zero (Inet.to_cidr v) = true.
Proof.
  intros Hv. destruct (masked_bits v false Hv) as (E & _). unfold Inet.host_bits_zero. rewrite host_bits_zero_bits.
  replace (masklen (Inet.to_cidr v) - Z.of_nat 0 * 8) with (masklen v) by (cbn; lia).
  change (bits_of _) with (addr_bits (Inet.masked_addr v false)). rewrite E.
  rewrite drop_app_length'; [|by rewrite net_length]. generalize (width v - mask_len v)%nat as n. by induction n.
Qed.

(** The smallest network of two. *)
Lemma merge_spec a b :
  wf_inet a -> wf_inet b ->
  match Inet.merge a b with
  | None => Inet.is_v6 (addr a) <> Inet.is_v6 (addr b)
  | Some m =>
      wf_inet m /\ Inet.contains_or_equal m a = true /\ Inet.contains_or_equal m b = true /\
      forall n, wf_inet n -> Inet.contains_or_equal n a = true -> Inet.contains_or_equal n b = true -> Inet.contains_or_equal n m = true
  end.
Proof.
  intros Wa Wb. unfold Inet.merge. destruct (Bool.eqb (Inet.is_v6 (addr a)) (Inet.is_v6 (addr b))) eqn:Ef; cbn [negb].
  2: { intros E. by rewrite E, Bool.eqb_reflx in Ef. }
  apply Bool.eqb_prop in Ef. destruct (family_width _ _ (proj1 Wa) (proj1 Wb) Ef) as [L Ew].
  pose proof (mask_width a Wa) as Ma. pose proof (mask_width b Wb) as Mb. pose proof (addr_bits_length a Wa) as La.
  pose proof (addr_bits_length b Wb) as Lb. pose proof Wa as [_ Ra]. pose proof Wb as [_ Rb].
  assert (Z.min (masklen a) (masklen b) = Z.of_nat (mask_len a `min` mask_len b)) as -> by (unfold mask_len; lia).
  destruct (common_prefix (Inet.addr_octets (addr a)) (Inet.addr_octets (addr b)) (mask_len a `min` mask_len b) L) as (c & -> & Hc).
  { unfold addr_bits in La. rewrite bits_of_length in La. unfold mask_len, width in *. lia. }
  pose proof Hc as (Hc1 & Hc2 & _).
  set (v := MkInet (addr a) (Z.of_nat c) false).
  assert (wf_inet v) as Wv by (split; [apply Wa|cbn; unfold mask_len in *; lia]).
  destruct (to_cidr_wf v Wv) as (Wm & Em & Fm & Mm).
  assert (mask_len v = c) as Ev by (unfold mask_len, v; cbn; lia).
  assert (net (Inet.to_cidr v) = take c (addr_bits (addr a))) as Enet by (rewrite Em; unfold net; by rewrite Ev).
  split_and!; [done|..].
  - apply network_bits; [done..|]. rewrite Mm, Ev. split_and!; [done|lia|by rewrite Enet].
  - apply network_bits; [done..|]. rewrite Mm, Ev. split_and!; [by rewrite Fm|lia|]. rewrite Enet. symmetry. exact Hc2.
  - intros n Wn (Fa & Na & Ea)%network_bits (Fb & Nb & Eb)%network_bits; try done.
    assert (mask_len n <= c)%nat as Hn.
    { eapply (common_longest _ _ _ c (mask_len n)); [|..|exact Hc| |]; [by rewrite !bits_of_length, L|..].
      - rewrite bits_of_length. unfold addr_bits in La. rewrite bits_of_length in La. lia.
      - lia.
      - change (take (mask_len n) (addr_bits (addr a)) = take (mask_len n) (addr_bits (addr b))). congruence. }
    apply network_bits; [done..|]. rewrite Mm, Ev. split_and!; [by rewrite Fm|done|].
    cbn [Inet.to_cidr addr]. destruct (masked_bits v false Wv) as (-> & _). rewrite <- Ea.
    rewrite take_app_le by (rewrite net_length by done; lia). unfold net. rewrite Ev, take_take. f_equal. lia.
Qed.

(** ** Order *)

Lemma cmp_takes (x y : list bool) m n :
  (m <= length x)%nat -> (n <= length y)%nat ->
  cmp_list cmp_bool (take m x) (take n y) =
  then_cmp (cmp_list cmp_bool (take (m `min` n) x) (take (m `min` n) y)) (Z.of_nat m ?= Z.of_nat n).
Proof.
  revert x y n. induction m as [|m IH]; intros x y [|n] Hx Hy; cbn [take Nat.min].
  - done.
  - destruct y; [cbn in Hy; lia|done].
  - destruct x; [cbn in Hx; lia|done].
  - destruct x as [|u x]; [cbn in Hx; lia|]. destruct y as [|v y]; [cbn in Hy; lia|]. cbn in Hx, Hy. cbn [take cmp_list].
    rewrite IH by lia. rewrite !Nat2Z.inj_succ, <- !Z.add_1_r.
    replace (Z.of_nat m + 1 ?= Z.of_nat n + 1) with (Z.of_nat m ?= Z.of_nat n); [by destruct (cmp_bool u v)|].
    rewrite !(Z.add_comm _ 1). symmetry. apply Z.add_compare_mono_l.
Qed.

(** Family, then the network's bits, then the address. *)
Lemma network_cmp_bits a b :
  wf_inet a -> wf_inet b ->
  Inet.network_cmp a b =
  then_cmp (cmp_bool (Inet.is_v6 (addr a)) (Inet.is_v6 (addr b)))
    (then_cmp (cmp_list cmp_bool (net a) (net b)) (cmp_bytes (Inet.addr_octets (addr a)) (Inet.addr_octets (addr b)))).
Proof.
  intros Wa Wb. unfold Inet.network_cmp.
  destruct (Bool.eqb (Inet.is_v6 (addr a)) (Inet.is_v6 (addr b))) eqn:Ef; cbn [negb].
  2: { by destruct (Inet.is_v6 (addr a)), (Inet.is_v6 (addr b)). }
  apply Bool.eqb_prop in Ef. destruct (family_width _ _ (proj1 Wa) (proj1 Wb) Ef) as [L Ew]. rewrite Ef.
  replace (cmp_bool _ _) with Eq by (by destruct (Inet.is_v6 (addr b))). cbn [then_cmp].
  pose proof (mask_width a Wa) as Ma. pose proof (mask_width b Wb) as Mb. pose proof (addr_bits_length a Wa) as La.
  pose proof (addr_bits_length b Wb) as Lb. pose proof Wa as [_ Ra]. pose proof Wb as [_ Rb].
  unfold net. rewrite cmp_takes by (unfold width in *; lia).
  rewrite bitncmp_bits by (done || unfold addr_bits in La; rewrite bits_of_length in La; unfold mask_len, width in *; lia).
  replace (Z.to_nat (Z.min (masklen a) (masklen b))) with (mask_len a `min` mask_len b)%nat by (unfold mask_len; lia).
  unfold addr_bits. destruct (cmp_list cmp_bool (take _ _) (take _ _)); try done. cbn [then_cmp].
  unfold mask_len. rewrite !Z2Nat.id by lia. by destruct (masklen a ?= masklen b).
Qed.

#[global] Instance network_cmp_total : TotalCmp wf_inet Inet.network_cmp.
Proof.
  eapply total_ext; [intros a b Ha Hb; by apply network_cmp_bits|].
  assert (TotalCmp wf_inet (fun a b => cmp_bool (Inet.is_v6 (addr a)) (Inet.is_v6 (addr b)))) as T1
    by (by apply (total_map (fun _ => True) cmp_bool wf_inet (fun v => Inet.is_v6 (addr v)))).
  assert (TotalCmp (Forall (fun _ : bool => True)) (cmp_list cmp_bool)) as T by apply total_list, _.
  assert (TotalCmp wf_inet (fun a b => cmp_list cmp_bool (net a) (net b))) as T2.
  { apply (total_map (Forall (fun _ => True)) (cmp_list cmp_bool) wf_inet net). intros v _. by apply Forall_true. }
  assert (TotalCmp wf_inet (fun a b => cmp_bytes (Inet.addr_octets (addr a)) (Inet.addr_octets (addr b)))) as T3
    by (by apply (total_map (fun _ => True) cmp_bytes wf_inet (fun v => Inet.addr_octets (addr v)))).
  exact (total_then wf_inet _ _ (total_then wf_inet _ _ T3)).
Qed.

(** ** Address arithmetic *)

Lemma bval_be n z : 0 <= z < 256 ^ Z.of_nat n -> bval (bits_of (be_bytes n z)) = z.
Proof.
  revert z. induction n as [|n IH]; intros z Hz.
  { rewrite (nil_length_inv _ (be_bytes_length 0 z)). cbn in *. lia. }
  rewrite Nat2Z.inj_succ, Z.pow_succ_r in Hz by lia.
  rewrite be_bytes_S, bits_app, bval_app, IH.
  - change (bits_of [z2b z]) with (byte_bits (z2b z) ++ []). rewrite app_nil_r, <- byte_bval, b2z_z2b, byte_bits_length.
    change (2 ^ Z.of_nat 8) with 256. pose proof (Z.div_mod z 256). lia.
  - split; [apply Z.div_pos; lia|]. apply Z.div_lt_upper_bound; lia.
Qed.

Lemma u128_range v : wf_inet v -> 0 <= Inet.addr_to_u128 (addr v) < 2 ^ Inet.max_masklen (addr v).
Proof.
  intros Hv. rewrite addr_to_u128_bits. pose proof (bval_range (addr_bits (addr v))) as R.
  rewrite addr_bits_length in R by done. unfold width in R. pose proof (proj2 Hv). by rewrite Z2Nat.id in R by lia.
Qed.

(** The address moved by [delta], where it stays in the family's range. *)
Lemma add_offset_spec v delta :
  wf_inet v ->
  match Inet.add_offset v delta with
  | Some w => wf_inet w /\ Inet.addr_to_u128 (addr w) = Inet.addr_to_u128 (addr v) + delta /\
      Inet.is_v6 (addr w) = Inet.is_v6 (addr v) /\ masklen w = masklen v /\ is_cidr w = is_cidr v
  | None => ~ 0 <= Inet.addr_to_u128 (addr v) + delta < 2 ^ Inet.max_masklen (addr v)
  end.
Proof.
  intros Hv. pose proof (u128_range v Hv) as R. pose proof Hv as [_ Hm]. unfold Inet.add_offset, Inet.U128_MAX, Inet.U32_MAX.
  assert (2 ^ 32 <= 2 ^ 128) by (by vm_compute).
  set (n := Inet.addr_to_u128 (addr v)) in *.
  set (next := if 0 <=? delta then _ else _).
  assert (next = if bool_decide (0 <= n + delta <= 2 ^ 128 - 1) then Some (n + delta) else None) as ->.
  { unfold next. assert (n <= 2 ^ 128 - 1) by (destruct (addr v); cbn [Inet.max_masklen] in R; lia).
    destruct (Z.leb_spec 0 delta).
    - rewrite Z.abs_eq by lia. destruct (Z.leb_spec (n + delta) (2 ^ 128 - 1)); [by rewrite bool_decide_true by lia|by rewrite bool_decide_false by lia].
    - rewrite Z.abs_neq by lia. destruct (Z.leb_spec (- delta) n).
      + rewrite bool_decide_true by lia. f_equal. lia.
      + by rewrite bool_decide_false by lia. }
  case_bool_decide as Hr; cbn [mbind option_bind]; [|intros Hx; apply Hr; destruct (addr v); cbn [Inet.max_masklen] in *; lia].
  destruct (addr v) as [o|o] eqn:Ev; cbn [Inet.is_v6 Inet.max_masklen] in *; cbn [mbind option_bind].
  - destruct (Z.leb_spec (n + delta) (2 ^ 32 - 1)); cbn [mbind option_bind]; [|lia]. cbn [addr masklen is_cidr].
    split; [split; [unfold wf_addr; cbn [addr Inet.addr_octets Inet.max_masklen]; by rewrite be_bytes_length|cbn; lia]|].
    split; [|done]. rewrite addr_to_u128_bits. apply bval_be. change (256 ^ Z.of_nat 4) with (2 ^ 32). lia.
  - cbn [addr masklen is_cidr].
    split; [split; [unfold wf_addr; cbn [addr Inet.addr_octets Inet.max_masklen]; by rewrite be_bytes_length|cbn; lia]|].
    split; [|done]. rewrite addr_to_u128_bits. apply bval_be. change (256 ^ Z.of_nat 16) with (2 ^ 128). lia.
Qed.

(** ** The theorems *)

(** C34: Networks behave as sets of addresses. One network contains another
    exactly when all its addresses do; the masked address and the broadcast
    address are the least and the greatest of a network, and the masked one has
    no host bits; the merge of two values of a family is the smallest network
    that contains both. *)
Theorem inet_networks a b :
  wf_inet a -> wf_inet b ->
  (Inet.contains_or_equal a b = true <-> forall x, in_network b x -> in_network a x) /\
  (in_network a (addr (Inet.to_cidr a)) /\ in_network a (addr (Inet.broadcast a)) /\
   Inet.host_bits_zero (Inet.to_cidr a) = true /\
   forall x, in_network a x ->
     Inet.addr_to_u128 (addr (Inet.to_cidr a)) <= Inet.addr_to_u128 x <= Inet.addr_to_u128 (addr (Inet.broadcast a))) /\
  match Inet.merge a b with
  | None => Inet.is_v6 (addr a) <> Inet.is_v6 (addr b)
  | Some m =>
      wf_inet m /\ Inet.contains_or_equal m a = true /\ Inet.contains_or_equal m b = true /\
      forall n, wf_inet n -> Inet.contains_or_equal n a = true -> Inet.contains_or_equal n b = true ->
        Inet.contains_or_equal n m = true
  end.
Proof.
  intros Wa Wb. pose proof (network_bounds a Wa) as (H1 & H2 & H3).
  split_and!; [by apply contains_iff|done|done|by apply to_cidr_host_zero|done|by apply merge_spec].
Qed.

Lemma inet_decode_encode v : wf_inet v -> Inet.decode (Inet.encode v) = Some v.
Proof.
  intros [Ha Hm]. unfold Inet.decode, Inet.encode, wf_addr in *. cbn [lookup list_lookup mbind option_bind].
  set (flags := Z.lor _ _). assert (b2z (z2b flags) = flags) as Ef by (unfold flags; by destruct (is_cidr v), (Inet.is_v6 (addr v))).
  rewrite Ef. rewrite (get_range_prefix _ 2 _ (Inet.addr_octets (addr v)) []); [|by rewrite app_nil_r|done|cbn; lia].
  cbn [mbind option_bind]. assert (Z.land flags 2 =? 0 = negb (Inet.is_v6 (addr v))) as -> by (unfold flags; by destruct (is_cidr v), (Inet.is_v6 (addr v))).
  assert (Z.land flags 1 =? 0 = negb (is_cidr v)) as -> by (unfold flags; by destruct (is_cidr v), (Inet.is_v6 (addr v))).
  rewrite !negb_involutive, b2z_z2b.
  assert (masklen v mod 256 = masklen v) as -> by (apply Z.mod_small; destruct (addr v); cbn in Hm; lia).
  destruct v as [a m c]. cbn [addr masklen is_cidr] in *.
  destruct a as [o|o]; cbn [Inet.is_v6 Inet.addr_octets Inet.max_masklen] in *;
    (rewrite (get_range_prefix o 0 _ o []); [|by rewrite drop_0, app_nil_r|lia|lia]);
    cbn [fmap option_fmap option_map mbind option_bind Inet.max_masklen]; by rewrite (proj2 (Z.ltb_ge _ _)) by lia.
Qed.

(** Stored addresses read back, and address arithmetic is exact. Decoding an
    encoded value gives it back; moving an address by a 64-bit offset gives the
    address at that distance, within the same family and mask, or fails exactly
    when it would leave the family's range; and the difference of the two is the
    offset, but for the least 64-bit number, which the difference refuses. *)
Theorem inet_exact v delta :
  wf_inet v -> i64 delta ->
  Inet.decode (Inet.encode v) = Some v /\
  match Inet.add_offset v delta with
  | Some w => wf_inet w /\ Inet.addr_to_u128 (addr w) = Inet.addr_to_u128 (addr v) + delta /\
      masklen w = masklen v /\ Inet.diff w v = (if decide (delta = - 2 ^ 63) then None else Some delta)
  | None => ~ 0 <= Inet.addr_to_u128 (addr v) + delta < 2 ^ Inet.max_masklen (addr v)
  end.
Proof.
  intros Wv Hd. split; [by apply inet_decode_encode|]. pose proof (add_offset_spec v delta Wv) as H.
  destruct (Inet.add_offset v delta) as [w|]; [|done]. destruct H as (Ww & E & F & M & _). split_and!; try done.
  unfold Inet.diff. rewrite F, Bool.eqb_reflx. cbn [negb]. rewrite E. set (n := Inet.addr_to_u128 (addr v)).
  change (- 2 ^ 63) with (-9223372036854775808).
  assert (checked_i64 (Z.abs delta) = if decide (delta = -9223372036854775808) then None else Some (Z.abs delta)) as Hc.
  { unfold checked_i64, i64 in *. repeat case_decide; try done; lia. }
  destruct (Z.leb_spec n (n + delta)).
  - replace (n + delta - n) with (Z.abs delta) by lia. rewrite Hc. case_decide; cbn; [done|f_equal; lia].
  - replace (n - (n + delta)) with (Z.abs delta) by lia. rewrite Hc. case_decide; cbn; [done|f_equal; lia].
Qed.

(** ** Instances *)

Definition net24 : InetAddr := MkInet (V4 [z2b 192; z2b 168; z2b 1; z2b 5]) 24 false.
Definition net16 : InetAddr := MkInet (V4 [z2b 192; z2b 168; z2b 9; z2b 0]) 24 true.

Lemma net24_wf : wf_inet net24.
Proof. split; by vm_compute. Qed.
Lemma net16_wf : wf_inet net16.
Proof. split; by vm_compute. Qed.

Lemma inet_networks_witness :
  exists m, Inet.merge net24 net16 = Some m /\ Inet.contains_or_equal m net24 = true /\ masklen m = 20.
Proof.
  destruct (inet_networks net24 net16 net24_wf net16_wf) as (_ & _ & H).
  destruct (Inet.merge net24 net16) as [m|] eqn:E; [|by vm_compute in E].
  exists m. split_and!; [done|apply H|]. vm_compute in E. injection E as <-. reflexivity.
Defined.

Lemma inet_exact_witness : Inet.decode (Inet.encode net24) = Some net24 /\ i64 300.
Proof.
  assert (i64 300) as H by (unfold i64; lia).
  exact (conj (proj1 (inet_exact net24 300 net24_wf H)) H).
Defined.
