(* ===== verification/ValuesFacts.v ===== *)
(** * Facts about SQL values: the values of a column and their order *)

From stdpp Require Import base list strings.
From Stdlib Require Import ZArith Lia Strings.Byte Floats.SpecFloat.
From S2P Require Import Prelude Order Codec Catalog Numeric NumericFacts NumericThm Float Interval Inet InetFacts InetThm Values IndexKey IndexKeyFacts.
#[local] Open Scope Z_scope.

(** A decimal whose significand fits at scale [sc]. *)
Definition numeric_at (sc : Z) (d : Decimal) : Prop :=
  is_nan d = true \/ (wf_decimal d /\ scale d <= sc <= 38 /\ i128 (aligned d sc)).

Definition at_scale (sc : Z) (d : Decimal) : Z := if is_nan d then 0 else aligned d sc.

Lemma aligned_up d s t : 0 <= scale d <= s -> s <= t -> aligned d t = aligned d s * 10 ^ (t - s).
Proof. intros H1 H2. unfold aligned. rewrite <- Z.mul_assoc, <- Z.pow_add_r by lia. do 2 f_equal. lia. Qed.

Lemma aligned_fits d s t : 0 <= scale d <= s -> s <= t -> i128 (aligned d t) -> i128 (aligned d s).
Proof.
  intros H1 H2. rewrite (aligned_up d s t) by done. assert (0 < 10 ^ (t - s)) by (apply pow10_pos; lia).
  unfold i128, I128_MIN, I128_MAX. nia.
Qed.

Lemma numeric_compare_at sc a b :
  numeric_at sc a -> numeric_at sc b ->
  Numeric.compare a b = then_cmp (cmp_bool (is_nan a) (is_nan b)) (at_scale sc a ?= at_scale sc b).
Proof.
  intros Ha Hb. unfold at_scale. destruct (is_nan a) eqn:Na, (is_nan b) eqn:Nb; try (unfold Numeric.compare; by rewrite Na, Nb).
  destruct Ha as [?|(Wa & Sa & Fa)], Hb as [?|(Wb & Sb & Fb)]; try congruence.
  set (s := Z.max (scale a) (scale b)). pose proof Wa as [_ Za]. pose proof Wb as [_ Zb].
  rewrite compare_aligned; [|done|done|apply (aligned_fits a s sc); (done || lia)|apply (aligned_fits b s sc); (done || lia)].
  fold s. rewrite (aligned_up a s sc), (aligned_up b s sc) by lia. cbn [cmp_bool then_cmp Z.b2z].
  symmetry. rewrite <- Zmult_compare_compat_r; [done|]. apply Z.lt_gt, pow10_pos. lia.
Qed.

Lemma total_by_flag {A} (P : A -> Prop) (f : A -> bool) (r : A -> Z) :
  TotalCmp P (fun a b => then_cmp (cmp_bool (f a) (f b)) (r a ?= r b)).
Proof.
  assert (TotalCmp P (fun a b => cmp_bool (f a) (f b))) as T1 by (by apply (total_map (fun _ => True) cmp_bool P f)).
  apply (total_then P _). by apply (total_map (fun _ => True) Z.compare P r).
Qed.

#[global] Instance numeric_total sc : TotalCmp (numeric_at sc) Numeric.compare.
Proof. eapply total_ext; [|apply (total_by_flag (numeric_at sc) is_nan (at_scale sc))]. apply numeric_compare_at. Qed.

Lemma float_total_rank a b :
  u64 a -> u64 b ->
  float_total_cmp a b = then_cmp (cmp_bool (f64_is_nan a) (f64_is_nan b))
    ((if f64_is_nan a then 0 else f64_rank a) ?= (if f64_is_nan b then 0 else f64_rank b)).
Proof.
  intros Ha Hb. unfold float_total_cmp. destruct (f64_is_nan a) eqn:Na, (f64_is_nan b) eqn:Nb; try done.
  by rewrite f64_cmp_rank.
Qed.

#[global] Instance float_total : TotalCmp u64 float_total_cmp.
Proof.
  eapply total_ext; [|apply (total_by_flag u64 f64_is_nan (fun a => if f64_is_nan a then 0 else f64_rank a))].
  apply float_total_rank.
Qed.

#[global] Instance f32_total : TotalCmp (fun _ => True) f32_total_cmp.
Proof. by apply (total_map (fun _ => True) Z.compare (fun _ => True) (fun bits => if bits <? 2 ^ 31 then bits else 2 ^ 31 - 1 - bits)). Qed.

#[global] Instance interval_total : TotalCmp (fun _ => True) Ival.compare.
Proof. by apply (total_map (fun _ => True) Z.compare (fun _ => True) Ival.estimate_micros). Qed.

Lemma total_all_list {A} (cmp : A -> A -> comparison) :
  TotalCmp (fun _ : A => True) cmp -> TotalCmp (fun _ : list A => True) (cmp_list cmp).
Proof.
  intros T. eapply total_weaken; [|apply (total_list (fun _ => True) cmp)]. intros l _. by apply Forall_true.
Qed.

(** ** Ranges *)

Definition low_of {V} (r : RangeVal V) : option (V * bool) :=
  if empty r then None else (fun v => (v, lower_inc r)) <$> lower r.
Definition high_of {V} (r : RangeVal V) : option (V * bool) :=
  if empty r then None else (fun v => (v, upper_inc r)) <$> upper r.

Section ranges.
Context {V} (P : V -> Prop) (cmp : V -> V -> comparison) (T : TotalCmp P cmp).

Definition cmp_low (a b : V * bool) : comparison := then_cmp (cmp a.1 b.1) (cmp_bool b.2 a.2).
Definition cmp_high (a b : V * bool) : comparison := then_cmp (cmp a.1 b.1) (cmp_bool a.2 b.2).

Lemma total_ends : TotalCmp (fun x => P x.1) cmp_low /\ TotalCmp (fun x => P x.1) cmp_high.
Proof.
  assert (TotalCmp (fun x : V * bool => P x.1) (fun a b => cmp a.1 b.1)) as T1 by (by apply (total_map P cmp _ fst)).
  assert (TotalCmp (fun x : V * bool => P x.1) (fun a b => cmp_bool a.2 b.2)) as T2
    by (by apply (total_map (fun _ => True) cmp_bool _ snd)).
  split; apply (total_then (fun x : V * bool => P x.1) _); [by apply total_flip in T2|done].
Qed.

(** Both bounds, where they are finite, satisfy [P]. *)
Definition bounds_ok (r : RangeVal V) : Prop := from_option P True (lower r) /\ from_option P True (upper r).

Lemma range_cmp_chain a b :
  range_cmp_with cmp a b =
  then_cmp (cmp_byte (range_tag (kind a)) (range_tag (kind b)))
    (then_cmp (cmp_bool (negb (empty a)) (negb (empty b)))
      (then_cmp (cmp_none_first cmp_low (low_of a) (low_of b)) (cmp_none_last cmp_high (high_of a) (high_of b)))).
Proof.
  unfold range_cmp_with, low_of, high_of. f_equal. destruct (empty a), (empty b); cbn [negb]; try done.
  cbn. by destruct (lower a), (lower b), (upper a), (upper b).
Qed.

Lemma range_total : TotalCmp bounds_ok (range_cmp_with cmp).
Proof.
  destruct total_ends as [TL TH]. apply total_none in TL as [TL _], TH as [_ TH].
  eapply total_ext; [intros a b _ _; apply range_cmp_chain|].
  assert (TotalCmp bounds_ok (fun a b => cmp_byte (range_tag (kind a)) (range_tag (kind b)))) as T1
    by (by apply (total_map (fun _ => True) cmp_byte bounds_ok (fun r => range_tag (kind r)))).
  assert (TotalCmp bounds_ok (fun a b => cmp_bool (negb (empty a)) (negb (empty b)))) as T2
    by (by apply (total_map (fun _ => True) cmp_bool bounds_ok (fun r => negb (empty r)))).
  assert (TotalCmp bounds_ok (fun a b => cmp_none_first cmp_low (low_of a) (low_of b))) as T3.
  { apply (total_map _ (cmp_none_first cmp_low) bounds_ok low_of). intros r [H _]. unfold low_of. by destruct (empty r), (lower r). }
  assert (TotalCmp bounds_ok (fun a b => cmp_none_last cmp_high (high_of a) (high_of b))) as T4.
  { apply (total_map _ (cmp_none_last cmp_high) bounds_ok high_of). intros r [_ H]. unfold high_of. by destruct (empty r), (upper r). }
  exact (total_then _ _ _ (total_then _ _ _ (total_then _ _ _ T4))).
Qed.
End ranges.

(** ** The values of a column *)

(** [v] is a scalar of the physical type [t]; decimals fit at scale [sc]. *)
Definition scalar_of (sc : Z) (t : Ty.ColumnType) (v : Value) : Prop :=
  match t, v with
  | Ty.Bool, Val.Bool _ | Ty.Int, Val.Int _ | Ty.Text, Val.Text _ | Ty.Bytes, Val.Bytes _ | Ty.Timestamp, Val.Timestamp _
  | Ty.Date, Val.Date _ | Ty.Time, Val.Time _ | Ty.TimestampTz, Val.TimestampTz _ | Ty.TimeTz, Val.TimeTz _
  | Ty.Uuid, Val.Uuid _ | Ty.Macaddr, Val.Macaddr _ | Ty.Macaddr8, Val.Macaddr8 _ | Ty.Bit _, Val.Bit _ | Ty.VarBit _, Val.Bit _
  | Ty.Json, Val.Json _ | Ty.Interval, Val.Interval _ | Ty.Vector _, Val.Vector _ | Ty.Geometry _, Val.Geometry _
  | Ty.Tsvector, Val.Tsvector _ | Ty.Tsquery, Val.Tsquery _ | Ty.Xml, Val.Xml _ | Ty.Enum, Val.Enum _ _ => True
  | Ty.Float, Val.Float f => u64 f
  | Ty.Numeric _ _, Val.Numeric d => numeric_at sc d
  | (Ty.Inet | Ty.Cidr), Val.Inet a => wf_inet a
  | _, _ => False
  end.

(** The element of an array of [n] more dimensions: a scalar, [NULL], or a
    sub-array. *)
Fixpoint elem_of (sc : Z) (e : Elem.ArrayElem) (n : nat) (v : Value) : Prop :=
  (scalar_of sc (column_type e) v \/
   match n, v with S n, Val.Array items => Forall (elem_of sc e n) items | _, _ => False end) \/ v = Val.Null.

(** The values a column of type [t] holds; an array has at most six dimensions
    ([MAX_ARRAY_DIMS]). *)
Definition column_value (sc : Z) (t : Ty.ColumnType) (v : Value) : Prop :=
  match Ty.physical t, v with
  | Ty.Array e, Val.Array items => Forall (elem_of sc e 5) items
  | Ty.Range k, Val.Range r => kind r = k /\ bounds_ok (scalar_of sc (element_type k)) r
  | _, _ => scalar_of sc (Ty.physical t) v
  end \/ v = Val.Null.

Lemma total_con {A} (P : A -> Prop) (cmp : A -> A -> comparison) (C : A -> Value) (Q : Value -> Prop) :
  TotalCmp P cmp -> (forall x y, compare (C x) (C y) = cmp x y) -> (forall v, Q v -> exists x, v = C x /\ P x) -> TotalCmp Q compare.
Proof.
  intros T HC HQ. split.
  - intros a b (x & -> & Hx)%HQ (y & -> & Hy)%HQ. rewrite !HC. by apply T.
  - intros a b c (x & -> & Hx)%HQ (y & -> & Hy)%HQ (z & -> & Hz)%HQ. rewrite !HC. by apply (@total_trans _ _ _ T x y z).
Qed.

Lemma total_false {A} (Q : A -> Prop) cmp : (forall a, ~ Q a) -> TotalCmp Q cmp.
Proof. intros H. split; intros a *; intros Ha; by destruct (H a). Qed.

Lemma total_geometry : TotalCmp (fun _ => True) (fun a b => cmp_bytes (Geometry.format a) (Geometry.format b)).
Proof. by apply (total_map (fun _ => True) cmp_bytes (fun _ => True) Geometry.format). Qed.

Lemma total_enum : TotalCmp (fun _ : Z * bytes => True) (fun a b => a.1 ?= b.1).
Proof. by apply (total_map (fun _ => True) Z.compare (fun _ => True) fst). Qed.

Ltac of_con P cmp C :=
  apply (total_con P cmp C); [first [apply _|done]|done|let v := fresh in let H := fresh in intros v H; destruct v; first [done|by eexists]].

Lemma scalar_total sc t : TotalCmp (scalar_of sc t) compare.
Proof.
  pose proof (total_all_list cmp_bool _) as Tbits. pose proof (total_all_list f32_total_cmp _) as Tvec.
  pose proof total_geometry as Tgeo. pose proof total_enum as Tenum.
  destruct t; try (by apply total_false; intros [] []).
  - of_con (fun _ : bool => True) cmp_bool Val.Bool.
  - of_con (fun _ : Z => True) Z.compare Val.Int.
  - of_con u64 float_total_cmp Val.Float.
  - of_con (fun _ : bytes => True) cmp_bytes Val.Text.
  - of_con (fun _ : bytes => True) cmp_bytes Val.Bytes.
  - of_con (fun _ : Z => True) Z.compare Val.Timestamp.
  - of_con (fun _ : Z => True) Z.compare Val.Date.
  - of_con (fun _ : Z => True) Z.compare Val.Time.
  - of_con (fun _ : Z => True) Z.compare Val.TimestampTz.
  - of_con (fun _ : Z => True) Z.compare Val.TimeTz.
  - of_con (fun _ : bytes => True) cmp_bytes Val.Uuid.
  - of_con (fun _ : bytes => True) cmp_bytes Val.Macaddr.
  - of_con (fun _ : bytes => True) cmp_bytes Val.Macaddr8.
  - of_con wf_inet Inet.network_cmp Val.Inet.
  - of_con wf_inet Inet.network_cmp Val.Inet.
  - of_con (fun _ : list bool => True) (cmp_list cmp_bool) Val.Bit.
  - of_con (fun _ : list bool => True) (cmp_list cmp_bool) Val.Bit.
  - of_con (numeric_at sc) Numeric.compare Val.Numeric.
  - of_con (fun _ : bytes => True) cmp_bytes Val.Json.
  - of_con (fun _ : Interval => True) Ival.compare Val.Interval.
  - of_con (fun _ : list Z => True) (cmp_list f32_total_cmp) Val.Vector.
  - of_con (fun _ : Geometry.GeomVal => True) (fun a b => cmp_bytes (Geometry.format a) (Geometry.format b)) Val.Geometry.
  - of_con (fun _ : bytes => True) cmp_bytes Val.Tsvector.
  - of_con (fun _ : bytes => True) cmp_bytes Val.Tsquery.
  - of_con (fun _ : bytes => True) cmp_bytes Val.Xml.
  - apply (total_con (fun _ : Z * bytes => True) (fun a b => a.1 ?= b.1) (fun p => Val.Enum p.1 p.2)); [done|done|].
    intros [] H; try done. by eexists (_, _).
Qed.

Lemma null_total : TotalCmp (fun v => v = Val.Null) compare.
Proof. split; by intros; subst. Qed.

Lemma below_null v : v <> Val.Null -> compare v Val.Null = Lt /\ compare Val.Null v = Gt.
Proof. by destruct v. Qed.

Lemma scalar_not_null sc t v : scalar_of sc t v -> v <> Val.Null.
Proof. intros H ->. by destruct t. Qed.

Lemma scalar_below_array sc e v items :
  scalar_of sc (column_type e) v -> compare v (Val.Array items) = Lt /\ compare (Val.Array items) v = Gt.
Proof. destruct e, v; done. Qed.

Lemma elem_total sc e n : TotalCmp (elem_of sc e n) compare.
Proof.
  induction n as [|n IH]; cbn [elem_of].
  - apply total_sum; [apply total_sum; [apply scalar_total|apply total_false; by intros a []|by intros a b _ []]|apply null_total|].
    intros a b [Ha|[]] ->. by apply below_null, (scalar_not_null sc (column_type e)).
  - apply total_sum; [apply total_sum; [apply scalar_total| |]|apply null_total|].
    + apply (total_con (Forall (elem_of sc e n)) (cmp_list compare) Val.Array); [by apply total_list|done|].
      intros [] H; try done. by eexists.
    + intros a [] Ha Hb; try done. by apply (scalar_below_array sc e).
    + intros a b Ha ->. apply below_null. destruct Ha as [Ha|Ha]; [by apply (scalar_not_null sc (column_type e))|by destruct a].
Qed.

Lemma column_total sc t : TotalCmp (column_value sc t) compare.
Proof.
  unfold column_value. apply total_sum; [|apply null_total|].
  - assert (forall Q, (forall v, Q v -> scalar_of sc (Ty.physical t) v) -> TotalCmp Q compare) as Hs
      by (intros Q HQ; eapply total_weaken; [exact HQ|apply scalar_total]).
    destruct (Ty.physical t) as [| | | | | | | | | | | | | | | | | | | | | |k| | | | |e| | | | | |] eqn:Et; try (apply Hs; intros []; done).
    + apply (total_con (bounds_ok (scalar_of sc (element_type k))) (range_cmp_with compare) Val.Range); [apply range_total, scalar_total|done|].
      intros [] H; try done. destruct H. by eexists.
    + assert (TotalCmp (elem_of sc e 5) compare) as Te by apply elem_total.
      apply (total_con (Forall (elem_of sc e 5)) (cmp_list compare) Val.Array); [by apply total_list|done|].
      intros [] H; try done. by eexists.
  - intros a b Ha ->. apply below_null. intros ->. by destruct (Ty.physical t).
Qed.
