(* ===== verification/SetOpsFacts.v ===== *)
(** * Facts about duplicate elimination and set operations

    Row equality is an equivalence on the rows of a schema; hashing rows by
    their keys agrees with comparing them; and each loop counts what its
    operator says. *)

From stdpp Require Import base list gmap strings.
From Stdlib Require Import ZArith Lia Strings.Byte.
From S2P Require Import Prelude Order Codec Catalog Numeric NumericFacts NumericThm Float Interval Inet InetFacts InetThm Values IndexKey IndexKeyFacts ValuesFacts.
Import SetOps.
#[local] Open Scope Z_scope.

(** What the Rust types hold. *)
Definition wf_value (v : Value) : Prop :=
  match v with
  | Val.Int z | Val.Time z | Val.TimeTz z | Val.Timestamp z | Val.TimestampTz z => i64 z
  | Val.Date z => i32 z
  | Val.Uuid b => length b = 16%nat
  | Val.Macaddr b => length b = 6%nat
  | Val.Macaddr8 b => length b = 8%nat
  | _ => True
  end.

Definition row_of (sc : Z) (ts : list Ty.ColumnType) (row : Row) : Prop :=
  Forall2 (fun t v => column_value sc t v /\ wf_value v) ts row.

(** The column types the key encoder accepts among those the fast paths take. *)
Definition no_inet_bit (t : Ty.ColumnType) : Prop :=
  match Ty.physical t with Ty.Inet | Ty.Cidr | Ty.Bit _ | Ty.VarBit _ => False | _ => True end.

Lemma not_distinct_compare x y : not_distinct x y = bool_decide (compare x y = Eq).
Proof. by destruct x, y. Qed.

Lemma geq_cons x y a b : group_keys_equal (x :: a) (y :: b) = not_distinct x y && group_keys_equal a b.
Proof. unfold group_keys_equal. cbn. by destruct (length a =? length b)%nat, (not_distinct x y). Qed.

Lemma group_keys_forall2 a b : group_keys_equal a b = true <-> Forall2 (fun x y => compare x y = Eq) a b.
Proof.
  revert b. induction a as [|x a IH]; intros [|y b].
  - split; [constructor|done].
  - split; [done|by inversion 1].
  - split; [done|by inversion 1].
  - rewrite geq_cons, andb_true_iff, not_distinct_compare, bool_decide_eq_true, IH, Forall2_cons. done.
Qed.

Lemma bool_iff (a b : bool) : (a = true <-> b = true) -> a = b.
Proof. destruct a, b; naive_solver. Qed.

Section rows.
Context (sc : Z) (ts : list Ty.ColumnType).
Abbreviation P := (row_of sc ts).

Lemma geq_refl a : P a -> group_keys_equal a a = true.
Proof.
  intros H. apply group_keys_forall2. induction H as [|t v ts' row [Hv _] _ IH]; constructor; [|done].
  by apply (@total_refl _ _ _ (column_total sc t)).
Qed.

Lemma geq_sym a b : P a -> P b -> group_keys_equal a b = group_keys_equal b a.
Proof.
  intros Ha Hb. apply bool_iff. rewrite !group_keys_forall2.
  enough (forall a b, P a -> P b -> Forall2 (fun x y => compare x y = Eq) a b -> Forall2 (fun x y => compare x y = Eq) b a) as H
    by (split; by apply H).
  clear a b Ha Hb. unfold row_of. intros a b Ha Hb H. revert ts Ha Hb. induction H as [|x y a b E _ IH]; intros ts' Ha Hb; [constructor|].
  inversion Ha as [|t ? ts1 ? [Hx _] Ha1]; subst. inversion Hb as [|? ? ? ? [Hy _] Hb1]; subst.
  constructor; [|by apply (IH ts1)]. rewrite (@total_opp _ _ _ (column_total sc t) x y), E by done. done.
Qed.

(** Equal rows are equal to the same rows. *)
Lemma geq_trans a b c : P a -> P b -> P c -> group_keys_equal a b = true -> group_keys_equal b c = group_keys_equal a c.
Proof.
  intros Ha Hb Hc E. apply bool_iff. rewrite !group_keys_forall2. apply group_keys_forall2 in E.
  revert c Hc. unfold row_of in *. revert ts Ha Hb. induction E as [|x y a b E _ IH]; intros ts' Ha Hb c Hc; [done|].
  inversion Ha as [|t ? ts1 ? [Hx _] Ha1]; subst. inversion Hb as [|? ? ? ? [Hy _] Hb1]; subst.
  inversion Hc as [|? z ? c1 [Hz _] Hc1]; subst.
  rewrite !Forall2_cons, (IH ts1) by done.
  enough (compare y z = Eq <-> compare x z = Eq) as -> by done.
  split; [by apply (@total_eq_trans _ _ _ (column_total sc t) x y z)|].
  intros E'. apply (@total_eq_trans _ _ _ (column_total sc t) y x z); try done.
  rewrite (@total_opp _ _ _ (column_total sc t) x y), E by done. done.
Qed.
End rows.

(** ** Keys of hash-safe rows *)

Lemma safe_key_value sc t v :
  no_inet_bit t -> column_value sc t v -> wf_value v -> is_hash_safe_value v = true -> key_value t v.
Proof.
  unfold no_inet_bit, column_value, key_value. intros Ht Hv Hw Hs. destruct Hv as [Hv|Hv]; [|rewrite Hv; by destruct (Ty.physical t)].
  destruct (Ty.physical t), v; try done; by destruct Hv.
Qed.

Lemma safe_row_key sc ts row :
  Forall no_inet_bit ts -> row_of sc ts row -> forallb is_hash_safe_value row = true -> Forall2 key_value ts row.
Proof.
  intros Ht H. revert Ht. induction H as [|t v ts row [Hv Hw] _ IH]; intros Ht Hs; [constructor|].
  apply Forall_cons in Ht as [Ht Hts]. cbn in Hs. apply andb_true_iff in Hs as [Hs Hrow].
  constructor; [by apply (safe_key_value sc)|by apply IH].
Qed.

(** A row of the schema whose values are all hash-safe. *)
Definition safe_row (sc : Z) (ts : list Ty.ColumnType) (row : Row) : Prop :=
  Forall no_inet_bit ts /\ row_of sc ts row /\ forallb is_hash_safe_value row = true.

Lemma safe_key_ok sc ts row : safe_row sc ts row -> key_ok row = Some (key_bytes row).
Proof.
  intros (Ht & Hr & Hs). unfold key_ok, Key.encode_index_key.
  by rewrite (key_encoded ts row (safe_row_key sc ts row Ht Hr Hs) []).
Qed.

Lemma exact_order_safe a b : is_hash_safe_value a = true -> exact_order a b = Eq <-> compare a b = Eq.
Proof. by destruct a, b. Qed.

(** Equal keys are equal rows. *)
Lemma safe_keys_eq sc ts a b :
  safe_row sc ts a -> safe_row sc ts b -> key_bytes a = key_bytes b <-> group_keys_equal a b = true.
Proof.
  intros (Ht & Ra & Sa) (_ & Rb & Sb). pose proof (safe_row_key sc ts a Ht Ra Sa) as Ka.
  pose proof (safe_row_key sc ts b Ht Rb Sb) as Kb.
  pose proof (keys_decide ts a b Ka Kb [] [] I I) as E. rewrite !app_nil_r in E.
  rewrite <- cmp_bytes_eq, E, group_keys_forall2. clear -Ka Kb Sa.
  transitivity (cmp_list exact_order a b = Eq); [by destruct (cmp_list exact_order a b)|].
  revert b Kb. induction Ka as [|t x ts a Hx Ha IH]; intros b Kb; inversion Kb as [|? y ? b' Hy Hb]; subst.
  - split; [constructor|done].
  - cbn in Sa. apply andb_true_iff in Sa as [Sx Sa]. cbn [cmp_list]. rewrite Forall2_cons, <- IH, <- exact_order_safe by done.
    destruct (exact_order x y); cbn; naive_solver.
Qed.

(** ** Counting *)

(** How many rows of [l] are not distinct from [x]. *)
Fixpoint count (x : Row) (l : list Row) : nat :=
  match l with
  | [] => 0
  | r :: l => ((if group_keys_equal r x then 1 else 0) + count x l)%nat
  end.

Lemma count_app x a b : count x (a ++ b) = (count x a + count x b)%nat.
Proof. induction a as [|r a IH]; cbn; [done|]. rewrite IH. lia. Qed.

Lemma existsb_count row l : existsb (fun e => group_keys_equal e row) l = (0 <? count row l)%nat.
Proof. induction l as [|r l IH]; cbn; [done|]. rewrite IH. by destruct (group_keys_equal r row). Qed.

Section loops.
Context (sc : Z) (ts : list Ty.ColumnType).
Abbreviation P := (row_of sc ts).

Lemma count_eq x y l : P x -> P y -> Forall P l -> group_keys_equal x y = true -> count x l = count y l.
Proof.
  intros Hx Hy Hl E. induction Hl as [|r l Hr _ IH]; cbn; [done|]. rewrite IH.
  rewrite (geq_sym sc ts r x), (geq_sym sc ts r y), (geq_trans sc ts x y r) by done. done.
Qed.

Lemma dedupe_linear_count rows out x :
  Forall P rows -> Forall P out -> P x -> (count x out <= 1)%nat ->
  count x (dedupe_linear rows out) = (1 `min` (count x out + count x rows))%nat.
Proof.
  intros Hr. revert out. induction Hr as [|row rows Hrow _ IH]; intros out Ho Hx H1; cbn [dedupe_linear count]; [lia|].
  rewrite existsb_count. destruct (group_keys_equal row x) eqn:E.
  - rewrite (count_eq row x out) by done. destruct (Nat.ltb_spec 0 (count x out)).
    + rewrite IH by done. lia.
    + rewrite IH; [|by apply Forall_app; split; [|by apply Forall_singleton]|done|];
        rewrite count_app; cbn [count]; rewrite E; lia.
  - destruct (0 <? count row out)%nat; [by rewrite IH|].
    rewrite IH; [|by apply Forall_app; split; [|by apply Forall_singleton]|done|]; rewrite count_app; cbn [count]; rewrite E; lia.
Qed.

Lemma dedupe_linear_rows rows out : Forall P rows -> Forall P out -> Forall P (dedupe_linear rows out).
Proof.
  intros Hr. revert out. induction Hr as [|row rows Hrow _ IH]; intros out Ho; cbn; [done|].
  destruct (existsb _ out); [by apply IH|]. apply IH, Forall_app. split; [done|by apply Forall_singleton].
Qed.

(** A filter that does not tell equal rows apart. *)
Lemma count_filter (f : Row -> bool) keep l x :
  P x -> Forall P l -> (forall r, P r -> group_keys_equal r x = true -> f r = f x) ->
  count x (filter (fun r => f r = keep) l) = if Bool.eqb (f x) keep then count x l else 0%nat.
Proof.
  intros Hx Hl Hf. induction Hl as [|r l Hr _ IH]; [by destruct (Bool.eqb _ _)|].
  rewrite filter_cons. destruct (group_keys_equal r x) eqn:E.
  - rewrite (Hf r Hr E). case_decide as Hd.
    + rewrite Hd in *. rewrite Bool.eqb_reflx in *. cbn. by rewrite E, IH.
    + rewrite IH. destruct (Bool.eqb (f x) keep) eqn:E'; [by apply Bool.eqb_prop in E'|done].
  - case_decide; cbn; rewrite ?E, IH; done.
Qed.

(** ** Occurrence counts *)

Fixpoint assoc (c : list (Row * nat)) (x : Row) : nat :=
  match c with
  | [] => 0
  | (k, n) :: c => if group_keys_equal k x then n else assoc c x
  end.

Definition counts_ok (c : list (Row * nat)) : Prop := Forall (fun kn => P kn.1) c.

Lemma add_count_ok c row : counts_ok c -> P row -> counts_ok (add_count c row).
Proof.
  intros Hc Hr. induction Hc as [|[k n] c Hk Hc IH]; cbn; [by apply Forall_singleton|].
  destruct (group_keys_equal k row); by constructor.
Qed.

Lemma add_count_assoc c row x :
  counts_ok c -> P row -> P x -> assoc (add_count c row) x = ((if group_keys_equal row x then 1 else 0) + assoc c x)%nat.
Proof.
  intros Hc Hr Hx. induction Hc as [|[k n] c Hk _ IH]; cbn; [by destruct (group_keys_equal row x)|].
  cbn in Hk. destruct (group_keys_equal k row) eqn:E.
  - cbn. rewrite (geq_trans sc ts k row x) by done. by destruct (group_keys_equal k x).
  - cbn. rewrite IH. destruct (group_keys_equal k x) eqn:E'; [|done].
    destruct (group_keys_equal row x) eqn:E''; [|done].
    rewrite (geq_sym sc ts) in E'' by done. rewrite <- (geq_trans sc ts k x row) in E by done. congruence.
Qed.

Lemma fold_counts right c x :
  counts_ok c -> Forall P right -> P x ->
  counts_ok (foldl add_count c right) /\ assoc (foldl add_count c right) x = (assoc c x + count x right)%nat.
Proof.
  intros Hc Hr Hx. revert c Hc. induction Hr as [|r right Hr _ IH]; intros c Hc; cbn; [split; [done|lia]|].
  destruct (IH (add_count c r)) as [H1 H2]; [by apply add_count_ok|]. split; [done|].
  rewrite H2, add_count_assoc by done. lia.
Qed.

Lemma take_count_spec c row x :
  counts_ok c -> P row -> P x ->
  let '(matched, c') := take_count c row in
  matched = (0 <? assoc c row)%nat /\ counts_ok c' /\
  assoc c' x = (assoc c x - (if group_keys_equal row x then 1 else 0))%nat.
Proof.
  intros Hc Hr Hx. induction Hc as [|[k n] c Hk Hc IH]; [split_and!; [done|constructor|done]|]. cbn in Hk. cbn [take_count assoc].
  destruct (group_keys_equal k row) eqn:E.
  - pose proof (geq_trans sc ts k row x Hk Hr Hx E) as E'. destruct n as [|n]; (split_and!; [done|by constructor|]); cbn [assoc];
      rewrite E'; destruct (group_keys_equal k x); lia.
  - destruct (take_count c row) as [matched c'] eqn:Et. destruct IH as (-> & H2 & H3).
    split_and!; [done|by constructor|]. cbn [assoc]. rewrite H3. destruct (group_keys_equal k x) eqn:E'; [|done].
    destruct (group_keys_equal row x) eqn:E''; [|lia].
    rewrite (geq_sym sc ts) in E'' by done. rewrite <- (geq_trans sc ts k x row) in E by done. congruence.
Qed.

(** What is kept of [x]: the matched occurrences, or the others. *)
Lemma consume_linear_count left c keep x :
  Forall P left -> counts_ok c -> P x ->
  count x (consume_linear left c keep) =
  (if keep then count x left `min` assoc c x else count x left - assoc c x)%nat.
Proof.
  intros Hl. revert c. induction Hl as [|row left Hr _ IH]; intros c Hc Hx; cbn [consume_linear count]; [by destruct keep|].
  pose proof (take_count_spec c row x Hc Hr Hx) as H. destruct (take_count c row) as [matched c'].
  destruct H as (Hm & Hc' & Ha). specialize (IH c' Hc' Hx). rewrite Ha in IH.
  assert (group_keys_equal row x = true -> assoc c row = assoc c x) as Hrx.
  { intros E. clear -Hc Hr Hx E. induction Hc as [|[k n] c Hk _ IH]; [done|]. cbn in Hk |- *. rewrite IH.
    rewrite (geq_sym sc ts k row), (geq_sym sc ts k x), (geq_trans sc ts row x k) by done. done. }
  destruct (group_keys_equal row x) eqn:E.
  - rewrite Hrx in Hm by done. destruct (Nat.ltb_spec 0 (assoc c x)), keep; subst matched; cbn [Bool.eqb count]; rewrite ?E, IH; lia.
  - destruct (Bool.eqb matched keep); cbn [count]; rewrite ?E, IH; destruct keep; lia.
Qed.
End loops.

(** ** Hashing agrees with comparing *)

Section hashed.
Context (sc : Z) (ts : list Ty.ColumnType).
Abbreviation S := (safe_row sc ts).

Lemma safe_of row : S row -> row_of sc ts row.
Proof. by intros (_ & H & _). Qed.

Lemma key_seen row out :
  S row -> Forall S out ->
  bool_decide (key_bytes row ∈ (list_to_set (key_bytes <$> out) : gset bytes)) = existsb (fun e => group_keys_equal e row) out.
Proof.
  intros Hr Ho. apply bool_iff. rewrite bool_decide_eq_true, elem_of_list_to_set, list_elem_of_fmap, existsb_exists.
  rewrite Forall_forall in Ho. split.
  - intros (e & E & He). exists e. split; [by apply list_elem_of_In|]. apply (safe_keys_eq sc ts); [by apply Ho|done|done].
  - intros (e & He%list_elem_of_In & E). exists e. split; [|done]. symmetry. apply (safe_keys_eq sc ts); [by apply Ho|done|done].
Qed.

Lemma dedupe_hashed_linear rows out :
  Forall S rows -> Forall S out ->
  dedupe_hashed rows (list_to_set (key_bytes <$> out)) out = dedupe_linear rows out.
Proof.
  intros Hr. revert out. induction Hr as [|row rows Hrow _ IH]; intros out Ho; cbn [dedupe_hashed dedupe_linear]; [done|].
  rewrite (safe_key_ok sc ts) by done. rewrite <- (key_seen row out) by done.
  case_bool_decide as Hd; [rewrite decide_True by done; by apply IH|]. rewrite decide_False by done.
  rewrite <- IH by (apply Forall_app; split; [done|by apply Forall_singleton]). f_equal.
  rewrite fmap_app, list_to_set_app_L. set_solver.
Qed.

Lemma dedupe_linear_safe rows out : Forall S rows -> Forall S out -> Forall S (dedupe_linear rows out).
Proof.
  intros Hr. revert out. induction Hr as [|row rows Hrow _ IH]; intros out Ho; cbn; [done|].
  destruct (existsb _ out); [by apply IH|]. apply IH, Forall_app. split; [done|by apply Forall_singleton].
Qed.

Lemma key_present row right :
  S row -> Forall S right ->
  match key_ok row with Some key => bool_decide (key ∈ (list_to_set (omap key_ok right) : gset bytes)) | None => false end =
  existsb (fun x => group_keys_equal x row) right.
Proof.
  intros Hr Hright. rewrite (safe_key_ok sc ts row Hr), <- key_seen by done.
  assert (omap key_ok right = key_bytes <$> right) as ->; [|done].
  induction Hright as [|r right H _ IH]; [done|]. cbn. by rewrite (safe_key_ok sc ts r H), IH.
Qed.

(** The counts in the hash map are those of the list. *)
Definition same_counts (m : gmap bytes nat) (c : list (Row * nat)) : Prop :=
  forall x, S x -> default 0%nat (m !! key_bytes x) = assoc c x.

Lemma same_counts_add m c row :
  counts_ok sc ts c -> S row -> same_counts m c -> same_counts (count_key m row) (add_count c row).
Proof.
  intros Hc Hr Hm x Hx. unfold count_key. rewrite (safe_key_ok sc ts) by done.
  rewrite (add_count_assoc sc ts) by (done || by apply safe_of).
  destruct (decide (key_bytes row = key_bytes x)) as [E|E].
  - rewrite E, lookup_insert_eq. rewrite (proj1 (safe_keys_eq sc ts row x Hr Hx) E). cbn. by rewrite Hm.
  - rewrite lookup_insert_ne by done. destruct (group_keys_equal row x) eqn:E'; [|by apply Hm].
    destruct E. by apply (safe_keys_eq sc ts).
Qed.

Lemma same_counts_fold right m c :
  Forall S right -> counts_ok sc ts c -> same_counts m c ->
  same_counts (foldl count_key m right) (foldl add_count c right) /\ counts_ok sc ts (foldl add_count c right).
Proof.
  intros Hr. revert m c. induction Hr as [|r right Hr _ IH]; intros m c Hc Hm; cbn; [done|].
  apply IH; [by apply add_count_ok; [|apply safe_of]|by apply same_counts_add].
Qed.

Lemma consume_hashed_linear left m c keep :
  Forall S left -> counts_ok sc ts c -> same_counts m c -> consume_hashed left m keep = consume_linear left c keep.
Proof.
  intros Hl. revert m c. induction Hl as [|row left Hr _ IH]; intros m c Hc Hm; cbn [consume_hashed consume_linear]; [done|].
  rewrite (safe_key_ok sc ts) by done. pose proof (Hm row Hr) as Em.
  assert (forall x, S x -> let '(matched, c') := take_count c row in
    matched = (0 <? assoc c row)%nat /\ counts_ok sc ts c' /\
    assoc c' x = (assoc c x - (if group_keys_equal row x then 1 else 0))%nat) as Ht
    by (intros x Hx; apply take_count_spec; [done|by apply safe_of..]).
  destruct (take_count c row) as [matched c'] eqn:Et.
  destruct (Ht row Hr) as (-> & Hc' & _).
  destruct (m !! key_bytes row) as [[|n]|] eqn:Ek; cbn in Em; rewrite <- Em; cbn [Nat.ltb Nat.leb].
  - rewrite (IH m c' Hc'); [done|]. intros x Hx. destruct (Ht x Hx) as (_ & _ & ->). rewrite Hm by done.
    destruct (group_keys_equal row x) eqn:E; [|lia]. rewrite <- (Hm x Hx).
    apply (safe_keys_eq sc ts) in E as <-; [|done..]. rewrite Ek. done.
  - rewrite (IH (<[key_bytes row:=n]> m) c' Hc'); [done|]. intros x Hx. destruct (Ht x Hx) as (_ & _ & ->).
    destruct (decide (key_bytes row = key_bytes x)) as [E|E].
    + rewrite E, lookup_insert_eq, (proj1 (safe_keys_eq sc ts row x Hr Hx) E), <- (Hm x Hx), <- E, Ek. cbn. lia.
    + rewrite lookup_insert_ne, Hm by done. destruct (group_keys_equal row x) eqn:E'; [|lia].
      destruct E. by apply (safe_keys_eq sc ts).
  - rewrite (IH m c' Hc'); [done|]. intros x Hx. destruct (Ht x Hx) as (_ & _ & ->). rewrite Hm by done.
    destruct (group_keys_equal row x) eqn:E; [|lia]. rewrite <- (Hm x Hx).
    apply (safe_keys_eq sc ts) in E as <-; [|done..]. rewrite Ek. done.
Qed.
End hashed.
