(* ===== verification/SetOpsThm.v ===== *)
(** * What ordering and the set operations promise *)

From stdpp Require Import base list gmap strings.
From Stdlib Require Import ZArith Lia Strings.Byte.
From S2P Require Import Prelude Order Codec Catalog Numeric NumericFacts NumericThm Float Interval Inet InetFacts InetThm Values IndexKey IndexKeyFacts ValuesFacts SetOpsFacts.
Import SetOps.
#[local] Open Scope Z_scope.


(** ** Set operations *)

(** How many copies of a row the operator keeps of [a] on the left and [b] on
    the right. *)
Definition set_count (op : SetOp) (all : bool) (a b : nat) : nat :=
  match op, all with
  | Union, true => a + b
  | Union, false => 1 `min` (a + b)
  | Intersect, true => a `min` b
  | Intersect, false => 1 `min` (a `min` b)
  | Except, true => a - b
  | Except, false => if (b =? 0)%nat then 1 `min` a else 0
  end.

Section ops.
Context (sc : Z) (ts : list Ty.ColumnType) (Hts : Forall no_inet_bit ts).
Abbreviation P := (row_of sc ts).

Lemma all_safe_rows rows : Forall P rows -> all_safe rows = true -> Forall (safe_row sc ts) rows.
Proof.
  intros H Hs. induction H as [|r rows Hr _ IH]; [constructor|]. cbn in Hs. apply andb_true_iff in Hs as [H1 H2].
  constructor; [done|by apply IH].
Qed.

Lemma dedupe_rows_linear rows : Forall P rows -> dedupe_rows rows = dedupe_linear rows [].
Proof.
  intros H. unfold dedupe_rows. destruct (all_safe rows) eqn:E; [|done].
  apply (dedupe_hashed_linear sc ts rows []); [by apply all_safe_rows|constructor].
Qed.

Lemma filter_by_membership_linear left right keep :
  Forall P left -> Forall P right ->
  filter_by_membership left right keep = filter (fun row => existsb (fun x => group_keys_equal x row) right = keep) left.
Proof.
  intros Hl Hr. unfold filter_by_membership. destruct (all_safe (left ++ right)) eqn:E; [|done].
  assert (Forall (safe_row sc ts) (left ++ right)) as H by (apply all_safe_rows; [by apply Forall_app|done]).
  apply Forall_app in H as [Sl Sr]. clear -Sl Sr Hts. induction Sl as [|row left Hrow _ IH]; [done|].
  rewrite !filter_cons, IH. cbn zeta. rewrite (key_present sc ts row right) by done. done.
Qed.

Lemma consume_matching_linear left right keep :
  Forall P left -> Forall P right ->
  consume_matching left right keep = consume_linear left (foldl add_count [] right) keep.
Proof.
  intros Hl Hr. unfold consume_matching. destruct (all_safe (left ++ right)) eqn:E; [|done].
  assert (Forall (safe_row sc ts) (left ++ right)) as H by (apply all_safe_rows; [by apply Forall_app|done]).
  apply Forall_app in H as [Sl Sr]. unfold consume_matching_hashed.
  destruct (same_counts_fold sc ts right ∅ [] Sr) as [H1 H2]; [constructor|done|].
  by apply (consume_hashed_linear sc ts).
Qed.

Lemma dedupe_rows_ok rows x : Forall P rows -> P x -> Forall P (dedupe_rows rows) /\ count x (dedupe_rows rows) = (1 `min` count x rows)%nat.
Proof.
  intros H Hx. rewrite dedupe_rows_linear by done. split; [by apply dedupe_linear_rows|].
  rewrite (dedupe_linear_count sc ts) by (done || cbn; lia). done.
Qed.

Lemma membership_count left right keep x :
  Forall P left -> Forall P right -> P x ->
  count x (filter_by_membership left right keep) = if Bool.eqb (0 <? count x right)%nat keep then count x left else 0%nat.
Proof.
  intros Hl Hr Hx. rewrite filter_by_membership_linear by done.
  rewrite (count_filter sc ts (fun row => existsb (fun y => group_keys_equal y row) right)); [by rewrite existsb_count|done|done|].
  intros r Hrow E. rewrite !existsb_count. by rewrite (count_eq sc ts r x).
Qed.

Lemma consume_count left right keep x :
  Forall P left -> Forall P right -> P x ->
  count x (consume_matching left right keep) =
  (if keep then count x left `min` count x right else count x left - count x right)%nat.
Proof.
  intros Hl Hr Hx. destruct (fold_counts sc ts right [] x) as [H1 H2]; [constructor|done|done|].
  by rewrite consume_matching_linear, (consume_linear_count sc ts), H2 by done.
Qed.
End ops.


(** C38: INET, CIDR and BIT rows never intersect. The fast paths take such rows,
    whose keys the encoder refuses, and treat a row without a key as absent from
    the right side: two equal one-row inputs have an empty INTERSECT, with or
    without ALL, and EXCEPT keeps the row it should remove. *)
Theorem inet_rows_never_match a b :
  let addr_row := [Val.Inet a] in
  let bit_row := [Val.Bit b] in
  forall row, row = addr_row \/ row = bit_row ->
  forall all, combine_set Intersect all [row] [row] = [] /\ combine_set Except all [row] [row] = [row].
Proof. intros addr_row bit_row row [-> | ->] []; done. Qed.

(** ** Instances *)

Definition row_types : list Ty.ColumnType := [Ty.Int; Ty.Float].
Definition row_a : Row := [Val.Int 1; Val.Float 0].
Definition row_b : Row := [Val.Int 1; Val.Float SIGN64].
Definition row_c : Row := [Val.Null; Val.Float F64_NAN].

Lemma rows_typed : Forall (row_of 0 row_types) [row_a; row_b; row_c].
Proof. repeat constructor; (by left) || (by right) || done. Qed.


Lemma inet_rows_never_match_witness : combine_set Intersect false [[Val.Bit [true]]] [[Val.Bit [true]]] = [].
Proof.
  exact (proj1 (inet_rows_never_match (MkInet (V4 []) 0 false) [true] [Val.Bit [true]] (or_intror eq_refl) false)).
Defined.
