(* ===== verification/Range.v ===== *)
(** * Ranges ([range.rs])

    Construction and canonicalization, the element and range predicates, the
    set operations, the orders of bounds and the stored form. The text forms are
    left out. *)

From stdpp Require Import base list strings.
From Stdlib Require Import ZArith Lia Strings.Byte.
From S2P Require Import Prelude Order Codec Catalog Numeric Float Interval Inet Values.
#[local] Open Scope Z_scope.

Module Range.

Abbreviation RangeVal := (Values.RangeVal Value).

Definition range_empty (k : RangeOf.RangeKind) : RangeVal := MkRange k true None None false false.

Definition bound_matches (v : Value) (k : RangeOf.RangeKind) : bool :=
  match v, k with
  | Val.Int _, RangeOf.Int | Val.Numeric _, RangeOf.Num | Val.Date _, RangeOf.Date
  | Val.Timestamp _, RangeOf.Ts | Val.TimestampTz _, RangeOf.TsTz => true
  | _, _ => false
  end.

Definition increment (v : Value) : option Value :=
  match v with
  | Val.Int i => Val.Int <$> checked_i64 (i + 1)
  | Val.Date d => Val.Date <$> checked_i32 (d + 1)
  | other => Some other
  end.

(** The emptiness check that ends [canonicalize]. *)
Definition settle (r : RangeVal) : RangeVal :=
  match lower r, upper r with
  | Some lo, Some hi =>
      match compare lo hi with
      | Gt => range_empty (kind r)
      | Eq => if lower_inc r && upper_inc r then r else range_empty (kind r)
      | Lt => r
      end
  | _, _ => r
  end.

Definition with_lower (r : RangeVal) (v : Value) : RangeVal := MkRange (kind r) (empty r) (Some v) (upper r) true (upper_inc r).
Definition with_upper (r : RangeVal) (v : Value) : RangeVal := MkRange (kind r) (empty r) (lower r) (Some v) (lower_inc r) false.

(** [None] is the [false] return. *)
Definition canonicalize (r : RangeVal) : option RangeVal :=
  if empty r then Some r
  else if is_discrete (kind r) then
    match lower r, lower_inc r with
    | Some v, false =>
        match increment v with
        | None => Some (range_empty (kind r))
        | Some next =>
            let r := with_lower r next in
            match upper r, upper_inc r with
            | Some v, true => next ← increment v; Some (settle (with_upper r next))
            | _, _ => Some (settle r)
            end
        end
    | _, _ =>
        match upper r, upper_inc r with
        | Some v, true => next ← increment v; Some (settle (with_upper r next))
        | _, _ => Some (settle r)
        end
    end
  else Some (settle r).

Definition is_some {A} (o : option A) : bool := match o with Some _ => true | None => false end.

Definition mismatched (k : RangeOf.RangeKind) (o : option Value) : bool :=
  match o with Some v => negb (bound_matches v k) | None => false end.

Definition new (k : RangeOf.RangeKind) (lo hi : option Value) (lo_inc hi_inc : bool) : option RangeVal :=
  if mismatched k lo || mismatched k hi then None
  else if match lo, hi with Some l, Some h => bool_decide (compare l h = Gt) | _, _ => false end then None
  else canonicalize (MkRange k false lo hi (lo_inc && is_some lo) (hi_inc && is_some hi)).

Definition contains_elem (r : RangeVal) (elem : Value) : bool :=
  if empty r then false
  else
    match lower r with
    | Some lo => match compare elem lo with Lt => false | Eq => lower_inc r | Gt => true end
    | None => true
    end &&
    match upper r with
    | Some hi => match compare elem hi with Gt => false | Eq => upper_inc r | Lt => true end
    | None => true
    end.

Definition range_cmp (a b : RangeVal) : comparison := range_cmp_with compare a b.

Definition contains_range (a b : RangeVal) : bool :=
  if empty b then true
  else if empty a then false
  else
    match lower a, lower b with
    | None, _ => true
    | Some _, None => false
    | Some x, Some y => match compare x y with Lt => true | Eq => lower_inc a || negb (lower_inc b) | Gt => false end
    end &&
    match upper a, upper b with
    | None, _ => true
    | Some _, None => false
    | Some x, Some y => match compare x y with Gt => true | Eq => upper_inc a || negb (upper_inc b) | Lt => false end
    end.

Definition cmp_lower (av : option Value) (ainc : bool) (bv : option Value) (binc : bool) : comparison :=
  match av, bv with
  | None, None => Eq
  | None, Some _ => Lt
  | Some _, None => Gt
  | Some a, Some b => match compare a b with Eq => cmp_bool binc ainc | c => c end
  end.

Definition cmp_upper (av : option Value) (ainc : bool) (bv : option Value) (binc : bool) : comparison :=
  match av, bv with
  | None, None => Eq
  | None, Some _ => Gt
  | Some _, None => Lt
  | Some a, Some b => match compare a b with Eq => cmp_bool ainc binc | c => c end
  end.

Definition lower_cmp (a b : RangeVal) : comparison := cmp_lower (lower a) (lower_inc a) (lower b) (lower_inc b).
Definition upper_cmp (a b : RangeVal) : comparison := cmp_upper (upper a) (upper_inc a) (upper b) (upper_inc b).

Definition bounds_touch (uv : option Value) (uinc : bool) (lv : option Value) (linc : bool) : bool :=
  match uv, lv with
  | Some u, Some l => bool_decide (compare u l = Eq) && negb (Bool.eqb uinc linc)
  | _, _ => false
  end.

Definition lower_below_upper (a b : RangeVal) : bool :=
  match lower a, upper b with
  | Some lo, Some hi => match compare lo hi with Lt => true | Eq => lower_inc a && upper_inc b | Gt => false end
  | _, _ => true
  end.

Definition overlaps (a b : RangeVal) : bool :=
  if empty a || empty b then false else lower_below_upper a b && lower_below_upper b a.

Definition lower_bound (a b : RangeVal) (tighter : bool) : option Value * bool :=
  let take_other := match lower_cmp a b with Lt => tighter | Gt => negb tighter | Eq => false end in
  if take_other then (lower b, lower_inc b) else (lower a, lower_inc a).

Definition upper_bound (a b : RangeVal) (tighter : bool) : option Value * bool :=
  let take_other := match upper_cmp a b with Gt => tighter | Lt => negb tighter | Eq => false end in
  if take_other then (upper b, upper_inc b) else (upper a, upper_inc a).

Definition combine (a b : RangeVal) (tighter : bool) : option RangeVal :=
  let '(lo, lo_inc) := lower_bound a b tighter in
  let '(hi, hi_inc) := upper_bound a b tighter in
  new (kind a) lo hi lo_inc hi_inc.

Definition union (a b : RangeVal) : option RangeVal :=
  if empty a then Some b
  else if empty b then Some a
  else if negb (overlaps a b)
       && negb (bounds_touch (upper a) (upper_inc a) (lower b) (lower_inc b))
       && negb (bounds_touch (upper b) (upper_inc b) (lower a) (lower_inc a))
  then None
  else combine a b false.

Definition intersect (a b : RangeVal) : RangeVal :=
  if negb (overlaps a b) then range_empty (kind a)
  else default (range_empty (kind a)) (combine a b true).

Definition difference (a b : RangeVal) : option RangeVal :=
  if empty a || empty b || negb (overlaps a b) then Some a
  else
    let starts_before := bool_decide (lower_cmp a b = Lt) in
    let ends_after := bool_decide (upper_cmp a b = Gt) in
    if starts_before && ends_after then None
    else if negb starts_before && negb ends_after then Some (range_empty (kind a))
    else if ends_after then new (kind a) (upper b) (upper a) (negb (upper_inc b)) (upper_inc a)
    else new (kind a) (lower a) (lower b) (lower_inc a) (negb (lower_inc b)).

Definition merge (a b : RangeVal) : RangeVal :=
  if empty a then b
  else if empty b then a
  else default (range_empty (kind a)) (combine a b false).

Definition adjacent (a b : RangeVal) : bool :=
  if empty a || empty b then false
  else bounds_touch (upper a) (upper_inc a) (lower b) (lower_inc b)
    || bounds_touch (upper b) (upper_inc b) (lower a) (lower_inc a).

Definition not_extend_right_of (a b : RangeVal) : bool :=
  if empty a || empty b then false else bool_decide (upper_cmp a b <> Gt).

Definition not_extend_left_of (a b : RangeVal) : bool :=
  if empty a || empty b then false else bool_decide (lower_cmp a b <> Lt).

Definition strictly_left_of (a b : RangeVal) : bool :=
  if empty a || empty b then false
  else
    match upper a, lower b with
    | None, _ | _, None => false
    | Some u, Some l => match compare u l with Lt => true | Eq => negb (upper_inc a && lower_inc b) | Gt => false end
    end.

Definition strictly_right_of (a b : RangeVal) : bool := strictly_left_of b a.

(** ** Stored form *)

Definition FLAG_EMPTY : Z := 1.
Definition FLAG_LOWER_INF : Z := 2.
Definition FLAG_UPPER_INF : Z := 4.
Definition FLAG_LOWER_INC : Z := 8.
Definition FLAG_UPPER_INC : Z := 16.

Definition bound_size (k : RangeOf.RangeKind) : nat :=
  match k with RangeOf.Int | RangeOf.Ts | RangeOf.TsTz => 8 | RangeOf.Date => 4 | RangeOf.Num => 17 end.

(** The unmatched arm writes a full-width bound of zeros. *)
Definition encode_bound (v : Value) (k : RangeOf.RangeKind) : bytes :=
  match v, k with
  | Val.Int i, RangeOf.Int => le_bytes 8 i
  | Val.Date d, RangeOf.Date => le_bytes 4 d
  | Val.Timestamp t, RangeOf.Ts => le_bytes 8 t
  | Val.TimestampTz t, RangeOf.TsTz => le_bytes 8 t
  | Val.Numeric d, RangeOf.Num => le_bytes 16 (mantissa d) ++ [z2b (scale d)]
  | _, _ => replicate (bound_size k) (z2b 0)
  end.

Definition flags_of (r : RangeVal) : Z :=
  Z.lor (Z.b2z (empty r))
    (Z.lor (Z.shiftl (Z.b2z (negb (is_some (lower r)))) 1)
      (Z.lor (Z.shiftl (Z.b2z (negb (is_some (upper r)))) 2)
        (Z.lor (Z.shiftl (Z.b2z (lower_inc r)) 3) (Z.shiftl (Z.b2z (upper_inc r)) 4)))).

Definition encode_finite (o : option Value) (k : RangeOf.RangeKind) : bytes :=
  match o with Some v => encode_bound v k | None => [] end.

Definition encode (r : RangeVal) : bytes :=
  z2b (flags_of r) :: (if empty r then [] else encode_finite (lower r) (kind r) ++ encode_finite (upper r) (kind r)).

Definition has_flag (flags flag : Z) : bool := negb (Z.land flags flag =? 0).

Definition payload_len (flags : Z) (k : RangeOf.RangeKind) : nat :=
  if has_flag flags FLAG_EMPTY then 0
  else ((if has_flag flags FLAG_LOWER_INF then 0 else 1) + (if has_flag flags FLAG_UPPER_INF then 0 else 1)) * bound_size k.

Definition normalize (o : option Value) : option Value :=
  match o with
  | Some (Val.Numeric d) => Some (Val.Numeric (trim_scale d))
  | other => other
  end.

Definition hash_bytes (r : RangeVal) : bytes :=
  match kind r with
  | RangeOf.Num =>
      range_tag (kind r) :: encode (MkRange (kind r) (empty r) (normalize (lower r)) (normalize (upper r)) (lower_inc r) (upper_inc r))
  | _ => range_tag (kind r) :: encode r
  end.

(** [iN::from_le_bytes] *)
Definition signed (bs : bytes) : Z :=
  let v := le_val bs in
  let m := 256 ^ Z.of_nat (length bs) in
  if v <? m / 2 then v else v - m.

Definition decode_bound (bs : bytes) (pos : nat) (k : RangeOf.RangeKind) : option (Value * nat) :=
  match k with
  | RangeOf.Int => arr ← get_range bs pos (pos + 8); Some (Val.Int (signed arr), pos + 8)%nat
  | RangeOf.Date => arr ← get_range bs pos (pos + 4); Some (Val.Date (signed arr), pos + 4)%nat
  | RangeOf.Ts => arr ← get_range bs pos (pos + 8); Some (Val.Timestamp (signed arr), pos + 8)%nat
  | RangeOf.TsTz => arr ← get_range bs pos (pos + 8); Some (Val.TimestampTz (signed arr), pos + 8)%nat
  | RangeOf.Num =>
      arr ← get_range bs pos (pos + 16);
      scale ← bs !! (pos + 16)%nat;
      Some (Val.Numeric (MkDec (signed arr) (b2z scale)), pos + 17)%nat
  end.

Definition decode_finite (present : bool) (bs : bytes) (pos : nat) (k : RangeOf.RangeKind) : option (option Value * nat) :=
  if present then '(v, next) ← decode_bound bs pos k; Some (Some v, next) else Some (None, pos).

Definition decode (bs : bytes) (pos : nat) (k : RangeOf.RangeKind) : option (RangeVal * nat) :=
  flags ← b2z <$> bs !! pos;
  let cur := S pos in
  if has_flag flags FLAG_EMPTY then Some (range_empty k, cur)
  else
    '(lo, cur) ← decode_finite (negb (has_flag flags FLAG_LOWER_INF)) bs cur k;
    '(hi, cur) ← decode_finite (negb (has_flag flags FLAG_UPPER_INF)) bs cur k;
    Some (MkRange k false lo hi (has_flag flags FLAG_LOWER_INC && is_some lo) (has_flag flags FLAG_UPPER_INC && is_some hi), cur).

End Range.
