(* ===== verification/RangeFacts.v ===== *)
(** * Facts about ranges: the set of points a range denotes

    A finite bound stands at a rational; a range denotes the rationals between
    its bounds. On canonical ranges every predicate and set operation of the
    code is the one on these sets. *)

From stdpp Require Import base list strings.
From Stdlib Require Import ZArith Lia Strings.Byte QArith Lqa.
From S2P Require Import Prelude Order Codec Catalog Numeric NumericFacts NumericThm Float Interval Inet InetFacts Values IndexKey IndexKeyFacts ValuesFacts Range.
Import Range.
#[local] Open Scope Z_scope.

Definition rank (v : Value) : Q :=
  match v with
  | Val.Int z | Val.Date z | Val.Timestamp z | Val.TimestampTz z => inject_Z z
  | Val.Numeric d => value d
  | _ => 0%Q
  end.

(** A value of the element type; a decimal is a number and fits at scale [sc]. *)
Definition elem (sc : Z) (k : RangeOf.RangeKind) (v : Value) : Prop :=
  match k, v with
  | RangeOf.Int, Val.Int z | RangeOf.Ts, Val.Timestamp z | RangeOf.TsTz, Val.TimestampTz z => i64 z
  | RangeOf.Date, Val.Date z => i32 z
  | RangeOf.Num, Val.Numeric d => wf_decimal d /\ scale d <= sc <= 38 /\ i128 (aligned d sc)
  | _, _ => False
  end.

Lemma inject_compare a b : (inject_Z a ?= inject_Z b)%Q = (a ?= b).
Proof. unfold Qcompare. cbn. by rewrite !Z.mul_1_r. Qed.

Lemma compare_rank sc k a b : elem sc k a -> elem sc k b -> compare a b = (rank a ?= rank b)%Q.
Proof.
  intros Ha Hb. destruct k, a as [| |x| | |x| |x|x| | | | | | | |x| | | | | | | | | |], b as [| |y| | |y| |y|y| | | | | | | |y| | | | | | | | | |];
    try done; cbn [compare rank]; try (by rewrite inject_compare).
  destruct Ha as (Wa & Sa & Fa), Hb as (Wb & Sb & Fb).
  rewrite (numeric_compare_at sc) by (by right). unfold at_scale. rewrite !wf_not_nan by done. cbn [cmp_bool Z.b2z then_cmp Z.compare].
  symmetry. destruct Wa as [_ Wa], Wb as [_ Wb]. apply value_compare; lia.
Qed.

Lemma elem_matches sc k v : elem sc k v -> bound_matches v k = true.
Proof. by destruct k, v. Qed.

(** ** Points *)

Definition above (o : option Value) (inc : bool) (q : Q) : Prop :=
  match o with Some v => (rank v < q \/ (rank v == q /\ inc = true))%Q | None => True end.
Definition below (o : option Value) (inc : bool) (q : Q) : Prop :=
  match o with Some v => (q < rank v \/ (q == rank v /\ inc = true))%Q | None => True end.

Definition denotes (r : RangeVal) (q : Q) : Prop :=
  empty r = false /\ above (lower r) (lower_inc r) q /\ below (upper r) (upper_inc r) q.

(** Some point lies between the bounds. *)
Definition crossing (lo hi : option Value) (li hi_inc : bool) : Prop :=
  match lo, hi with
  | Some l, Some h => (rank l < rank h \/ (rank l == rank h /\ li = true /\ hi_inc = true))%Q
  | _, _ => True
  end.

Record wf_bounds (sc : Z) (k : RangeOf.RangeKind) (lo hi : option Value) (li hi_inc : bool) : Prop := {
  wb_lo : from_option (elem sc k) True lo;
  wb_hi : from_option (elem sc k) True hi;
  wb_lo_inf : lo = None -> li = false;
  wb_hi_inf : hi = None -> hi_inc = false;
  wb_discrete : is_discrete k = true -> (is_some lo = true -> li = true) /\ hi_inc = false }.

(** What the constructor builds. *)
Definition wf_range (sc : Z) (k : RangeOf.RangeKind) (r : RangeVal) : Prop :=
  kind r = k /\
  if empty r then r = range_empty k
  else wf_bounds sc k (lower r) (upper r) (lower_inc r) (upper_inc r) /\ crossing (lower r) (upper r) (lower_inc r) (upper_inc r).

Lemma wf_empty sc k : wf_range sc k (range_empty k).
Proof. done. Qed.

Lemma empty_denotes k q : ~ denotes (range_empty k) q.
Proof. by intros (H & _). Qed.

(** A range that is not empty has a point. *)
Lemma range_point sc k r : wf_range sc k r -> empty r = false -> exists q, denotes r q.
Proof.
  intros [Hk H] He. rewrite He in H. destruct H as [[_ _ Li Hi _] Hc]. unfold denotes. rewrite He.
  destruct (lower r) as [l|], (upper r) as [h|]; cbn [above below crossing] in *.
  - destruct Hc as [Hc|(E & -> & ->)].
    + exists ((rank l + rank h) / 2)%Q. split_and!; [done|left|left]; [apply Qlt_shift_div_l|apply Qlt_shift_div_r]; lra.
    + exists (rank l). split_and!; [done|right; split; [reflexivity|done]|right; done].
  - exists (rank l + 1)%Q. split_and!; [done|left; lra|done].
  - exists (rank h - 1)%Q. split_and!; [done|done|left; lra].
  - by exists 0%Q.
Qed.

Lemma settle_spec sc k lo hi li hi_inc :
  let r := MkRange k false lo hi li hi_inc in
  wf_bounds sc k lo hi li hi_inc ->
  wf_range sc k (settle r) /\ forall q, denotes (settle r) q <-> above lo li q /\ below hi hi_inc q.
Proof.
  intros r Hb. unfold settle, r. cbn [lower upper kind lower_inc upper_inc].
  assert (crossing lo hi li hi_inc -> wf_range sc k r /\ forall q, denotes r q <-> above lo li q /\ below hi hi_inc q) as Hok.
  { intros Hc. split; [by split|]. intros q. unfold denotes, r. cbn. tauto. }
  destruct lo as [l|], hi as [h|]; try (by apply Hok).
  assert (forall q, ~ (above (Some l) li q /\ below (Some h) hi_inc q) ->
    wf_range sc k (range_empty k) /\ (denotes (range_empty k) q <-> above (Some l) li q /\ below (Some h) hi_inc q)) as Hno.
  { intros q Hn. split; [done|]. split; [by intros ?%empty_denotes|done]. }
  destruct Hb as [Hl Hh _ _ _]. cbn in Hl, Hh. rewrite (compare_rank sc k) by done.
  destruct (Qcompare_spec (rank l) (rank h)) as [E|E|E].
  - destruct (li && hi_inc) eqn:Ei.
    + apply andb_true_iff in Ei as [-> ->]. apply Hok. by right.
    + split; [done|]. intros q. apply Hno. intros [[H1|[H1 ->]] [H2|[H2 ->]]]; first [lra|done].
  - apply Hok. by left.
  - split; [done|]. intros q. apply Hno. intros [[H1|[H1 ->]] [H2|[H2 ->]]]; lra.
Qed.

(** ** The constructor on canonical bounds *)

Definition crossed (lo hi : option Value) : bool :=
  match lo, hi with Some l, Some h => bool_decide (compare l h = Gt) | _, _ => false end.

Lemma new_canonical sc k lo hi li hi_inc :
  wf_bounds sc k lo hi li hi_inc ->
  new k lo hi li hi_inc = if crossed lo hi then None else Some (settle (MkRange k false lo hi li hi_inc)).
Proof.
  intros [Hl Hh Li Hi Hd]. unfold new, crossed.
  assert (mismatched k lo = false) as -> by (destruct lo; [cbn in *; by rewrite (elem_matches sc)|done]).
  assert (mismatched k hi = false) as -> by (destruct hi; [cbn in *; by rewrite (elem_matches sc)|done]). cbn [orb].
  assert (li && is_some lo = li) as -> by (destruct lo; [by rewrite andb_true_r|by rewrite Li]).
  assert (hi_inc && is_some hi = hi_inc) as -> by (destruct hi; [by rewrite andb_true_r|by rewrite Hi]).
  assert (canonicalize (MkRange k false lo hi li hi_inc) = Some (settle (MkRange k false lo hi li hi_inc))) as ->; [|done].
  unfold canonicalize. cbn [empty kind lower lower_inc upper upper_inc]. destruct (is_discrete k); [|done].
  destruct (Hd eq_refl) as [Hd1 ->]. destruct lo as [l|]; [rewrite Hd1 by done|]; by destruct hi.
Qed.

Lemma above_proper o inc q q' : (q == q')%Q -> above o inc q -> above o inc q'.
Proof. destruct o; cbn; [|done]. intros E [H|[H ->]]; [left|right; split; [|done]]; lra. Qed.
Lemma below_proper o inc q q' : (q == q')%Q -> below o inc q -> below o inc q'.
Proof. destruct o; cbn; [|done]. intros E [H|[H ->]]; [left|right; split; [|done]]; lra. Qed.

(** A point between two bounds, and the other way around. *)
Lemma crossing_point lo hi li hi_inc q : above lo li q -> below hi hi_inc q -> crossing lo hi li hi_inc.
Proof. destruct lo, hi; cbn; try done. intros [H1|[H1 ->]] [H2|[H2 ->]]; try (left; lra). right. split; [lra|done]. Qed.

Lemma crossing_not_crossed sc k lo hi li hi_inc :
  from_option (elem sc k) True lo -> from_option (elem sc k) True hi -> crossing lo hi li hi_inc -> crossed lo hi = false.
Proof.
  destruct lo, hi; cbn; try done. intros Hl Hh Hc. apply bool_decide_eq_false. rewrite (compare_rank sc k) by done.
  destruct (Qcompare_spec (rank v) (rank v0)) as [E|E|E]; try done. destruct Hc as [?|[? _]]; lra.
Qed.

(** What is above one bound and not above another. *)
Lemma above_split o inc p q : above o inc p -> ~ above o inc q -> (q < p)%Q.
Proof.
  destruct o as [v|]; cbn; [|tauto]. intros [H|[H ->]] Hn; destruct (Qlt_le_dec q p) as [|Hle]; try done; destruct Hn.
  - left. lra.
  - destruct (Qlt_le_dec p q); [left; lra|right; split; [lra|done]].
Qed.
Lemma below_split o inc p q : below o inc p -> ~ below o inc q -> (p < q)%Q.
Proof.
  destruct o as [v|]; cbn; [|tauto]. intros [H|[H ->]] Hn; destruct (Qlt_le_dec p q) as [|Hle]; try done; destruct Hn.
  - left. lra.
  - destruct (Qlt_le_dec q p); [left; lra|right; split; [lra|done]].
Qed.

Lemma above_dec o inc q : above o inc q \/ ~ above o inc q.
Proof.
  destruct o as [v|]; cbn; [|by left]. destruct (Qlt_le_dec (rank v) q) as [H|H]; [by left; left|].
  destruct (Qlt_le_dec q (rank v)) as [H'|H']; [right; intros [?|[? _]]; lra|].
  destruct inc; [left; right; split; [lra|done]|right; intros [?|[_ ?]]; [lra|done]].
Qed.
Lemma below_dec o inc q : below o inc q \/ ~ below o inc q.
Proof.
  destruct o as [v|]; cbn; [|by left]. destruct (Qlt_le_dec q (rank v)) as [H|H]; [by left; left|].
  destruct (Qlt_le_dec (rank v) q) as [H'|H']; [right; intros [?|[? _]]; lra|].
  destruct inc; [left; right; split; [lra|done]|right; intros [?|[_ ?]]; [lra|done]].
Qed.

(** ** Order of bounds *)

Section two.
Context (sc : Z) (k : RangeOf.RangeKind) (a b : RangeVal).
Context (Ha : wf_range sc k a) (Hb : wf_range sc k b) (Ea : empty a = false) (Eb : empty b = false).

Lemma wf_a : wf_bounds sc k (lower a) (upper a) (lower_inc a) (upper_inc a) /\ crossing (lower a) (upper a) (lower_inc a) (upper_inc a).
Proof. destruct Ha as [_ H]. by rewrite Ea in H. Qed.
Lemma wf_b : wf_bounds sc k (lower b) (upper b) (lower_inc b) (upper_inc b) /\ crossing (lower b) (upper b) (lower_inc b) (upper_inc b).
Proof. destruct Hb as [_ H]. by rewrite Eb in H. Qed.

Lemma lower_cmp_above q :
  match lower_cmp a b with
  | Lt => above (lower b) (lower_inc b) q -> above (lower a) (lower_inc a) q
  | Eq => above (lower b) (lower_inc b) q <-> above (lower a) (lower_inc a) q
  | Gt => above (lower a) (lower_inc a) q -> above (lower b) (lower_inc b) q
  end.
Proof.
  destruct wf_a as [[Hla _ _ _ _] _], wf_b as [[Hlb _ _ _ _] _]. unfold lower_cmp, cmp_lower.
  destruct (lower a) as [x|], (lower b) as [y|]; cbn in *; try done.
  rewrite (compare_rank sc k) by done. destruct (Qcompare_spec (rank x) (rank y)) as [E|E|E].
  - destruct (lower_inc a), (lower_inc b); cbn; try split; intros [H|[H Hi]]; try done; try (left; lra); try (right; split; [lra|done]).
  - intros [H|[H _]]; left; lra.
  - intros [H|[H _]]; left; lra.
Qed.

Lemma upper_cmp_below q :
  match upper_cmp a b with
  | Lt => below (upper a) (upper_inc a) q -> below (upper b) (upper_inc b) q
  | Eq => below (upper a) (upper_inc a) q <-> below (upper b) (upper_inc b) q
  | Gt => below (upper b) (upper_inc b) q -> below (upper a) (upper_inc a) q
  end.
Proof.
  destruct wf_a as [[_ Hua _ _ _] _], wf_b as [[_ Hub _ _ _] _]. unfold upper_cmp, cmp_upper.
  destruct (upper a) as [x|], (upper b) as [y|]; cbn in *; try done.
  rewrite (compare_rank sc k) by done. destruct (Qcompare_spec (rank x) (rank y)) as [E|E|E].
  - destruct (upper_inc a), (upper_inc b); cbn; try split; intros [H|[H Hi]]; try done; try (left; lra); try (right; split; [lra|done]).
  - intros [H|[H _]]; left; lra.
  - intros [H|[H _]]; left; lra.
Qed.

(** A strictly earlier start has a point before the other's start. *)
Lemma lower_cmp_strict q :
  lower_cmp a b = Lt -> above (lower b) (lower_inc b) q ->
  exists p, (p <= q)%Q /\ above (lower a) (lower_inc a) p /\ ~ above (lower b) (lower_inc b) p.
Proof.
  destruct wf_a as [[Hla _ _ _ _] _], wf_b as [[Hlb _ _ _ _] _]. unfold lower_cmp, cmp_lower.
  destruct (lower a) as [x|], (lower b) as [y|]; cbn in *; try done.
  - rewrite (compare_rank sc k) by done. destruct (Qcompare_spec (rank x) (rank y)) as [E|E|E]; try done.
    + destruct (lower_inc a), (lower_inc b); cbn; try done. intros _ [H|[_ ?]]; [|done].
      exists (rank x). split_and!; [lra|right; split; [reflexivity|done]|intros [?|[_ ?]]; [lra|done]].
    + intros _ H. exists ((rank x + rank y) / 2)%Q.
      assert (rank x < (rank x + rank y) / 2 /\ (rank x + rank y) / 2 < rank y)%Q as [H1 H2]
        by (split; [apply Qlt_shift_div_l|apply Qlt_shift_div_r]; lra).
      split_and!; [destruct H as [?|[? _]]; lra|by left|intros [?|[? _]]; lra].
  - intros _ H. exists (rank y - 1)%Q. split_and!; [destruct H as [?|[? _]]; lra|done|intros [?|[? _]]; lra].
Qed.

Lemma upper_cmp_strict q :
  upper_cmp a b = Gt -> below (upper b) (upper_inc b) q ->
  exists p, (q <= p)%Q /\ below (upper a) (upper_inc a) p /\ ~ below (upper b) (upper_inc b) p.
Proof.
  destruct wf_a as [[_ Hua _ _ _] _], wf_b as [[_ Hub _ _ _] _]. unfold upper_cmp, cmp_upper.
  destruct (upper a) as [x|], (upper b) as [y|]; cbn in *; try done.
  - rewrite (compare_rank sc k) by done. destruct (Qcompare_spec (rank x) (rank y)) as [E|E|E]; try done.
    + destruct (upper_inc a), (upper_inc b); cbn; try done. intros _ [H|[_ ?]]; [|done].
      exists (rank x). split_and!; [lra|right; split; [reflexivity|done]|intros [?|[_ ?]]; [lra|done]].
    + intros _ H. exists ((rank x + rank y) / 2)%Q.
      assert (rank y < (rank x + rank y) / 2 /\ (rank x + rank y) / 2 < rank x)%Q as [H1 H2]
        by (split; [apply Qlt_shift_div_l|apply Qlt_shift_div_r]; lra).
      split_and!; [destruct H as [?|[? _]]; lra|by left|intros [?|[? _]]; lra].
  - intros _ H. exists (rank y + 1)%Q. split_and!; [destruct H as [?|[? _]]; lra|done|intros [?|[? _]]; lra].
Qed.

Lemma lower_bound_above (tighter : bool) q :
  above (lower_bound a b tighter).1 (lower_bound a b tighter).2 q <->
  if tighter then above (lower a) (lower_inc a) q /\ above (lower b) (lower_inc b) q
  else above (lower a) (lower_inc a) q \/ above (lower b) (lower_inc b) q.
Proof. pose proof (lower_cmp_above q) as H. unfold lower_bound. destruct (lower_cmp a b), tighter; cbn; tauto. Qed.

Lemma upper_bound_below (tighter : bool) q :
  below (upper_bound a b tighter).1 (upper_bound a b tighter).2 q <->
  if tighter then below (upper a) (upper_inc a) q /\ below (upper b) (upper_inc b) q
  else below (upper a) (upper_inc a) q \/ below (upper b) (upper_inc b) q.
Proof. pose proof (upper_cmp_below q) as H. unfold upper_bound. destruct (upper_cmp a b), tighter; cbn; tauto. Qed.
End two.

Section ops.
Context (sc : Z) (k : RangeOf.RangeKind) (a b : RangeVal).
Context (Ha : wf_range sc k a) (Hb : wf_range sc k b) (Ea : empty a = false) (Eb : empty b = false).

Lemma kind_a : kind a = k.
Proof. apply Ha. Qed.

(** Whatever bounds are picked from the two ranges, they are canonical. *)
Lemma picked_wf (x y : RangeVal) :
  x = a \/ x = b -> y = a \/ y = b -> wf_bounds sc k (lower x) (upper y) (lower_inc x) (upper_inc y).
Proof.
  destruct (wf_a sc k a Ha Ea) as [[A1 A2 A3 A4 A5] _], (wf_b sc k b Hb Eb) as [[B1 B2 B3 B4 B5] _].
  intros [-> | ->] [-> | ->]; split; try done; intros Hd; destruct (A5 Hd), (B5 Hd); done.
Qed.

Lemma lower_bound_pick t : exists x, (x = a \/ x = b) /\ lower_bound a b t = (lower x, lower_inc x).
Proof. unfold lower_bound. destruct (match lower_cmp a b with Eq => _ | Lt => _ | Gt => _ end); eauto. Qed.
Lemma upper_bound_pick t : exists x, (x = a \/ x = b) /\ upper_bound a b t = (upper x, upper_inc x).
Proof. unfold upper_bound. destruct (match upper_cmp a b with Eq => _ | Lt => _ | Gt => _ end); eauto. Qed.

(** Combined bounds that do not cross. *)
Lemma combine_spec t :
  (exists q, above (lower_bound a b t).1 (lower_bound a b t).2 q /\ below (upper_bound a b t).1 (upper_bound a b t).2 q) ->
  exists r, combine a b t = Some r /\ wf_range sc k r /\
    forall q, denotes r q <->
      above (lower_bound a b t).1 (lower_bound a b t).2 q /\ below (upper_bound a b t).1 (upper_bound a b t).2 q.
Proof.
  destruct (lower_bound_pick t) as (x & Hx & El). destruct (upper_bound_pick t) as (y & Hy & Eu).
  pose proof (picked_wf x y Hx Hy) as W. unfold combine. rewrite El, Eu, kind_a. cbn [fst snd]. intros (q & H1 & H2).
  rewrite (new_canonical sc) by done.
  rewrite (crossing_not_crossed sc k _ _ (lower_inc x) (upper_inc y)) by first [by destruct W|by apply (crossing_point _ _ _ _ q)].
  eexists. split; [done|]. by apply settle_spec.
Qed.

Lemma lower_below_upper_crossing (x y : RangeVal) :
  x = a \/ x = b -> y = a \/ y = b ->
  lower_below_upper x y = true <-> crossing (lower x) (upper y) (lower_inc x) (upper_inc y).
Proof.
  intros Hx Hy. destruct (picked_wf x y Hx Hy) as [H1 H2 _ _ _]. unfold lower_below_upper, crossing.
  destruct (lower x) as [l|], (upper y) as [h|]; try done. cbn in H1, H2. rewrite (compare_rank sc k) by done.
  destruct (Qcompare_spec (rank l) (rank h)) as [E|E|E].
  - rewrite andb_true_iff. split; [by right|]. intros [?|(_ & H)]; [lra|done].
  - split; [by left|done].
  - split; [done|]. intros [?|[? _]]; lra.
Qed.

(** The ranges share a point, in terms of the bounds. *)
Lemma overlap_point : overlaps a b = true <-> exists q, denotes a q /\ denotes b q.
Proof.
  unfold overlaps. rewrite Ea, Eb. cbn [orb]. rewrite andb_true_iff, !lower_below_upper_crossing by tauto. split.
  - intros [C1 C2]. destruct (wf_a sc k a Ha Ea) as [_ Ca], (wf_b sc k b Hb Eb) as [_ Cb].
    destruct (lower_bound_pick true) as (x & Hx & El). destruct (upper_bound_pick true) as (y & Hy & Eu).
    assert (crossing (lower x) (upper y) (lower_inc x) (upper_inc y)) as Cxy by (by destruct Hx as [-> | ->], Hy as [-> | ->]).
    destruct (range_point sc k (MkRange k false (lower x) (upper y) (lower_inc x) (upper_inc y))) as (q & _ & H1 & H2);
      [split; [done|cbn; split; [by apply picked_wf|done]]|done|].
    exists q. cbn in H1, H2. pose proof (lower_bound_above sc k a b Ha Hb Ea Eb true q) as L. rewrite El in L.
    pose proof (upper_bound_below sc k a b Ha Hb Ea Eb true q) as U. rewrite Eu in U. cbn in L, U.
    apply L in H1 as [? ?]. apply U in H2 as [? ?]. done.
  - intros (q & (_ & A1 & A2) & (_ & B1 & B2)). split; by apply (crossing_point _ _ _ _ q).
Qed.

Lemma intersect_spec : wf_range sc k (intersect a b) /\ forall q, denotes (intersect a b) q <-> denotes a q /\ denotes b q.
Proof.
  unfold intersect. destruct (overlaps a b) eqn:Eo; cbn [negb].
  - apply overlap_point in Eo as (p & (_ & A1 & A2) & (_ & B1 & B2)).
    destruct (combine_spec true) as (r & -> & Wr & Hr).
    { exists p. by rewrite (lower_bound_above sc k), (upper_bound_below sc k). }
    split; [done|]. intros q. cbn [default]. rewrite Hr, (lower_bound_above sc k), (upper_bound_below sc k) by done.
    unfold denotes. rewrite Ea, Eb. tauto.
  - rewrite kind_a. split; [done|]. intros q. split; [by intros ?%empty_denotes|]. intros H.
    assert (overlaps a b = true) as H'; [|congruence]. apply overlap_point. by exists q.
Qed.

(** The non-tight bounds hull both ranges. *)
Lemma hull_spec :
  exists r, combine a b false = Some r /\ wf_range sc k r /\
    forall q, denotes r q <-> (above (lower a) (lower_inc a) q \/ above (lower b) (lower_inc b) q) /\
                               (below (upper a) (upper_inc a) q \/ below (upper b) (upper_inc b) q).
Proof.
  destruct (range_point sc k a Ha Ea) as (p & _ & A1 & A2).
  destruct (combine_spec false) as (r & E & Wr & Hr).
  { exists p. rewrite (lower_bound_above sc k), (upper_bound_below sc k) by done. tauto. }
  exists r. split_and!; [done|done|]. intros q. by rewrite Hr, (lower_bound_above sc k), (upper_bound_below sc k).
Qed.

Lemma touch_spec (x y : RangeVal) :
  x = a \/ x = b -> y = a \/ y = b ->
  bounds_touch (upper x) (upper_inc x) (lower y) (lower_inc y) = true <->
  exists u l, upper x = Some u /\ lower y = Some l /\ (rank u == rank l)%Q /\ upper_inc x <> lower_inc y.
Proof.
  intros Hx Hy. destruct (picked_wf y x Hy Hx) as [H1 H2 _ _ _]. unfold bounds_touch.
  destruct (upper x) as [u|], (lower y) as [l|]; try (split; [done|by intros (? & ? & ? & ? & ?)]).
  cbn in H1, H2. rewrite andb_true_iff, bool_decide_eq_true, (compare_rank sc k) by done. rewrite <- Qeq_alt. split.
  - intros [E Hn]. exists u, l. split_and!; try done. intros E'. by rewrite E', Bool.eqb_reflx in Hn.
  - intros (? & ? & [= <-] & [= <-] & E & Hn). split; [done|]. destruct (upper_inc x), (lower_inc y); done.
Qed.

(** Nothing between the two: every point of the hull is in one of them. *)
Lemma between_covered (x y : RangeVal) q :
  x = a \/ x = b -> y = a \/ y = b ->
  (exists p, below (upper x) (upper_inc x) p /\ above (lower y) (lower_inc y) p) \/
  bounds_touch (upper x) (upper_inc x) (lower y) (lower_inc y) = true ->
  below (upper x) (upper_inc x) q \/ above (lower y) (lower_inc y) q.
Proof.
  intros Hx Hy H. destruct (below_dec (upper x) (upper_inc x) q) as [|Hn1]; [by left|].
  destruct (above_dec (lower y) (lower_inc y) q) as [|Hn2]; [by right|]. exfalso. destruct H as [(p & H1 & H2)|Ht].
  - pose proof (below_split _ _ _ _ H1 Hn1). pose proof (above_split _ _ _ _ H2 Hn2). lra.
  - apply touch_spec in Ht as (u & l & Eu & El & E & Hi); [|done..]. rewrite Eu in Hn1. rewrite El in Hn2. cbn in Hn1, Hn2.
    assert ((q == rank u)%Q) as Eq.
    { destruct (Qlt_le_dec q (rank u)); [by destruct Hn1; left|]. destruct (Qlt_le_dec (rank l) q); [by destruct Hn2; left|]. lra. }
    destruct (upper_inc x) eqn:Eix; [apply Hn1; by right|]. destruct (lower_inc y) eqn:Eiy; [|done].
    apply Hn2. right. split; [lra|done].
Qed.

(** A gap between [x] and [y]: a point right of one and left of the other. *)
Lemma gap_point (x y : RangeVal) :
  x = a \/ x = b -> y = a \/ y = b ->
  lower_below_upper y x = false -> bounds_touch (upper x) (upper_inc x) (lower y) (lower_inc y) = false ->
  exists q, ~ below (upper x) (upper_inc x) q /\ ~ above (lower y) (lower_inc y) q.
Proof.
  intros Hx Hy Hl Ht.
  assert (~ crossing (lower y) (upper x) (lower_inc y) (upper_inc x)) as Hc.
  { intros C. apply (lower_below_upper_crossing y x) in C; [congruence|done|done]. }
  assert (~ exists u l, upper x = Some u /\ lower y = Some l /\ (rank u == rank l)%Q /\ upper_inc x <> lower_inc y) as Hnt.
  { intros H. apply (touch_spec x y) in H; [congruence|done|done]. }
  unfold crossing in Hc. destruct (lower y) as [l|], (upper x) as [u|]; try done. cbn [below above].
  destruct (Qlt_le_dec (rank u) (rank l)) as [H|H].
  - exists ((rank u + rank l) / 2)%Q.
    assert (rank u < (rank u + rank l) / 2 /\ (rank u + rank l) / 2 < rank l)%Q as [H1 H2]
      by (split; [apply Qlt_shift_div_l|apply Qlt_shift_div_r]; lra).
    split; intros [?|[? _]]; lra.
  - assert (rank u == rank l)%Q as E. { destruct (Qlt_le_dec (rank l) (rank u)); [|lra]. destruct Hc. by left. }
    assert (upper_inc x = lower_inc y) as Ei.
    { destruct (upper_inc x) eqn:E1, (lower_inc y) eqn:E2; try done; destruct Hnt; exists u, l; done. }
    assert (upper_inc x = false) as E1.
    { destruct (upper_inc x) eqn:E1; [|done]. destruct Hc. right. rewrite <- Ei. done. }
    exists (rank u). rewrite <- Ei, E1. split; intros [?|[_ ?]]; done || lra.
Qed.
End ops.
