(* ===== verification/RangeThm.v ===== *)
(** * What ranges promise *)

From stdpp Require Import base list strings.
From Stdlib Require Import ZArith Lia Strings.Byte QArith Lqa.
From S2P Require Import Prelude Order Codec Catalog Numeric NumericFacts NumericThm Float Interval Inet InetFacts Values IndexKey IndexKeyFacts ValuesFacts Range RangeFacts.
Import Range.
#[local] Open Scope Z_scope.

Lemma above_mono o inc p q : (p <= q)%Q -> above o inc p -> above o inc q.
Proof. destruct o; cbn; [|done]. intros Hle [H|[H ->]]; [left; lra|]. destruct (Qlt_le_dec p q); [left; lra|right; split; [lra|done]]. Qed.
Lemma below_mono o inc p q : (p <= q)%Q -> below o inc q -> below o inc p.
Proof. destruct o; cbn; [|done]. intros Hle [H|[H ->]]; [left; lra|]. destruct (Qlt_le_dec p q); [left; lra|right; split; [lra|done]]. Qed.

(** The complement of a bound. *)
Lemma above_negb v inc q : above (Some v) (negb inc) q <-> ~ below (Some v) inc q.
Proof.
  cbn. split.
  - intros [H|[H Hi]] [H'|[H' ->]]; lra || done.
  - intros Hn. destruct (Qlt_le_dec (rank v) q); [by left|]. destruct (Qlt_le_dec q (rank v)); [by destruct Hn; left|].
    right. split; [lra|]. destruct inc; [|done]. destruct Hn. right. split; [lra|done].
Qed.
Lemma below_negb v inc q : below (Some v) (negb inc) q <-> ~ above (Some v) inc q.
Proof.
  cbn. split.
  - intros [H|[H Hi]] [H'|[H' ->]]; lra || done.
  - intros Hn. destruct (Qlt_le_dec q (rank v)); [by left|]. destruct (Qlt_le_dec (rank v) q); [by destruct Hn; left|].
    right. split; [lra|]. destruct inc; [|done]. destruct Hn. right. split; [lra|done].
Qed.

Lemma denotes_convex r p q s : denotes r p -> denotes r s -> (p <= q)%Q -> (q <= s)%Q -> denotes r q.
Proof. intros (He & A & _) (_ & _ & B) H1 H2. split_and!; [done|by eapply above_mono|by eapply below_mono]. Qed.

(** A middle point with points of another set on both sides. *)
Definition splits (X Y : Q -> Prop) : Prop := exists p q r, (p < q)%Q /\ (q < r)%Q /\ X p /\ X r /\ Y q.

Section pair.
Context (sc : Z) (k : RangeOf.RangeKind) (a b : RangeVal).
Context (Ha : wf_range sc k a) (Hb : wf_range sc k b) (Ea : empty a = false) (Eb : empty b = false).

Lemma touch_disjoint (x y : RangeVal) q :
  x = a \/ x = b -> y = a \/ y = b ->
  bounds_touch (upper x) (upper_inc x) (lower y) (lower_inc y) = true ->
  below (upper x) (upper_inc x) q -> above (lower y) (lower_inc y) q -> False.
Proof.
  intros Hx Hy (u & l & Eu & El & E & Hi)%(touch_spec sc k a b Ha Hb Ea Eb); [|done..]. rewrite Eu, El. cbn.
  intros [H1|[H1 I1]] [H2|[H2 I2]]; try lra. congruence.
Qed.

Lemma union_spec :
  match union a b with
  | Some u => wf_range sc k u /\ forall q, denotes u q <-> denotes a q \/ denotes b q
  | None => splits (fun q => denotes a q \/ denotes b q) (fun q => ~ (denotes a q \/ denotes b q))
  end.
Proof.
  unfold union. rewrite Ea, Eb.
  set (tab := bounds_touch (upper a) (upper_inc a) (lower b) (lower_inc b)).
  set (tba := bounds_touch (upper b) (upper_inc b) (lower a) (lower_inc a)).
  destruct (negb (overlaps a b) && negb tab && negb tba) eqn:E.
  - rewrite !andb_true_iff, !negb_true_iff in E. destruct E as [[Eo Eab] Eba].
    destruct (range_point sc k a Ha Ea) as (pa & Pa). destruct (range_point sc k b Hb Eb) as (pb & Pb).
    assert (lower_below_upper b a = false \/ lower_below_upper a b = false) as [H|H].
    { unfold overlaps in Eo. rewrite Ea, Eb in Eo. cbn [orb] in Eo. apply andb_false_iff in Eo. tauto. }
    + destruct (gap_point sc k a b Ha Hb Ea Eb a b) as (q & H1 & H2); [tauto|tauto|done|done|].
      exists pa, q, pb. split_and!; [by eapply below_split; [apply Pa|]|by eapply above_split; [apply Pb|]|by left|by right|].
      intros [(_ & _ & ?)|(_ & ? & _)]; done.
    + destruct (gap_point sc k a b Ha Hb Ea Eb b a) as (q & H1 & H2); [tauto|tauto|done|done|].
      exists pb, q, pa. split_and!; [by eapply below_split; [apply Pb|]|by eapply above_split; [apply Pa|]|by right|by left|].
      intros [(_ & ? & _)|(_ & _ & ?)]; done.
  - destruct (hull_spec sc k a b Ha Hb Ea Eb) as (r & -> & Wr & Hr). split; [done|]. intros q. rewrite Hr.
    assert ((exists p, denotes a p /\ denotes b p) \/ tab = true \/ tba = true) as Hc.
    { destruct (overlaps a b) eqn:Eo; [left; by apply (overlap_point sc k a b Ha Hb Ea Eb)|]. destruct tab, tba; auto. }
    pose proof (between_covered sc k a b Ha Hb Ea Eb a b q) as Cab. pose proof (between_covered sc k a b Ha Hb Ea Eb b a q) as Cba.
    pose proof (touch_disjoint a b q) as Tab. pose proof (touch_disjoint b a q) as Tba. fold tab in Cab, Tab. fold tba in Cba, Tba.
    unfold denotes. rewrite Ea, Eb. split; [|tauto]. intros [[H1|H1] [H2|H2]]; [tauto| | |tauto].
    + destruct Hc as [(p & (_ & _ & ?) & (_ & ? & _))|[Ht|Ht]];
        [destruct Cab as [?|?]; [tauto|tauto|left; by exists p|tauto..]|destruct Cab; tauto|exfalso; apply Tba; tauto].
    + destruct Hc as [(p & (_ & ? & _) & (_ & _ & ?))|[Ht|Ht]];
        [destruct Cba as [?|?]; [tauto|tauto|left; by exists p|tauto..]|exfalso; apply Tab; tauto|destruct Cba; tauto].
Qed.

Lemma merge_hull :
  wf_range sc k (merge a b) /\
  forall q, denotes (merge a b) q <->
    exists p r, (denotes a p \/ denotes b p) /\ (denotes a r \/ denotes b r) /\ (p <= q)%Q /\ (q <= r)%Q.
Proof.
  unfold merge. rewrite Ea, Eb. destruct (hull_spec sc k a b Ha Hb Ea Eb) as (m & -> & Wm & Hm). cbn [default].
  destruct (range_point sc k a Ha Ea) as (pa & Pa). destruct (range_point sc k b Hb Eb) as (pb & Pb).
  split; [done|]. intros q. rewrite Hm.
  assert (forall x px, denotes x px -> above (lower x) (lower_inc x) q -> exists p, denotes x p /\ (p <= q)%Q) as Hlo.
  { intros x px Px Hq. destruct (Qlt_le_dec q px); [|by exists px]. exists q. split; [|lra]. destruct Px as (? & ? & ?).
    split_and!; [done|done|eapply below_mono; [|done]; lra]. }
  assert (forall x px, denotes x px -> below (upper x) (upper_inc x) q -> exists p, denotes x p /\ (q <= p)%Q) as Hhi.
  { intros x px Px Hq. destruct (Qlt_le_dec px q); [|by exists px]. exists q. split; [|lra]. destruct Px as (? & ? & ?).
    split_and!; [done|eapply above_mono; [|done]; lra|done]. }
  split.
  - intros [H1 H2].
    assert (exists p, (denotes a p \/ denotes b p) /\ (p <= q)%Q) as (p & Hp & Lp)
      by (destruct H1 as [H1|H1]; [destruct (Hlo a pa Pa H1) as (p & ? & ?)|destruct (Hlo b pb Pb H1) as (p & ? & ?)]; exists p; auto).
    assert (exists r, (denotes a r \/ denotes b r) /\ (q <= r)%Q) as (r & Hr & Lr)
      by (destruct H2 as [H2|H2]; [destruct (Hhi a pa Pa H2) as (r & ? & ?)|destruct (Hhi b pb Pb H2) as (r & ? & ?)]; exists r; auto).
    by exists p, r.
  - intros (p & r & Hp & Hr & Lp & Lr). split.
    + destruct Hp as [(_ & H & _)|(_ & H & _)]; [left|right]; by eapply above_mono.
    + destruct Hr as [(_ & _ & H)|(_ & _ & H)]; [left|right]; by eapply below_mono.
Qed.
End pair.

Section compare_bounds.
Context (sc : Z) (k : RangeOf.RangeKind) (a b : RangeVal).
Context (Ha : wf_range sc k a) (Hb : wf_range sc k b) (Ea : empty a = false) (Eb : empty b = false).

Lemma bounds_opp : lower_cmp b a = CompOpp (lower_cmp a b) /\ upper_cmp b a = CompOpp (upper_cmp a b).
Proof.
  destruct (wf_a sc k a Ha Ea) as [[A1 A2 _ _ _] _], (wf_b sc k b Hb Eb) as [[B1 B2 _ _ _] _].
  unfold lower_cmp, upper_cmp, cmp_lower, cmp_upper. split.
  - destruct (lower a) as [x|], (lower b) as [y|]; try done. cbn in A1, B1. rewrite !(compare_rank sc k) by done.
    rewrite <- (Qcompare_antisym (rank x)). destruct (rank x ?= rank y)%Q; try done. by destruct (lower_inc a), (lower_inc b).
  - destruct (upper a) as [x|], (upper b) as [y|]; try done. cbn in A2, B2. rewrite !(compare_rank sc k) by done.
    rewrite <- (Qcompare_antisym (rank x)). destruct (rank x ?= rank y)%Q; try done. by destruct (upper_inc a), (upper_inc b).
Qed.

Lemma contains_range_cmp : contains_range a b = true <-> lower_cmp a b <> Gt /\ upper_cmp a b <> Lt.
Proof.
  unfold contains_range, lower_cmp, upper_cmp, cmp_lower, cmp_upper. rewrite Ea, Eb, andb_true_iff. f_equiv.
  - destruct (lower a), (lower b); try done. destruct (compare _ _); try done. by destruct (lower_inc a), (lower_inc b).
  - destruct (upper a), (upper b); try done. destruct (compare _ _); try done. by destruct (upper_inc a), (upper_inc b).
Qed.

Lemma contains_point : contains_range a b = true <-> forall q, denotes b q -> denotes a q.
Proof.
  rewrite contains_range_cmp. destruct bounds_opp as [Ol Ou]. split.
  - intros [Hl Hu] q (_ & B1 & B2). pose proof (lower_cmp_above sc k a b Ha Hb Ea Eb q) as L.
    pose proof (upper_cmp_below sc k a b Ha Hb Ea Eb q) as U. split_and!; [done|..].
    + destruct (lower_cmp a b); tauto.
    + destruct (upper_cmp a b); tauto.
  - intros H. destruct (range_point sc k b Hb Eb) as (q & Q). pose proof Q as (_ & B1 & B2).
    destruct (H q Q) as (_ & A1 & A2). split; intros E.
    + rewrite E in Ol. destruct (lower_cmp_strict sc k b a Hb Ha Eb Ea q Ol A1) as (p & Lp & P1 & P2).
      apply P2, H. split_and!; [done|done|by eapply below_mono].
    + rewrite E in Ou. destruct (upper_cmp_strict sc k b a Hb Ha Eb Ea q Ou A2) as (p & Lp & P1 & P2).
      apply P2, H. split_and!; [done|by eapply above_mono|done].
Qed.

Lemma left_of_below : strictly_left_of a b = negb (lower_below_upper b a).
Proof.
  destruct (wf_a sc k a Ha Ea) as [[A1 A2 _ _ _] _], (wf_b sc k b Hb Eb) as [[B1 B2 _ _ _] _].
  unfold strictly_left_of, lower_below_upper. rewrite Ea, Eb. cbn [orb].
  destruct (upper a) as [u|], (lower b) as [l|]; try done. cbn in A2, B1. rewrite !(compare_rank sc k) by done.
  rewrite <- (Qcompare_antisym (rank u)). destruct (rank u ?= rank l)%Q; cbn; try done. by rewrite andb_comm.
Qed.

Lemma left_of_points : strictly_left_of a b = true <-> forall p q, denotes a p -> denotes b q -> (p < q)%Q.
Proof.
  rewrite left_of_below, negb_true_iff.
  pose proof (lower_below_upper_crossing sc k a b Ha Hb Ea Eb b a ltac:(tauto) ltac:(tauto)) as C. split.
  - intros E p q (_ & _ & A2) (_ & B1 & _). destruct (Qlt_le_dec p q); [done|]. exfalso.
    assert (lower_below_upper b a = true); [|congruence]. apply C, (crossing_point _ _ _ _ q); [done|by eapply below_mono].
  - intros H. destruct (lower_below_upper b a) eqn:E; [|done]. exfalso. pose proof (proj1 C eq_refl) as X0.
    destruct (range_point sc k (MkRange k false (lower b) (upper a) (lower_inc b) (upper_inc a))) as (p & _ & P1 & P2);
      [split; [done|cbn; split; [apply (picked_wf sc k a b); tauto|done]]|done|]. cbn in P1, P2.
    destruct (range_point sc k a Ha Ea) as (pa & Pa). destruct (range_point sc k b Hb Eb) as (pb & Pb).
    assert (exists x, denotes a x /\ (p <= x)%Q) as (x & X & Lx).
    { destruct (Qlt_le_dec p pa); [exists pa; split; [done|lra]|]. exists p. split; [|lra]. destruct Pa as (? & ? & ?).
      split_and!; [done|by eapply above_mono|done]. }
    assert (exists y, denotes b y /\ (y <= p)%Q) as (y & Y & Ly).
    { destruct (Qlt_le_dec pb p); [exists pb; split; [done|lra]|]. exists p. split; [|lra]. destruct Pb as (? & ? & ?).
      split_and!; [done|done|by eapply below_mono]. }
    specialize (H x y X Y). lra.
Qed.

(** What remains right of [b]. *)
Lemma trim_low :
  overlaps a b = true -> lower_cmp a b <> Lt -> upper_cmp a b = Gt ->
  exists r, new k (upper b) (upper a) (negb (upper_inc b)) (upper_inc a) = Some r /\ wf_range sc k r /\
    forall q, denotes r q <-> denotes a q /\ ~ denotes b q.
Proof.
  intros Ho Hl Hu. destruct (wf_a sc k a Ha Ea) as [[A1 A2 A3 A4 A5] _], (wf_b sc k b Hb Eb) as [[B1 B2 B3 B4 B5] _].
  apply (overlap_point sc k a b Ha Hb Ea Eb) in Ho as (p & (_ & PA1 & PA2) & (_ & PB1 & PB2)).
  destruct (upper b) as [u|] eqn:Eu; [|unfold upper_cmp, cmp_upper in Hu; rewrite Eu in Hu; by destruct (upper a)].
  assert (wf_bounds sc k (Some u) (upper a) (negb (upper_inc b)) (upper_inc a)) as W.
  { split; try done. intros Hd. destruct (A5 Hd), (B5 Hd) as [_ ->]. done. }
  rewrite (new_canonical sc) by done.
  assert (crossed (Some u) (upper a) = false) as ->.
  { unfold upper_cmp, cmp_upper in Hu. rewrite Eu in Hu. destruct (upper a) as [v|]; [|done]. cbn in A2, B2 |- *.
    apply bool_decide_eq_false. rewrite !(compare_rank sc k) in * by done. rewrite <- (Qcompare_antisym (rank v)).
    by destruct (rank v ?= rank u)%Q. }
  eexists. split; [done|]. destruct (settle_spec sc k _ _ _ _ W) as [Wr Hr]. split; [done|]. intros q. rewrite Hr, above_negb.
  pose proof (lower_cmp_above sc k a b Ha Hb Ea Eb q) as L. unfold denotes. rewrite Ea, Eb, Eu. split.
  - intros [H1 H2]. pose proof (below_split _ _ _ _ PB2 H1) as Hlt. split; [|tauto]. split_and!; [done|eapply above_mono; [|done]; lra|done].
  - intros [(_ & H1 & H2) Hn]. split; [|done]. intros H3. apply Hn. split_and!; [done| |done]. destruct (lower_cmp a b); tauto.
Qed.

(** What remains left of [b]. *)
Lemma trim_high :
  overlaps a b = true -> lower_cmp a b = Lt -> upper_cmp a b <> Gt ->
  exists r, new k (lower a) (lower b) (lower_inc a) (negb (lower_inc b)) = Some r /\ wf_range sc k r /\
    forall q, denotes r q <-> denotes a q /\ ~ denotes b q.
Proof.
  intros Ho Hl Hu. destruct (wf_a sc k a Ha Ea) as [[A1 A2 A3 A4 A5] _], (wf_b sc k b Hb Eb) as [[B1 B2 B3 B4 B5] _].
  apply (overlap_point sc k a b Ha Hb Ea Eb) in Ho as (p & (_ & PA1 & PA2) & (_ & PB1 & PB2)).
  destruct (lower b) as [l|] eqn:El; [|unfold lower_cmp, cmp_lower in Hl; rewrite El in Hl; by destruct (lower a)].
  assert (wf_bounds sc k (lower a) (Some l) (lower_inc a) (negb (lower_inc b))) as W.
  { split; try done. intros Hd. destruct (A5 Hd), (B5 Hd) as [B _]. by rewrite B. }
  rewrite (new_canonical sc) by done.
  assert (crossed (lower a) (Some l) = false) as ->.
  { unfold lower_cmp, cmp_lower in Hl. rewrite El in Hl. destruct (lower a) as [v|]; [|done]. cbn in A1, B1 |- *.
    apply bool_decide_eq_false. rewrite !(compare_rank sc k) in * by done. by destruct (rank v ?= rank l)%Q. }
  eexists. split; [done|]. destruct (settle_spec sc k _ _ _ _ W) as [Wr Hr]. split; [done|]. intros q. rewrite Hr, below_negb.
  pose proof (upper_cmp_below sc k a b Ha Hb Ea Eb q) as U. unfold denotes. rewrite Ea, Eb, El. split.
  - intros [H1 H2]. pose proof (above_split _ _ _ _ PB1 H2) as Hlt. split; [|tauto]. split_and!; [done|done|eapply below_mono; [|done]; lra].
  - intros [(_ & H1 & H2) Hn]. split; [done|]. intros H3. apply Hn. split_and!; [done|done|]. destruct (upper_cmp a b); tauto.
Qed.

Lemma difference_spec :
  match difference a b with
  | Some d => wf_range sc k d /\ forall q, denotes d q <-> denotes a q /\ ~ denotes b q
  | None => splits (fun q => denotes a q /\ ~ denotes b q) (fun q => denotes a q /\ denotes b q)
  end.
Proof.
  unfold difference. rewrite Ea, Eb. cbn [orb]. pose proof (overlap_point sc k a b Ha Hb Ea Eb) as Ho.
  destruct (overlaps a b) eqn:Eo; cbn [negb].
  2: { split; [done|]. intros q. split; [|tauto]. intros H. split; [done|]. intros H'. assert (false = true) by (apply Ho; by exists q). done. }
  destruct (proj1 Ho eq_refl) as (p & Pa & Pb). rewrite (kind_a sc k a Ha).
  destruct (decide (lower_cmp a b = Lt)) as [Hl|Hl], (decide (upper_cmp a b = Gt)) as [Hu|Hu];
    [rewrite (bool_decide_true (lower_cmp a b = Lt)), (bool_decide_true (upper_cmp a b = Gt)) by done
    |rewrite (bool_decide_true (lower_cmp a b = Lt)), (bool_decide_false (upper_cmp a b = Gt)) by done
    |rewrite (bool_decide_false (lower_cmp a b = Lt)), (bool_decide_true (upper_cmp a b = Gt)) by done
    |rewrite (bool_decide_false (lower_cmp a b = Lt)), (bool_decide_false (upper_cmp a b = Gt)) by done]; cbn [negb andb].
  - pose proof Pa as (_ & A1 & A2). pose proof Pb as (_ & B1 & B2).
    destruct (lower_cmp_strict sc k a b Ha Hb Ea Eb p Hl B1) as (x & Lx & X1 & X2).
    destruct (upper_cmp_strict sc k a b Ha Hb Ea Eb p Hu B2) as (y & Ly & Y1 & Y2).
    exists x, p, y. split; [by eapply above_split|]. split; [by eapply below_split|]. split_and!; [|by intros (_ & ? & _)| |by intros (_ & _ & ?)|done|done].
    + split_and!; [done|done|by eapply below_mono].
    + split_and!; [done|by eapply above_mono|done].
  - by destruct (trim_high Eo Hl Hu) as (r & -> & W & Hr).
  - by destruct (trim_low Eo Hl Hu) as (r & -> & W & Hr).
  - split; [done|]. intros q. split; [by intros ?%empty_denotes|]. intros [(_ & H1 & H2) Hn]. destruct Hn.
    pose proof (lower_cmp_above sc k a b Ha Hb Ea Eb q) as L. pose proof (upper_cmp_below sc k a b Ha Hb Ea Eb q) as U.
    split_and!; [done|destruct (lower_cmp a b); tauto|destruct (upper_cmp a b); tauto].
Qed.
End compare_bounds.

(** ** With the empty range *)

Lemma denotes_empty sc k r q : wf_range sc k r -> empty r = true -> ~ denotes r q.
Proof. intros _ E (E' & _). congruence. Qed.

Lemma wf_is_empty sc k r : wf_range sc k r -> empty r = true -> r = range_empty k.
Proof. intros [_ H] E. by rewrite E in H. Qed.

Lemma contains_elem_point sc k r e : wf_range sc k r -> elem sc k e -> contains_elem r e = true <-> denotes r (rank e).
Proof.
  intros W He. unfold contains_elem, denotes. destruct (empty r) eqn:E; [naive_solver|].
  destruct (wf_a sc k r W E) as [[H1 H2 _ _ _] _]. rewrite andb_true_iff.
  assert (forall X Y Z W : Prop, (X <-> Y) -> (Z <-> W) -> (X /\ Z <-> false = false /\ Y /\ W)) as Hand by tauto.
  apply Hand; clear Hand.
  - destruct (lower r) as [l|]; [|done]. cbn in H1 |- *. rewrite (compare_rank sc k) by done.
    destruct (Qcompare_spec (rank e) (rank l)) as [Q|Q|Q].
    + split; [intros ->; right; split; [lra|done]|intros [?|[_ ?]]; [lra|done]].
    + split; [done|]. intros [?|[? _]]; lra.
    + split; [by left|done].
  - destruct (upper r) as [l|]; [|done]. cbn in H2 |- *. rewrite (compare_rank sc k) by done.
    destruct (Qcompare_spec (rank e) (rank l)) as [Q|Q|Q].
    + split; [intros ->; right; split; [lra|done]|intros [?|[_ ?]]; [lra|done]].
    + split; [by left|done].
    + split; [done|]. intros [?|[? _]]; lra.
Qed.

(** The outcome of an operation that may not be one range. *)
Definition one_range (sc : Z) (k : RangeOf.RangeKind) (o : option RangeVal) (In : Q -> Prop) : Prop :=
  match o with
  | Some r => wf_range sc k r /\ forall q, denotes r q <-> In q
  | None => splits In (fun q => ~ In q)
  end.

Definition hull (In : Q -> Prop) (q : Q) : Prop := exists p r, In p /\ In r /\ (p <= q)%Q /\ (q <= r)%Q.

Lemma splits_weaken (X Y Y' : Q -> Prop) : (forall q, Y q -> Y' q) -> splits X Y -> splits X Y'.
Proof. intros H (p & q & r & ? & ? & ? & ? & ?). exists p, q, r. auto 10. Qed.

Lemma adjacent_iff sc k a b :
  wf_range sc k a -> wf_range sc k b ->
  adjacent a b = true <-> empty a = false /\ empty b = false /\ overlaps a b = false /\ union a b <> None.
Proof.
  intros Ha Hb. unfold adjacent. destruct (empty a) eqn:Ea; cbn [orb]; [split; [done|by intros (? & _)]|].
  destruct (empty b) eqn:Eb; cbn [orb]; [split; [done|by intros (_ & ? & _)]|].
  destruct (hull_spec sc k a b Ha Hb Ea Eb) as (r & Hr & _). unfold union. rewrite Ea, Eb, Hr.
  set (tab := bounds_touch (upper a) (upper_inc a) (lower b) (lower_inc b)).
  set (tba := bounds_touch (upper b) (upper_inc b) (lower a) (lower_inc a)).
  assert (tab || tba = true -> overlaps a b = false) as Hno.
  { intros H. destruct (overlaps a b) eqn:Eo; [|done]. apply (overlap_point sc k a b Ha Hb Ea Eb) in Eo as (q & (_ & A1 & A2) & (_ & B1 & B2)).
    apply orb_true_iff in H as [H|H].
    - destruct (touch_disjoint sc k a b Ha Hb Ea Eb a b q ltac:(tauto) ltac:(tauto) H A2 B1).
    - destruct (touch_disjoint sc k a b Ha Hb Ea Eb b a q ltac:(tauto) ltac:(tauto) H B2 A1). }
  split.
  - intros H. rewrite (Hno H). split_and!; try done. by destruct tab, tba.
  - intros (_ & _ & -> & H). by destruct tab, tba.
Qed.

Section with_empty.
Context (sc : Z) (k : RangeOf.RangeKind) (a b : RangeVal) (Ha : wf_range sc k a) (Hb : wf_range sc k b).

Lemma overlaps_iff : overlaps a b = true <-> exists q, denotes a q /\ denotes b q.
Proof.
  destruct (empty a) eqn:Ea; [|destruct (empty b) eqn:Eb; [|by eapply overlap_point]]; unfold overlaps; rewrite Ea, ?Eb; cbn [orb].
  - split; [done|]. intros (q & H & _). by destruct (denotes_empty sc k a q).
  - split; [done|]. intros (q & _ & H). by destruct (denotes_empty sc k b q).
Qed.

Lemma contains_range_iff : contains_range a b = true <-> forall q, denotes b q -> denotes a q.
Proof.
  destruct (empty b) eqn:Eb; [|destruct (empty a) eqn:Ea; [|by eapply contains_point]]; unfold contains_range; rewrite Eb, ?Ea.
  - split; [|done]. intros _ q H. by destruct (denotes_empty sc k b q).
  - split; [done|]. intros H. destruct (range_point sc k b Hb Eb) as (q & Q%H). by destruct (denotes_empty sc k a q).
Qed.

Lemma left_of_iff :
  strictly_left_of a b = true <-> empty a = false /\ empty b = false /\ forall p q, denotes a p -> denotes b q -> (p < q)%Q.
Proof.
  destruct (empty a) eqn:Ea; [unfold strictly_left_of; rewrite Ea; cbn; naive_solver|].
  destruct (empty b) eqn:Eb; [unfold strictly_left_of; rewrite Ea, Eb; cbn; naive_solver|].
  rewrite (left_of_points sc k) by done. tauto.
Qed.

Lemma intersect_iff : wf_range sc k (intersect a b) /\ forall q, denotes (intersect a b) q <-> denotes a q /\ denotes b q.
Proof.
  destruct (empty a || empty b) eqn:E.
  - unfold intersect, overlaps. rewrite E. cbn [negb]. rewrite (kind_a sc k a Ha). split; [done|]. intros q.
    split; [by intros ?%empty_denotes|]. intros [H1 H2].
    apply orb_true_iff in E as [E|E]; [by destruct (denotes_empty sc k a q)|by destruct (denotes_empty sc k b q)].
  - apply orb_false_iff in E as [Ea Eb]. by apply intersect_spec.
Qed.

Lemma merge_iff :
  wf_range sc k (merge a b) /\ forall q, denotes (merge a b) q <-> hull (fun p => denotes a p \/ denotes b p) q.
Proof.
  assert (forall x (X : Q -> Prop), (forall q, X q <-> denotes x q) -> forall q, denotes x q <-> hull X q) as Hone.
  { intros x X Hx q. split; [intros H%Hx; exists q, q; split_and!; [done|done|lra|lra]|].
    intros (p & r & P%Hx & R%Hx & ? & ?). by apply (denotes_convex x p q r). }
  destruct (empty a) eqn:Ea; [|destruct (empty b) eqn:Eb; [|by apply merge_hull]]; unfold merge; rewrite Ea, ?Eb; (split; [done|]); apply Hone; intros q.
  - split; [intros [H|H]; [by destruct (denotes_empty sc k a q)|done]|by right].
  - split; [intros [H|H]; [done|by destruct (denotes_empty sc k b q)]|by left].
Qed.

Lemma union_iff : one_range sc k (union a b) (fun q => denotes a q \/ denotes b q).
Proof.
  destruct (empty a) eqn:Ea; [|destruct (empty b) eqn:Eb; [|by apply union_spec]]; unfold union; rewrite Ea, ?Eb; (split; [done|]); intros q.
  - split; [by right|intros [H|H]; [by destruct (denotes_empty sc k a q)|done]].
  - split; [by left|intros [H|H]; [done|by destruct (denotes_empty sc k b q)]].
Qed.

Lemma difference_iff : one_range sc k (difference a b) (fun q => denotes a q /\ ~ denotes b q).
Proof.
  destruct (empty a || empty b) eqn:E.
  - unfold difference. rewrite E. cbn [orb]. split; [done|]. intros q. split; [|tauto]. intros H. split; [done|]. intros H'.
    apply orb_true_iff in E as [E|E]; [by destruct (denotes_empty sc k a q)|by destruct (denotes_empty sc k b q)].
  - apply orb_false_iff in E as [Ea Eb]. pose proof (difference_spec sc k a b Ha Hb Ea Eb) as H. unfold one_range.
    destruct (difference a b); [done|]. eapply splits_weaken; [|done]. cbn. tauto.
Qed.
End with_empty.


