(* ===== verification/RangeCodec.v ===== *)
(** * Building and storing ranges *)

From stdpp Require Import base list strings.
From Stdlib Require Import ZArith Lia Strings.Byte QArith Lqa.
From S2P Require Import Prelude Order Codec Catalog Numeric NumericFacts NumericThm Float Interval Inet InetFacts Values IndexKey IndexKeyFacts ValuesFacts Range RangeFacts RangeThm.
Import Range.
#[local] Open Scope Z_scope.

(** ** Building *)

(** The next element of a discrete type. *)
Lemma increment_spec sc k v :
  is_discrete k = true -> elem sc k v ->
  match increment v with
  | Some n => elem sc k n /\ rank n == rank v + 1
  | None => forall e, elem sc k e -> (rank e <= rank v)%Q
  end.
Proof.
  destruct k; try done; intros _; destruct v as [| |x| | |x| |x|x| | | | | | | |x| | | | | | | | | |]; try done;
    cbn [elem increment rank]; intros Hv.
  - unfold checked_i64. destruct (decide (i64 (x + 1))) as [H|H]; cbn.
    + split; [done|]. by rewrite inject_Z_plus.
    + intros e He. destruct e; try done. cbn in *. rewrite <- Zle_Qle. unfold i64 in *. lia.
  - unfold checked_i32. destruct (decide (i32 (x + 1))) as [H|H]; cbn.
    + split; [done|]. by rewrite inject_Z_plus.
    + intros e He. destruct e; try done. cbn in *. rewrite <- Zle_Qle. unfold i32 in *. lia.
Qed.

Lemma discrete_gap sc k a b :
  is_discrete k = true -> elem sc k a -> elem sc k b -> (rank a < rank b <-> rank a + 1 <= rank b)%Q.
Proof.
  destruct k; try done; intros _; destruct a; try done; destruct b; try done; intros _ _; cbn [rank];
    change 1%Q with (inject_Z 1); rewrite <- inject_Z_plus, <- Zle_Qle, <- Zlt_Qlt; lia.
Qed.

Lemma lower_step sc k l n e :
  is_discrete k = true -> elem sc k l -> increment l = Some n -> elem sc k e ->
  above (Some l) false (rank e) <-> above (Some n) true (rank e).
Proof.
  intros Hd Hl Hn He. pose proof (increment_spec sc k l Hd Hl) as H. rewrite Hn in H. destruct H as [En Rn].
  cbn. rewrite (discrete_gap sc k l e) by done. split.
  - intros [H|[_ ?]]; [|done]. destruct (Qlt_le_dec (rank n) (rank e)); [by left|right; split; [lra|done]].
  - intros [H|[H _]]; left; lra.
Qed.

Lemma upper_step sc k h n e :
  is_discrete k = true -> elem sc k h -> increment h = Some n -> elem sc k e ->
  below (Some h) true (rank e) <-> below (Some n) false (rank e).
Proof.
  intros Hd Hh Hn He. pose proof (increment_spec sc k h Hd Hh) as H. rewrite Hn in H. destruct H as [En Rn].
  cbn. pose proof (discrete_gap sc k h e Hd Hh He) as G. split.
  - intros [H|[H _]]; left; lra.
  - intros [H|[_ ?]]; [|done]. destruct (Qlt_le_dec (rank h) (rank e)); [apply G in q; lra|].
    destruct (Qlt_le_dec (rank e) (rank h)); [by left|right; split; [lra|done]].
Qed.

(** A range is the one asked for: canonical, with the elements between the
    given bounds. *)
Definition built (sc : Z) (k : RangeOf.RangeKind) (lo hi : option Value) (li hi_inc : bool) (r : RangeVal) : Prop :=
  wf_range sc k r /\
  forall e, elem sc k e -> contains_elem r e = true <-> above lo li (rank e) /\ below hi hi_inc (rank e).

Lemma built_settle sc k lo hi li hi_inc :
  wf_bounds sc k lo hi li hi_inc -> built sc k lo hi li hi_inc (settle (MkRange k false lo hi li hi_inc)).
Proof.
  intros W. destruct (settle_spec sc k _ _ _ _ W) as [Wr Hr]. split; [done|]. intros e He.
  by rewrite (contains_elem_point sc k), Hr.
Qed.

Lemma built_iff sc k lo hi li hi_inc lo' hi' li' hi_inc' r :
  built sc k lo' hi' li' hi_inc' r ->
  (forall e, elem sc k e -> above lo li (rank e) <-> above lo' li' (rank e)) ->
  (forall e, elem sc k e -> below hi hi_inc (rank e) <-> below hi' hi_inc' (rank e)) ->
  built sc k lo hi li hi_inc r.
Proof. intros [W H] H1 H2. split; [done|]. intros e He. by rewrite H, H1, H2. Qed.

Lemma built_none sc k l hi li hi_inc :
  is_discrete k = true -> elem sc k l -> increment l = None -> li = false -> built sc k (Some l) hi li hi_inc (range_empty k).
Proof.
  intros Hd Hl Hn ->. split; [done|]. intros e He. split; [done|]. intros [[H|[_ H]] _]; [|done].
  pose proof (increment_spec sc k l Hd Hl) as Hi. rewrite Hn in Hi. specialize (Hi e He). lra.
Qed.

(** The upper step of [canonicalize]. *)
Definition close_upper (r : RangeVal) : option RangeVal :=
  match upper r, upper_inc r with
  | Some v, true => next ← increment v; Some (settle (with_upper r next))
  | _, _ => Some (settle r)
  end.

Lemma close_upper_spec sc k lo hi li hi_inc :
  is_discrete k = true -> from_option (elem sc k) True lo -> from_option (elem sc k) True hi ->
  (is_some lo = li) -> (hi = None -> hi_inc = false) ->
  match close_upper (MkRange k false lo hi li hi_inc) with
  | Some r => built sc k lo hi li hi_inc r
  | None => hi_inc = true /\ exists h, hi = Some h /\ increment h = None
  end.
Proof.
  intros Hd Hl Hh Hli Hn. unfold close_upper. cbn [upper upper_inc].
  assert (forall hi', from_option (elem sc k) True hi' -> wf_bounds sc k lo hi' li false) as W.
  { intros hi' Hh'. split; try done; [by intros -> |intros _; split; [by intros <-|done]]. }
  destruct hi as [h|]; [destruct hi_inc|].
  - destruct (increment h) as [n|] eqn:En; [|split; [done|by exists h]]. cbn. pose proof (increment_spec sc k h Hd Hh) as Hi.
    rewrite En in Hi. destruct Hi as [Hi _]. eapply built_iff; [apply built_settle, (W (Some n) Hi)|done|].
    intros e He. by apply (upper_step sc k).
  - by apply built_settle, W.
  - rewrite Hn by done. by apply built_settle, W.
Qed.

Lemma canonicalize_discrete k lo hi li hi_inc :
  is_discrete k = true ->
  canonicalize (MkRange k false lo hi li hi_inc) =
  match lo, li with
  | Some v, false => match increment v with None => Some (range_empty k) | Some n => close_upper (MkRange k false (Some n) hi true hi_inc) end
  | _, _ => close_upper (MkRange k false lo hi li hi_inc)
  end.
Proof.
  intros Hd. unfold canonicalize. cbn [empty kind lower lower_inc upper upper_inc]. rewrite Hd.
  destruct lo as [l|]; [|done]. destruct li; [done|]. by destruct (increment l).
Qed.

Lemma new_spec sc k lo hi li hi_inc :
  from_option (elem sc k) True lo -> from_option (elem sc k) True hi ->
  match new k lo hi li hi_inc with
  | Some r => built sc k lo hi li hi_inc r
  | None => (exists l h, lo = Some l /\ hi = Some h /\ (rank h < rank l)%Q) \/
            (is_discrete k = true /\ hi_inc = true /\ exists h, hi = Some h /\ increment h = None)
  end.
Proof.
  intros Hl Hh. unfold new.
  assert (mismatched k lo = false) as -> by (destruct lo; [cbn in *; by rewrite (elem_matches sc)|done]).
  assert (mismatched k hi = false) as -> by (destruct hi; [cbn in *; by rewrite (elem_matches sc)|done]). cbn [orb].
  fold (crossed lo hi). destruct (crossed lo hi) eqn:Ec.
  { left. destruct lo as [l|], hi as [h|]; try done. exists l, h. split_and!; [done..|]. cbn in Ec, Hl, Hh.
    apply bool_decide_eq_true in Ec. rewrite (compare_rank sc k) in Ec by done. by apply Qgt_alt. }
  clear Ec. set (li' := li && is_some lo). set (hi' := hi_inc && is_some hi).
  assert (forall r, built sc k lo hi li' hi' r -> built sc k lo hi li hi_inc r) as Hb.
  { intros r H. eapply built_iff; [exact H|intros e _; unfold li'; by destruct lo; [rewrite andb_true_r|]|
      intros e _; unfold hi'; by destruct hi; [rewrite andb_true_r|]]. }
  assert (hi = None -> hi' = false) as Hn by (intros ->; apply andb_false_r).
  destruct (is_discrete k) eqn:Hd.
  - rewrite canonicalize_discrete by done.
    assert (forall o, match o with Some r => built sc k lo hi li' hi' r | None => hi' = true /\ exists h, hi = Some h /\ increment h = None end ->
      match o with Some r => built sc k lo hi li hi_inc r | None => (exists l h, lo = Some l /\ hi = Some h /\ (rank h < rank l)%Q) \/
        (true = true /\ hi_inc = true /\ exists h, hi = Some h /\ increment h = None) end) as Ho.
    { intros [r|]; [apply Hb|]. intros [H1 H2]. right. apply andb_true_iff in H1 as [H1 _]. done. }
    destruct lo as [l|] eqn:El; [|apply Ho; by apply close_upper_spec; unfold li'; rewrite ?andb_false_r].
    destruct li' eqn:Ei; [by apply Ho, close_upper_spec|].
    destruct (increment l) as [n|] eqn:En; [|apply Hb; by apply built_none].
    pose proof (increment_spec sc k l Hd Hl) as Hi. rewrite En in Hi. destruct Hi as [Hi _].
    apply Ho. pose proof (close_upper_spec sc k (Some n) hi true hi' Hd Hi Hh eq_refl Hn) as H.
    destruct (close_upper _); [|done]. eapply built_iff; [exact H| |done]. intros e He. by apply (lower_step sc k).
  - unfold canonicalize. cbn [empty kind]. rewrite Hd. apply Hb, built_settle. split; try done.
    + intros ->. apply andb_false_r.
    + by rewrite Hd.
Qed.

(** ** Storing *)

Lemma signed_bytes n z : - 256 ^ Z.of_nat n <= 2 * z < 256 ^ Z.of_nat n -> (0 < n)%nat -> signed (le_bytes n z) = z.
Proof.
  intros Hz Hn. unfold signed. rewrite le_bytes_length. set (m := 256 ^ Z.of_nat n) in *.
  assert (m = 2 * (m / 2)) as Hm.
  { unfold m. destruct n as [|n]; [lia|]. rewrite Nat2Z.inj_succ, Z.pow_succ_r by lia.
    replace (256 * 256 ^ Z.of_nat n) with (128 * 256 ^ Z.of_nat n * 2) by lia. rewrite Z.div_mul by lia. lia. }
  assert (0 <= z mod m < m) by (apply Z.mod_pos_bound; lia).
  rewrite <- le_bytes_mod. fold m. rewrite le_val_bytes by done.
  destruct (decide (0 <= z)).
  - rewrite Z.mod_small by lia. destruct (Z.ltb_spec z (m / 2)); lia.
  - assert (z mod m = z + m) as -> by (symmetry; apply (Z.mod_unique _ _ (-1)); lia).
    destruct (Z.ltb_spec (z + m) (m / 2)); lia.
Qed.

(** A bound the encoding has room for. *)
Definition stored_bound (k : RangeOf.RangeKind) (v : Value) : Prop :=
  match k, v with
  | RangeOf.Int, Val.Int z | RangeOf.Ts, Val.Timestamp z | RangeOf.TsTz, Val.TimestampTz z => i64 z
  | RangeOf.Date, Val.Date z => i32 z
  | RangeOf.Num, Val.Numeric d => i128 (mantissa d) /\ u8 (scale d)
  | _, _ => False
  end.

(** A range the encoding has room for; an unbounded side is exclusive. *)
Definition stored_range (k : RangeOf.RangeKind) (r : RangeVal) : Prop :=
  kind r = k /\
  if empty r then r = range_empty k
  else from_option (stored_bound k) (lower_inc r = false) (lower r) /\ from_option (stored_bound k) (upper_inc r = false) (upper r).

Lemma elem_stored sc k v : elem sc k v -> stored_bound k v.
Proof. destruct k, v; try done. intros [[? [? H]] _]. split; [done|]. unfold MAX_SCALE in H. unfold u8. lia. Qed.

Lemma wf_stored sc k r : wf_range sc k r -> stored_range k r.
Proof.
  intros [Hk H]. split; [done|]. destruct (empty r); [done|]. destruct H as [[H1 H2 H3 H4 _] _].
  split; [destruct (lower r)|destruct (upper r)]; cbn in *; eauto using elem_stored.
Qed.

Lemma encode_bound_length k v : length (encode_bound v k) = bound_size k.
Proof. by destruct k, v; cbn [encode_bound bound_size]; rewrite ?length_app, ?le_bytes_length, ?length_replicate. Qed.

Lemma decode_bound_at k v bs pos rest :
  stored_bound k v -> cursor bs pos (encode_bound v k ++ rest) ->
  decode_bound bs pos k = Some (v, pos + bound_size k)%nat.
Proof.
  intros Hv Hc. destruct k, v as [| |x| | |x| |x|x| | | | | | | |x| | | | | | | | | |]; try done; cbn [encode_bound stored_bound] in *.
  all: cbn [decode_bound bound_size].
  1,3,4,5: rewrite (cursor_range _ _ _ _ _ Hc) by (by rewrite le_bytes_length); cbn [mbind option_bind];
    rewrite signed_bytes; [done| |lia]; unfold i64, i32 in Hv;
    first [change (256 ^ Z.of_nat 8) with 18446744073709551616|change (256 ^ Z.of_nat 4) with 4294967296; change (2 ^ 31) with 2147483648 in Hv]; lia.
  destruct Hv as [H1 H2]. rewrite <- app_assoc in Hc.
  rewrite (cursor_range _ _ _ _ _ Hc) by (by rewrite le_bytes_length). cbn [mbind option_bind].
  apply (cursor_adv _ _ (pos + 16)%nat) in Hc; [|by rewrite le_bytes_length]. rewrite (cursor_byte _ _ _ _ Hc). cbn [mbind option_bind].
  rewrite signed_bytes; [|unfold i128, I128_MIN, I128_MAX in H1; change (256 ^ Z.of_nat 16) with (2 ^ 128); lia|lia].
  rewrite b2z_z2b, Z.mod_small by done. by destruct x.
Qed.

Lemma flags_spec (r : RangeVal) :
  let f := b2z (z2b (flags_of r)) in
  has_flag f FLAG_EMPTY = empty r /\ has_flag f FLAG_LOWER_INF = negb (is_some (lower r)) /\
  has_flag f FLAG_UPPER_INF = negb (is_some (upper r)) /\ has_flag f FLAG_LOWER_INC = lower_inc r /\ has_flag f FLAG_UPPER_INC = upper_inc r.
Proof.
  intros f. unfold f, flags_of. destruct (empty r), (is_some (lower r)), (is_some (upper r)), (lower_inc r), (upper_inc r); vm_compute; auto.
Qed.

Lemma decode_finite_at k o bs pos rest :
  from_option (stored_bound k) True o -> cursor bs pos (encode_finite o k ++ rest) ->
  decode_finite (is_some o) bs pos k = Some (o, pos + length (encode_finite o k))%nat.
Proof.
  intros Ho Hc. destruct o as [v|]; cbn in Ho |- *; [|by rewrite Nat.add_0_r].
  rewrite (decode_bound_at k v bs pos rest) by done. cbn. by rewrite encode_bound_length.
Qed.

Lemma decode_range_at k r bs pos rest :
  stored_range k r -> cursor bs pos (encode r ++ rest) -> decode bs pos k = Some (r, pos + length (encode r))%nat.
Proof.
  intros [Hk Hr] Hc. unfold decode, encode in *. destruct (flags_spec r) as (F0 & F1 & F2 & F3 & F4).
  rewrite (cursor_byte _ _ _ _ Hc). cbn [fmap option_fmap option_map mbind option_bind]. rewrite F0, F1, F2, F3, F4.
  destruct (empty r) eqn:Ee; [rewrite Hr; cbn [app length]; do 2 f_equal; lia|].
  rewrite Hk, !negb_involutive in *. destruct Hr as [H1 H2]. cbn [app] in Hc. apply cursor_cons in Hc.
  rewrite Nat.add_1_r, <- app_assoc in Hc.
  assert (forall o (P : Prop), from_option (stored_bound k) P o -> from_option (stored_bound k) True o) as Hw by (by intros []).
  rewrite (decode_finite_at k _ _ _ _ (Hw _ _ H1) Hc). cbn [mbind option_bind]. pose proof (cursor_adv _ _ _ _ _ Hc eq_refl) as Hc2.
  rewrite (decode_finite_at k _ _ _ _ (Hw _ _ H2) Hc2). cbn [mbind option_bind length]. f_equal. f_equal.
  - destruct r as [k' e lo hi li ui]; cbn in *. subst. f_equal.
    + destruct lo; cbn in *; [apply andb_true_r|]. rewrite H1. apply andb_false_r.
    + destruct hi; cbn in *; [apply andb_true_r|]. rewrite H2. apply andb_false_r.
  - rewrite length_app. lia.
Qed.

Lemma payload_len_encode k r :
  stored_range k r -> length (encode r) = S (payload_len (b2z (z2b (flags_of r))) k).
Proof.
  intros [Hk _]. unfold encode, payload_len. destruct (flags_spec r) as (F0 & F1 & F2 & _). rewrite F0, F1, F2, Hk. cbn [length].
  destruct (empty r); [done|]. rewrite length_app.
  destruct (lower r), (upper r); cbn [encode_finite is_some negb length]; rewrite ?encode_bound_length; lia.
Qed.


