(* ===== verification/Bit.v ===== *)
(** * Bit strings ([bit.rs])

    A bit string is its bits, leftmost first. *)

From stdpp Require Import base list.
From Stdlib Require Import ZArith Lia Strings.Byte.
From S2P Require Import Prelude Order Codec Catalog.
#[local] Open Scope Z_scope.

Module Bit.

Definition parse_digit (c : byte) : option bool :=
  if b2z c =? 48 then Some false else if b2z c =? 49 then Some true else None.

(** The characters accepted are ASCII, so the string's bytes are its characters. *)
Definition parse (s : bytes) : option (list bool) := mapM parse_digit s.

Definition column_type (bits : list bool) : Ty.ColumnType := Ty.Bit (u32_sat (length bits)).

(** [Vec::resize]. *)
Definition resize {A} (l : list A) (n : nat) (x : A) : list A := take n l ++ replicate (n - length l) x.

Definition fit (bits : list bool) (n : nat) : list bool := resize (take n bits) n false.

Definition truncate (bits : list bool) (max : option nat) : list bool :=
  match max with
  | Some n => if (n <? length bits)%nat then take n bits else bits
  | None => bits
  end.

Definition checked_usize (z : Z) : option Z := if (0 <=? z) && (z <? 2 ^ 64) then Some z else None.

Definition get_at {A} (l : list A) (i : Z) : option A := if i <? Z.of_nat (length l) then l !! Z.to_nat i else None.

Definition shift_bit (bits : list bool) (k : Z) (toward_front : bool) (i : nat) : bool :=
  let src := if toward_front then checked_usize (Z.of_nat i + k) else checked_usize (Z.of_nat i - k) in
  default false (src ≫= get_at bits).

Definition shift (bits : list bool) (amount : Z) (left_ : bool) : list bool :=
  let toward_front := if amount <? 0 then negb left_ else left_ in
  shift_bit bits (Z.abs amount) toward_front <$> seq 0 (length bits).

Definition complement (bits : list bool) : list bool := negb <$> bits.

Definition low_bit (v : Z) (p : Z) : bool := Z.land (Z.shiftr v p) 1 =? 1.

Definition from_int (value : Z) (n : nat) : list bool :=
  let v := value mod 2 ^ 64 in
  let sign := low_bit v 31 in
  (fun p => if (p <? 32)%nat then low_bit v (Z.of_nat p) else sign) <$> reverse (seq 0 n).

Definition to_int (bits : list bool) : option Z :=
  if (32 <? length bits)%nat then None
  else
    let acc := foldl (fun acc b => Z.lor (Z.shiftl acc 1 mod 2 ^ 32) (Z.b2z b)) 0 bits in
    Some (if acc <? 2 ^ 31 then acc else acc - 2 ^ 32).

Definition bytea_get_bit (bs : bytes) (i : nat) : option bool :=
  byte ← bs !! (i / 8)%nat;
  Some (low_bit (b2z byte) (Z.of_nat (i mod 8))).

Definition bytea_set_bit (bs : bytes) (i : nat) (one : bool) : bytes :=
  match bs !! (i / 8)%nat with
  | Some byte =>
      let mask_ := Z.shiftl 1 (Z.of_nat (i mod 8)) in
      <[(i / 8)%nat := z2b (if one then Z.lor (b2z byte) mask_ else Z.land (b2z byte) (255 - mask_))]> bs
  | None => bs
  end.

(** [char::to_digit(16)]. *)
Definition hex_digit (c : byte) : option Z :=
  let z := b2z c in
  if between 48 57 z then Some (z - 48)
  else if between 97 102 z then Some (z - 87)
  else if between 65 70 z then Some (z - 55)
  else None.

Definition nibble_bits (n : Z) : list bool := low_bit n <$> [3; 2; 1; 0].

Definition from_hex (s : bytes) : option (list bool) := mjoin <$> mapM (fun c => nibble_bits <$> hex_digit c) s.

Definition format (bits : list bool) : bytes := (fun b : bool => z2b (if b then 49 else 48)) <$> bits.

(** [bits.chunks(8)]. *)
Fixpoint chunks (fuel : nat) (bits : list bool) : list (list bool) :=
  match fuel, bits with
  | S fuel, _ :: _ => take 8 bits :: chunks fuel (drop 8 bits)
  | _, _ => []
  end.

Definition pack_byte (chunk : list bool) : byte :=
  z2b (foldl (fun acc '(i, b) => if b : bool then Z.lor acc (Z.shiftl 1 (7 - Z.of_nat i)) else acc) 0 (zip (seq 0 (length chunk)) chunk)).

Definition encode (bits : list bool) : bytes :=
  le_bytes 4 (u32_sat (length bits)) ++ (pack_byte <$> chunks (length bits) bits).

Definition unpack_bit (data : bytes) (i : nat) : option bool :=
  byte ← data !! (i / 8)%nat;
  Some (negb (Z.land (b2z byte) (Z.shiftl 1 (7 - Z.of_nat (i mod 8))) =? 0)).

Definition unpack (len : nat) (data : bytes) : option (list bool) := mapM (unpack_bit data) (seq 0 len).

(** [len.div_ceil(8)]. *)
Definition packed_len (len : nat) : nat := ((len + 7) / 8)%nat.

Definition decode (bs : bytes) (pos : nat) : option (list bool * nat) :=
  len ← Z.to_nat <$> read_u32_at bs pos;
  data ← get_range bs (pos + 4) (pos + 4 + packed_len len);
  bits ← unpack len data;
  Some (bits, pos + 4 + packed_len len)%nat.

End Bit.
