(* ===== verification/BitThm.v ===== *)
(** * What bit strings promise *)

From stdpp Require Import base list.
From Stdlib Require Import ZArith Lia Strings.Byte.
From S2P Require Import Prelude Order Codec Catalog Interval Inet InetFacts Bit.
Import Bit.
#[local] Open Scope Z_scope.

(** ** Packing *)

Lemma chunks_lookup fuel bits j :
  (length bits <= fuel)%nat -> (8 * j < length bits)%nat -> chunks fuel bits !! j = Some (take 8 (drop (8 * j) bits)).
Proof.
  revert bits j. induction fuel as [|fuel IH]; intros bits j Hf Hj; [lia|].
  destruct bits as [|b bits]; [cbn in Hj; lia|]. cbn [chunks]. destruct j as [|j]; [done|].
  cbn [lookup list_lookup]. rewrite IH; rewrite ?length_drop.
  - rewrite drop_drop. do 3 f_equal. lia.
  - cbn [length] in *. lia.
  - cbn [length] in *. lia.
Qed.

Lemma chunks_length fuel bits : (length bits <= fuel)%nat -> length (chunks fuel bits) = packed_len (length bits).
Proof.
  unfold packed_len. revert bits. induction fuel as [|fuel IH]; intros bits Hf; [by destruct bits; [|cbn in Hf; lia]|].
  destruct bits as [|b bits]; [done|]. cbn [chunks length]. rewrite IH by (rewrite length_drop; cbn [length] in *; lia).
  rewrite length_drop. cbn [length]. destruct (decide (8 <= S (length bits))%nat) as [H|H].
  - replace (S (length bits) + 7)%nat with (S (length bits) - 8 + 7 + 1 * 8)%nat by lia. rewrite Nat.div_add by lia. lia.
  - replace (S (length bits) - 8)%nat with 0%nat by lia.
    rewrite (Nat.div_small (0 + 7) 8) by lia. apply (Nat.div_unique _ 8 1 (S (length bits) - 1)); lia.
Qed.

Definition get_bit (b : byte) (i : nat) : bool := negb (Z.land (b2z b) (Z.shiftl 1 (7 - Z.of_nat i)) =? 0).

(** All chunks of up to eight bits. *)
Fixpoint all_chunks (n : nat) : list (list bool) :=
  match n with O => [[]] | S n => [] :: ((cons true <$> all_chunks n) ++ (cons false <$> all_chunks n)) end.

Lemma all_chunks_complete n chunk : (length chunk <= n)%nat -> chunk ∈ all_chunks n.
Proof.
  revert chunk. induction n as [|n IH]; intros [|b chunk] H; cbn [length] in H; try lia; [left|left|].
  right. apply elem_of_app. specialize (IH chunk ltac:(lia)). destruct b; [left|right]; by apply list_elem_of_fmap_2.
Qed.

Lemma pack_byte_get chunk i : (length chunk <= 8)%nat -> chunk !! i = Some (get_bit (pack_byte chunk) i) \/ chunk !! i = None.
Proof.
  intros H. assert (forallb (fun c => bool_decide (get_bit (pack_byte c) <$> seq 0 (length c) = c)) (all_chunks 8) = true) as A by (by vm_compute).
  rewrite forallb_forall in A. pose proof (all_chunks_complete 8 chunk H) as Hin. apply list_elem_of_In in Hin. apply A in Hin.
  apply bool_decide_eq_true in Hin. destruct (decide (i < length chunk)%nat) as [Hi|Hi]; [left|right; apply lookup_ge_None; lia].
  rewrite <- Hin at 1. rewrite list_lookup_fmap, lookup_seq_lt by done. done.
Qed.

Lemma unpack_pack bits : unpack (length bits) (pack_byte <$> chunks (length bits) bits) = Some bits.
Proof.
  unfold unpack. apply mapM_Some. apply Forall2_same_length_lookup_2; [by rewrite length_seq|].
  intros i j b Hj Hb. apply lookup_seq in Hj as [-> Hi]. cbn [Nat.add]. unfold unpack_bit.
  pose proof (Nat.div_mod_eq i 8) as Hdm. pose proof (Nat.mod_upper_bound i 8 ltac:(lia)) as Hm.
  rewrite list_lookup_fmap, chunks_lookup by lia. cbn [fmap option_fmap option_map mbind option_bind]. f_equal.
  fold (get_bit (pack_byte (take 8 (drop (8 * (i / 8)) bits))) (i mod 8)).
  assert (take 8 (drop (8 * (i / 8)) bits) !! (i mod 8)%nat = Some b) as Hc.
  { rewrite lookup_take_lt by done. rewrite lookup_drop. by replace (8 * (i / 8) + i mod 8)%nat with i by lia. }
  destruct (pack_byte_get (take 8 (drop (8 * (i / 8)) bits)) (i mod 8)) as [H|H]; [rewrite length_take; lia|congruence|congruence].
Qed.

Lemma decode_at bits bs pos rest :
  fits_u32 bits -> cursor bs pos (encode bits ++ rest) -> decode bs pos = Some (bits, pos + length (encode bits))%nat.
Proof.
  intros Hf Hc. unfold encode in *. rewrite <- app_assoc in Hc. unfold decode.
  assert (u32_sat (length bits) = Z.of_nat (length bits)) as Hs by (unfold u32_sat, U32_MAX, fits_u32, u32 in *; lia).
  rewrite (cursor_u32 _ _ (u32_sat (length bits)) _ Hc) by (by rewrite Hs). cbn [fmap option_fmap option_map mbind option_bind].
  rewrite Hs, Nat2Z.id. apply (cursor_adv _ _ (pos + 4)%nat) in Hc; [|by rewrite le_bytes_length].
  rewrite (cursor_range _ _ _ _ _ Hc) by (by rewrite length_fmap, chunks_length). cbn [mbind option_bind].
  rewrite unpack_pack. cbn [mbind option_bind]. do 2 f_equal. rewrite length_app, le_bytes_length, length_fmap, chunks_length by done. lia.
Qed.

(** ** Text *)

Lemma parse_format bits : parse (format bits) = Some bits.
Proof. induction bits as [|b bits IH]; [done|]. unfold parse, format in *. cbn. rewrite IH. by destruct b. Qed.

Lemma format_parse s bits : parse s = Some bits -> format bits = s.
Proof.
  unfold parse. intros H%mapM_Some. induction H as [|c b s bits Hc _ IH]; [done|]. cbn. unfold format in IH. rewrite IH. f_equal.
  unfold parse_digit in Hc. rewrite <- (z2b_b2z c).
  destruct (Z.eqb_spec (b2z c) 48) as [->|_]; [by injection Hc as <-|]. by destruct (Z.eqb_spec (b2z c) 49) as [->|_]; [injection Hc as <-|].
Qed.

(** ** Integers *)

Lemma low_bit_testbit v p : 0 <= p -> low_bit v p = Z.testbit v p.
Proof.
  intros Hp. unfold low_bit. change 1 with (Z.ones 1) at 1. rewrite Z.land_ones by lia. change (2 ^ 1) with 2.
  rewrite Z.shiftr_div_pow2 by done. rewrite <- Z.testbit_spec' by done. by destruct (Z.testbit v p).
Qed.

Lemma from_int_length v n : length (from_int v n) = n.
Proof. unfold from_int. by rewrite length_fmap, length_reverse, length_seq. Qed.

(** The sign of an [i32]. *)
Lemma high_bits v p : i32 v -> 31 <= p -> Z.testbit v p = (v <? 0).
Proof.
  unfold i32. intros Hv Hp. destruct (Z.ltb_spec v 0).
  - rewrite <- (Z.opp_involutive v), Z.bits_opp by lia. apply negb_true_iff.
    rewrite Z.testbit_false, Z.div_small; [done| |lia]. assert (2 ^ 31 <= 2 ^ p) by (apply Z.pow_le_mono_r; lia). lia.
  - rewrite Z.testbit_false, Z.div_small; [done| |lia]. assert (2 ^ 31 <= 2 ^ p) by (apply Z.pow_le_mono_r; lia). lia.
Qed.

Lemma from_int_lookup v n i : i32 v -> (i < n)%nat -> from_int v n !! i = Some (Z.testbit v (Z.of_nat (n - 1 - i))).
Proof.
  intros Hv Hi. unfold from_int. rewrite list_lookup_fmap, reverse_lookup by (by rewrite length_seq).
  rewrite length_seq, lookup_seq_lt by lia. cbn [fmap option_fmap option_map Nat.add]. f_equal.
  replace (n - S i)%nat with (n - 1 - i)%nat by lia. rewrite !low_bit_testbit by lia.
  destruct (Nat.ltb_spec (n - 1 - i) 32).
  - by rewrite Z.mod_pow2_bits_low by lia.
  - rewrite Z.mod_pow2_bits_low by lia. by rewrite !high_bits by (done || lia).
Qed.

Lemma seq_S_reverse n : reverse (seq 0 (S n)) = n :: reverse (seq 0 n).
Proof. by rewrite seq_S, reverse_app. Qed.

Lemma from_int_value v n : (n <= 32)%nat -> bval (from_int v n) = v mod 2 ^ Z.of_nat n.
Proof.
  intros Hn. unfold from_int. induction n as [|n IH]; [by rewrite Z.mod_1_r|].
  rewrite seq_S_reverse, fmap_cons. change (?x :: ?l) with ([x] ++ l). rewrite bval_app, length_fmap, length_reverse, length_seq, IH by lia.
  rewrite (proj2 (Nat.ltb_lt n 32)) by lia. rewrite low_bit_testbit, Z.mod_pow2_bits_low by lia.
  rewrite Nat2Z.inj_succ, Z.pow_succ_r, (Z.mul_comm 2), Z.rem_mul_r by lia. rewrite <- Z.testbit_spec' by lia. unfold bval. cbn [foldl]. lia.
Qed.

Lemma to_int_value bits : (length bits <= 32)%nat -> foldl (fun acc b => Z.lor (Z.shiftl acc 1 mod 2 ^ 32) (Z.b2z b)) 0 bits = bval bits.
Proof.
  induction bits as [|b bits IH] using rev_ind; [done|]. rewrite length_app. cbn [length]. intros Hl.
  rewrite foldl_app, bval_app, IH by lia. cbn [foldl length]. pose proof (bval_range bits) as Hr.
  assert (2 ^ Z.of_nat (length bits) <= 2 ^ 31) by (apply Z.pow_le_mono_r; lia).
  rewrite Z.shiftl_mul_pow2 by lia. change (2 ^ 1) with 2. rewrite Z.mod_small by lia.
  replace (bval [b]) with (Z.b2z b) by (by destruct b). change (2 ^ Z.of_nat 1) with 2.
  assert (Z.land (bval bits * 2) (Z.b2z b) = 0) as Hz.
  { apply Z.bits_inj'. intros p Hp. rewrite Z.land_spec, Z.bits_0. destruct (decide (p = 0)) as [-> |Hne].
    - by rewrite Z.mul_comm, Z.testbit_even_0.
    - assert (Z.testbit (Z.b2z b) p = false) as ->; [|apply andb_false_r]. rewrite Z.testbit_false, Z.div_small by (try lia; destruct b; cbn; pose proof (Z.pow_gt_1 2 p); lia). done. }
  by rewrite <- Z.lxor_lor, <- Z.add_nocarry_lxor.
Qed.

Lemma to_int_spec bits w :
  to_int bits = Some w -> (length bits <= 32)%nat /\ i32 w /\ from_int w (length bits) = bits.
Proof.
  unfold to_int. destruct (Nat.ltb_spec 32 (length bits)) as [|Hl]; [done|]. rewrite to_int_value by done. intros [= Hw].
  pose proof (bval_range bits) as Hr. assert (2 ^ Z.of_nat (length bits) <= 2 ^ 32) by (apply Z.pow_le_mono_r; lia).
  split_and!; [done|unfold i32; destruct (Z.ltb_spec (bval bits) (2 ^ 31)); lia|].
  apply bval_inj; [apply from_int_length|]. rewrite from_int_value by done. rewrite <- Hw.
  destruct (Z.ltb_spec (bval bits) (2 ^ 31)); [by apply Z.mod_small|].
  replace (2 ^ 32) with (2 ^ (32 - Z.of_nat (length bits)) * 2 ^ Z.of_nat (length bits)) by (rewrite <- Z.pow_add_r by lia; f_equal; lia).
  rewrite <- Z.add_opp_r, <- Z.mul_opp_l, Z_mod_plus_full. by apply Z.mod_small.
Qed.

Lemma to_from_int v : i32 v -> to_int (from_int v 32) = Some v.
Proof.
  intros Hv. unfold to_int. rewrite from_int_length, Nat.ltb_irrefl, to_int_value, from_int_value by (rewrite ?from_int_length; lia).
  change (Z.of_nat 32) with 32. unfold i32 in Hv. f_equal. destruct (decide (0 <= v)).
  - rewrite Z.mod_small by lia. destruct (Z.ltb_spec v (2 ^ 31)); lia.
  - assert (v mod 2 ^ 32 = v + 2 ^ 32) as -> by (symmetry; apply (Z.mod_unique _ _ (-1)); lia). destruct (Z.ltb_spec (v + 2 ^ 32) (2 ^ 31)); lia.
Qed.

(** ** Operators *)

(** The bit [d] places to the right, zero outside the string. *)
Definition bit_at (bits : list bool) (i : Z) : bool :=
  if 0 <=? i then default false (bits !! Z.to_nat i) else false.

Lemma shift_lookup bits amount left_ i :
  Z.of_nat (length bits) <= 2 ^ 64 -> (i < length bits)%nat ->
  shift bits amount left_ !! i = Some (bit_at bits (Z.of_nat i + (if left_ then amount else - amount))).
Proof.
  intros Hl Hi. unfold shift. rewrite list_lookup_fmap, lookup_seq_lt by done. cbn [fmap option_fmap option_map Nat.add]. f_equal.
  set (d := if left_ then amount else - amount).
  assert (shift_bit bits (Z.abs amount) (if amount <? 0 then negb left_ else left_) i =
    default false (checked_usize (Z.of_nat i + d) ≫= get_at bits)) as ->.
  { unfold shift_bit, d. destruct (Z.ltb_spec amount 0), left_; cbn [negb]; do 3 f_equal; lia. }
  unfold checked_usize, bit_at. destruct (Z.leb_spec 0 (Z.of_nat i + d)); [|done]. cbn [andb].
  destruct (Z.ltb_spec (Z.of_nat i + d) (2 ^ 64)); cbn [mbind option_bind].
  - unfold get_at. destruct (Z.ltb_spec (Z.of_nat i + d) (Z.of_nat (length bits))); [done|].
    rewrite lookup_ge_None_2 by lia. done.
  - rewrite lookup_ge_None_2 by lia. done.
Qed.

Lemma shift_length bits amount left_ : length (shift bits amount left_) = length bits.
Proof. unfold shift. by rewrite length_fmap, length_seq. Qed.

Lemma fit_lookup bits n i : (i < n)%nat -> fit bits n !! i = Some (default false (bits !! i)).
Proof.
  intros Hi. unfold fit, resize. rewrite take_take, Nat.min_id, length_take. destruct (decide (i < length bits)%nat) as [H|H].
  - destruct (lookup_lt_is_Some_2 bits i H) as [b Hb]. rewrite lookup_app_l by (rewrite length_take; lia).
    by rewrite lookup_take_lt, Hb by done.
  - rewrite lookup_app_r by (rewrite length_take; lia). rewrite length_take, lookup_replicate_2 by lia. by rewrite lookup_ge_None_2 by lia.
Qed.

Lemma fit_length bits n : length (fit bits n) = n.
Proof. unfold fit, resize. rewrite length_app, length_replicate, !length_take. lia. Qed.

Definition write_bit (b : byte) (p : nat) (one : bool) : byte :=
  z2b (if one then Z.lor (b2z b) (Z.shiftl 1 (Z.of_nat p)) else Z.land (b2z b) (255 - Z.shiftl 1 (Z.of_nat p))).

Lemma write_read b p q one :
  (p < 8)%nat -> (q < 8)%nat ->
  low_bit (b2z (write_bit b p one)) (Z.of_nat q) = if decide (p = q) then one else low_bit (b2z b) (Z.of_nat q).
Proof.
  intros Hp Hq.
  assert (forall one r, (r <= 8)%nat -> (fun p => (fun q => low_bit (b2z (write_bit b p one)) (Z.of_nat q)) <$> seq 0 8) <$> seq 0 8 =
    (fun p => (fun q => if decide (p = q) then one else low_bit (b2z b) (Z.of_nat q)) <$> seq 0 8) <$> seq 0 8) as H.
  { intros [] r Hr.
    - apply (by_octet (fun b _ => (fun p => (fun q => low_bit (b2z (write_bit b p true)) (Z.of_nat q)) <$> seq 0 8) <$> seq 0 8)
        (fun b _ => (fun p => (fun q => if decide (p = q) then true else low_bit (b2z b) (Z.of_nat q)) <$> seq 0 8) <$> seq 0 8)) with (r := r); [by vm_compute|exact Hr].
    - apply (by_octet (fun b _ => (fun p => (fun q => low_bit (b2z (write_bit b p false)) (Z.of_nat q)) <$> seq 0 8) <$> seq 0 8)
        (fun b _ => (fun p => (fun q => if decide (p = q) then false else low_bit (b2z b) (Z.of_nat q)) <$> seq 0 8) <$> seq 0 8)) with (r := r); [by vm_compute|exact Hr]. }
  specialize (H one 0%nat ltac:(lia)). apply (f_equal (fun l => l !! p)) in H.
  rewrite !list_lookup_fmap, !lookup_seq_lt in H by done. cbn [fmap option_fmap option_map Nat.add] in H. injection H. intros.
  do 8 (destruct q as [|q]; [done|]). lia.
Qed.

Lemma set_get bs i j one :
  bytea_get_bit (bytea_set_bit bs i one) j = if decide (i = j) then (fun _ => one) <$> bytea_get_bit bs i else bytea_get_bit bs j.
Proof.
  unfold bytea_get_bit, bytea_set_bit.
  pose proof (Nat.div_mod_eq i 8) as Di. pose proof (Nat.mod_upper_bound i 8 ltac:(lia)) as Mi.
  pose proof (Nat.div_mod_eq j 8) as Dj. pose proof (Nat.mod_upper_bound j 8 ltac:(lia)) as Mj.
  destruct (bs !! (i / 8)%nat) as [b|] eqn:Eb; [|case_decide as E; [subst; by rewrite Eb|done]].
  fold (write_bit b (i mod 8) one). destruct (decide (i / 8 = j / 8)%nat) as [E|E].
  - rewrite <- E, Eb, list_lookup_insert_eq by (by eapply lookup_lt_Some). cbn [mbind option_bind].
    rewrite write_read by done. destruct (decide (i = j)) as [-> |Hne]; [by rewrite decide_True|].
    rewrite decide_False; [done|lia].
  - rewrite list_lookup_insert_ne by done. rewrite decide_False by (intros ->; lia). done.
Qed.

(** C1: Bit strings are exact. A string reads back from its stored form wherever
    it stands and from its text; [integer::bit(n)] is the two's-complement
    expansion of the integer at any width, [bit::integer] inverts it and refuses
    just the strings longer than 32 bits; a shift by any amount in either
    direction moves each bit that far and fills with zeros at the same length, a
    cast to [bit(n)] keeps the leading bits and pads with zeros, and setting one
    bit of a [BYTEA] changes that bit and no other. *)
Theorem bit_strings_exact bits :
  Z.of_nat (length bits) < 2 ^ 32 ->
  (forall pre rest, decode (pre ++ encode bits ++ rest) (length pre) = Some (bits, length pre + length (encode bits))%nat) /\
  (forall s, parse s = Some bits <-> s = format bits) /\
  (forall v n i, i32 v -> (i < n)%nat -> from_int v n !! i = Some (Z.testbit v (Z.of_nat (n - 1 - i)))) /\
  (to_int bits = None <-> (32 < length bits)%nat) /\
  (forall w, to_int bits = Some w -> i32 w /\ from_int w (length bits) = bits) /\
  (forall v, i32 v -> to_int (from_int v 32) = Some v) /\
  (forall amount left_,
     length (shift bits amount left_) = length bits /\
     forall i, (i < length bits)%nat ->
       shift bits amount left_ !! i = Some (bit_at bits (Z.of_nat i + (if left_ then amount else - amount)))) /\
  (forall n, length (fit bits n) = n /\ forall i, (i < n)%nat -> fit bits n !! i = Some (default false (bits !! i))) /\
  (forall bs i j one,
     bytea_get_bit (bytea_set_bit bs i one) j = if decide (i = j) then (fun _ => one) <$> bytea_get_bit bs i else bytea_get_bit bs j).
Proof.
  intros Hl. split_and!.
  - intros pre rest. eapply (decode_at bits _ _ rest); [unfold fits_u32, u32; lia|].
    split; [rewrite length_app; lia|]. by rewrite drop_app_length.
  - intros s. split; [intros H; symmetry; by apply format_parse|intros ->; apply parse_format].
  - apply from_int_lookup.
  - unfold to_int. destruct (Nat.ltb_spec 32 (length bits)); [done|split; [done|lia]].
  - intros w H. by apply to_int_spec in H as (_ & ? & ?).
  - apply to_from_int.
  - intros amount left_. split; [apply shift_length|]. intros i Hi. apply shift_lookup; [lia|done].
  - intros n. split; [apply fit_length|]. intros i Hi. by apply fit_lookup.
  - apply set_get.
Qed.

Lemma bit_strings_exact_witness :
  decode ([] ++ encode [true; false; true] ++ []) 0 = Some ([true; false; true], 5%nat) /\
  to_int [true; false; true] = Some 5 /\ from_int 5 3 = [true; false; true].
Proof.
  pose proof (bit_strings_exact [true; false; true] ltac:(by vm_compute)) as (H & _ & _ & _ & H5 & _).
  split; [apply (H [] [])|]. split; [reflexivity|]. apply (H5 5). reflexivity.
Defined.
