(* ===== verification/Row.v ===== *)
(** * Rows as stored tuples ([executor/row.rs])

    The tuple codec: the coercions and the per-type writers of [encode_value],
    nested arrays, the readers of [decode_value], the projected decode and the
    skip it uses, and the coercions of text to [CHAR(n)], [VARCHAR(n)] and enum
    columns. A writer returns the bytes it appends to the output. The parsers of
    the text forms a text value is coerced with are an argument, [TextForms];
    the text of error messages is left out. *)

From stdpp Require Import base list strings.
From Stdlib Require Import ZArith Lia Strings.Byte.
From S2P Require Import Prelude Order Codec Catalog Numeric Float Interval Inet Values Range Bit.
#[local] Open Scope Z_scope.

Module Row.

Abbreviation Row := (list Value).

Definition TAG_NULL : byte := z2b 0.
Definition TAG_PRESENT : byte := z2b 1.
Definition TAG_ARRAY : byte := z2b 2.
Definition MAX_ARRAY_DIMS : nat := 6.

Definition array_dims_exceeded (dims : nat) : Sql.Error := Sql.LimitExceeded "number of array dimensions".

(** The text forms of the types, by the function the encoder calls. *)
Record TextForms := {
  date_from_text : bytes -> Sql.result Z;
  parse_time : bytes -> option Z;
  parse_timetz : bytes -> option Z;
  parse_timestamp : bytes -> option Z;
  parse_timestamptz : bytes -> option Z;
  parse_uuid : bytes -> option bytes;
  parse_macaddr : bytes -> option bytes;
  parse_macaddr8 : bytes -> option bytes;
  parse_inet : bytes -> option InetAddr;
  parse_cidr : bytes -> option InetAddr;
  parse_range : bytes -> RangeOf.RangeKind -> option (RangeVal Value);
  parse_geometry : bytes -> Geom.GeomKind -> option Geometry.GeomVal;
  from_f64_text : Z -> option Decimal;
  json_canonicalize : bytes -> option bytes;
  parse_tsvector : bytes -> Sql.result bytes;
  parse_tsquery : bytes -> Sql.result bytes;
  validate_xml : bytes -> bool;
  parse_interval : bytes -> option Interval;
  parse_text_array : bytes -> Ty.ColumnType -> Sql.result (list Value);
  parse_vector : bytes -> option (list Z);
  parse_bytea : bytes -> option bytes;
}.

(** ** Types of values *)

(** [runtime_type_of] on a value that is not an array. *)
Definition scalar_type_of (value : Value) : Ty.ColumnType :=
  match value with
  | Val.Null | Val.Bool _ | Val.Array _ => Ty.Bool
  | Val.Int _ => Ty.Int
  | Val.Float _ => Ty.Float
  | Val.Text _ => Ty.Text
  | Val.Date _ => Ty.Date
  | Val.Time _ => Ty.Time
  | Val.Timestamp _ => Ty.Timestamp
  | Val.TimestampTz _ => Ty.TimestampTz
  | Val.TimeTz _ => Ty.TimeTz
  | Val.Uuid _ => Ty.Uuid
  | Val.Macaddr _ => Ty.Macaddr
  | Val.Macaddr8 _ => Ty.Macaddr8
  | Val.Geometry g => Ty.Geometry (Geometry.kind g)
  | Val.Tsvector _ => Ty.Tsvector
  | Val.Tsquery _ => Ty.Tsquery
  | Val.Xml _ => Ty.Xml
  | Val.Enum _ _ => Ty.Enum
  | Val.Inet a => if is_cidr a then Ty.Cidr else Ty.Inet
  | Val.Bit b => Bit.column_type b
  | Val.Range r => Ty.Range (kind r)
  | Val.Numeric _ => Ty.Numeric 0 0
  | Val.Json _ => Ty.Json
  | Val.Interval _ => Ty.Interval
  | Val.Vector v => Ty.Vector (Z.of_nat (length v) mod 2 ^ 32)
  | Val.Bytes _ => Ty.Bytes
  end.

(** The element type of an array value, by its first leaf that is not null. *)
Fixpoint leaf_elem (value : Value) : Elem.ArrayElem :=
  match value with
  | Val.Array items =>
      (fix first (l : list Value) : Elem.ArrayElem :=
         match l with
         | [] => Elem.Int
         | v :: rest => if is_null v then first rest else leaf_elem v
         end) items
  | other => default Elem.Int (from_column_type (scalar_type_of other))
  end.

Definition array_elem_of (items : list Value) : Elem.ArrayElem := leaf_elem (Val.Array items).

Definition runtime_type_of (value : Value) : Ty.ColumnType :=
  match value with
  | Val.Array items => Ty.Array (array_elem_of items)
  | other => scalar_type_of other
  end.

(** The running element type of [array_elem_checked]. *)
Fixpoint elem_checked_from (elem : option Ty.ColumnType) (items : list Value) : Sql.result (option Ty.ColumnType) :=
  match items with
  | [] => Ok elem
  | v :: rest =>
      if is_null v then elem_checked_from elem rest
      else
        let ty := runtime_type_of v in
        match elem with
        | None => elem_checked_from (Some ty) rest
        | Some prev =>
            if decide (prev = ty) then elem_checked_from elem rest
            else Err (Sql.TypeMismatch "array literal elements must share one type" prev ty)
        end
  end.

Definition array_elem_checked (items : list Value) : Sql.result Elem.ArrayElem :=
  let? elem := elem_checked_from None items in
  Ok (default Elem.Int (ty ← elem; match ty with Ty.Array e => Some e | other => from_column_type other end)).

(** ** Coercions on the way in *)

(** The byte offsets at which the characters of a string start. *)
Definition char_starts (s : bytes) : list nat :=
  filter (fun i => from_option (fun b => negb (continuation b)) false (s !! i) = true) (seq 0 (length s)).

Definition is_space (b : byte) : bool := b2z b =? 32.

Definition coerce_char_length (value : Value) (ty : Ty.ColumnType) : Sql.result Value :=
  match ty, value with
  | Ty.VarChar n, Val.Text s | Ty.Char n, Val.Text s =>
      match char_starts s !! Z.to_nat n with
      | None => Ok value
      | Some cut => if forallb is_space (drop cut s) then Ok (Val.Text (take cut s)) else Err (Sql.StringTooLong ty)
      end
  | _, _ => Ok value
  end.

Fixpoint position (label : bytes) (labels : list bytes) : option nat :=
  match labels with
  | [] => None
  | l :: rest => if decide (l = label) then Some 0%nat else S <$> position label rest
  end.

Definition coerce_enum (value : Value) (labels : list bytes) : Sql.result Value :=
  match value with
  | Val.Text label =>
      match position label labels with
      | Some ordinal => Ok (Val.Enum (u32_sat ordinal) label)
      | None => Err (Sql.Coded "22P02")
      end
  | Val.Enum _ _ | Val.Null => Ok value
  | _ => Err (Sql.Coded "22P02")
  end.

(** ** Writers *)

(** [s.trim_end_matches(' ')]. *)
Fixpoint drop_spaces (s : bytes) : bytes :=
  match s with
  | b :: rest => if is_space b then drop_spaces rest else s
  | [] => []
  end.
Definition trim_end_spaces (s : bytes) : bytes := reverse (drop_spaces (reverse s)).

Definition bpchar_canonical (value : Value) (ty : Ty.ColumnType) : option Value :=
  match ty, value with
  | Ty.Char _, Val.Text s =>
      let trimmed := trim_end_spaces s in
      if decide (length trimmed = length s) then None else Some (Val.Text trimmed)
  | _, _ => None
  end.

(** A [u32] length, then the bytes; refused past 4 GiB. *)
Definition put_prefixed (what : string) (s : bytes) : Sql.result bytes :=
  if Z.of_nat (length s) <=? U32_MAX then Ok (le_bytes 4 (Z.of_nat (length s)) ++ s)
  else Err (Sql.LimitExceeded what).

Definition put_text := put_prefixed "text value larger than 4 GiB".
Definition write_geometry_text := put_prefixed "geometry value larger than 4 GiB".
Definition put_json_text := put_prefixed "JSON value larger than 4 GiB".
Definition put_fulltext_text := put_prefixed "full-text value larger than 4 GiB".
Definition put_bytes := put_prefixed "BYTEA value larger than 4 GiB".

Definition put_interval (iv : Interval) : bytes :=
  le_bytes 4 (months iv) ++ le_bytes 4 (days iv) ++ le_bytes 8 (micros iv).

Definition encode_vector (v : list Z) (dim : Z) : Sql.result bytes :=
  if Z.of_nat (length v) =? dim then Ok (le_bytes 4 dim ++ mjoin (le_bytes 4 <$> v))
  else Err (Sql.InvalidValue (Ty.Vector dim)).

Definition check_bit_length (len : nat) (ty : Ty.ColumnType) : Sql.result () :=
  match ty with
  | Ty.Bit n => if Z.of_nat len =? n then Ok () else Err (Sql.Coded "22026")
  | Ty.VarBit (Some n) => if n <? Z.of_nat len then Err (Sql.Coded "22001") else Ok ()
  | _ => Ok ()
  end.

Definition encode_numeric (value : Decimal) (precision scale_ : Z) : Sql.result bytes :=
  let ty := Ty.Numeric precision scale_ in
  let? d :=
    if precision =? 0 then Ok value
    else
      match rescale value scale_ with
      | None => Err (Sql.InvalidValue ty)
      | Some rescaled => if precision <? required_precision rescaled then Err (Sql.InvalidValue ty) else Ok rescaled
      end in
  Ok (le_bytes 16 (mantissa d) ++ [z2b (scale d)]).

(** [.ok_or_else(|| invalid(ty, s))?]. *)
Definition parsed {A} (ty : Ty.ColumnType) (o : option A) : Sql.result A :=
  match o with Some a => Ok a | None => Err (Sql.InvalidValue ty) end.

Section forms.
Context (T : TextForms).

(** The arms of [encode_value] for a column that is not an array; [ty] is the
    physical type. *)
Definition encode_scalar (value : Value) (ty : Ty.ColumnType) : Sql.result bytes :=
  match value, ty with
  | Val.Bool b, Ty.Bool => Ok [bool_byte b]
  | Val.Int i, Ty.Int => Ok (le_bytes 8 i)
  | Val.Int i, Ty.Float => Ok (le_bytes 8 (f64_of_i64 i))
  | Val.Float f, Ty.Float => Ok (le_bytes 8 f)
  | Val.Numeric d, Ty.Float => Ok (le_bytes 8 (to_f64 d))
  | Val.Text s, Ty.Text => put_text s
  | Val.Date d, Ty.Date => Ok (le_bytes 4 d)
  | Val.Time t, Ty.Time | Val.TimeTz t, Ty.TimeTz
  | Val.Timestamp t, Ty.Timestamp | Val.Timestamp t, Ty.TimestampTz
  | Val.TimestampTz t, Ty.Timestamp | Val.TimestampTz t, Ty.TimestampTz => Ok (le_bytes 8 t)
  | Val.Uuid u, Ty.Uuid => Ok u
  | Val.Macaddr m, Ty.Macaddr => Ok m
  | Val.Macaddr8 m, Ty.Macaddr8 => Ok m
  | Val.Geometry g, Ty.Geometry kind =>
      if decide (Geometry.kind g = kind) then write_geometry_text (Geometry.format g) else Err (Sql.InvalidValue ty)
  | Val.Inet a, Ty.Inet | Val.Inet a, Ty.Cidr => Ok (Inet.encode a)
  | Val.Range r, Ty.Range k => if decide (kind r = k) then Ok (Range.encode r) else Err (Sql.InvalidValue ty)
  | Val.Bit b, Ty.Bit _ | Val.Bit b, Ty.VarBit _ =>
      let? _ := check_bit_length (length b) ty in Ok (Bit.encode b)
  | Val.Text s, Ty.Date => let? d := date_from_text T s in Ok (le_bytes 4 d)
  | Val.Text s, Ty.Time => let? t := parsed ty (parse_time T s) in Ok (le_bytes 8 t)
  | Val.Text s, Ty.TimeTz => let? t := parsed ty (parse_timetz T s) in Ok (le_bytes 8 t)
  | Val.Text s, Ty.Timestamp => let? t := parsed ty (parse_timestamp T s) in Ok (le_bytes 8 t)
  | Val.Text s, Ty.TimestampTz => let? t := parsed ty (parse_timestamptz T s) in Ok (le_bytes 8 t)
  | Val.Text s, Ty.Uuid => parsed ty (parse_uuid T s)
  | Val.Text s, Ty.Macaddr => parsed ty (parse_macaddr T s)
  | Val.Text s, Ty.Macaddr8 => parsed ty (parse_macaddr8 T s)
  | Val.Text s, Ty.Inet => let? v := parsed ty (parse_inet T s) in Ok (Inet.encode v)
  | Val.Text s, Ty.Cidr => let? v := parsed ty (parse_cidr T s) in Ok (Inet.encode v)
  | Val.Text s, Ty.Range k => let? r := parsed ty (parse_range T s k) in Ok (Range.encode r)
  | Val.Text s, Ty.Geometry k =>
      let? g := parsed ty (parse_geometry T s k) in write_geometry_text (Geometry.format g)
  | Val.Text s, Ty.Bit _ | Val.Text s, Ty.VarBit _ =>
      let? bits := parsed ty (Bit.parse s) in
      let? _ := check_bit_length (length bits) ty in Ok (Bit.encode bits)
  | Val.Numeric d, Ty.Numeric p s => encode_numeric d p s
  | Val.Int i, Ty.Numeric p s => encode_numeric (from_i64 i) p s
  | Val.Float f, Ty.Numeric p s => let? d := parsed ty (from_f64_text T f) in encode_numeric d p s
  | Val.Text t, Ty.Numeric p s => let? d := parsed ty (Numeric.parse t) in encode_numeric d p s
  | Val.Json s, Ty.Json => put_json_text s
  | Val.Text s, Ty.Json => let? canon := parsed ty (json_canonicalize T s) in put_json_text canon
  | Val.Tsvector s, Ty.Tsvector | Val.Tsquery s, Ty.Tsquery | Val.Xml s, Ty.Xml => put_fulltext_text s
  | Val.Enum ordinal label, Ty.Enum => let? l := put_fulltext_text label in Ok (le_bytes 4 ordinal ++ l)
  | Val.Text s, Ty.Tsvector => let? c := parse_tsvector T s in put_fulltext_text c
  | Val.Text s, Ty.Tsquery => let? c := parse_tsquery T s in put_fulltext_text c
  | Val.Text s, Ty.Xml => if validate_xml T s then put_fulltext_text s else Err (Sql.Coded "2200N")
  | Val.Interval iv, Ty.Interval => Ok (put_interval iv)
  | Val.Text s, Ty.Interval => let? iv := parsed ty (parse_interval T s) in Ok (put_interval iv)
  | Val.Vector v, Ty.Vector dim => encode_vector v dim
  | Val.Text s, Ty.Vector dim => let? v := parsed ty (parse_vector T s) in encode_vector v dim
  | Val.Bytes b, Ty.Bytes => put_bytes b
  | Val.Text s, Ty.Bytes => let? b := parsed ty (parse_bytea T s) in put_bytes b
  | _, _ => Err (Sql.TypeMismatch "tuple encode" ty (runtime_type_of value))
  end.

(** An element with its tag, and [encode_array]. No element type is an array
    type, so an element's own encoding is [encode_scalar]. *)
Fixpoint encode_item (elem_ty : Ty.ColumnType) (depth : nat) (item : Value) : Sql.result bytes :=
  match item with
  | Val.Null => Ok [TAG_NULL]
  | Val.Array sub =>
      if (MAX_ARRAY_DIMS <? S depth)%nat then Err (array_dims_exceeded (S depth))
      else if Z.of_nat (length sub) <=? U32_MAX then
        let? body :=
          (fix items (l : list Value) : Sql.result bytes :=
             match l with
             | [] => Ok []
             | v :: rest => let? b := encode_item elem_ty (S depth) v in let? bs := items rest in Ok (b ++ bs)
             end) sub in
        Ok (TAG_ARRAY :: le_bytes 4 (Z.of_nat (length sub)) ++ body)
      else Err (Sql.LimitExceeded "array longer than 4 G elements")
  | _ => let? b := encode_scalar item (Ty.physical elem_ty) in Ok (TAG_PRESENT :: b)
  end.

Fixpoint encode_items (elem_ty : Ty.ColumnType) (depth : nat) (items : list Value) : Sql.result bytes :=
  match items with
  | [] => Ok []
  | v :: rest => let? b := encode_item elem_ty depth v in let? bs := encode_items elem_ty depth rest in Ok (b ++ bs)
  end.

Definition encode_array (items : list Value) (elem_ty : Ty.ColumnType) (depth : nat) : Sql.result bytes :=
  if (MAX_ARRAY_DIMS <? depth)%nat then Err (array_dims_exceeded depth)
  else if Z.of_nat (length items) <=? U32_MAX then
    let? body := encode_items elem_ty depth items in Ok (le_bytes 4 (Z.of_nat (length items)) ++ body)
  else Err (Sql.LimitExceeded "array longer than 4 G elements").

Definition encode_value (value : Value) (ty : Ty.ColumnType) : Sql.result bytes :=
  let value := default value (bpchar_canonical value ty) in
  let ty := Ty.physical ty in
  match value, ty with
  | Val.Array items, Ty.Array elem => encode_array items (column_type elem) 1
  | Val.Text s, Ty.Array elem =>
      let elem_ty := column_type elem in
      let? items := parse_text_array T s elem_ty in encode_array items elem_ty 1
  | _, _ => encode_scalar value ty
  end.

Definition encode_column (value : Value) (ty : Ty.ColumnType) : Sql.result bytes :=
  if is_null value then Ok [TAG_NULL] else let? b := encode_value value ty in Ok (TAG_PRESENT :: b).

Fixpoint encode_columns (row : Row) (schema : list Ty.ColumnType) : Sql.result bytes :=
  match row, schema with
  | value :: row, ty :: schema =>
      let? b := encode_column value ty in let? bs := encode_columns row schema in Ok (b ++ bs)
  | _, _ => Ok []
  end.

Definition encode (row : Row) (schema : list Ty.ColumnType) : Sql.result bytes :=
  if decide (length row = length schema) then encode_columns row schema
  else Err (Sql.MalformedBatch "tuple encode" (length schema) (length row)).

(** ** Readers *)

Definition malformed {A} (offset : nat) (o : option A) : Sql.result A :=
  match o with Some a => Ok a | None => Err (Sql.MalformedTuple offset) end.

Definition read_array (n : nat) (bs : bytes) (pos : nat) : Sql.result bytes :=
  malformed pos (get_range bs pos (pos + n)).

Definition read_tag (bs : bytes) (pos : nat) : Sql.result byte := malformed pos (bs !! pos).

Definition field_tag (bs : bytes) (pos : nat) : Sql.result (bool * nat) :=
  let? tag := read_tag bs pos in
  if decide (tag = TAG_NULL) then Ok (false, S pos)
  else if decide (tag = TAG_PRESENT) then Ok (true, S pos)
  else Err (Sql.MalformedTuple pos).

Definition read_bool_field (bs : bytes) (pos : nat) : Sql.result (bool * nat) :=
  let? b := read_tag bs pos in Ok (negb (b2z b =? 0), S pos).

Definition read_i64_field (bs : bytes) (pos : nat) : Sql.result (Z * nat) :=
  let? arr := read_array 8 bs pos in Ok (Range.signed arr, pos + 8)%nat.

Definition read_f64_field (bs : bytes) (pos : nat) : Sql.result (Z * nat) :=
  let? arr := read_array 8 bs pos in Ok (le_val arr, pos + 8)%nat.

Definition read_bytes_field (bs : bytes) (pos : nat) : Sql.result (bytes * nat) :=
  let? arr := read_array 4 bs pos in
  let len := Z.to_nat (le_val arr) in
  let start := (pos + 4)%nat in
  let? s := malformed start (get_range bs start (start + len)) in
  Ok (s, start + len)%nat.

Definition read_text_field (bs : bytes) (pos : nat) : Sql.result (bytes * nat) :=
  let? '(s, end_) := read_bytes_field bs pos in
  let? text := malformed (pos + 4) (from_utf8 s) in
  Ok (text, end_).

Fixpoint read_f32s (n : nat) (bs : bytes) (p : nat) : Sql.result (list Z * nat) :=
  match n with
  | O => Ok ([], p)
  | S n =>
      let? arr := read_array 4 bs p in
      let? '(rest, p') := read_f32s n bs (p + 4) in
      Ok (le_val arr :: rest, p')
  end.

(** The arms of [decode_value] for a column that is not an array. *)
Definition decode_scalar (bs : bytes) (pos : nat) (ty : Ty.ColumnType) : Sql.result (Value * nat) :=
  match ty with
  | Ty.Bool => let? '(b, next) := read_bool_field bs pos in Ok (Val.Bool b, next)
  | Ty.Int | Ty.SmallInt | Ty.BigInt => let? '(v, next) := read_i64_field bs pos in Ok (Val.Int v, next)
  | Ty.Float | Ty.Real => let? '(v, next) := read_f64_field bs pos in Ok (Val.Float v, next)
  | Ty.Date => let? arr := read_array 4 bs pos in Ok (Val.Date (Range.signed arr), pos + 4)%nat
  | Ty.Time => let? arr := read_array 8 bs pos in Ok (Val.Time (Range.signed arr), pos + 8)%nat
  | Ty.Timestamp => let? arr := read_array 8 bs pos in Ok (Val.Timestamp (Range.signed arr), pos + 8)%nat
  | Ty.TimestampTz => let? arr := read_array 8 bs pos in Ok (Val.TimestampTz (Range.signed arr), pos + 8)%nat
  | Ty.TimeTz => let? arr := read_array 8 bs pos in Ok (Val.TimeTz (Range.signed arr), pos + 8)%nat
  | Ty.Uuid => let? arr := read_array 16 bs pos in Ok (Val.Uuid arr, pos + 16)%nat
  | Ty.Macaddr => let? arr := read_array 6 bs pos in Ok (Val.Macaddr arr, pos + 6)%nat
  | Ty.Macaddr8 => let? arr := read_array 8 bs pos in Ok (Val.Macaddr8 arr, pos + 8)%nat
  | Ty.Geometry kind =>
      let? '(text, next) := read_text_field bs pos in
      let? g := malformed pos (parse_geometry T text kind) in
      Ok (Val.Geometry g, next)
  | Ty.Inet | Ty.Cidr =>
      let? flags := read_tag bs pos in
      let n := if Z.land (b2z flags) 2 =? 0 then 6%nat else 18%nat in
      let? s := malformed pos (get_range bs pos (pos + n)) in
      let? v := malformed pos (Inet.decode s) in
      Ok (Val.Inet v, pos + n)%nat
  | Ty.Bit _ | Ty.VarBit _ =>
      let? '(bits, next) := malformed pos (Bit.decode bs pos) in Ok (Val.Bit bits, next)
  | Ty.Range kind =>
      let? '(r, next) := malformed pos (Range.decode bs pos kind) in Ok (Val.Range r, next)
  | Ty.Json | Ty.Jsonb => let? '(text, next) := read_text_field bs pos in Ok (Val.Json text, next)
  | Ty.Tsvector => let? '(text, next) := read_text_field bs pos in Ok (Val.Tsvector text, next)
  | Ty.Tsquery => let? '(text, next) := read_text_field bs pos in Ok (Val.Tsquery text, next)
  | Ty.Xml => let? '(text, next) := read_text_field bs pos in Ok (Val.Xml text, next)
  | Ty.Enum =>
      let? arr := read_array 4 bs pos in
      let? '(text, next) := read_text_field bs (pos + 4) in
      Ok (Val.Enum (le_val arr) text, next)
  | Ty.Numeric _ _ =>
      let? mant := read_array 16 bs pos in
      let? sc := malformed (pos + 16) (bs !! (pos + 16)%nat) in
      if (MAX_SCALE <? b2z sc) && negb (b2z sc =? NAN_SCALE) then Err (Sql.MalformedTuple (pos + 16))
      else Ok (Val.Numeric (MkDec (Range.signed mant) (b2z sc)), pos + 17)%nat
  | Ty.Interval =>
      let? mo := read_array 4 bs pos in
      let? d := read_array 4 bs (pos + 4) in
      let? us := read_array 8 bs (pos + 8) in
      Ok (Val.Interval (MkInterval (Range.signed mo) (Range.signed d) (Range.signed us)), pos + 16)%nat
  | Ty.Vector dim =>
      let? arr := read_array 4 bs pos in
      if le_val arr =? dim then
        let? '(v, p) := read_f32s (Z.to_nat dim) bs (pos + 4) in Ok (Val.Vector v, p)
      else Err (Sql.MalformedTuple pos)
  | Ty.Text | Ty.VarChar _ | Ty.Char _ => let? '(text, next) := read_text_field bs pos in Ok (Val.Text text, next)
  | Ty.Bytes => let? '(b, next) := read_bytes_field bs pos in Ok (Val.Bytes b, next)
  | Ty.Array _ => Err (Sql.MalformedTuple pos)
  end.

(** [decode_array_items] at depth [MAX_ARRAY_DIMS + 1 - levels]. *)
Fixpoint decode_array_items (levels : nat) (bs : bytes) (pos : nat) (elem_ty : Ty.ColumnType) : Sql.result (list Value * nat) :=
  match levels with
  | O => Err (Sql.MalformedTuple pos)
  | S levels =>
      let? arr := read_array 4 bs pos in
      let p := (pos + 4)%nat in
      if Z.of_nat (length bs - p) <? le_val arr then Err (Sql.MalformedTuple pos)
      else
        (fix items (count : nat) (p : nat) : Sql.result (list Value * nat) :=
           match count with
           | O => Ok ([], p)
           | S count =>
               let? tag := read_tag bs p in
               let? '(v, next) :=
                 if decide (tag = TAG_NULL) then Ok (Val.Null, S p)
                 else if decide (tag = TAG_PRESENT) then decode_scalar bs (S p) elem_ty
                 else if decide (tag = TAG_ARRAY) then
                   let? '(sub, next) := decode_array_items levels bs (S p) elem_ty in Ok (Val.Array sub, next)
                 else Err (Sql.MalformedTuple p) in
               let? '(rest, last) := items count next in
               Ok (v :: rest, last)
           end) (Z.to_nat (le_val arr)) p
  end.

Definition decode_value (bs : bytes) (pos : nat) (ty : Ty.ColumnType) : Sql.result (Value * nat) :=
  match ty with
  | Ty.Array elem =>
      let? '(items, p) := decode_array_items MAX_ARRAY_DIMS bs pos (column_type elem) in Ok (Val.Array items, p)
  | _ => decode_scalar bs pos ty
  end.

Fixpoint decode_columns (schema : list Ty.ColumnType) (bs : bytes) (pos : nat) : Sql.result Row :=
  match schema with
  | [] => Ok []
  | ty :: schema =>
      let? tag := read_tag bs pos in
      let? '(v, next) :=
        if decide (tag = TAG_NULL) then Ok (Val.Null, S pos)
        else if decide (tag = TAG_PRESENT) then decode_value bs (S pos) ty
        else Err (Sql.MalformedTuple pos) in
      let? row := decode_columns schema bs next in
      Ok (v :: row)
  end.

Definition decode (bs : bytes) (schema : list Ty.ColumnType) : Sql.result Row := decode_columns schema bs 0.

Definition skip_value (bs : bytes) (pos : nat) (ty : Ty.ColumnType) : Sql.result nat :=
  match ty with
  | Ty.Text | Ty.VarChar _ | Ty.Char _ | Ty.Json | Ty.Jsonb | Ty.Geometry _ | Ty.Tsvector | Ty.Tsquery | Ty.Xml =>
      rmap snd (read_text_field bs pos)
  | Ty.Enum => rmap snd (read_text_field bs (pos + 4))
  | Ty.Bytes => rmap snd (read_bytes_field bs pos)
  | _ => rmap snd (decode_value bs pos ty)
  end.

(** [want] is what is left of [keep]. *)
Fixpoint decode_kept (schema : list Ty.ColumnType) (idx : nat) (want : list nat) (bs : bytes) (pos : nat) : Sql.result Row :=
  match schema with
  | [] => Ok []
  | ty :: schema =>
      let? tag := read_tag bs pos in
      let wanted := match want with w :: _ => (w =? idx)%nat | [] => false end in
      if decide (tag = TAG_NULL) then
        if wanted then let? row := decode_kept schema (S idx) (tail want) bs (S pos) in Ok (Val.Null :: row)
        else decode_kept schema (S idx) want bs (S pos)
      else if decide (tag = TAG_PRESENT) then
        if wanted then
          let? '(v, next) := decode_value bs (S pos) ty in
          let? row := decode_kept schema (S idx) (tail want) bs next in Ok (v :: row)
        else let? next := skip_value bs (S pos) ty in decode_kept schema (S idx) want bs next
      else Err (Sql.MalformedTuple pos)
  end.

Definition decode_projected (bs : bytes) (schema : list Ty.ColumnType) (keep : list nat) : Sql.result Row :=
  decode_kept schema 0 keep bs 0.
End forms.
End Row.
