(* ===== verification/RowFacts.v ===== *)
(** * Facts about stored rows: what a column stores and how it reads back *)

From stdpp Require Import base list strings.
From Stdlib Require Import ZArith Lia Strings.Byte.
From S2P Require Import Prelude Order Codec Catalog Numeric NumericFacts NumericThm Float FloatFacts Interval Inet InetFacts InetThm Values Range RangeFacts RangeThm RangeCodec Bit BitThm Row.
Import Row.
#[local] Open Scope Z_scope.

(** ** Reads at a cursor *)

Lemma read_array_at n bs pos e rest : cursor bs pos (e ++ rest) -> length e = n -> read_array n bs pos = Ok e.
Proof. intros Hc <-. unfold read_array. by rewrite (cursor_range _ _ _ _ _ Hc). Qed.

Lemma signed_i64 z : i64 z -> Range.signed (le_bytes 8 z) = z.
Proof. intros H. apply signed_bytes; [|lia]. change (256 ^ Z.of_nat 8) with 18446744073709551616. unfold i64 in H. lia. Qed.
Lemma signed_i32 z : i32 z -> Range.signed (le_bytes 4 z) = z.
Proof. intros H. apply signed_bytes; [|lia]. change (256 ^ Z.of_nat 4) with (2 ^ 32). unfold i32 in H. lia. Qed.
Lemma signed_i128 z : i128 z -> Range.signed (le_bytes 16 z) = z.
Proof. intros H. apply signed_bytes; [|lia]. change (256 ^ Z.of_nat 16) with (2 ^ 128). unfold i128, I128_MIN, I128_MAX in H. lia. Qed.

Lemma read_i64_at bs pos z rest : cursor bs pos (le_bytes 8 z ++ rest) -> i64 z -> read_i64_field bs pos = Ok (z, pos + 8)%nat.
Proof.
  intros Hc Hz. unfold read_i64_field. rewrite (read_array_at 8 _ _ _ _ Hc) by apply le_bytes_length. cbn [rbind]. by rewrite signed_i64.
Qed.

Lemma put_prefixed_ok what s b : put_prefixed what s = Ok b -> u32 (Z.of_nat (length s)) /\ b = le_bytes 4 (Z.of_nat (length s)) ++ s.
Proof.
  unfold put_prefixed, U32_MAX. destruct (Z.leb_spec (Z.of_nat (length s)) 4294967295); [|done]. intros [= <-]. unfold u32. split; [lia|done].
Qed.

Lemma read_bytes_at what bs pos s b rest :
  put_prefixed what s = Ok b -> cursor bs pos (b ++ rest) -> read_bytes_field bs pos = Ok (s, pos + length b)%nat.
Proof.
  intros (Hl & ->)%put_prefixed_ok Hc. rewrite <- app_assoc in Hc. unfold read_bytes_field.
  rewrite (read_array_at 4 _ _ _ _ Hc) by apply le_bytes_length. cbn [rbind]. rewrite le_val_bytes_u32, Nat2Z.id by done.
  apply (cursor_adv _ _ (pos + 4)%nat) in Hc; [|by rewrite le_bytes_length]. rewrite (cursor_range _ _ _ _ _ Hc) by done.
  cbn [malformed rbind]. do 2 f_equal. rewrite length_app, le_bytes_length. lia.
Qed.

Lemma read_text_at what bs pos s b rest :
  put_prefixed what s = Ok b -> utf8_valid s = true -> cursor bs pos (b ++ rest) -> read_text_field bs pos = Ok (s, pos + length b)%nat.
Proof.
  intros Hp Hu Hc. unfold read_text_field. rewrite (read_bytes_at what bs pos s b rest) by done. cbn [rbind].
  unfold from_utf8. rewrite Hu. done.
Qed.

Lemma read_f32s_at v bs pos rest :
  Forall u32 v -> cursor bs pos (mjoin (le_bytes 4 <$> v) ++ rest) -> read_f32s (length v) bs pos = Ok (v, pos + 4 * length v)%nat.
Proof.
  intros Hv. revert pos. induction Hv as [|x v Hx Hv IH]; intros pos Hc; cbn [read_f32s length]; [do 2 f_equal; lia|].
  change (mjoin (le_bytes 4 <$> x :: v)) with (le_bytes 4 x ++ mjoin (le_bytes 4 <$> v)) in Hc. rewrite <- app_assoc in Hc.
  rewrite (read_array_at 4 _ _ _ _ Hc) by apply le_bytes_length. cbn [rbind].
  apply (cursor_adv _ _ (pos + 4)%nat) in Hc; [|by rewrite le_bytes_length]. rewrite IH by done. cbn [rbind].
  rewrite le_val_bytes_u32 by done. do 2 f_equal. lia.
Qed.

(** ** Decimals *)

Definition stored_decimal (d : Decimal) : Prop := i128 (mantissa d) /\ (0 <= scale d <= MAX_SCALE \/ scale d = NAN_SCALE).

Lemma parse_stored s d : Numeric.parse s = Some d -> stored_decimal d.
Proof.
  assert (forall negative body, parse_body negative body = Some d -> stored_decimal d) as Hb.
  { intros negative body. unfold parse_body. destruct body as [|b body]; [done|]. set (w := b :: body).
    destruct (default (w, []) (split_dot w)) as [ip fp]. destruct (Z.ltb_spec MAX_SCALE (Z.of_nat (length fp))); [done|].
    case_decide; [done|]. destruct (forallb is_digit (ip ++ fp)) eqn:Ed; [|done]. cbn [negb].
    unfold parse_digits. intros (m & Hm & [= <-])%bind_Some. apply checked_some in Hm as [-> Hm]. split; [|left; cbn; lia]. cbn.
    assert (forall l n, forallb is_digit l = true -> 0 <= n -> 0 <= foldl (fun n b => n * 10 + digit_val b) n l) as Hp.
    { induction l as [|c l IH]; intros n Hl Hn; [done|]. cbn in Hl |- *. apply andb_true_iff in Hl as [Hc Hl]. apply IH; [done|].
      unfold is_digit, byte_in, digit_val in *. lia. }
    specialize (Hp _ 0 Ed ltac:(lia)). unfold i128, I128_MIN, I128_MAX in *. destruct negative; lia. }
  unfold Numeric.parse. case_decide; [intros [= <-]; split; [by vm_compute|by right]|]. destruct (trim s) as [|b rest]; [done|].
  destruct (b2z b =? 45); [apply Hb|]. destruct (b2z b =? 43); apply Hb.
Qed.

Lemma quot_small m f : i128 m -> 10 <= f -> i128 (Z.quot m f + Z.sgn m) /\ i128 (Z.quot m f).
Proof.
  unfold i128, I128_MIN, I128_MAX. intros Hm Hf.
  assert (Z.abs (Z.quot m f) <= 2 ^ 127 / 10) as Hq.
  { rewrite <- Z.quot_abs, (Z.abs_eq f) by lia. rewrite Z.quot_div_nonneg by lia.
    etransitivity; [apply Z.div_le_compat_l with (q := 10); lia|]. apply Z.div_le_mono; lia. }
  change (2 ^ 127 / 10) with 17014118346046923173168730371588410572 in Hq.
  change (2 ^ 127) with 170141183460469231731687303715884105728 in *. lia.
Qed.

Lemma rescale_stored d t d' : stored_decimal d -> 0 <= t <= MAX_SCALE -> rescale d t = Some d' -> stored_decimal d'.
Proof.
  intros [Hm Hs] Ht. unfold rescale. destruct (is_nan d) eqn:En; [intros [= <-]; split; [by vm_compute|by right]|].
  assert (0 <= scale d <= MAX_SCALE) as Hs' by (destruct Hs as [|Hs]; [done|]; unfold is_nan in En; rewrite Hs in En; done).
  destruct (Z.compare_spec t (scale d)) as [E|E|E]; [by intros [= <-]|..].
  - intros (f & Hf & [= <-])%bind_Some. apply checked_some in Hf as [-> _]. split; [|by left]. cbn.
    destruct (quot_small (mantissa d) (10 ^ (scale d - t)) Hm) as [Q1 Q2].
    { change 10 with (10 ^ 1) at 1. apply Z.pow_le_mono_r; lia. }
    by destruct (Z.leb _ _).
  - intros (f & Hf & (m & Hm' & [= <-])%bind_Some)%bind_Some. apply checked_some in Hm' as [-> Hm']. split; [done|by left].
Qed.

(** What a [NUMERIC] column keeps of a decimal. *)
Definition numeric_in (d : Decimal) (precision sc : Z) : Decimal :=
  if precision =? 0 then d else default d (rescale d sc).

Lemma encode_numeric_ok d p s b :
  stored_decimal d -> 0 <= s <= MAX_SCALE -> encode_numeric d p s = Ok b ->
  stored_decimal (numeric_in d p s) /\ b = le_bytes 16 (mantissa (numeric_in d p s)) ++ [z2b (scale (numeric_in d p s))].
Proof.
  intros Hd Hs. unfold encode_numeric, numeric_in. destruct (p =? 0); [by intros [= <-]|].
  destruct (rescale d s) as [d'|] eqn:Er; [|done]. destruct (p <? required_precision d'); [done|]. intros [= <-].
  split; [by eapply rescale_stored|done].
Qed.

(** ** What a scalar column stores *)

Section forms.
Context (T : TextForms).

(** [b] is a length-prefixed string. *)
Definition text (s b : bytes) : Prop := utf8_valid s = true /\ exists what, put_prefixed what s = Ok b.

(** [b] is the stored form of [v], a value of the physical type [ty]. *)
Definition written (ty : Ty.ColumnType) (v : Value) (b : bytes) : Prop :=
  match ty, v with
  | Ty.Bool, Val.Bool x => b = [bool_byte x]
  | Ty.Int, Val.Int z | Ty.Time, Val.Time z | Ty.TimeTz, Val.TimeTz z
  | Ty.Timestamp, Val.Timestamp z | Ty.TimestampTz, Val.TimestampTz z => i64 z /\ b = le_bytes 8 z
  | Ty.Float, Val.Float f => u64 f /\ b = le_bytes 8 f
  | Ty.Date, Val.Date z => i32 z /\ b = le_bytes 4 z
  | Ty.Uuid, Val.Uuid u => length u = 16%nat /\ b = u
  | Ty.Macaddr, Val.Macaddr u => length u = 6%nat /\ b = u
  | Ty.Macaddr8, Val.Macaddr8 u => length u = 8%nat /\ b = u
  | Ty.Inet, Val.Inet a | Ty.Cidr, Val.Inet a => wf_inet a /\ b = Inet.encode a
  | Ty.Bit _, Val.Bit x | Ty.VarBit _, Val.Bit x => fits_u32 x /\ b = Bit.encode x
  | Ty.Range k, Val.Range r => stored_range k r /\ b = Range.encode r
  | Ty.Numeric _ _, Val.Numeric d => stored_decimal d /\ b = le_bytes 16 (mantissa d) ++ [z2b (scale d)]
  | Ty.Interval, Val.Interval i => i32 (months i) /\ i32 (days i) /\ i64 (micros i) /\ b = put_interval i
  | Ty.Vector dim, Val.Vector x => u32 dim /\ Z.of_nat (length x) = dim /\ Forall u32 x /\ b = le_bytes 4 dim ++ mjoin (le_bytes 4 <$> x)
  | Ty.Text, Val.Text s | Ty.Json, Val.Json s | Ty.Tsvector, Val.Tsvector s | Ty.Tsquery, Val.Tsquery s
  | Ty.Xml, Val.Xml s => text s b
  | Ty.Bytes, Val.Bytes s => exists what, put_prefixed what s = Ok b
  | Ty.Enum, Val.Enum o l => u32 o /\ exists tail, text l tail /\ b = le_bytes 4 o ++ tail
  | Ty.Geometry k, Val.Geometry g => exists s, parse_geometry T s k = Some g /\ text s b
  | _, _ => False
  end.

Lemma read_inet_at a bs pos rest :
  wf_inet a -> cursor bs pos (Inet.encode a ++ rest) ->
  (let? flags := read_tag bs pos in
   let n := if Z.land (b2z flags) 2 =? 0 then 6%nat else 18%nat in
   let? s := malformed pos (get_range bs pos (pos + n)) in
   let? v := malformed pos (Inet.decode s) in
   Ok (Val.Inet v, pos + n)%nat) = Ok (Val.Inet a, pos + length (Inet.encode a))%nat.
Proof.
  intros Ha Hc. unfold read_tag. rewrite (cursor_byte _ _ _ _ Hc). cbn [malformed rbind].
  assert ((if Z.land (b2z (z2b (Z.lor (Z.b2z (is_cidr a)) (Z.shiftl (Z.b2z (Inet.is_v6 (addr a))) 1)))) 2 =? 0 then 6%nat else 18%nat)
    = length (Inet.encode a)) as ->.
  { destruct Ha as [Hw _]. unfold wf_addr in Hw. unfold Inet.encode. cbn [length].
    destruct (addr a); cbn [Inet.addr_octets Inet.max_masklen Inet.is_v6 Z.b2z] in Hw |- *; destruct (is_cidr a);
      match goal with |- (if ?c then _ else _) = _ => let c' := eval vm_compute in c in change c with c' end; cbv iota; lia. }
  rewrite (cursor_range _ _ _ _ _ Hc) by done. cbn [malformed rbind]. by rewrite inet_decode_encode.
Qed.

Lemma read_decimal_at d bs pos rest :
  stored_decimal d -> cursor bs pos ((le_bytes 16 (mantissa d) ++ [z2b (scale d)]) ++ rest) ->
  (let? mant := read_array 16 bs pos in
   let? sc := malformed (pos + 16) (bs !! (pos + 16)%nat) in
   if (MAX_SCALE <? b2z sc) && negb (b2z sc =? NAN_SCALE) then Err (Sql.MalformedTuple (pos + 16))
   else Ok (Val.Numeric (MkDec (Range.signed mant) (b2z sc)), pos + 17)%nat) = Ok (Val.Numeric d, pos + 17)%nat.
Proof.
  intros [Hm Hs] Hc. rewrite <- app_assoc in Hc. rewrite (read_array_at 16 _ _ _ _ Hc) by apply le_bytes_length. cbn [rbind].
  apply (cursor_adv _ _ (pos + 16)%nat) in Hc; [|by rewrite le_bytes_length]. rewrite (cursor_byte _ _ _ _ Hc). cbn [malformed rbind].
  assert (b2z (z2b (scale d)) = scale d) as ->.
  { rewrite b2z_z2b. apply Z.mod_small. unfold MAX_SCALE, NAN_SCALE in Hs. lia. }
  rewrite signed_i128 by done.
  assert ((MAX_SCALE <? scale d) && negb (scale d =? NAN_SCALE) = false) as ->; [|by destruct d].
  destruct Hs as [Hs|Hs]; [by rewrite (proj2 (Z.ltb_ge _ _)) by lia|rewrite Hs; done].
Qed.

Lemma read_interval_at i bs pos rest :
  i32 (months i) -> i32 (days i) -> i64 (micros i) -> cursor bs pos (put_interval i ++ rest) ->
  (let? mo := read_array 4 bs pos in
   let? d := read_array 4 bs (pos + 4) in
   let? us := read_array 8 bs (pos + 8) in
   Ok (Val.Interval (MkInterval (Range.signed mo) (Range.signed d) (Range.signed us)), pos + 16)%nat) = Ok (Val.Interval i, pos + 16)%nat.
Proof.
  intros H1 H2 H3 Hc. unfold put_interval in Hc. rewrite <- !app_assoc in Hc.
  rewrite (read_array_at 4 _ _ _ _ Hc) by apply le_bytes_length. cbn [rbind].
  apply (cursor_adv _ _ (pos + 4)%nat) in Hc; [|by rewrite le_bytes_length].
  rewrite (read_array_at 4 _ _ _ _ Hc) by apply le_bytes_length. cbn [rbind].
  apply (cursor_adv _ _ (pos + 8)%nat) in Hc; [|rewrite le_bytes_length; lia].
  rewrite (read_array_at 8 _ _ _ _ Hc) by apply le_bytes_length. cbn [rbind].
  rewrite !signed_i32, signed_i64 by done. by destruct i.
Qed.

(** The readers read it back. *)
Lemma decode_written ty v b bs pos rest :
  written ty v b -> cursor bs pos (b ++ rest) -> decode_scalar T bs pos ty = Ok (v, pos + length b)%nat.
Proof.
  intros Hw Hc. destruct ty, v; cbn [written] in Hw; try done; cbn [decode_scalar].
  all: try (destruct Hw as [Hz ->]; rewrite ?(read_i64_at _ _ _ _ Hc) by done; rewrite ?(read_array_at _ _ _ _ _ Hc) by apply le_bytes_length;
    cbn [rbind]; rewrite ?signed_i64, ?signed_i32, ?le_bytes_length by done; done).
  all: try (destruct Hw as [Hl ->]; rewrite (read_array_at _ _ _ _ _ Hc) by done; cbn [rbind]; by rewrite Hl).
  all: try (destruct Hw as [Hu [what Hp]]; rewrite (read_text_at what _ _ _ _ _ Hp Hu Hc); done).
  - subst b. unfold read_bool_field, read_tag. rewrite (cursor_byte _ _ _ _ Hc). cbn [malformed rbind length].
    do 2 f_equal; [by destruct b0|lia].
  - destruct Hw as [Hf ->]. unfold read_f64_field. rewrite (read_array_at 8 _ _ _ _ Hc) by apply le_bytes_length. cbn [rbind].
    by rewrite le_val_bytes_u64, le_bytes_length.
  - destruct Hw as [what Hp]. by rewrite (read_bytes_at what _ _ _ _ _ Hp Hc).
  - destruct Hw as [Ha ->]. by apply (read_inet_at _ _ _ rest).
  - destruct Hw as [Ha ->]. by apply (read_inet_at _ _ _ rest).
  - destruct Hw as [Ha ->]. by rewrite (BitThm.decode_at _ _ _ _ Ha Hc).
  - destruct Hw as [Ha ->]. by rewrite (BitThm.decode_at _ _ _ _ Ha Hc).
  - destruct Hw as [Ha ->]. by rewrite (decode_range_at _ _ _ _ _ Ha Hc).
  - destruct Hw as [Ha ->]. rewrite (read_decimal_at _ _ _ _ Ha Hc). rewrite length_app, le_bytes_length. done.
  - destruct Hw as (H1 & H2 & H3 & ->). rewrite (read_interval_at _ _ _ _ H1 H2 H3 Hc).
    unfold put_interval. by rewrite !length_app, !le_bytes_length.
  - destruct Hw as (H1 & H2 & H3 & ->). rewrite <- app_assoc in Hc. rewrite (read_array_at 4 _ _ _ _ Hc) by apply le_bytes_length.
    cbn [rbind]. rewrite le_val_bytes_u32, Z.eqb_refl by done. apply (cursor_adv _ _ (pos + 4)%nat) in Hc; [|by rewrite le_bytes_length].
    rewrite <- H2, Nat2Z.id, (read_f32s_at _ _ _ _ H3 Hc). cbn [rbind]. do 2 f_equal.
    rewrite length_app, le_bytes_length. clear. induction v as [|x v IH]; [cbn; lia|].
    change (mjoin (le_bytes 4 <$> x :: v)) with (le_bytes 4 x ++ mjoin (le_bytes 4 <$> v)). rewrite length_app, le_bytes_length. cbn [length]. lia.
  - destruct Hw as (s & Hs & Hu & what & Hp). rewrite (read_text_at what _ _ _ _ _ Hp Hu Hc). cbn [rbind]. by rewrite Hs.
  - destruct Hw as (Ho & tail & [Hu [what Hp]] & ->). rewrite <- app_assoc in Hc. rewrite (read_array_at 4 _ _ _ _ Hc) by apply le_bytes_length.
    cbn [rbind]. apply (cursor_adv _ _ (pos + 4)%nat) in Hc; [|by rewrite le_bytes_length]. rewrite (read_text_at what _ _ _ _ _ Hp Hu Hc).
    cbn [rbind]. rewrite le_val_bytes_u32 by done. do 2 f_equal. rewrite length_app, le_bytes_length. lia.
Qed.

(** ** Coercion to the column's type *)

Definition of_option {A} (f : A -> Value) (v : Value) (o : option A) : Value := match o with Some a => f a | None => v end.
Definition of_result {A} (f : A -> Value) (v : Value) (r : Sql.result A) : Value := match r with Ok a => f a | _ => v end.

(** The value a column of the physical type [ty] keeps of [v]. *)
Definition adopted (v : Value) (ty : Ty.ColumnType) : Value :=
  match v, ty with
  | Val.Int i, Ty.Float => Val.Float (f64_of_i64 i)
  | Val.Numeric d, Ty.Float => Val.Float (to_f64 d)
  | Val.TimestampTz t, Ty.Timestamp => Val.Timestamp t
  | Val.Timestamp t, Ty.TimestampTz => Val.TimestampTz t
  | Val.Geometry g, Ty.Geometry k => of_option Val.Geometry v (parse_geometry T (Geometry.format g) k)
  | Val.Text s, Ty.Date => of_result Val.Date v (date_from_text T s)
  | Val.Text s, Ty.Time => of_option Val.Time v (parse_time T s)
  | Val.Text s, Ty.TimeTz => of_option Val.TimeTz v (parse_timetz T s)
  | Val.Text s, Ty.Timestamp => of_option Val.Timestamp v (parse_timestamp T s)
  | Val.Text s, Ty.TimestampTz => of_option Val.TimestampTz v (parse_timestamptz T s)
  | Val.Text s, Ty.Uuid => of_option Val.Uuid v (parse_uuid T s)
  | Val.Text s, Ty.Macaddr => of_option Val.Macaddr v (parse_macaddr T s)
  | Val.Text s, Ty.Macaddr8 => of_option Val.Macaddr8 v (parse_macaddr8 T s)
  | Val.Text s, Ty.Inet => of_option Val.Inet v (parse_inet T s)
  | Val.Text s, Ty.Cidr => of_option Val.Inet v (parse_cidr T s)
  | Val.Text s, Ty.Range k => of_option Val.Range v (parse_range T s k)
  | Val.Text s, Ty.Geometry k =>
      of_option Val.Geometry v (g ← parse_geometry T s k; parse_geometry T (Geometry.format g) k)
  | Val.Text s, Ty.Bit _ | Val.Text s, Ty.VarBit _ => of_option Val.Bit v (Bit.parse s)
  | Val.Numeric d, Ty.Numeric p s => Val.Numeric (numeric_in d p s)
  | Val.Int i, Ty.Numeric p s => Val.Numeric (numeric_in (from_i64 i) p s)
  | Val.Float f, Ty.Numeric p s => of_option (fun d => Val.Numeric (numeric_in d p s)) v (from_f64_text T f)
  | Val.Text t, Ty.Numeric p s => of_option (fun d => Val.Numeric (numeric_in d p s)) v (Numeric.parse t)
  | Val.Text s, Ty.Json => of_option Val.Json v (json_canonicalize T s)
  | Val.Text s, Ty.Tsvector => of_result Val.Tsvector v (parse_tsvector T s)
  | Val.Text s, Ty.Tsquery => of_result Val.Tsquery v (parse_tsquery T s)
  | Val.Text s, Ty.Xml => Val.Xml s
  | Val.Text s, Ty.Interval => of_option Val.Interval v (parse_interval T s)
  | Val.Text s, Ty.Vector _ => of_option Val.Vector v (parse_vector T s)
  | Val.Text s, Ty.Bytes => of_option Val.Bytes v (parse_bytea T s)
  | _, _ => v
  end.

(** The text form of a shape is a string that its reader accepts. *)
Definition readable (g : Geometry.GeomVal) : Prop :=
  utf8_valid (Geometry.format g) = true /\ is_Some (parse_geometry T (Geometry.format g) (Geometry.kind g)).

(** The ranges of the value's Rust type; a text is below 4 GiB. *)
Definition fits (v : Value) : Prop :=
  match v with
  | Val.Int z | Val.Time z | Val.TimeTz z | Val.Timestamp z | Val.TimestampTz z => i64 z
  | Val.Float f => u64 f
  | Val.Date z => i32 z
  | Val.Uuid u => length u = 16%nat
  | Val.Macaddr u => length u = 6%nat
  | Val.Macaddr8 u => length u = 8%nat
  | Val.Inet a => wf_inet a
  | Val.Bit b => fits_u32 b
  | Val.Range r => stored_range (kind r) r
  | Val.Numeric d => stored_decimal d
  | Val.Interval i => i32 (months i) /\ i32 (days i) /\ i64 (micros i)
  | Val.Vector x => Forall u32 x
  | Val.Text s => fits_u32 s /\ utf8_valid s = true
  | Val.Json s | Val.Tsvector s | Val.Tsquery s | Val.Xml s => utf8_valid s = true
  | Val.Enum o l => u32 o /\ utf8_valid l = true
  | Val.Geometry g => readable g
  | Val.Null | Val.Bool _ | Val.Bytes _ | Val.Array _ => True
  end.

(** The same of the leaves of an array. *)
Fixpoint all_fits (v : Value) : Prop :=
  match v with
  | Val.Array items => foldr (fun v P => all_fits v /\ P) True items
  | other => fits other
  end.

(** The text readers return values of their types, and what a shape's reader
    returns is a shape of the asked kind with a readable text form. *)
Record forms_ok : Prop := {
  ok_date : forall s d, date_from_text T s = Ok d -> i32 d;
  ok_time : forall s t, parse_time T s = Some t -> i64 t;
  ok_timetz : forall s t, parse_timetz T s = Some t -> i64 t;
  ok_timestamp : forall s t, parse_timestamp T s = Some t -> i64 t;
  ok_timestamptz : forall s t, parse_timestamptz T s = Some t -> i64 t;
  ok_uuid : forall s u, parse_uuid T s = Some u -> length u = 16%nat;
  ok_macaddr : forall s u, parse_macaddr T s = Some u -> length u = 6%nat;
  ok_macaddr8 : forall s u, parse_macaddr8 T s = Some u -> length u = 8%nat;
  ok_inet : forall s a, parse_inet T s = Some a -> wf_inet a;
  ok_cidr : forall s a, parse_cidr T s = Some a -> wf_inet a;
  ok_range : forall s k r, parse_range T s k = Some r -> stored_range k r;
  ok_geometry : forall s k g, parse_geometry T s k = Some g -> Geometry.kind g = k /\ readable g;
  ok_f64 : forall f d, from_f64_text T f = Some d -> stored_decimal d;
  ok_json : forall s c, json_canonicalize T s = Some c -> utf8_valid c = true;
  ok_tsvector : forall s c, parse_tsvector T s = Ok c -> utf8_valid c = true;
  ok_tsquery : forall s c, parse_tsquery T s = Ok c -> utf8_valid c = true;
  ok_interval : forall s i, parse_interval T s = Some i -> i32 (months i) /\ i32 (days i) /\ i64 (micros i);
  ok_vector : forall s v, parse_vector T s = Some v -> Forall u32 v;
  ok_array : forall s e l, parse_text_array T s e = Ok l -> Forall all_fits l;
}.

(** A column type the catalog accepts. *)
Definition wf_type (ty : Ty.ColumnType) : Prop :=
  match ty with
  | Ty.Numeric _ s => 0 <= s <= MAX_SCALE
  | Ty.Vector dim => u32 dim
  | _ => True
  end.

Lemma encode_vector_ok v dim b :
  encode_vector v dim = Ok b -> Z.of_nat (length v) = dim /\ b = le_bytes 4 dim ++ mjoin (le_bytes 4 <$> v).
Proof. unfold encode_vector. destruct (Z.eqb_spec (Z.of_nat (length v)) dim); [by intros [= <-]|done]. Qed.

Lemma bit_parse_length s bits : Bit.parse s = Some bits -> length bits = length s.
Proof. intros H. symmetry. by eapply length_mapM. Qed.

Ltac unbind H := apply rbind_inv in H as (? & ? & H).
Ltac unparsed := match goal with H : parsed _ ?o = Ok _ |- _ => destruct o as [y|] eqn:Eo; cbn in H; [injection H as <-|discriminate H] end.

(** What [encode_scalar] writes is the stored form of the adopted value. *)
Lemma encode_scalar_written ty v b :
  forms_ok -> wf_type ty -> fits v -> encode_scalar T v ty = Ok b -> written ty (adopted v ty) b.
Proof.
  intros F W Hv H. destruct F, v, ty; cbn [encode_scalar] in H; try discriminate H; cbn [adopted written fits wf_type] in *.
  all: try (injection H as <-; by auto using of_i64_u64, to_f64_u64).
  all: try (unbind H; unparsed; injection H as <-; cbn [of_option]; by eauto).
  all: try (unparsed; cbn [of_option]; by eauto).
  all: try (split; [done|by eexists]).
  all: try (apply encode_numeric_ok; by eauto).
  all: try (unbind H; unparsed; apply encode_numeric_ok; by eauto using parse_stored).
  all: try (unbind H; unparsed; cbn [of_option]; split; by eauto).
  all: try (unbind H; match goal with E : _ = Ok _ |- _ => rewrite E end; cbn [of_result]; split; by eauto).
  all: try (unbind H; match goal with E : _ = Ok _ |- _ => rewrite E end; injection H as <-; cbn [of_result]; by eauto).
  - apply encode_numeric_ok; [|done|done]. split; [|by left]. cbn. unfold i64, i128, I128_MIN, I128_MAX in *. lia.
  - split; [apply Hv|by eexists].
  - unbind H. unparsed. by eexists.
  - unbind H. unparsed. cbn [of_option]. unbind H. injection H as <-. split; [|done].
    unfold fits_u32. rewrite (bit_parse_length s) by done. apply Hv.
  - unbind H. unparsed. cbn [of_option]. unbind H. injection H as <-. split; [|done].
    unfold fits_u32. rewrite (bit_parse_length s) by done. apply Hv.
  - unbind H. unparsed. injection H as <-. cbn [of_option]. edestruct ok_interval0 as (? & ? & ?); eauto.
  - unbind H. unparsed. apply encode_vector_ok in H as [? ->]. cbn [of_option]. by eauto.
  - unbind H. unparsed. destruct (ok_geometry0 _ _ _ Eo) as [Hk [Hu [g' Hg]]]. rewrite Hk in Hg.
    cbn [mbind option_bind]. rewrite Hg. cbn [of_option]. exists (Geometry.format y). split; [done|]. split; [done|by eexists].
  - destruct (validate_xml T s); [|done]. split; [apply Hv|by eexists].
  - unbind H. by injection H as <-.
  - unbind H. by injection H as <-.
  - case_decide as E; [|done]. injection H as <-. by rewrite <- E.
  - injection H as <-. destruct Hv as (? & ? & ?). done.
  - apply encode_vector_ok in H as [? ->]. done.
  - by eexists.
  - case_decide as E; [|done]. destruct Hv as [Hu [g' Hg]]. rewrite E in Hg. rewrite Hg. cbn [of_option].
    exists (Geometry.format g). split; [done|]. split; [done|by eexists].
  - unbind H. injection H as <-. destruct Hv. split; [done|]. eexists. split; [split; [done|by eexists]|done].
Qed.
End forms.
