(* ===== verification/RowThm.v ===== *)
(** * What stored rows promise *)

From stdpp Require Import base list strings.
From Stdlib Require Import ZArith Lia Strings.Byte Sorting.Sorted.
From S2P Require Import Prelude Order Codec Catalog Numeric NumericFacts NumericThm Float FloatFacts Interval Inet InetFacts InetThm Values Range RangeFacts RangeThm RangeCodec Bit BitThm Row RowFacts.
Import Row.
#[local] Open Scope Z_scope.

Lemma rbind_assoc {E A B C} (m : res E A) (f : A -> res E B) (g : B -> res E C) :
  rbind (rbind m f) g = rbind m (fun a => rbind (f a) g).
Proof. by destruct m. Qed.

(** Induction on values, with arrays the only nesting that matters here. *)
Lemma array_ind (P : Value -> Prop) :
  (forall v, (forall l, v <> Val.Array l) -> P v) -> (forall l, Forall P l -> P (Val.Array l)) -> forall v, P v.
Proof.
  intros Hs Ha. fix IH 1. intros v. destruct v; try (apply Hs; done). apply Ha.
  induction items as [|x l IHl]; constructor; [apply IH|exact IHl].
Qed.


Section forms.
Context (T : TextForms).

Lemma all_fits_items l : all_fits T (Val.Array l) <-> Forall (all_fits T) l.
Proof. cbn. induction l as [|v l IH]; cbn; [done|]. by rewrite Forall_cons, IH. Qed.

Lemma all_fits_scalar v : (forall l, v <> Val.Array l) -> all_fits T v -> fits T v.
Proof. intros H. by destruct v. Qed.

(** ** The loops of the array codec, unrolled *)

Lemma encode_item_array ety depth sub :
  encode_item T ety depth (Val.Array sub) = let? b := encode_array T sub ety (S depth) in Ok (TAG_ARRAY :: b).
Proof.
  cbn [encode_item]. unfold encode_array. destruct (MAX_ARRAY_DIMS <? S depth)%nat; [done|].
  destruct (Z.of_nat (length sub) <=? U32_MAX); [|done]. rewrite rbind_assoc. cbn [rbind].
  assert (forall l, (fix items (l : list Value) : Sql.result bytes :=
             match l with
             | [] => Ok []
             | v :: rest => let? b := encode_item T ety (S depth) v in let? bs := items rest in Ok (b ++ bs)
             end) l = encode_items T ety (S depth) l) as ->; [|done].
  induction l as [|v l IH]; [done|]. cbn [encode_items]. by rewrite IH.
Qed.

Definition read_item (levels : nat) (bs : bytes) (ety : Ty.ColumnType) (p : nat) : Sql.result (Value * nat) :=
  let? tag := read_tag bs p in
  if decide (tag = TAG_NULL) then Ok (Val.Null, S p)
  else if decide (tag = TAG_PRESENT) then decode_scalar T bs (S p) ety
  else if decide (tag = TAG_ARRAY) then
    let? '(sub, next) := decode_array_items T levels bs (S p) ety in Ok (Val.Array sub, next)
  else Err (Sql.MalformedTuple p).

Fixpoint read_items (levels : nat) (bs : bytes) (ety : Ty.ColumnType) (count p : nat) : Sql.result (list Value * nat) :=
  match count with
  | O => Ok ([], p)
  | S count =>
      let? '(v, next) := read_item levels bs ety p in
      let? '(rest, last) := read_items levels bs ety count next in
      Ok (v :: rest, last)
  end.

Lemma decode_array_items_S levels bs pos ety :
  decode_array_items T (S levels) bs pos ety =
  let? arr := read_array 4 bs pos in
  if Z.of_nat (length bs - (pos + 4)) <? le_val arr then Err (Sql.MalformedTuple pos)
  else read_items levels bs ety (Z.to_nat (le_val arr)) (pos + 4).
Proof.
  cbn [decode_array_items]. destruct (read_array 4 bs pos) as [arr| | |]; try done. cbn [rbind]. destruct (_ <? _); [done|].
  generalize (Z.to_nat (le_val arr)) as count. generalize (pos + 4)%nat as p. intros p count. revert p.
  induction count as [|count IH]; intros p; [done|]. cbn [read_items]. unfold read_item. rewrite rbind_assoc.
  destruct (read_tag bs p) as [tag| | |]; try done. cbn [rbind].
  destruct (decide (tag = TAG_NULL)); [cbn [rbind]; by rewrite IH|].
  destruct (decide (tag = TAG_PRESENT)); [destruct (decode_scalar _ _ _ _) as [[v next]| | |]; try done; cbn [rbind]; by rewrite IH|].
  destruct (decide (tag = TAG_ARRAY)); [|done]. rewrite !rbind_assoc.
  destruct (decode_array_items T levels bs (S p) ety) as [[v next]| | |]; try done. cbn [rbind]. by rewrite IH.
Qed.

(** ** Arrays *)

(** What an array column keeps of an element. *)
Fixpoint stored_item (ety : Ty.ColumnType) (v : Value) : Value :=
  match v with
  | Val.Null => Val.Null
  | Val.Array items => Val.Array (map (stored_item ety) items)
  | other => adopted T other (Ty.physical ety)
  end.

Lemma decode_physical bs pos ty : decode_scalar T bs pos (Ty.physical ty) = decode_scalar T bs pos ty.
Proof. by destruct ty. Qed.

Lemma scalar_item ety depth v b :
  (forall l, v <> Val.Array l) -> encode_item T ety depth v = Ok b ->
  (v = Val.Null /\ b = [TAG_NULL]) \/
  exists e, encode_scalar T v (Ty.physical ety) = Ok e /\ b = TAG_PRESENT :: e /\ stored_item ety v = adopted T v (Ty.physical ety).
Proof.
  intros Hn H. destruct v; try (by destruct (Hn items)); cbn [encode_item] in H.
  1: left; by injection H as <-.
  all: right; apply rbind_inv in H as (e & He & [= <-]); by exists e.
Qed.

Lemma item_not_empty ety depth v b : encode_item T ety depth v = Ok b -> (1 <= length b)%nat.
Proof.
  intros H. destruct v; try (match type of H with encode_item _ _ _ ?v = _ =>
    destruct (scalar_item ety depth v b ltac:(done) H) as [[_ ->]|(e & _ & -> & _)] end; cbn; lia).
  rewrite encode_item_array in H. apply rbind_inv in H as (e & _ & [= <-]). cbn. lia.
Qed.

Lemma items_length ety depth items b : encode_items T ety depth items = Ok b -> (length items <= length b)%nat.
Proof.
  revert b. induction items as [|v items IH]; intros b H; [cbn; lia|]. cbn [encode_items] in H.
  apply rbind_inv in H as (e & He & H). apply rbind_inv in H as (es & Hes & [= <-]).
  apply item_not_empty in He. apply IH in Hes. rewrite length_app. cbn [length]. lia.
Qed.

Lemma read_tag_at bs p t rest : cursor bs p (t :: rest) -> read_tag bs p = Ok t.
Proof. intros H. unfold read_tag. by rewrite (cursor_byte _ _ _ _ H). Qed.

(** An element reads back at one level down. *)
Definition item_reads (ety : Ty.ColumnType) (v : Value) : Prop :=
  forall depth b bs p rest, encode_item T ety depth v = Ok b -> (1 <= depth <= MAX_ARRAY_DIMS)%nat -> all_fits T v ->
    cursor bs p (b ++ rest) -> read_item (MAX_ARRAY_DIMS - depth) bs ety p = Ok (stored_item ety v, p + length b)%nat.

Lemma items_read ety items :
  Forall (item_reads ety) items -> forall depth b bs p rest,
  encode_items T ety depth items = Ok b -> (1 <= depth <= MAX_ARRAY_DIMS)%nat -> Forall (all_fits T) items ->
  cursor bs p (b ++ rest) ->
  read_items (MAX_ARRAY_DIMS - depth) bs ety (length items) p = Ok (stored_item ety <$> items, p + length b)%nat.
Proof.
  induction 1 as [|v items Hv _ IH]; intros depth b bs p rest H Hd Hf Hc; cbn [encode_items read_items length] in *.
  { injection H as <-. cbn. do 2 f_equal. lia. }
  apply rbind_inv in H as (e & He & H). apply rbind_inv in H as (es & Hes & [= <-]). apply Forall_cons in Hf as [Hf1 Hf2].
  rewrite <- app_assoc in Hc. rewrite (Hv depth e bs p (es ++ rest)) by done. cbn [rbind].
  rewrite (IH depth es bs (p + length e)%nat rest) by (done || by eapply cursor_adv). cbn [rbind]. do 2 f_equal. rewrite length_app. lia.
Qed.

Lemma array_reads ety items depth b bs p rest :
  Forall (item_reads ety) items -> encode_array T items ety depth = Ok b -> (1 <= depth)%nat -> Forall (all_fits T) items ->
  cursor bs p (b ++ rest) ->
  decode_array_items T (S MAX_ARRAY_DIMS - depth) bs p ety = Ok (stored_item ety <$> items, p + length b)%nat.
Proof.
  intros Hi H Hd Hf Hc. unfold encode_array in H. destruct (Nat.ltb_spec MAX_ARRAY_DIMS depth); [done|].
  unfold U32_MAX in H. destruct (Z.leb_spec (Z.of_nat (length items)) 4294967295); [|done]. apply rbind_inv in H as (body & Hb & [= <-]).
  replace (S MAX_ARRAY_DIMS - depth)%nat with (S (MAX_ARRAY_DIMS - depth)) by lia. rewrite decode_array_items_S.
  rewrite <- app_assoc in Hc. rewrite (read_array_at 4 _ _ _ _ Hc) by apply le_bytes_length. cbn [rbind].
  rewrite le_val_bytes_u32, Nat2Z.id by (unfold u32; lia). apply (cursor_adv _ _ (p + 4)%nat) in Hc; [|by rewrite le_bytes_length].
  assert (length items <= length bs - (p + 4))%nat as Hl.
  { pose proof (items_length _ _ _ _ Hb). destruct Hc as [_ Hc]. apply (f_equal length) in Hc. rewrite length_drop, length_app in Hc. lia. }
  rewrite (proj2 (Z.ltb_ge _ _)) by lia. rewrite (items_read ety items Hi depth body bs _ rest) by done.
  do 2 f_equal. rewrite length_app, le_bytes_length. lia.
Qed.

Lemma item_roundtrip ety v : forms_ok T -> wf_type (Ty.physical ety) -> item_reads ety v.
Proof.
  intros F W. induction v as [v Hn|l IH] using array_ind; intros depth b bs p rest H Hd Hf Hc; unfold read_item.
  - destruct (scalar_item _ _ _ _ Hn H) as [[-> ->]|(e & He & -> & Es)].
    + rewrite (read_tag_at _ _ _ _ Hc). cbn [rbind length stored_item]. rewrite decide_True by done. do 2 f_equal. lia.
    + rewrite (read_tag_at _ _ _ _ Hc). cbn [rbind length]. rewrite decide_False, decide_True by done. rewrite Es.
      apply (encode_scalar_written T) in He; [|done|done|by apply all_fits_scalar]. apply cursor_cons in Hc.
      rewrite Nat.add_1_r in Hc. rewrite <- decode_physical, (decode_written T _ _ _ _ _ _ He Hc). do 2 f_equal. lia.
  - rewrite encode_item_array in H. apply rbind_inv in H as (e & He & [= <-]). rewrite (read_tag_at _ _ _ _ Hc).
    cbn [rbind length]. rewrite !decide_False, decide_True by done. apply cursor_cons in Hc. rewrite Nat.add_1_r in Hc.
    replace (MAX_ARRAY_DIMS - depth)%nat with (S MAX_ARRAY_DIMS - S depth)%nat by lia.
    rewrite (array_reads ety l (S depth) e bs _ rest IH) by (done || lia || by apply all_fits_items).
    cbn [rbind stored_item]. do 2 f_equal. lia.
Qed.

(** ** Columns *)

(** What a column keeps of a value. *)
Definition stored (v : Value) (ty : Ty.ColumnType) : Value :=
  let v := default v (bpchar_canonical v ty) in
  match v, Ty.physical ty with
  | Val.Array items, Ty.Array e => Val.Array (stored_item (column_type e) <$> items)
  | Val.Text s, Ty.Array e =>
      of_result (fun items => Val.Array (stored_item (column_type e) <$> items)) v (parse_text_array T s (column_type e))
  | _, ty => adopted T v ty
  end.

(** Cutting trailing spaces keeps a string well formed. *)
Lemma utf8_snoc a b : utf8_valid (a ++ [b]) = true -> b2z b < 128 -> utf8_valid a = true.
Proof.
  intros H Hb. assert (continuation b = false) as Hc by (unfold continuation, between; lia).
  assert (forall lo hi, 128 <= lo -> between lo hi (b2z b) = false) as Hbt by (intros; unfold between; lia).
  remember (length a) as n eqn:En. revert a En H. induction n as [n IH] using lt_wf_ind. intros a En H.
  destruct a as [|b0 a]; [done|]. cbn [app utf8_valid] in H |- *. cbn [length] in En.
  destruct (b2z b0 <? 128); [by apply (IH (length a)); [lia|..]|].
  destruct a as [|b1 a]; cbn [app] in H.
  { unfold utf8_two in H. by rewrite Hc, andb_false_r in H. }
  cbn [length] in En. destruct (utf8_two (b2z b0) b1); [by apply (IH (length a)); [lia|..]|].
  destruct a as [|b2 a]; cbn [app] in H.
  { unfold utf8_three in H. by rewrite Hc, andb_false_r in H. }
  cbn [length] in En. destruct (utf8_three (b2z b0) b1 b2); [by apply (IH (length a)); [lia|..]|].
  destruct a as [|b3 a]; cbn [app] in H.
  { unfold utf8_four in H. by rewrite Hc, andb_false_r in H. }
  cbn [length] in En. destruct (utf8_four (b2z b0) b1 b2 b3); [by apply (IH (length a)); [lia|..]|done].
Qed.

Lemma trim_end_split s : exists k sp, s = trim_end_spaces s ++ replicate k sp /\ (is_space sp = true).
Proof.
  unfold trim_end_spaces.
  assert (forall r, exists k, r = replicate k (z2b 32) ++ drop_spaces r) as H.
  { intros r. induction r as [|b r [k IH]]; [by exists 0%nat|]. cbn [drop_spaces]. destruct (is_space b) eqn:Eb; [|by exists 0%nat].
    exists (S k). cbn. f_equal; [|done]. unfold is_space in Eb. apply Z.eqb_eq in Eb. by rewrite <- Eb, z2b_b2z. }
  destruct (H (reverse s)) as [k Hk]. exists k, (z2b 32). split; [|done].
  apply (f_equal reverse) in Hk. by rewrite reverse_involutive, reverse_app, reverse_replicate in Hk.
Qed.

Lemma trim_end_fits s : fits T (Val.Text s) -> fits T (Val.Text (trim_end_spaces s)).
Proof.
  intros [Hl Hu]. destruct (trim_end_split s) as (k & sp & Es & Hs). cbn. revert Hl Hu. rewrite Es at 1 2.
  generalize (trim_end_spaces s) as t. intros t Hl Hu. clear Es.
  assert (b2z sp < 128) as Hb by (unfold is_space in Hs; lia).
  induction k as [|k IH]; [by rewrite app_nil_r in *|]. rewrite replicate_S_end, app_assoc in Hl, Hu.
  pose proof (utf8_snoc _ _ Hu Hb) as Hu2. apply IH; [|exact Hu2]. unfold fits_u32, u32 in *. rewrite length_app in Hl. cbn in Hl. lia.
Qed.

Lemma bpchar_fits v ty : all_fits T v -> all_fits T (default v (bpchar_canonical v ty)).
Proof.
  intros H. destruct ty, v; try done. cbn [bpchar_canonical]. case_decide; [done|]. cbn [default]. by apply trim_end_fits.
Qed.

Lemma value_roundtrip v ty b bs pos rest :
  forms_ok T -> wf_type ty -> all_fits T v -> encode_value T v ty = Ok b -> cursor bs pos (b ++ rest) ->
  decode_value T bs pos ty = Ok (stored v ty, pos + length b)%nat.
Proof.
  intros F W Hf H Hc. apply (bpchar_fits _ ty) in Hf. unfold encode_value, stored in *. set (w := default v (bpchar_canonical v ty)) in *.
  clearbody w. clear v. assert (wf_type (Ty.physical ty)) as W' by (by destruct ty).
  assert (forall e, ty = Ty.Array e -> forall items, Forall (all_fits T) items -> encode_array T items (column_type e) 1 = Ok b ->
    decode_value T bs pos ty = Ok (Val.Array (stored_item (column_type e) <$> items), pos + length b)%nat) as Harr.
  { intros e -> items Hi He. cbn [decode_value]. change MAX_ARRAY_DIMS with (S MAX_ARRAY_DIMS - 1)%nat.
    rewrite (array_reads (column_type e) items 1 b bs pos rest); [done| |done|lia|done|done].
    apply Forall_forall. intros v _. apply item_roundtrip; [done|by destruct e]. }
  assert ((forall e, ty <> Ty.Array e) -> fits T w -> encode_scalar T w (Ty.physical ty) = Ok b ->
    decode_value T bs pos ty = Ok (adopted T w (Ty.physical ty), pos + length b)%nat) as Hsc.
  { intros Hn Hw He. apply (encode_scalar_written T) in He; [|done..]. 
    assert (decode_value T bs pos ty = decode_scalar T bs pos ty) as -> by (destruct ty; try done; by destruct (Hn elem)).
    rewrite <- decode_physical. by apply (decode_written T _ _ _ _ _ rest). }
  destruct ty as [| | | | | | | | | | | | | | | | | | | | | | | | | | |e| | | | | |].
  28: { cbn [Ty.physical] in *. destruct w; try discriminate H.
    - apply rbind_inv in H as (items & Hi & H). rewrite Hi. cbn [of_result]. apply Harr; [done|by eapply ok_array|done].
    - apply Harr; [done|by apply all_fits_items|done]. }
  all: cbn [Ty.physical] in *; destruct w; try discriminate H; by apply Hsc.
Qed.

(** ** Rows *)

Lemma columns_roundtrip schema row b bs pos rest :
  forms_ok T -> Forall wf_type schema -> Forall (all_fits T) row -> length row = length schema ->
  encode_columns T row schema = Ok b -> cursor bs pos (b ++ rest) ->
  decode_columns T schema bs pos = Ok (zip_with stored row schema).
Proof.
  intros F. revert row b pos. induction schema as [|ty schema IH]; intros [|v row] b pos W Hf Hl H Hc; try done.
  cbn [encode_columns decode_columns zip_with] in *. apply rbind_inv in H as (e & He & H). apply rbind_inv in H as (es & Hes & [= <-]).
  apply Forall_cons in W as [W1 W2]. apply Forall_cons in Hf as [Hf1 Hf2]. injection Hl as Hl. rewrite <- app_assoc in Hc.
  unfold encode_column in He. destruct (is_null v) eqn:En.
  - injection He as <-. rewrite (read_tag_at _ _ _ _ Hc). cbn [rbind]. rewrite decide_True by done. cbn [rbind].
    apply cursor_cons in Hc. rewrite Nat.add_1_r in Hc. rewrite (IH row es) by done. cbn [rbind]. destruct v; try done. by destruct ty.
  - apply rbind_inv in He as (e' & He & [= <-]). rewrite (read_tag_at _ _ _ _ Hc). cbn [rbind]. rewrite decide_False, decide_True by done.
    apply cursor_cons in Hc. rewrite Nat.add_1_r in Hc.
    rewrite (value_roundtrip _ _ _ _ _ _ F W1 Hf1 He Hc). cbn [rbind]. rewrite (IH row es); [done..|]. by eapply cursor_adv.
Qed.

(** The skipping reader stops where the reader stops. *)
Lemma skip_value_end bs pos ty v next : decode_value T bs pos ty = Ok (v, next) -> skip_value T bs pos ty = Ok next.
Proof.
  intros H. destruct ty; cbn [skip_value decode_value decode_scalar] in *; try (by rewrite H); unfold rmap.
  all: try (apply rbind_inv in H as ([s n'] & H1 & H); rewrite H1; cbn [rbind snd] in *; by injection H as _ <-).
  - apply rbind_inv in H as ([s n'] & H1 & H). rewrite H1. cbn [rbind snd] in *. apply rbind_inv in H as (g & _ & H). by injection H as _ <-.
  - apply rbind_inv in H as (arr & _ & H). apply rbind_inv in H as ([s n'] & H1 & H). rewrite H1. cbn [rbind snd]. by injection H as _ <-.
Qed.

Lemma kept_columns schema : forall idx want bs pos row,
  decode_columns T schema bs pos = Ok row -> StronglySorted lt want -> Forall (le idx) want ->
  decode_kept T schema idx want bs pos = Ok (omap (fun w => row !! (w - idx)%nat) want).
Proof.
  induction schema as [|ty schema IH]; intros idx want bs pos row H Hs Hi.
  { injection H as <-. cbn. f_equal. clear Hs Hi. induction want as [|w want IHw]; [done|exact IHw]. }
  cbn [decode_columns decode_kept] in *. destruct (read_tag bs pos) as [tag| | |] eqn:Et; try discriminate H. cbn [rbind] in *.
  apply rbind_inv in H as ([v next] & Hv & H). apply rbind_inv in H as (row' & Hr & [= <-]).
  assert (forall want', Forall (le (S idx)) want' -> omap (fun w => (v :: row') !! (w - idx)%nat) want' = omap (fun w => row' !! (w - S idx)%nat) want') as Hshift.
  { intros want' Hw. apply list_omap_ext. apply Forall_Forall2_diag. eapply Forall_impl; [exact Hw|]. intros w Hle. cbn.
    by replace (w - idx)%nat with (S (w - S idx)) by lia. }
  assert (forall want', (match want' with w :: _ => (w =? idx)%nat | [] => false end) = false -> StronglySorted lt want' -> Forall (le idx) want' -> Forall (le (S idx)) want') as Hno.
  { intros [|w want'] Hw Hs' Hi'; [done|]. apply Nat.eqb_neq in Hw. apply Forall_cons in Hi' as [H1 H2]. apply StronglySorted_inv in Hs' as [_ H3].
    constructor; [lia|]. eapply Forall_impl; [exact H3|]. cbn. lia. }
  assert (forall w want', want = w :: want' -> w = idx -> Forall (le (S idx)) want' /\ StronglySorted lt want') as Hyes.
  { intros w want' -> ->. apply StronglySorted_inv in Hs as [H1 H2]. split; [|done]. eapply Forall_impl; [exact H2|]. cbn. lia. }
  destruct (match want with w :: _ => (w =? idx)%nat | [] => false end) eqn:Ew.
  - destruct want as [|w want]; [done|]. apply Nat.eqb_eq in Ew. destruct (Hyes w want eq_refl Ew) as [Hy1 Hy2]. subst w.
    cbn [tail omap list_omap]. rewrite Nat.sub_diag. cbn [lookup list_lookup].
    destruct (decide (tag = TAG_NULL)); [injection Hv as <- <-; rewrite (IH _ _ _ _ _ Hr) by done; cbn [rbind]; by rewrite Hshift|].
    destruct (decide (tag = TAG_PRESENT)); [|done]. rewrite Hv. cbn [rbind]. rewrite (IH _ _ _ _ _ Hr) by done. cbn [rbind]. by rewrite Hshift.
  - pose proof (Hno want Ew Hs Hi) as Hn. rewrite Hshift by done.
    destruct (decide (tag = TAG_NULL)); [injection Hv as <- <-; by apply IH|].
    destruct (decide (tag = TAG_PRESENT)); [|done]. rewrite (skip_value_end _ _ _ _ _ Hv). cbn [rbind]. by apply IH.
Qed.
End forms.

(** ** Coercions on the way in *)

Lemma filter_ext_in {A} (P Q : A -> Prop) `{!forall x, Decision (P x), !forall x, Decision (Q x)} l :
  Forall (fun x => P x <-> Q x) l -> filter P l = filter Q l.
Proof.
  induction 1 as [|x l Hx _ IH]; [done|]. rewrite !filter_cons, IH. by do 2 case_decide; try tauto.
Qed.

Lemma chars_split s cut :
  (cut <= length s)%nat ->
  char_starts s = char_starts (take cut s) ++ filter (fun i => from_option (fun b => negb (continuation b)) false (s !! i) = true) (seq cut (length s - cut)).
Proof.
  intros Hc. unfold char_starts. rewrite length_take, Nat.min_l by done. replace (length s) with (cut + (length s - cut))%nat at 1 by lia.
  rewrite seq_app, filter_app. f_equal. apply filter_ext_in, Forall_forall. intros i Hi. apply elem_of_seq in Hi.
  by rewrite lookup_take_lt by lia.
Qed.

Lemma cut_chars s n cut :
  char_starts s !! n = Some cut -> length (char_starts (take cut s)) = n /\ (cut < length s)%nat.
Proof.
  intros H. assert (cut ∈ char_starts s) as Hin by (by eapply list_elem_of_lookup_2).
  unfold char_starts in Hin at 1. apply list_elem_of_filter in Hin as [Hp Hin]. apply elem_of_seq in Hin. split; [|lia].
  assert (char_starts s !! length (char_starts (take cut s)) = Some cut) as H2.
  { rewrite (chars_split s cut) by lia. rewrite lookup_app_r, Nat.sub_diag by lia.
    destruct (length s - cut)%nat as [|m] eqn:E; [lia|]. cbn [seq filter list_filter]. by rewrite decide_True. }
  eapply NoDup_lookup; [|exact H2|exact H]. unfold char_starts. apply NoDup_filter, NoDup_seq.
Qed.

Lemma position_spec label labels o :
  position label labels = Some o -> labels !! o = Some label /\ forall i, (i < o)%nat -> labels !! i <> Some label.
Proof.
  revert o. induction labels as [|l labels IH]; intros o H; [done|]. cbn [position] in H. case_decide as E.
  - injection H as <-. split; [by rewrite E|lia].
  - destruct (position label labels) as [o'|]; [|done]. injection H as <-. destruct (IH o' eq_refl) as [H1 H2]. split; [done|].
    intros [|i] Hi; cbn; [congruence|]. apply H2. lia.
Qed.

Lemma position_none label labels : position label labels = None <-> label ∉ labels.
Proof.
  induction labels as [|l labels IH]; cbn [position]; [split; [by intros _ ?%elem_of_nil|done]|]. rewrite not_elem_of_cons.
  case_decide as E; [split; [done|]; by intros [? _]|]. rewrite fmap_None, IH. naive_solver.
Qed.

(** A value of the column's own type, in the form the column keeps. *)
Definition own (T : TextForms) (ty : Ty.ColumnType) (v : Value) : Prop :=
  match ty, v with
  | Ty.Bool, Val.Bool _ | Ty.Int, Val.Int _ | Ty.SmallInt, Val.Int _ | Ty.BigInt, Val.Int _
  | Ty.Float, Val.Float _ | Ty.Real, Val.Float _ | Ty.Text, Val.Text _ | Ty.VarChar _, Val.Text _
  | Ty.Date, Val.Date _ | Ty.Time, Val.Time _ | Ty.TimeTz, Val.TimeTz _ | Ty.Timestamp, Val.Timestamp _
  | Ty.TimestampTz, Val.TimestampTz _ | Ty.Uuid, Val.Uuid _ | Ty.Macaddr, Val.Macaddr _ | Ty.Macaddr8, Val.Macaddr8 _
  | Ty.Inet, Val.Inet _ | Ty.Cidr, Val.Inet _ | Ty.Bit _, Val.Bit _ | Ty.VarBit _, Val.Bit _ | Ty.Range _, Val.Range _
  | Ty.Json, Val.Json _ | Ty.Jsonb, Val.Json _ | Ty.Interval, Val.Interval _ | Ty.Vector _, Val.Vector _
  | Ty.Bytes, Val.Bytes _ | Ty.Tsvector, Val.Tsvector _ | Ty.Tsquery, Val.Tsquery _ | Ty.Xml, Val.Xml _
  | Ty.Enum, Val.Enum _ _ | _, Val.Null => True
  | Ty.Char _, Val.Text s => trim_end_spaces s = s
  | Ty.Numeric p s, Val.Numeric d => p = 0 \/ d = nan \/ (scale d = s /\ s <> NAN_SCALE)
  | Ty.Geometry k, Val.Geometry g => parse_geometry T (Geometry.format g) k = Some g
  | _, _ => False
  end.

Lemma stored_own T ty v : own T ty v -> stored T v ty = v.
Proof.
  intros H. destruct ty, v; try done; cbn [own] in H.
  - unfold stored. cbn [bpchar_canonical]. rewrite H, decide_True by done. done.
  - unfold stored. cbn. unfold numeric_in. destruct (Z.eqb_spec precision 0); [done|]. destruct H as [?|[->|[<- Hn]]]; [done|done|].
    unfold rescale, is_nan. rewrite (proj2 (Z.eqb_neq _ _) Hn), Z.compare_refl. done.
  - unfold stored. cbn. by rewrite H.
Qed.


(** C32: Reading a projection of a tuple is projecting the tuple read. Whenever
    the whole tuple decodes, the projected decode of ascending columns returns
    just those columns' values; a skipped value leaves the cursor where reading
    it would, on every type but two with the same error as reading it; and on an
    enum column cut short the skip reports a later offset than the reader. *)
Theorem projection_exact T bs schema row keep :
  decode T bs schema = Ok row -> StronglySorted lt keep ->
  decode_projected T bs schema keep = Ok (omap (fun i => row !! i) keep) /\
  (forall pos ty v next, decode_value T bs pos ty = Ok (v, next) -> skip_value T bs pos ty = Ok next) /\
  (forall pos ty, ty <> Ty.Enum -> (forall k, ty <> Ty.Geometry k) -> skip_value T bs pos ty = rmap snd (decode_value T bs pos ty)) /\
  (decode_value T [] 0 Ty.Enum = Err (Sql.MalformedTuple 0) /\ skip_value T [] 0 Ty.Enum = Err (Sql.MalformedTuple 4)).
Proof.
  intros H Hs. split_and!; [|apply skip_value_end| |reflexivity|reflexivity].
  - unfold decode_projected. rewrite (kept_columns T schema 0 keep bs 0 row H Hs) by (apply Forall_forall; lia).
    f_equal. apply list_omap_ext, Forall_Forall2_diag, Forall_forall. intros w _. by rewrite Nat.sub_0_r.
  - intros pos ty He Hg. destruct ty; try done; cbn [skip_value decode_value decode_scalar]; try (by destruct (Hg kind));
      unfold rmap; rewrite rbind_assoc; [destruct (read_text_field bs pos) as [[]| | |]|..]; try done.
    all: first [by destruct (read_text_field bs pos) as [[]| | |]|by destruct (read_bytes_field bs pos) as [[]| | |]].
Qed.

(** C1: Text is fitted to its column exactly. Writing to [VARCHAR(n)] or
    [CHAR(n)] keeps a text of at most [n] characters, cuts one whose excess is
    all blanks to its first [n] characters, and refuses any other; a text
    written to an enum column becomes the first label it equals with that
    label's position, and is refused exactly when no label matches. *)
Theorem text_columns_fitted s n labels :
  Z.of_nat (length labels) < 2 ^ 32 ->
  let chars := length (char_starts s) in
  (forall ty, ty = Ty.VarChar n \/ ty = Ty.Char n ->
   match coerce_char_length (Val.Text s) ty with
   | Ok v =>
       exists s' blanks, v = Val.Text s' /\ s = s' ++ blanks /\ Forall (fun b => is_space b = true) blanks /\
         length (char_starts s') = Nat.min chars (Z.to_nat n)
   | Err e => e = Sql.StringTooLong ty /\ exists cut, char_starts s !! Z.to_nat n = Some cut /\ forallb is_space (drop cut s) = false
   | _ => False
   end) /\
  match coerce_enum (Val.Text s) labels with
  | Ok v => exists o, v = Val.Enum (Z.of_nat o) s /\ labels !! o = Some s /\ forall i, (i < o)%nat -> labels !! i <> Some s
  | Err e => e = Sql.Coded "22P02" /\ s ∉ labels
  | _ => False
  end.
Proof.
  intros Hl chars. split.
  - intros ty [-> | ->]; cbn [coerce_char_length]; (destruct (char_starts s !! Z.to_nat n) as [cut|] eqn:E;
      [destruct (cut_chars s _ _ E) as [Hc Hb]; destruct (forallb is_space (drop cut s)) eqn:Es; [|split; [done|by exists cut]]|]).
    all: try (exists s, []; split_and!; [done|by rewrite app_nil_r|done|]; apply lookup_ge_None in E; unfold chars; lia).
    all: exists (take cut s), (drop cut s); split_and!; [done|by rewrite take_drop|apply Forall_forall; intros x Hx; rewrite forallb_forall in Es; by apply Es, list_elem_of_In|].
    all: apply lookup_lt_Some in E; unfold chars; lia.
  - cbn [coerce_enum]. destruct (position s labels) as [o|] eqn:E; [|split; [done|by apply position_none]].
    destruct (position_spec _ _ _ E) as [H1 H2]. exists o. split_and!; [|done|done]. apply lookup_lt_Some in H1.
    unfold u32_sat, U32_MAX. rewrite Z.min_l by lia. done.
Qed.

(** Readers that refuse every text. *)
Definition no_forms : TextForms := {|
  date_from_text := fun _ => Err (Sql.Coded "22007"); parse_time := fun _ => None; parse_timetz := fun _ => None;
  parse_timestamp := fun _ => None; parse_timestamptz := fun _ => None; parse_uuid := fun _ => None;
  parse_macaddr := fun _ => None; parse_macaddr8 := fun _ => None; parse_inet := fun _ => None; parse_cidr := fun _ => None;
  parse_range := fun _ _ => None; parse_geometry := fun _ _ => None; from_f64_text := fun _ => None;
  json_canonicalize := fun _ => None; parse_tsvector := fun _ => Err (Sql.Coded "42601");
  parse_tsquery := fun _ => Err (Sql.Coded "42601"); validate_xml := fun _ => false; parse_interval := fun _ => None;
  parse_text_array := fun _ _ => Err (Sql.Coded "22P02"); parse_vector := fun _ => None; parse_bytea := fun _ => None |}.

Lemma no_forms_ok : forms_ok no_forms.
Proof. by split. Qed.

Definition sample_row : Row := [Val.Int 7; Val.Null; Val.Array [Val.Int 1; Val.Array [Val.Null; Val.Int 2]]; Val.Int 3].
Definition sample_schema : list Ty.ColumnType := [Ty.BigInt; Ty.Text; Ty.Array Elem.Int; Ty.Numeric 5 2].


Lemma projection_exact_witness :
  exists bs, decode_projected no_forms bs sample_schema [0%nat; 2%nat] =
    Ok [Val.Int 7; Val.Array [Val.Int 1; Val.Array [Val.Null; Val.Int 2]]].
Proof.
  destruct (encode no_forms sample_row sample_schema) as [bs| | |] eqn:E; try (vm_compute in E; discriminate E).
  exists bs. assert (decode no_forms bs sample_schema = Ok
    [Val.Int 7; Val.Null; Val.Array [Val.Int 1; Val.Array [Val.Null; Val.Int 2]]; Val.Numeric (MkDec 300 2)]) as H.
  { vm_compute in E. injection E as <-. vm_compute. reflexivity. }
  etransitivity; [apply (projection_exact no_forms bs sample_schema _ [0%nat; 2%nat] H)|reflexivity].
  repeat (constructor; try lia).
Defined.

Lemma text_columns_fitted_witness :
  coerce_char_length (Val.Text [z2b 97; z2b 98; z2b 32]) (Ty.VarChar 2) = Ok (Val.Text [z2b 97; z2b 98]) /\
  exists o, Val.Enum 1 [z2b 98] = Val.Enum (Z.of_nat o) [z2b 98] /\ [[z2b 97]; [z2b 98]] !! o = Some [z2b 98].
Proof.
  split; [reflexivity|].
  destruct (text_columns_fitted [z2b 98] 2 [[z2b 97]; [z2b 98]] ltac:(by vm_compute)) as [_ (o & H1 & H2 & _)].
  exists o. split; [exact H1|exact H2].
Defined.
