(* ===== verification/Temporal.v ===== *)
(** * Dates, times and timestamps ([temporal.rs])

    The calendar conversions, the constructors, calendar arithmetic, truncation
    and age, the fields of [EXTRACT] as exact decimals, the packed [TIMETZ], and
    the text forms of all of them. [i64] arithmetic is checked: the program is
    built with overflow checks, so an operation that leaves [i64] panics.
    Operations on operands the types or earlier guards keep small (fields of a
    decomposed timestamp, two-digit numbers) are left unchecked. *)

From stdpp Require Import base list strings.
From Stdlib Require Import ZArith Lia Strings.Byte.
From S2P Require Import Prelude Order Codec Numeric Interval.
#[local] Open Scope Z_scope.

Module Temporal.

Abbreviation arith A := (res Empty_set A).

(** The result of an [i64] operation. *)
Definition chk (z : Z) : arith Z := if decide (i64 z) then Ok z else Panic.

(** [?] on an [Option] inside. *)
Definition obind {A B} (m : option A) (k : A -> arith (option B)) : arith (option B) :=
  match m with Some a => k a | None => Ok None end.

Definition SECS_PER_DAY : Z := 86400.

(** ** The calendar *)

Definition days_from_civil (y m d : Z) : arith Z :=
  let? y := if m <=? 2 then chk (y - 1) else Ok y in
  let? n := if 0 <=? y then Ok y else chk (y - 399) in
  let era := Z.quot n 400 in
  let? yoe := chk (y - era * 400) in
  let? mp := if 2 <? m then chk (m - 3) else chk (m + 9) in
  let? p := chk (153 * mp + 2) in
  let? doy := chk (Z.quot p 5 + (d - 1)) in
  let? doe := chk (yoe * 365 + Z.quot yoe 4 - Z.quot yoe 100 + doy) in
  let? e := chk (era * 146097) in
  let? t := chk (e + doe) in
  chk (t - 719468).

Definition civil_from_days (z : Z) : arith (Z * Z * Z) :=
  let? z := chk (z + 719468) in
  let? n := if 0 <=? z then Ok z else chk (z - 146096) in
  let era := Z.quot n 146097 in
  let doe := z - era * 146097 in
  let yoe := Z.quot (doe - Z.quot doe 1460 + Z.quot doe 36524 - Z.quot doe 146096) 365 in
  let y := yoe + era * 400 in
  let doy := doe - (365 * yoe + Z.quot yoe 4 - Z.quot yoe 100) in
  let mp := Z.quot (5 * doy + 2) 153 in
  let d := doy - Z.quot (153 * mp + 2) 5 + 1 in
  let m := if mp <? 10 then mp + 3 else mp - 9 in
  Ok ((if m <=? 2 then y + 1 else y), m, d).

Definition leap (y : Z) : bool := ((Z.rem y 4 =? 0) && negb (Z.rem y 100 =? 0)) || (Z.rem y 400 =? 0).

Definition days_in_month (y m : Z) : Z :=
  if (m =? 1) || (m =? 3) || (m =? 5) || (m =? 7) || (m =? 8) || (m =? 10) || (m =? 12) then 31
  else if (m =? 4) || (m =? 6) || (m =? 9) || (m =? 11) then 30
  else if (m =? 2) && leap y then 29
  else 28.

Definition is_valid_ymd (y m d : Z) : bool :=
  if negb (between 1 12 m) || (d <? 1) then false
  else
    let dim := [31; (if leap y then 29 else 28); 31; 30; 31; 30; 31; 31; 30; 31; 30; 31] in
    match dim !! Z.to_nat (m - 1) with Some max => d <=? max | None => false end.

(** [i32::try_from(..).ok()] and [i64::try_from(..).ok()]. *)
Definition make_date (y m d : Z) : arith (option Z) :=
  if negb (is_valid_ymd y m d) then Ok None
  else let? n := days_from_civil y m d in Ok (checked_i32 n).

Definition make_time (h m s : Z) : option Z :=
  if negb (between 0 23 h) || negb (between 0 59 m) || negb (between 0 59 s) then None
  else Some ((h * 3600 + m * 60 + s) * MICROS_PER_SEC).

Definition make_timestamp (y mo d h mi s : Z) : arith (option Z) :=
  if negb (is_valid_ymd y mo d) then Ok None
  else
    obind (make_time h mi s) (fun tod =>
      let? n := days_from_civil y mo d in
      Ok (day_micros ← checked_i64 (n * MICROS_PER_DAY); checked_i64 (day_micros + tod))).

(** ** Calendar arithmetic *)

Definition add_interval_to_micros (ts months days micros : Z) : arith (option Z) :=
  let day_count := ts / MICROS_PER_DAY in
  let tod := ts mod MICROS_PER_DAY in
  let? '(y, m, d) := civil_from_days day_count in
  let total_months := y * 12 + (m - 1) + months in
  let ny := total_months / 12 in
  let nm := total_months mod 12 + 1 in
  let nd := Z.min d (days_in_month ny nm) in
  let? n := days_from_civil ny nm nd in
  let? new_days := chk (n + days) in
  Ok (checked_i64 (new_days * MICROS_PER_DAY + tod + micros)).

Definition date_bin (stride_days stride_micros source origin : Z) : option Z :=
  let stride := stride_days * MICROS_PER_DAY + stride_micros in
  if stride <=? 0 then None
  else checked_i64 (origin + (source - origin) / stride * stride).

(** Year, month, day, hour, minute, second, microsecond. *)
Definition decompose_micros (micros : Z) : arith (Z * Z * Z * Z * Z * Z * Z) :=
  let tod := micros mod MICROS_PER_DAY in
  let? '(y, m, d) := civil_from_days (micros / MICROS_PER_DAY) in
  Ok (y, m, d, Z.quot tod (3600 * MICROS_PER_SEC), Z.rem (Z.quot tod (60 * MICROS_PER_SEC)) 60,
      Z.rem (Z.quot tod MICROS_PER_SEC) 60, Z.rem tod MICROS_PER_SEC).

Definition century_of (y : Z) : Z := (y - 1) / 100 + 1.
Definition millennium_of (y : Z) : Z := (y - 1) / 1000 + 1.

Definition iso_dow (days : Z) : Z := let w := (days + 4) mod 7 in if w =? 0 then 7 else w.

Definition iso_dominical_p (y : Z) : Z := (y + y / 4 - y / 100 + y / 400) mod 7.
Definition iso_weeks_in_year (y : Z) : Z :=
  if (iso_dominical_p y =? 4) || (iso_dominical_p (y - 1) =? 3) then 53 else 52.

Definition iso_week (days y : Z) : arith Z :=
  let? jan1 := days_from_civil y 1 1 in
  let doy := days - jan1 + 1 in
  let week := (doy - iso_dow days + 10) / 7 in
  Ok (if week <? 1 then iso_weeks_in_year (y - 1) else if iso_weeks_in_year y <? week then 1 else week).

Definition iso_year (days : Z) : arith Z :=
  let? '(y, m, d) := civil_from_days (days + 4 - iso_dow days) in Ok y.

Definition date_trunc_micros (field : string) (micros : Z) : arith (option Z) :=
  let floor_to (unit : Z) : arith (option Z) := let? z := chk (micros - micros mod unit) in Ok (Some z) in
  if decide (field ∈ ["microsecond"; "microseconds"]) then Ok (Some micros)
  else if decide (field ∈ ["millisecond"; "milliseconds"]) then floor_to 1000
  else if decide (field = "second") then floor_to MICROS_PER_SEC
  else if decide (field = "minute") then floor_to (60 * MICROS_PER_SEC)
  else if decide (field = "hour") then floor_to (3600 * MICROS_PER_SEC)
  else if decide (field = "day") then floor_to MICROS_PER_DAY
  else
    let days := micros / MICROS_PER_DAY in
    let? '(y, m, d) := civil_from_days days in
    let start (n : arith Z) : arith (option Z) := let? start_day := n in Ok (checked_i64 (start_day * MICROS_PER_DAY)) in
    if decide (field = "week") then start (Ok (days - (days + 3) mod 7))
    else if decide (field = "month") then start (days_from_civil y m 1)
    else if decide (field = "quarter") then start (days_from_civil y (Z.quot (m - 1) 3 * 3 + 1) 1)
    else if decide (field = "year") then start (days_from_civil y 1 1)
    else if decide (field = "decade") then start (days_from_civil (y - y mod 10) 1 1)
    else if decide (field = "century") then start (days_from_civil ((century_of y - 1) * 100 + 1) 1 1)
    else if decide (field = "millennium") then start (days_from_civil ((millennium_of y - 1) * 1000 + 1) 1 1)
    else Ok None.

(** [calendar_age] with [start <= end_]. *)
Definition age_forward (end_ start : Z) : arith (Z * Z * Z) :=
  let? '(y1, mon1, d1, h1, mi1, s1, us1) := decompose_micros end_ in
  let? '(y2, mon2, d2, h2, mi2, s2, us2) := decompose_micros start in
  let '(us, s) := if us1 - us2 <? 0 then (us1 - us2 + MICROS_PER_SEC, s1 - s2 - 1) else (us1 - us2, s1 - s2) in
  let '(s, mi) := if s <? 0 then (s + 60, mi1 - mi2 - 1) else (s, mi1 - mi2) in
  let '(mi, h) := if mi <? 0 then (mi + 60, h1 - h2 - 1) else (mi, h1 - h2) in
  let '(h, d) := if h <? 0 then (h + 24, d1 - d2 - 1) else (h, d1 - d2) in
  let '(d, mon) := if d <? 0 then (d + days_in_month y2 mon2, mon1 - mon2 - 1) else (d, mon1 - mon2) in
  let '(mon, y) := if mon <? 0 then (mon + 12, y1 - y2 - 1) else (mon, y1 - y2) in
  let months := y * 12 + mon in
  Ok (default (if months <? 0 then - 2 ^ 31 else 2 ^ 31 - 1) (checked_i32 months), default 0 (checked_i32 d),
      (h * 3600 + mi * 60 + s) * MICROS_PER_SEC + us).

Definition calendar_age (end_ start : Z) : arith (Z * Z * Z) :=
  if end_ <? start then let? '(months, days, micros) := age_forward start end_ in Ok (- months, - days, - micros)
  else age_forward end_ start.

(** ** Text *)

(** [{z:0width}]: the sign counts towards the width. *)
Definition pad (width : nat) (z : Z) : bytes :=
  let ds := to_string (Z.abs z) in
  let sign := if z <? 0 then [z2b 45] else [] in
  sign ++ replicate (width - length sign - length ds) (z2b 48) ++ ds.

(** [split_once]. *)
Fixpoint split_once (p : byte -> bool) (s : bytes) : option (bytes * bytes) :=
  match s with
  | [] => None
  | b :: s => if p b then Some ([], s) else '(l, r) ← split_once p s; Some (b :: l, r)
  end.

Definition is_char (c : Z) (b : byte) : bool := b2z b =? c.

(** [splitn(3, c)]: the parts that exist. *)
Definition splitn3 (c : Z) (s : bytes) : bytes * option (bytes * option bytes) :=
  match split_once (is_char c) s with
  | None => (s, None)
  | Some (a, r) =>
      match split_once (is_char c) r with
      | None => (a, Some (r, None))
      | Some (b, r) => (a, Some (b, Some r))
      end
  end.

Definition digits_val (s : bytes) : Z := foldl (fun n b => n * 10 + digit_val b) 0 s.

(** [str::parse::<i64>]. *)
Definition parse_i64 (s : bytes) : option Z :=
  let '(negative, ds) :=
    match s with
    | b :: r => if is_char 45 b then (true, r) else if is_char 43 b then (false, r) else (false, s)
    | [] => (false, [])
    end in
  if decide (ds = []) then None
  else if negb (forallb is_digit ds) then None
  else checked_i64 (if negative then - digits_val ds else digits_val ds).

Definition parse_fixed (s : bytes) (width : nat) : option Z :=
  if negb (length s =? width)%nat || negb (forallb is_digit s) then None else parse_i64 s.

Definition parse_ymd (s : bytes) : option (Z * Z * Z) :=
  let '(ys, rest) := splitn3 45 s in
  y ← parse_i64 ys;
  '(ms, rest) ← rest;
  m ← parse_fixed ms 2;
  ds ← rest;
  d ← parse_fixed ds 2;
  if (y <? 0) || negb (is_valid_ymd y m d) then None else Some (y, m, d).

Definition parse_date (s : bytes) : arith (option Z) :=
  obind (parse_ymd (trim s)) (fun '(y, m, d) => let? n := days_from_civil y m d in Ok (checked_i32 n)).

Definition format_date (days : Z) : arith bytes :=
  let? '(y, m, d) := civil_from_days days in
  Ok (pad 4 y ++ [z2b 45] ++ pad 2 m ++ [z2b 45] ++ pad 2 d).

(** [trim_end_matches('0')]. *)
Fixpoint drop_zeros (s : bytes) : bytes :=
  match s with b :: r => if is_char 48 b then drop_zeros r else s | [] => [] end.
Definition trim_end_zeros (s : bytes) : bytes := reverse (drop_zeros (reverse s)).

Definition subsecond_suffix (frac : Z) : bytes :=
  if frac =? 0 then [] else z2b 46 :: trim_end_zeros (pad 6 frac).

Definition format_time (micros : Z) : bytes :=
  let secs := Z.quot micros MICROS_PER_SEC in
  let frac := Z.rem micros MICROS_PER_SEC in
  pad 2 (Z.quot secs 3600) ++ [z2b 58] ++ pad 2 (Z.quot (Z.rem secs 3600) 60) ++ [z2b 58] ++ pad 2 (Z.rem secs 60) ++
  subsecond_suffix (if between 0 U32_MAX frac then frac else 0).

(** The loop over the first six digits; a missing one counts as zero. *)
Fixpoint fraction_from (n : nat) (micros : Z) (frac : bytes) : Z :=
  match n with
  | O => micros
  | S n => match frac with
           | c :: frac => fraction_from n (micros * 10 + (b2z c - 48)) frac
           | [] => fraction_from n (micros * 10) []
           end
  end.

Definition parse_fraction (frac : bytes) : option Z :=
  if decide (frac = []) then None
  else if negb (forallb is_digit frac) then None
  else Some (fraction_from 6 0 frac).

Definition parse_time_of_day (s : bytes) : option Z :=
  let '(hour, rest) := splitn3 58 s in
  h ← match parse_fixed hour 2 with Some h => Some h | None => parse_fixed hour 1 end;
  '(ms, rest) ← rest;
  m ← parse_fixed ms 2;
  '(sec, frac_micros) ←
    match rest with
    | Some sec_field =>
        '(sec_str, frac) ←
          match split_once (is_char 46) sec_field with
          | Some (sec, frac) => f ← parse_fraction frac; Some (sec, f)
          | None => Some (sec_field, 0)
          end;
        x ← parse_fixed sec_str 2;
        Some (x, frac)
    | None => Some (0, 0)
    end;
  if (23 <? h) || (59 <? m) || (59 <? sec) then None
  else Some ((h * 3600 + m * 60 + sec) * MICROS_PER_SEC + frac_micros).

Definition parse_time (s : bytes) : option Z := parse_time_of_day (trim s).

(** The last sign, unless it stands first. *)
Definition is_sign (b : byte) : bool := is_char 43 b || is_char 45 b.
Fixpoint rposition (p : byte -> bool) (s : bytes) : option nat :=
  match s with
  | [] => None
  | b :: s => match rposition p s with Some i => Some (S i) | None => if p b then Some 0%nat else None end
  end.
Definition find_offset_sign (time_part : bytes) : option nat :=
  i ← rposition is_sign time_part; if (0 <? i)%nat then Some i else None.

Definition parse_offset (off : bytes) : option Z :=
  '(sign, rest) ←
    match off with
    | b :: r => if is_char 43 b then Some (1, r) else if is_char 45 b then Some (-1, r) else None
    | [] => None
    end;
  let rest := filter (fun b => is_char 58 b = false) rest in
  '(hh, mm) ←
    match length rest with
    | 2%nat => h ← parse_fixed rest 2; Some (h, 0)
    | 4%nat => h ← parse_fixed (take 2 rest) 2; m ← parse_fixed (drop 2 rest) 2; Some (h, m)
    | _ => None
    end;
  if (23 <? hh) || (59 <? mm) then None else Some (sign * (hh * 3600 + mm * 60) * MICROS_PER_SEC).

(** [strip_suffix('Z')]. *)
Definition strip_z (s : bytes) : option bytes :=
  match reverse s with b :: r => if is_char 90 b then Some (reverse r) else None | [] => None end.

(** The zone at the end of a time, in microseconds, and what stands before it. *)
Definition split_zone (time_part : bytes) : option (bytes * Z) :=
  match strip_z time_part with
  | Some stripped => Some (stripped, 0)
  | None =>
      match find_offset_sign time_part with
      | Some idx => o ← parse_offset (drop idx time_part); Some (take idx time_part, o)
      | None => Some (time_part, 0)
      end
  end.

(** ** Times with a zone *)

Definition TIMETZ_ZONE_SPAN : Z := 2 ^ 18.
Definition TIMETZ_ZONE_BIAS : Z := 2 ^ 17.

Definition pack_timetz (local_micros offset_east_secs : Z) : Z :=
  let zone_west := - offset_east_secs in
  let utc_equivalent := local_micros - offset_east_secs * MICROS_PER_SEC in
  utc_equivalent * TIMETZ_ZONE_SPAN + (zone_west + TIMETZ_ZONE_BIAS).

Definition timetz_offset_east_secs (packed : Z) : Z := TIMETZ_ZONE_BIAS - packed mod TIMETZ_ZONE_SPAN.

Definition timetz_local_micros (packed : Z) : Z :=
  packed / TIMETZ_ZONE_SPAN + timetz_offset_east_secs packed * MICROS_PER_SEC.

Definition parse_timetz (s : bytes) : option Z :=
  '(time_part, offset_micros) ← split_zone (trim s);
  tod ← parse_time_of_day time_part;
  Some (pack_timetz tod (Z.quot offset_micros MICROS_PER_SEC)).

(** The zone as every printer of this file writes it. *)
Definition zone_suffix (offset_east : Z) : bytes :=
  let sign := z2b (if offset_east <? 0 then 45 else 43) in
  let a := Z.abs offset_east in
  let h := Z.quot a 3600 in let m := Z.quot (Z.rem a 3600) 60 in let s := Z.rem a 60 in
  sign :: pad 2 h ++
  (if negb (s =? 0) then z2b 58 :: pad 2 m ++ z2b 58 :: pad 2 s
   else if negb (m =? 0) then z2b 58 :: pad 2 m
   else []).

Definition format_timetz (packed : Z) : bytes :=
  format_time (timetz_local_micros packed) ++ zone_suffix (timetz_offset_east_secs packed).

(** ** Timestamps *)

Definition is_separator (b : byte) : bool := is_char 84 b || is_char 32 b.

Definition parse_timestamp_inner (s : bytes) (allow_offset : bool) : arith (option Z) :=
  let '(date_part, time_part) := default (s, []) (split_once is_separator s) in
  obind (if allow_offset then split_zone time_part else Some (time_part, 0)) (fun '(time_part, offset_micros) =>
  obind (parse_ymd date_part) (fun '(y, m, d) =>
  obind (if decide (time_part = []) then Some 0 else parse_time_of_day time_part) (fun tod =>
    let? n := days_from_civil y m d in
    Ok (a ← checked_i64 (n * MICROS_PER_DAY); b ← checked_i64 (a + tod); checked_i64 (b - offset_micros))))).

Definition parse_timestamp (s : bytes) : arith (option Z) := parse_timestamp_inner (trim s) false.
Definition parse_timestamptz (s : bytes) : arith (option Z) := parse_timestamp_inner (trim s) true.

Definition has_explicit_offset (s : bytes) : bool :=
  let s := trim s in
  match strip_z s with
  | Some _ => true
  | None =>
      match split_once is_separator s with
      | Some (_, time_part) => match find_offset_sign time_part with Some _ => true | None => false end
      | None => false
      end
  end.

Definition parse_timestamptz_at (s : bytes) (offset_east_secs : Z) : arith (option Z) :=
  let s := trim s in
  if has_explicit_offset s then parse_timestamp_inner s true
  else
    let? o := parse_timestamp_inner s true in
    Ok (t ← o; off ← checked_i64 (offset_east_secs * MICROS_PER_SEC); checked_i64 (t - off)).

Definition format_timestamp (micros : Z) : arith bytes :=
  let days := micros / MICROS_PER_DAY in
  let tod := micros mod MICROS_PER_DAY in
  let days := default (if days <? 0 then - 2 ^ 31 else 2 ^ 31 - 1) (checked_i32 days) in
  let? date := format_date days in
  Ok (date ++ [z2b 32] ++ format_time tod).

Definition saturating_i64 (z : Z) : Z := Z.max (- 2 ^ 63) (Z.min z (2 ^ 63 - 1)).

Definition format_timestamptz (micros : Z) : arith bytes :=
  let? t := format_timestamp micros in Ok (t ++ z2b 43 :: pad 2 0).

Definition format_timestamptz_at (micros offset_east_secs : Z) : arith bytes :=
  let local := saturating_i64 (micros + saturating_i64 (offset_east_secs * MICROS_PER_SEC)) in
  let? time := format_timestamp local in
  Ok (time ++ zone_suffix offset_east_secs).

Definition parse_date_input (s : bytes) : arith (option Z) :=
  let? d := parse_date s in
  match d with
  | Some d => Ok (Some d)
  | None =>
      let s := trim s in
      obind (split_once (fun b => is_char 32 b || is_char 84 b) s) (fun '(date, time) =>
        let? date := parse_date date in
        obind date (fun date =>
          let? t := parse_timestamp s in
          match t with
          | Some _ => Ok (Some date)
          | None => let? tz := parse_timestamptz s in Ok (match tz with Some _ => Some date | None => None end)
          end))
  end.

Definition is_date_field_out_of_range (s : bytes) : arith bool :=
  let s := trim s in
  match splitn3 45 s with
  | (y, Some (m, Some d)) =>
      let well_shaped := negb (bool_decide (y = [])) && forallb is_digit y
        && bool_decide (is_Some (parse_fixed m 2)) && bool_decide (is_Some (parse_fixed d 2)) in
      if well_shaped then let? date := parse_date s in Ok (bool_decide (date = None)) else Ok false
  | _ => Ok false
  end.

End Temporal.
