(* ===== verification/Extract.v ===== *)
(** * The fields of [EXTRACT], as exact decimals ([temporal.rs])

    The double-precision forms ([date_part]) are left out. *)

From stdpp Require Import base list strings.
From Stdlib Require Import ZArith Lia Strings.Byte.
From S2P Require Import Prelude Order Codec Numeric Interval Temporal.
Import Temporal.
#[local] Open Scope Z_scope.

Module Extract.

Definition extract_int (v : Z) : Decimal := MkDec v 0.

Definition julian_decimal (days micros : Z) : Decimal :=
  let scale_pow := 10 ^ 20 in
  let whole := (2440588 + days) * scale_pow in
  let tod := micros mod MICROS_PER_DAY in
  let frac := Z.quot (tod * scale_pow + Z.quot MICROS_PER_DAY 2) MICROS_PER_DAY in
  MkDec (whole + frac) 20.

Definition extract_decimal_from_micros (field : string) (micros : Z) : arith (option Decimal) :=
  let days := micros / MICROS_PER_DAY in
  let? '(y, m, d, h, mi, s, us) := decompose_micros micros in
  let sub_min_us := s * MICROS_PER_SEC + us in
  let int (v : Z) : arith (option Decimal) := Ok (Some (extract_int v)) in
  match field with
  | "year" => int y
  | "month" => int m
  | "day" => int d
  | "hour" => int h
  | "minute" => int mi
  | "second" => Ok (Some (MkDec sub_min_us 6))
  | "dow" => int ((days + 4) mod 7)
  | "isodow" => int (iso_dow days)
  | "doy" => let? jan1 := days_from_civil y 1 1 in int (days - jan1 + 1)
  | "quarter" => int (Z.quot (m - 1) 3 + 1)
  | "epoch" => Ok (Some (MkDec micros 6))
  | "week" => let? w := iso_week days y in int w
  | "decade" => int (y / 10)
  | "century" => int (century_of y)
  | "millennium" => int (millennium_of y)
  | "isoyear" => let? w := iso_year days in int w
  | "microseconds" => int sub_min_us
  | "milliseconds" => Ok (Some (MkDec sub_min_us 3))
  | "julian" => Ok (Some (julian_decimal days micros))
  | _ => Ok None
  end%string.

Definition extract_decimal_interval_field (field : string) (months days micros : Z) : option Decimal :=
  let sub_min_us := Z.rem micros (60 * MICROS_PER_SEC) in
  match field with
  | "year" => Some (extract_int (Z.quot months 12))
  | "month" => Some (extract_int (Z.rem months 12))
  | "day" => Some (extract_int days)
  | "hour" => Some (extract_int (Z.quot micros (3600 * MICROS_PER_SEC)))
  | "minute" => Some (extract_int (Z.rem (Z.quot micros (60 * MICROS_PER_SEC)) 60))
  | "second" => Some (MkDec (Z.rem (Z.quot micros MICROS_PER_SEC) 60 * MICROS_PER_SEC + Z.rem micros MICROS_PER_SEC) 6)
  | "decade" => Some (extract_int (Z.quot (Z.quot months 12) 10))
  | "century" => Some (extract_int (Z.quot (Z.quot months 12) 100))
  | "millennium" => Some (extract_int (Z.quot (Z.quot months 12) 1000))
  | "microseconds" => Some (extract_int sub_min_us)
  | "milliseconds" => Some (MkDec sub_min_us 3)
  | "epoch" =>
      let secs := Z.quot months 12 * 31557600 + Z.rem months 12 * 30 * SECS_PER_DAY + days * SECS_PER_DAY in
      Some (MkDec (secs * MICROS_PER_SEC + micros) 6)
  | _ => None
  end%string.

Definition extract_decimal_time_field (field : string) (tod_micros : Z) : option Decimal :=
  let s := Z.rem (Z.quot tod_micros MICROS_PER_SEC) 60 in
  let us := Z.rem tod_micros MICROS_PER_SEC in
  let sub_min_us := s * MICROS_PER_SEC + us in
  match field with
  | "hour" => Some (extract_int (Z.quot tod_micros (3600 * MICROS_PER_SEC)))
  | "minute" => Some (extract_int (Z.rem (Z.quot tod_micros (60 * MICROS_PER_SEC)) 60))
  | "second" => Some (MkDec sub_min_us 6)
  | "microseconds" => Some (extract_int sub_min_us)
  | "milliseconds" => Some (MkDec sub_min_us 3)
  | "epoch" => Some (MkDec tod_micros 6)
  | _ => None
  end%string.

Definition extract_decimal_zone_field (field : string) (offset_east_secs : Z) : option Decimal :=
  match field with
  | "timezone" => Some (extract_int offset_east_secs)
  | "timezone_hour" => Some (extract_int (Z.quot offset_east_secs 3600))
  | "timezone_minute" => Some (extract_int (Z.quot (Z.rem offset_east_secs 3600) 60))
  | _ => None
  end%string.

Definition extract_decimal_timestamptz_field (field : string) (micros offset_east_secs : Z) : arith (option Decimal) :=
  match extract_decimal_zone_field field offset_east_secs with
  | Some d => Ok (Some d)
  | None =>
      let shift := if decide (field = "epoch"%string) then 0 else saturating_i64 (offset_east_secs * MICROS_PER_SEC) in
      extract_decimal_from_micros field (saturating_i64 (micros + shift))
  end.

Definition extract_decimal_timetz_field (field : string) (packed : Z) : option Decimal :=
  let offset_east_secs := timetz_offset_east_secs packed in
  let local := timetz_local_micros packed in
  match extract_decimal_zone_field field offset_east_secs with
  | Some zone => Some zone
  | None =>
      if decide (field = "epoch"%string) then Some (MkDec (local - offset_east_secs * MICROS_PER_SEC) 6)
      else extract_decimal_time_field field local
  end.

End Extract.
