(* ===== verification/TemporalFacts.v ===== *)
(** * Facts about the calendar *)

From stdpp Require Import base list strings.
From Stdlib Require Import ZArith Lia Strings.Byte.
From S2P Require Import Prelude Order Codec Numeric NumericFacts NumericThm Interval IntervalThm Temporal.
Import Temporal.
#[local] Open Scope Z_scope.

Ltac euclid := Z.to_euclidean_division_equations; lia.

(** ** Days of a 400-year era

    Years are counted from March, so that a leap day is the last of its year. *)

Definition ystart (yoe : Z) : Z := 365 * yoe + yoe / 4 - yoe / 100.
Definition mstart (mp : Z) : Z := (153 * mp + 2) / 5.
(** The length of the year that starts in March of year [yoe]. *)
Definition ylen (yoe : Z) : Z := if leap (yoe + 1) then 366 else 365.

(** The calendar without overflow checks. *)
Definition civ (y m d : Z) : Z :=
  let y := if m <=? 2 then y - 1 else y in
  y / 400 * 146097 + (ystart (y mod 400) + (mstart ((m + 9) mod 12) + d - 1)) - 719468.

Definition yoe_of (doe : Z) : Z := (doe - doe / 1460 + doe / 36524 - doe / 146096) / 365.

Definition ymd (z : Z) : Z * Z * Z :=
  let z := z + 719468 in
  let era := z / 146097 in
  let doe := z mod 146097 in
  let yoe := yoe_of doe in
  let doy := doe - ystart yoe in
  let mp := (5 * doy + 2) / 153 in
  let m := if mp <? 10 then mp + 3 else mp - 9 in
  ((if m <=? 2 then yoe + era * 400 + 1 else yoe + era * 400), m, doy - mstart mp + 1).

Definition valid_ymd (y m d : Z) : Prop := 1 <= m <= 12 /\ 1 <= d <= days_in_month y m.

Lemma leap_period y k : leap (y + k * 400) = leap y.
Proof.
  unfold leap. assert (forall a n, n <> 0 -> (Z.rem a n =? 0) = (a mod n =? 0)) as H.
  { intros a n Hn. apply Bool.eq_iff_eq_true. rewrite !Z.eqb_eq. rewrite Z.rem_divide, Z.mod_divide by done. done. }
  rewrite !H by done. f_equal; [f_equal|]; [|f_equal|]; f_equal;
    [rewrite (Z.mul_comm k 400); replace (400 * k) with (100 * k * 4) by lia|
     rewrite (Z.mul_comm k 400); replace (400 * k) with (4 * k * 100) by lia|]; apply Z_mod_plus_full.
Qed.

Lemma ystart_next yoe : 0 <= yoe < 399 -> ystart (yoe + 1) = ystart yoe + ylen yoe.
Proof.
  intros H. assert (forallb (fun y => ystart (y + 1) =? ystart y + ylen y) (seqZ 0 399) = true) as A by (by vm_compute).
  rewrite forallb_forall in A. apply Z.eqb_eq, A, list_elem_of_In, elem_of_seqZ. lia.
Qed.

Lemma ystart_last : ystart 399 + ylen 399 = 146097 /\ ystart 0 = 0.
Proof. by vm_compute. Qed.

Lemma ylen_bounds y : 365 <= ylen y <= 366.
Proof. unfold ylen. destruct (leap _); lia. Qed.

(** The year formula steps only where the years do. *)
Lemma yoe_mono a b : 0 <= a <= b -> yoe_of a <= yoe_of b.
Proof.
  intros H. unfold yoe_of. apply Z.div_le_mono; [lia|].
  assert (a - a / 1460 <= b - b / 1460) by euclid.
  assert (forall x, 0 <= x -> x / 146096 = x / 36524 / 4) as E by (intros; rewrite Z.div_div by lia; done).
  rewrite !E by lia. assert (a / 36524 <= b / 36524) by (apply Z.div_le_mono; lia).
  assert (a / 36524 - a / 36524 / 4 <= b / 36524 - b / 36524 / 4) by euclid. lia.
Qed.

Lemma yoe_ends yoe : 0 <= yoe < 400 -> yoe_of (ystart yoe) = yoe /\ yoe_of (ystart yoe + ylen yoe - 1) = yoe.
Proof.
  intros H. assert (forallb (fun y => (yoe_of (ystart y) =? y) && (yoe_of (ystart y + ylen y - 1) =? y)) (seqZ 0 400) = true) as A by (by vm_compute).
  rewrite forallb_forall in A. specialize (A yoe). rewrite andb_true_iff, !Z.eqb_eq in A. apply A, list_elem_of_In, elem_of_seqZ. lia.
Qed.

Lemma ystart_nonneg yoe : 0 <= yoe -> 0 <= ystart yoe.
Proof. unfold ystart. intros. euclid. Qed.

Lemma yoe_of_year yoe doe : 0 <= yoe < 400 -> ystart yoe <= doe < ystart yoe + ylen yoe -> yoe_of doe = yoe.
Proof.
  intros Hy Hd. destruct (yoe_ends yoe Hy) as [E1 E2]. pose proof (ystart_nonneg yoe ltac:(lia)).
  pose proof (yoe_mono (ystart yoe) doe ltac:(lia)). pose proof (yoe_mono doe (ystart yoe + ylen yoe - 1) ltac:(lia)). lia.
Qed.

Lemma year_exists doe : 0 <= doe < 146097 -> exists yoe, 0 <= yoe < 400 /\ ystart yoe <= doe < ystart yoe + ylen yoe.
Proof.
  intros Hd. destruct ystart_last as [EL E0].
  assert (forall n, (n < 400)%nat -> doe < ystart (Z.of_nat n) + ylen (Z.of_nat n) ->
    exists yoe, 0 <= yoe < 400 /\ ystart yoe <= doe < ystart yoe + ylen yoe) as H.
  { induction n as [|n IH]; intros Hn Hlt; [exists 0; change (Z.of_nat 0) with 0 in Hlt; lia|].
    destruct (Z.le_gt_cases (ystart (Z.of_nat (S n))) doe); [exists (Z.of_nat (S n)); lia|].
    apply IH; [lia|]. rewrite <- ystart_next by lia. replace (Z.of_nat n + 1) with (Z.of_nat (S n)) by lia. lia. }
  apply (H 399%nat); [lia|]. change (Z.of_nat 399) with 399. lia.
Qed.

(** ** Months *)

(** The month of a March-based month number, and the year's share in it. *)
Definition month_of (mp : Z) : Z := if mp <? 10 then mp + 3 else mp - 9.
Definition carry (m : Z) : Z := if m <=? 2 then 1 else 0.

Lemma month_facts mp :
  0 <= mp <= 11 -> 1 <= month_of mp <= 12 /\ (month_of mp + 9) mod 12 = mp /\ carry (month_of mp) = (if mp <? 10 then 0 else 1).
Proof.
  intros H. unfold month_of, carry. destruct (Z.ltb_spec mp 10).
  - split; [lia|]. split; [replace (mp + 3 + 9) with (mp + 1 * 12) by lia; rewrite Z_mod_plus_full; apply Z.mod_small; lia|].
    destruct (Z.leb_spec (mp + 3) 2); lia.
  - split; [lia|]. split; [replace (mp - 9 + 9) with mp by lia; apply Z.mod_small; lia|]. destruct (Z.leb_spec (mp - 9) 2); lia.
Qed.

Lemma of_month m : 1 <= m <= 12 -> let mp := (m + 9) mod 12 in 0 <= mp <= 11 /\ month_of mp = m.
Proof.
  intros H mp. assert (0 <= mp < 12) by (apply Z.mod_pos_bound; lia). split; [lia|]. unfold month_of, mp in *.
  assert (exists k, m + 9 = k * 12 + (m + 9) mod 12) as [k Hk] by (exists ((m + 9) / 12); pose proof (Z.div_mod (m + 9) 12); lia).
  destruct (Z.ltb_spec ((m + 9) mod 12) 10); lia.
Qed.

(** Month lengths: all but February are fixed, February fills the year. *)
Lemma month_length mp y :
  0 <= mp <= 11 ->
  mstart mp + days_in_month (y + carry (month_of mp)) (month_of mp) = if mp <? 11 then mstart (mp + 1) else ylen y.
Proof.
  intros H. assert (mp = 0 \/ mp = 1 \/ mp = 2 \/ mp = 3 \/ mp = 4 \/ mp = 5 \/ mp = 6 \/ mp = 7 \/ mp = 8 \/ mp = 9 \/ mp = 10 \/ mp = 11) as Hc by lia.
  repeat (destruct Hc as [-> |Hc]; [reflexivity|]). subst mp.
  change (month_of 11) with 2. change (carry 2) with 1. unfold days_in_month, ylen. cbn. by destruct (leap (y + 1)).
Qed.

Lemma mstart_month mp doy : 0 <= mp <= 11 -> mstart mp <= doy -> (mp < 11 -> doy < mstart (mp + 1)) -> doy <= 365 -> (5 * doy + 2) / 153 = mp.
Proof. unfold mstart. intros H H1 H2 H3. destruct (decide (mp = 11)) as [-> |]; euclid. Qed.

Lemma month_exists doy : 0 <= doy <= 365 -> let mp := (5 * doy + 2) / 153 in 0 <= mp <= 11 /\ mstart mp <= doy /\ (mp < 11 -> doy < mstart (mp + 1)).
Proof. intros H mp. unfold mp, mstart. split_and!; euclid. Qed.

(** ** The two conversions are inverse *)

Lemma days_in_month_period y k m : days_in_month (y + k * 400) m = days_in_month y m.
Proof. unfold days_in_month. by rewrite leap_period. Qed.

(** The day of year of a valid date. *)
Lemma valid_doy y m d :
  valid_ymd y m d -> let mp := (m + 9) mod 12 in let yy := y - carry m in
  0 <= mp <= 11 /\ mstart mp <= mstart mp + d - 1 < ylen (yy mod 400) /\ (mp < 11 -> mstart mp + d - 1 < mstart (mp + 1)).
Proof.
  intros [Hm Hd] mp yy. destruct (of_month m Hm) as [Hmp Em]. fold mp in Hmp, Em.
  pose proof (month_length mp (yy mod 400) Hmp) as HL. rewrite Em in HL.
  assert (days_in_month (yy mod 400 + carry m) m = days_in_month y m) as Ed.
  { rewrite <- (days_in_month_period _ (yy / 400)). f_equal. pose proof (Z.div_mod yy 400 ltac:(lia)). unfold yy in *. lia. }
  rewrite Ed in HL. pose proof (ylen_bounds (yy mod 400)).
  destruct (Z.ltb_spec mp 11).
  - assert (mstart (mp + 1) <= 337) by (unfold mstart; euclid). lia.
  - lia.
Qed.

Lemma civ_carry y m d : civ y m d = (y - carry m) / 400 * 146097 + (ystart ((y - carry m) mod 400) + (mstart ((m + 9) mod 12) + d - 1)) - 719468.
Proof. unfold civ, carry. destruct (m <=? 2); [done|]. by rewrite Z.sub_0_r. Qed.

Lemma ystart_range yoe : 0 <= yoe < 400 -> 0 <= ystart yoe /\ ystart yoe + ylen yoe <= 146097.
Proof.
  intros H. split; [apply ystart_nonneg; lia|].
  assert (forallb (fun y => ystart y + ylen y <=? 146097) (seqZ 0 400) = true) as A by (by vm_compute).
  rewrite forallb_forall in A. apply Z.leb_le, A, list_elem_of_In, elem_of_seqZ. lia.
Qed.

Lemma ymd_civ y m d : valid_ymd y m d -> ymd (civ y m d) = (y, m, d).
Proof.
  intros V. destruct (valid_doy y m d V) as (Hmp & Hdoy & Hnext). rewrite civ_carry.
  set (yy := y - carry m) in *. set (mp := (m + 9) mod 12) in *. set (doy := mstart mp + d - 1) in *.
  assert (0 <= yy mod 400 < 400) as Hyoe by (apply Z.mod_pos_bound; lia).
  pose proof (ystart_range _ Hyoe) as Hr. pose proof (ylen_bounds (yy mod 400)) as Hl.
  assert (0 <= mstart mp) by (unfold mstart; euclid).
  unfold ymd. replace (yy / 400 * 146097 + (ystart (yy mod 400) + doy) - 719468 + 719468) with ((ystart (yy mod 400) + doy) + yy / 400 * 146097) by lia.
  rewrite Z.div_add, Z_mod_plus_full, (Z.div_small (ystart (yy mod 400) + doy)), (Z.mod_small (ystart (yy mod 400) + doy)) by lia. rewrite Z.add_0_l.
  rewrite (yoe_of_year (yy mod 400)) by lia. replace (ystart (yy mod 400) + doy - ystart (yy mod 400)) with doy by lia.
  rewrite (mstart_month mp doy) by lia. fold (month_of mp). destruct V as [Hm _]. destruct (of_month m Hm) as [_ Em]. fold mp in Em. rewrite Em.
  pose proof (Z.div_mod yy 400 ltac:(lia)). unfold yy, doy, carry in *. f_equal; [f_equal|lia]. destruct (m <=? 2); lia.
Qed.

Lemma civ_ymd z : let '(y, m, d) := ymd z in valid_ymd y m d /\ civ y m d = z.
Proof.
  unfold ymd. set (era := (z + 719468) / 146097). set (doe := (z + 719468) mod 146097).
  assert (0 <= doe < 146097) as Hdoe by (apply Z.mod_pos_bound; lia).
  assert (z + 719468 = 146097 * era + doe) as Ez by (apply Z.div_mod; lia).
  destruct (year_exists doe Hdoe) as (yoe & Hyoe & Hr). rewrite (yoe_of_year yoe doe) by done.
  set (doy := doe - ystart yoe). pose proof (ylen_bounds yoe). destruct (month_exists doy ltac:(unfold doy; lia)) as (Hmp & H1 & H2).
  set (mp := (5 * doy + 2) / 153) in *. fold (month_of mp). destruct (month_facts mp Hmp) as (Hm & Emp & Ec).
  set (y := if month_of mp <=? 2 then yoe + era * 400 + 1 else yoe + era * 400).
  assert (y - carry (month_of mp) = yoe + era * 400) as Ey by (unfold y, carry; destruct (month_of mp <=? 2); lia).
  pose proof (month_length mp yoe Hmp) as HL.
  assert (days_in_month y (month_of mp) = days_in_month (yoe + carry (month_of mp)) (month_of mp)) as Ed.
  { rewrite <- (days_in_month_period (yoe + carry (month_of mp)) era). f_equal. lia. }
  split.
  - split; [done|]. rewrite Ed. destruct (Z.ltb_spec mp 11); lia.
  - rewrite civ_carry, Ey, Emp. rewrite Z.div_add, Z_mod_plus_full, Z.div_small, Z.mod_small by lia. unfold doy in *. lia.
Qed.

(** ** The checked conversions *)

Lemma chk_ok z : i64 z -> chk z = Ok z.
Proof. intros H. unfold chk. by rewrite decide_True. Qed.

Lemma era_floor y : Z.quot (if 0 <=? y then y else y - 399) 400 = y / 400.
Proof. destruct (Z.leb_spec 0 y); euclid. Qed.

Lemma days_from_civil_ok y m d :
  - 2 ^ 50 <= y <= 2 ^ 50 -> 1 <= m <= 12 -> 1 <= d <= 31 -> days_from_civil y m d = Ok (civ y m d).
Proof.
  change (2 ^ 50) with 1125899906842624. intros Hy Hm Hd. unfold days_from_civil, civ.
  assert ((if m <=? 2 then chk (y - 1) else Ok y) = Ok (if m <=? 2 then y - 1 else y)) as ->.
  { destruct (m <=? 2); [apply chk_ok; unfold i64; lia|done]. }
  cbn [rbind]. set (yy := if m <=? 2 then y - 1 else y). assert (-1125899906842625 <= yy <= 1125899906842624) as Hyy by (unfold yy; destruct (m <=? 2); lia).
  assert ((if 0 <=? yy then Ok yy else chk (yy - 399)) = Ok (if 0 <=? yy then yy else yy - 399)) as ->.
  { destruct (0 <=? yy); [done|apply chk_ok; unfold i64; lia]. }
  cbn [rbind]. rewrite era_floor. set (era := yy / 400). set (yoe := yy mod 400).
  pose proof (Z.div_mod yy 400 ltac:(lia)) as Ey. fold era yoe in Ey. assert (0 <= yoe < 400) as Hyoe by (apply Z.mod_pos_bound; lia).
  replace (yy - era * 400) with yoe by lia. rewrite (chk_ok yoe) by (unfold i64; lia). cbn [rbind].
  assert ((if 2 <? m then chk (m - 3) else chk (m + 9)) = Ok ((m + 9) mod 12)) as ->.
  { destruct (Z.ltb_spec 2 m); rewrite chk_ok by (unfold i64; lia); f_equal; euclid. }
  cbn [rbind]. set (mp := (m + 9) mod 12). assert (0 <= mp < 12) as Hmp by (apply Z.mod_pos_bound; lia).
  rewrite (chk_ok (153 * mp + 2)) by (unfold i64; lia). cbn [rbind]. rewrite (Z.quot_div_nonneg (153 * mp + 2)) by lia. fold (mstart mp).
  assert (0 <= mstart mp <= 337) as Hms by (unfold mstart; euclid).
  rewrite (chk_ok (mstart mp + (d - 1))) by (unfold i64; lia). cbn [rbind].
  rewrite !Z.quot_div_nonneg by lia. replace (yoe * 365 + yoe / 4 - yoe / 100) with (ystart yoe) by (unfold ystart; lia).
  pose proof (ystart_range yoe Hyoe) as Hys. pose proof (ylen_bounds yoe).
  rewrite (chk_ok (ystart yoe + (mstart mp + (d - 1)))) by (unfold i64; lia). cbn [rbind].
  rewrite (chk_ok (era * 146097)) by (unfold i64; lia). cbn [rbind].
  rewrite (chk_ok (era * 146097 + _)) by (unfold i64; lia). cbn [rbind].
  rewrite chk_ok by (unfold i64; lia). f_equal. lia.
Qed.

Lemma civil_from_days_ok z : - 2 ^ 62 <= z <= 2 ^ 62 -> civil_from_days z = Ok (ymd z).
Proof.
  change (2 ^ 62) with 4611686018427387904. intros Hz. unfold civil_from_days, ymd. rewrite chk_ok by (unfold i64; lia). cbn [rbind].
  set (w := z + 719468).
  assert ((if 0 <=? w then Ok w else chk (w - 146096)) = Ok (if 0 <=? w then w else w - 146096)) as ->.
  { destruct (0 <=? w); [done|apply chk_ok; unfold i64; lia]. }
  cbn [rbind]. assert (Z.quot (if 0 <=? w then w else w - 146096) 146097 = w / 146097) as -> by (destruct (Z.leb_spec 0 w); euclid).
  assert (w - w / 146097 * 146097 = w mod 146097) as -> by (rewrite Z.mod_eq by lia; lia).
  set (doe := w mod 146097). assert (0 <= doe < 146097) as Hd by (apply Z.mod_pos_bound; lia).
  assert (Z.quot (doe - Z.quot doe 1460 + Z.quot doe 36524 - Z.quot doe 146096) 365 = yoe_of doe) as ->.
  { unfold yoe_of. rewrite !(Z.quot_div_nonneg doe) by lia. apply Z.quot_div_nonneg; [|lia]. euclid. }
  destruct (year_exists doe Hd) as (yoe & Hyoe & Hr). rewrite (yoe_of_year yoe doe) by done. rewrite !(Z.quot_div_nonneg yoe) by lia.
  fold (ystart yoe). set (doy := doe - ystart yoe). pose proof (ylen_bounds yoe).
  rewrite (Z.quot_div_nonneg (5 * doy + 2)) by (unfold doy; lia). set (mp := (5 * doy + 2) / 153).
  assert (0 <= mp) by (apply Z.div_pos; unfold doy; lia). rewrite (Z.quot_div_nonneg (153 * mp + 2)) by lia. done.
Qed.

Lemma valid_spec y m d : is_valid_ymd y m d = true <-> valid_ymd y m d.
Proof.
  unfold is_valid_ymd, valid_ymd, between. destruct (Z.leb_spec 1 m), (Z.leb_spec m 12); cbn [andb negb orb]; try (split; [done|lia]).
  destruct (Z.ltb_spec d 1); [split; [done|lia]|].
  assert (m = 1 \/ m = 2 \/ m = 3 \/ m = 4 \/ m = 5 \/ m = 6 \/ m = 7 \/ m = 8 \/ m = 9 \/ m = 10 \/ m = 11 \/ m = 12) as Hc by lia.
  unfold days_in_month.
  do 11 (destruct Hc as [-> |Hc]; [match goal with |- context [Z.to_nat ?e] => let v := eval vm_compute in (Z.to_nat e) in change (Z.to_nat e) with v end;
    cbn -[Z.leb leap]; destruct (leap y); cbn -[Z.leb leap]; rewrite Z.leb_le; lia|]). subst m.
  change (Z.to_nat (12 - 1)) with 11%nat. cbn -[Z.leb leap]. rewrite Z.leb_le. lia.
Qed.

Lemma days_in_month_bounds y m : 28 <= days_in_month y m <= 31.
Proof. unfold days_in_month. repeat case_match; lia. Qed.

(** The day after. *)
Definition next_day (y m d : Z) : Z * Z * Z :=
  if d <? days_in_month y m then (y, m, d + 1)
  else if m <? 12 then (y, m + 1, 1)
  else (y + 1, 1, 1).

Lemma civ_next y m d : valid_ymd y m d -> let '(y', m', d') := next_day y m d in valid_ymd y' m' d' /\ civ y' m' d' = civ y m d + 1.
Proof.
  intros V. pose proof V as [Hm Hd]. unfold next_day. destruct (Z.ltb_spec d (days_in_month y m)).
  { split; [split; lia|]. rewrite !civ_carry. lia. }
  assert (d = days_in_month y m) as Ed by lia.
  destruct (valid_doy y m d V) as (Hmp & _). set (mp := (m + 9) mod 12) in *.
  destruct (of_month m Hm) as [_ Em]. fold mp in Em. set (yy := y - carry m) in *.
  assert (0 <= yy mod 400 < 400) as Hyoe by (apply Z.mod_pos_bound; lia).
  pose proof (month_length mp (yy mod 400) Hmp) as HL. rewrite Em in HL.
  assert (days_in_month (yy mod 400 + carry m) m = d) as Edm.
  { rewrite Ed, <- (days_in_month_period _ (yy / 400)). f_equal. pose proof (Z.div_mod yy 400 ltac:(lia)). unfold yy in *. lia. }
  rewrite Edm in HL.
  assert (forall y' m', 1 <= m' <= 12 -> valid_ymd y' m' 1) as Hv by (intros; split; [done|pose proof (days_in_month_bounds y' m'); lia]).
  destruct (Z.ltb_spec m 12); (split; [apply Hv; lia|]); rewrite !civ_carry; fold yy mp.
  - destruct (decide (m = 2)) as [-> |Hn].
    + change mp with 11 in *. change (carry 2) with 1 in yy. change (11 <? 11) with false in HL. cbn iota in HL.
      replace (y - carry (2 + 1)) with (yy + 1) by (unfold yy; change (carry (2 + 1)) with 0; lia).
      change ((2 + 1 + 9) mod 12) with 0. change (mstart 0) with 0. destruct ystart_last as [EL E0].
      destruct (decide (yy mod 400 = 399)) as [E|E].
      * assert ((yy + 1) / 400 = yy / 400 + 1 /\ (yy + 1) mod 400 = 0) as [-> ->] by euclid. rewrite E in *. lia.
      * assert ((yy + 1) / 400 = yy / 400 /\ (yy + 1) mod 400 = yy mod 400 + 1) as [-> ->] by euclid. rewrite ystart_next by lia. lia.
    + assert (carry (m + 1) = carry m /\ (m + 1 + 9) mod 12 = mp + 1 /\ mp < 11) as (-> & -> & Hlt).
      { unfold mp, carry. split; [destruct (Z.leb_spec (m + 1) 2), (Z.leb_spec m 2); lia|]. euclid. }
      fold yy. rewrite (proj2 (Z.ltb_lt _ _) Hlt) in HL. lia.
  - assert (m = 12) as -> by lia. change mp with 9 in *. change (carry 1) with 1. change ((1 + 9) mod 12) with 10. change (carry 12) with 0 in yy.
    replace (y + 1 - 1) with yy by (unfold yy; lia). change (9 <? 11) with true in HL. cbn iota in HL. change (9 + 1) with 10 in HL. lia.
Qed.

(** ** Years *)

(** March 1 and January 1. *)
Definition mar1 (y : Z) : Z := y / 400 * 146097 + ystart (y mod 400) - 719468.
Definition jan1 (y : Z) : Z := civ y 1 1.

Lemma jan1_mar1 y : jan1 y = mar1 (y - 1) + 306.
Proof. unfold jan1, mar1. rewrite civ_carry. change (carry 1) with 1. change (mstart ((1 + 9) mod 12)) with 306. lia. Qed.

Lemma mar1_next y : mar1 (y + 1) = mar1 y + ylen (y mod 400).
Proof.
  unfold mar1. assert (0 <= y mod 400 < 400) by (apply Z.mod_pos_bound; lia). destruct ystart_last as [EL E0].
  destruct (decide (y mod 400 = 399)) as [E|E].
  - assert ((y + 1) / 400 = y / 400 + 1 /\ (y + 1) mod 400 = 0) as [-> ->] by euclid. rewrite E. lia.
  - assert ((y + 1) / 400 = y / 400 /\ (y + 1) mod 400 = y mod 400 + 1) as [-> ->] by euclid. rewrite ystart_next by lia. lia.
Qed.

Lemma jan1_next y : jan1 y + 365 <= jan1 (y + 1) <= jan1 y + 366.
Proof.
  rewrite !jan1_mar1. replace (y + 1 - 1) with (y - 1 + 1) by lia. rewrite mar1_next. pose proof (ylen_bounds ((y - 1) mod 400)). lia.
Qed.

Lemma jan1_mono a b : a <= b -> jan1 a + 365 * (b - a) <= jan1 b.
Proof.
  intros H. replace b with (a + Z.of_nat (Z.to_nat (b - a))) by lia. generalize (Z.to_nat (b - a)) as n. clear. intros n.
  induction n as [|n IH]; [rewrite !Z.add_0_r; lia|]. pose proof (jan1_next (a + Z.of_nat n)).
  replace (a + Z.of_nat (S n)) with (a + Z.of_nat n + 1) by lia. lia.
Qed.

Lemma within_year y m d : valid_ymd y m d -> jan1 y <= civ y m d < jan1 (y + 1).
Proof.
  intros V. destruct (valid_doy y m d V) as (Hmp & Hdoy & Hnext). rewrite civ_carry. rewrite !jan1_mar1. replace (y + 1 - 1) with y by lia.
  pose proof (mar1_next (y - 1)) as Hn. replace (y - 1 + 1) with y in Hn by lia. pose proof (ylen_bounds ((y - 1) mod 400)).
  destruct V as [Hm _]. destruct (of_month m Hm) as [_ Em]. set (mp := (m + 9) mod 12) in *. unfold carry in *. unfold month_of in Em.
  destruct (Z.leb_spec m 2).
  - assert (10 <= mp) by (destruct (Z.ltb_spec mp 10); lia). fold (mar1 (y - 1)).
    replace ((y - 1) / 400 * 146097 + (ystart ((y - 1) mod 400) + (mstart mp + d - 1)) - 719468) with (mar1 (y - 1) + (mstart mp + d - 1)) by (unfold mar1; lia).
    assert (306 <= mstart mp) by (unfold mstart; euclid). lia.
  - assert (mp <= 9) by (destruct (Z.ltb_spec mp 10); lia). rewrite Z.sub_0_r in *.
    replace (y / 400 * 146097 + (ystart (y mod 400) + (mstart mp + d - 1)) - 719468) with (mar1 y + (mstart mp + d - 1)) by (unfold mar1; lia).
    assert (mstart (mp + 1) <= 306) by (unfold mstart; euclid). assert (0 <= mstart mp) by (unfold mstart; euclid). lia.
Qed.

Lemma year_bounds y m d : valid_ymd y m d -> -2 * Z.abs (civ y m d) - 1440000 <= 730 * y <= 2 * Z.abs (civ y m d) + 1440000.
Proof.
  intros V. pose proof (within_year y m d V). assert (jan1 0 = -719528) by (by vm_compute).
  destruct (Z.le_gt_cases 0 y) as [Hy|Hy]; [pose proof (jan1_mono 0 y Hy)|pose proof (jan1_mono (y + 1) 0 ltac:(lia))]; lia.
Qed.

(** ** ISO weeks

    Day zero is a Thursday, so the Thursdays are the multiples of seven. *)

Definition first_thursday (y : Z) : Z := 7 * ((jan1 y + 6) / 7).

Lemma first_thursday_spec y : jan1 y <= first_thursday y < jan1 y + 7.
Proof. unfold first_thursday. euclid. Qed.

Lemma jan1_period y k : jan1 (y + k * 400) = jan1 y + k * 146097.
Proof.
  unfold jan1. rewrite !civ_carry. change (carry 1) with 1. replace (y + k * 400 - 1) with (y - 1 + k * 400) by lia.
  rewrite Z.div_add, Z_mod_plus_full by lia. lia.
Qed.

Lemma dominical_period y k : iso_dominical_p (y + k * 400) = iso_dominical_p y.
Proof.
  unfold iso_dominical_p. replace ((y + k * 400) / 4) with (y / 4 + k * 100) by (replace (y + k * 400) with (y + (k * 100) * 4) by lia; rewrite Z.div_add by lia; lia).
  replace ((y + k * 400) / 100) with (y / 100 + k * 4) by (replace (y + k * 400) with (y + (k * 4) * 100) by lia; rewrite Z.div_add by lia; lia).
  rewrite Z.div_add by lia. replace (y + k * 400 + (y / 4 + k * 100) - (y / 100 + k * 4) + (y / 400 + k)) with (y + y / 4 - y / 100 + y / 400 + (k * 71) * 7) by lia.
  apply Z_mod_plus_full.
Qed.

(** The weeks of a year are its Thursdays. *)
Lemma weeks_thursdays y : iso_weeks_in_year y = (jan1 (y + 1) - 1) / 7 - (jan1 y - 1) / 7.
Proof.
  assert (forallb (fun y => iso_weeks_in_year y =? (jan1 (y + 1) - 1) / 7 - (jan1 y - 1) / 7) (seqZ 0 400) = true) as A by (by vm_compute).
  rewrite forallb_forall in A. pose proof (Z.div_mod y 400 ltac:(lia)) as E. assert (0 <= y mod 400 < 400) by (apply Z.mod_pos_bound; lia).
  specialize (A (y mod 400)). rewrite Z.eqb_eq in A. set (r := y mod 400) in *. set (k := y / 400) in *.
  replace y with (r + k * 400) by lia. replace (r + k * 400 + 1) with (r + 1 + k * 400) by lia. rewrite !jan1_period.
  assert (iso_weeks_in_year (r + k * 400) = iso_weeks_in_year r) as ->.
  { unfold iso_weeks_in_year. replace (r + k * 400 - 1) with (r - 1 + k * 400) by lia. by rewrite !dominical_period. }
  rewrite A by (apply list_elem_of_In, elem_of_seqZ; lia).
  replace (jan1 (r + 1) + k * 146097 - 1) with (jan1 (r + 1) - 1 + k * 20871 * 7) by lia.
  replace (jan1 r + k * 146097 - 1) with (jan1 r - 1 + k * 20871 * 7) by lia. rewrite !Z.div_add by lia. lia.
Qed.

Lemma iso_dow_spec d : iso_dow d = (d + 3) mod 7 + 1.
Proof. unfold iso_dow. destruct (Z.eqb_spec ((d + 4) mod 7) 0); euclid. Qed.

Lemma thursday_of d : d + 4 - iso_dow d = 7 * ((d + 3) / 7).
Proof. rewrite iso_dow_spec. euclid. Qed.

(** The year of a day is the one whose bounds hold it. *)
Lemma year_unique y y' z : jan1 y <= z < jan1 (y + 1) -> jan1 y' <= z < jan1 (y' + 1) -> y = y'.
Proof.
  intros H H'. destruct (Z.lt_trichotomy y y') as [L|[?|L]]; [|done|].
  - pose proof (jan1_mono (y + 1) y' ltac:(lia)). lia.
  - pose proof (jan1_mono (y' + 1) y ltac:(lia)). lia.
Qed.

(** The number of the week whose Thursday is [7 * t] in the year [yi] of that Thursday. *)
Lemma iso_week_pure d y yi :
  jan1 y <= d < jan1 (y + 1) -> jan1 yi <= 7 * ((d + 3) / 7) < jan1 (yi + 1) ->
  let week := (d - jan1 y + 1 - iso_dow d + 10) / 7 in
  (if week <? 1 then iso_weeks_in_year (y - 1) else if iso_weeks_in_year y <? week then 1 else week) = (d + 3) / 7 - (jan1 yi - 1) / 7.
Proof.
  intros Hd Hyi. pose proof (thursday_of d) as T. set (t := (d + 3) / 7) in *.
  assert (d - 3 <= 7 * t <= d + 3) as Ht by (unfold t; euclid).
  assert ((d - jan1 y + 1 - iso_dow d + 10) / 7 = t - (jan1 y - 1) / 7) as ->
    by (replace (d - jan1 y + 1 - iso_dow d + 10) with (7 * t + 7 - jan1 y) by lia; clear; euclid).
  cbv zeta. rewrite !weeks_thursdays. replace (y - 1 + 1) with y by lia. pose proof (jan1_next y). pose proof (jan1_next (y - 1)) as Hp. replace (y - 1 + 1) with y in Hp by lia.
  pose proof (jan1_next (y + 1)).
  destruct (Z.lt_ge_cases (7 * t) (jan1 y)) as [L|L].
  - assert (yi = y - 1) as -> by (eapply (year_unique _ _ (7 * t)); [done|replace (y - 1 + 1) with y by lia; lia]).
    assert (t <= (jan1 y - 1) / 7) by (clear - L; euclid). assert ((jan1 y - 1) / 7 <= t) by (clear - Ht Hd; euclid).
    destruct (Z.ltb_spec (t - (jan1 y - 1) / 7) 1); lia.
  - assert ((jan1 y - 1) / 7 < t) by (clear - L; euclid). destruct (Z.ltb_spec (t - (jan1 y - 1) / 7) 1); [lia|].
    destruct (Z.lt_ge_cases (7 * t) (jan1 (y + 1))) as [L'|L'].
    + assert (yi = y) as -> by (by eapply (year_unique _ _ (7 * t))). assert (t <= (jan1 (y + 1) - 1) / 7) by (clear - L'; euclid).
      destruct (Z.ltb_spec ((jan1 (y + 1) - 1) / 7 - (jan1 y - 1) / 7) (t - (jan1 y - 1) / 7)); lia.
    + assert (yi = y + 1) as -> by (eapply (year_unique _ _ (7 * t)); [done|lia]).
      assert ((jan1 (y + 1) - 1) / 7 < t <= (jan1 (y + 1) - 1) / 7 + 1) by (clear - L' Ht Hd; split; euclid).
      destruct (Z.ltb_spec ((jan1 (y + 1) - 1) / 7 - (jan1 y - 1) / 7) (t - (jan1 y - 1) / 7)); lia.
Qed.

(** ** Months *)

(** The first day of month [k], counted from January of year zero. *)
Definition month_start (k : Z) : Z := civ (k / 12) (k mod 12 + 1) 1.

Lemma month_index y m : 1 <= m <= 12 -> (12 * y + (m - 1)) / 12 = y /\ (12 * y + (m - 1)) mod 12 = m - 1.
Proof. intros. split; euclid. Qed.

Lemma civ_month y m d : 1 <= m <= 12 -> civ y m d = month_start (12 * y + (m - 1)) + d - 1.
Proof. intros Hm. unfold month_start. destruct (month_index y m Hm) as [-> ->]. replace (m - 1 + 1) with m by lia. rewrite !civ_carry. lia. Qed.

Definition month_days (k : Z) : Z := days_in_month (k / 12) (k mod 12 + 1).

Lemma month_start_next k : month_start (k + 1) = month_start k + month_days k.
Proof.
  unfold month_days. pose proof (Z.mod_pos_bound k 12 ltac:(lia)). set (y := k / 12). set (m := k mod 12 + 1).
  assert (valid_ymd y m (days_in_month y m)) as V by (pose proof (days_in_month_bounds y m); split; lia).
  pose proof (civ_next _ _ _ V) as N. unfold next_day in N. rewrite Z.ltb_irrefl in N.
  assert (k = 12 * y + (m - 1)) as E by (unfold y, m; euclid). rewrite (civ_month y m) in N by lia. rewrite <- E in N.
  destruct (Z.ltb_spec m 12); destruct N as [_ N]; rewrite civ_month in N by lia.
  - replace (12 * y + (m + 1 - 1)) with (k + 1) in N by lia. lia.
  - replace (12 * (y + 1) + (1 - 1)) with (k + 1) in N by lia. lia.
Qed.

Lemma month_start_mono a b : a <= b -> month_start a + 28 * (b - a) <= month_start b.
Proof.
  intros H. replace b with (a + Z.of_nat (Z.to_nat (b - a))) by lia. generalize (Z.to_nat (b - a)) as n. clear. intros n.
  induction n as [|n IH]; [rewrite !Z.add_0_r; lia|]. pose proof (month_start_next (a + Z.of_nat n)). unfold month_days in *.
  pose proof (days_in_month_bounds ((a + Z.of_nat n) / 12) ((a + Z.of_nat n) mod 12 + 1)).
  replace (a + Z.of_nat (S n)) with (a + Z.of_nat n + 1) by lia. lia.
Qed.

Lemma within_month y m d : valid_ymd y m d -> let k := 12 * y + (m - 1) in month_start k <= civ y m d < month_start (k + 1).
Proof.
  intros [Hm Hd]. cbv zeta. rewrite month_start_next, civ_month by done. unfold month_days.
  destruct (month_index y m Hm) as [-> ->]. replace (m - 1 + 1) with m by lia. lia.
Qed.
