(* ===== verification/TemporalThm.v ===== *)
(** * What the calendar and the arithmetic on instants promise

    Dates count days and timestamps microseconds from the start of 1970. The
    conversions are inverse to each other and follow the civil calendar day by
    day; truncation finds the last boundary of the unit; adding an interval moves
    by whole months, clamps the day, then adds days and microseconds; the ISO week
    is the rank of its Thursday. *)

From stdpp Require Import base list sets strings.
From Stdlib Require Import ZArith Lia Strings.Byte.
From S2P Require Import Prelude Order Codec Numeric NumericThm Interval Temporal TemporalFacts.
Import Temporal.
#[local] Open Scope Z_scope.

(** ** Instants *)

Lemma instant_day ts : i64 ts -> - 106751992 <= ts / MICROS_PER_DAY <= 106751991.
Proof. unfold i64, MICROS_PER_DAY, MICROS_PER_SEC. change (2 ^ 63) with 9223372036854775808. intros. split; euclid. Qed.

Lemma instant_civil ts : i64 ts -> let z := ts / MICROS_PER_DAY in
  exists y m d, civil_from_days z = Ok (y, m, d) /\ valid_ymd y m d /\ civ y m d = z /\ - 300000 <= y <= 300000.
Proof.
  intros H. pose proof (instant_day ts H) as B. cbv zeta. set (z := ts / MICROS_PER_DAY) in *. rewrite civil_from_days_ok by (change (2 ^ 62) with 4611686018427387904; lia).
  pose proof (civ_ymd z) as C. destruct (ymd z) as [[y m] d]. destruct C as [V E]. exists y, m, d. split_and!; try done;
    pose proof (year_bounds y m d V); rewrite E in *; lia.
Qed.

Lemma micros_split ts : ts = ts / MICROS_PER_DAY * MICROS_PER_DAY + ts mod MICROS_PER_DAY /\ 0 <= ts mod MICROS_PER_DAY < MICROS_PER_DAY.
Proof. split; [rewrite (Z.div_mod ts MICROS_PER_DAY) at 1 by done; lia|by apply Z.mod_pos_bound]. Qed.

(** ** Units of truncation *)

Inductive unit_ := Fixed (len off : Z) | Months (len off : Z).

(** The boundary number [k]. *)
Definition boundary (u : unit_) (k : Z) : Z :=
  match u with
  | Fixed len off => k * len + off
  | Months len off => month_start (k * len + off) * MICROS_PER_DAY
  end.

Definition fixed_units : list (string * Z) :=
  [("microsecond", 1); ("microseconds", 1); ("millisecond", 1000); ("milliseconds", 1000); ("second", 1000000);
   ("minute", 60000000); ("hour", 3600000000); ("day", 86400000000)]%string.

(** A week starts on Monday, a century on the year after a multiple of a hundred. *)
Definition calendar_units : list (string * unit_) :=
  [("week", Fixed (7 * MICROS_PER_DAY) (-3 * MICROS_PER_DAY)); ("month", Months 1 0); ("quarter", Months 3 0); ("year", Months 12 0);
   ("decade", Months 120 0); ("century", Months 1200 (-1188)); ("millennium", Months 12000 (-11988))]%string.

Lemma floor_fixed micros len : 0 < len -> boundary (Fixed len 0) (micros / len) <= micros < boundary (Fixed len 0) (micros / len + 1) /\ micros - micros mod len = boundary (Fixed len 0) (micros / len).
Proof. intros H. cbn. pose proof (Z.div_mod micros len ltac:(lia)). pose proof (Z.mod_pos_bound micros len H). nia. Qed.

Lemma trunc_chk micros len : 0 < len ->
  (let? z := chk (micros - micros mod len) in Ok (Some z)) =
  (if decide (i64 (boundary (Fixed len 0) (micros / len))) then Ok (Some (boundary (Fixed len 0) (micros / len))) else Panic).
Proof. intros H. destruct (floor_fixed micros len H) as [_ ->]. unfold chk. by case_decide. Qed.

Lemma date_trunc_fixed field len micros : (field, len) ∈ fixed_units -> i64 micros ->
  exists k, boundary (Fixed len 0) k <= micros < boundary (Fixed len 0) (k + 1) /\
    date_trunc_micros field micros = (if decide (i64 (boundary (Fixed len 0) k)) then Ok (Some (boundary (Fixed len 0) k)) else Panic).
Proof.
  intros Hf Hm. exists (micros / len). unfold fixed_units in Hf. rewrite !elem_of_cons, elem_of_nil in Hf.
  destruct_or! Hf; simplify_eq; (split; [apply floor_fixed; lia|]); rewrite <- trunc_chk by lia; try reflexivity.
  all: by rewrite Z.mod_1_r, Z.sub_0_r, chk_ok.
Qed.

Lemma start_month y m : - 2 ^ 50 <= y <= 2 ^ 50 -> 1 <= m <= 12 -> days_from_civil y m 1 = Ok (month_start (12 * y + (m - 1))).
Proof. intros. rewrite days_from_civil_ok, civ_month by lia. f_equal. lia. Qed.

Lemma months_bound y m d first len micros :
  valid_ymd y m d -> civ y m d = micros / MICROS_PER_DAY -> first <= 12 * y + (m - 1) < first + len ->
  month_start first * MICROS_PER_DAY <= micros < month_start (first + len) * MICROS_PER_DAY.
Proof.
  intros V E H. pose proof (within_month y m d V) as W. cbv zeta in W. rewrite E in W. destruct (micros_split micros) as [S T].
  pose proof (month_start_mono first (12 * y + (m - 1)) ltac:(lia)). pose proof (month_start_mono (12 * y + (m - 1) + 1) (first + len) ltac:(lia)).
  unfold MICROS_PER_DAY, MICROS_PER_SEC in *. lia.
Qed.

(** The common form of the calendar units: [Y] and [M] pick the year and month where the unit starts. *)
Lemma trunc_calendar (Y M : Z -> Z -> Z) len off micros :
  (forall y m, 1 <= m <= 12 -> - 300000 <= y <= 300000 ->
    exists k, 12 * Y y m + (M y m - 1) = k * len + off /\ k * len + off <= 12 * y + (m - 1) < (k + 1) * len + off /\ 1 <= M y m <= 12 /\ - 400000 <= Y y m <= 400000) ->
  i64 micros ->
  exists k, boundary (Months len off) k <= micros < boundary (Months len off) (k + 1) /\
    (let? '(y, m, d) := civil_from_days (micros / MICROS_PER_DAY) in
     let? start_day := days_from_civil (Y y m) (M y m) 1 in Ok (checked_i64 (start_day * MICROS_PER_DAY)))
    = Ok (checked_i64 (boundary (Months len off) k)).
Proof.
  intros H Hm. destruct (instant_civil micros Hm) as (y & m & d & Hc & V & E & B). rewrite Hc. cbn [rbind].
  destruct (H y m (proj1 V) B) as (k & K1 & K2 & HM & HY). exists k. cbn [boundary]. split.
  - replace ((k + 1) * len + off) with (k * len + off + len) by lia. apply (months_bound y m d); [done..|lia].
  - rewrite start_month by (change (2 ^ 50) with 1125899906842624; lia). cbn [rbind]. by rewrite K1.
Qed.

Lemma trunc_week micros : i64 micros ->
  let u := Fixed (7 * MICROS_PER_DAY) (-3 * MICROS_PER_DAY) in
  exists k, boundary u k <= micros < boundary u (k + 1) /\ date_trunc_micros "week" micros = Ok (checked_i64 (boundary u k)).
Proof.
  intros Hm u. exists ((micros / MICROS_PER_DAY + 3) / 7). destruct (micros_split micros) as [S T]. destruct (instant_civil micros Hm) as (y & m & d & Hc & _).
  set (z := micros / MICROS_PER_DAY) in *. assert (z - (z + 3) mod 7 = 7 * ((z + 3) / 7) - 3 /\ 0 <= (z + 3) mod 7 < 7) as [E B] by (split; euclid).
  split; [unfold u; cbn [boundary]; change MICROS_PER_DAY with 86400000000 in *; lia|].
  transitivity (let? '(y, m, d) := civil_from_days z in Ok (checked_i64 ((z - (z + 3) mod 7) * MICROS_PER_DAY)) : arith (option Z)); [reflexivity|].
  rewrite Hc. cbn [rbind]. do 2 f_equal. rewrite E. unfold u. cbn [boundary]. lia.
Qed.

Lemma date_trunc_calendar field u micros : (field, u) ∈ calendar_units -> i64 micros ->
  exists k, boundary u k <= micros < boundary u (k + 1) /\ date_trunc_micros field micros = Ok (checked_i64 (boundary u k)).
Proof.
  intros Hf Hm. unfold calendar_units in Hf. rewrite !elem_of_cons, elem_of_nil in Hf. destruct_or! Hf; simplify_eq; [by apply trunc_week|..].
  - apply (trunc_calendar (fun y m => y) (fun y m => m)); [|done]. intros y m ? ?. exists (12 * y + (m - 1)). lia.
  - apply (trunc_calendar (fun y m => y) (fun y m => Z.quot (m - 1) 3 * 3 + 1)); [|done]. intros y m ? ?. exists (4 * y + (m - 1) / 3).
    rewrite Z.quot_div_nonneg by lia. split_and!; euclid.
  - apply (trunc_calendar (fun y m => y) (fun y m => 1)); [|done]. intros y m ? ?. exists y. lia.
  - apply (trunc_calendar (fun y m => y - y mod 10) (fun y m => 1)); [|done]. intros y m ? ?. exists (y / 10). split_and!; euclid.
  - apply (trunc_calendar (fun y m => (century_of y - 1) * 100 + 1) (fun y m => 1)); [|done]. unfold century_of. intros y m ? ?. exists ((y - 1) / 100 + 1). split_and!; euclid.
  - apply (trunc_calendar (fun y m => (millennium_of y - 1) * 1000 + 1) (fun y m => 1)); [|done]. unfold millennium_of. intros y m ? ?. exists ((y - 1) / 1000 + 1). split_and!; euclid.
Qed.

Lemma date_trunc_unknown field micros : i64 micros -> field ∉ fixed_units.*1 -> field ∉ calendar_units.*1 -> date_trunc_micros field micros = Ok None.
Proof.
  intros Hm Hf Hc. unfold date_trunc_micros. destruct (instant_civil micros Hm) as (y & m & d & -> & _).
  cbn in Hf, Hc. rewrite !not_elem_of_cons in Hf, Hc. destruct_and! Hf. destruct_and! Hc.
  rewrite 2 decide_False by (rewrite !elem_of_cons, elem_of_nil; intuition congruence). cbn [rbind]. repeat (case_decide; [subst; set_solver|]). done.
Qed.

(** ** Adding an interval *)

Lemma jan1_upper a b : a <= b -> jan1 b <= jan1 a + 366 * (b - a).
Proof.
  intros H. replace b with (a + Z.of_nat (Z.to_nat (b - a))) by lia. generalize (Z.to_nat (b - a)) as n. clear. intros n.
  induction n as [|n IH]; [rewrite !Z.add_0_r; lia|]. pose proof (jan1_next (a + Z.of_nat n)).
  replace (a + Z.of_nat (S n)) with (a + Z.of_nat n + 1) by lia. lia.
Qed.

Lemma civ_bounds y m d : valid_ymd y m d -> - 366 * Z.abs y - 720000 <= civ y m d <= 366 * Z.abs y + 720000.
Proof.
  intros V. pose proof (within_year y m d V). assert (jan1 0 = -719528) by (by vm_compute).
  destruct (Z.le_gt_cases 0 y) as [Hy|Hy].
  - pose proof (jan1_mono 0 y Hy). pose proof (jan1_upper 0 (y + 1) ltac:(lia)). lia.
  - pose proof (jan1_upper y 0 ltac:(lia)). pose proof (jan1_mono (y + 1) 0 ltac:(lia)). lia.
Qed.

(** The instant an interval leads to: whole months first, the day clamped to the new month, then days and microseconds. *)
Definition shifted (ts months days micros : Z) : Z :=
  let '(y, m, d) := ymd (ts / MICROS_PER_DAY) in
  let k := 12 * y + (m - 1) + months in
  (month_start k + Z.min d (month_days k) - 1 + days) * MICROS_PER_DAY + ts mod MICROS_PER_DAY + micros.

Lemma add_interval_ok ts months days micros : i64 ts -> i32 months -> i32 days ->
  add_interval_to_micros ts months days micros = Ok (checked_i64 (shifted ts months days micros)).
Proof.
  intros H Hmo Hda. destruct (instant_civil ts H) as (y & m & d & Hc & V & E & B). unfold add_interval_to_micros, shifted. rewrite Hc. cbn [rbind].
  rewrite <- E, ymd_civ by done. unfold i32 in *. change (2 ^ 31) with 2147483648 in *. destruct V as [Hm Hd].
  replace (12 * y + (m - 1) + months) with (y * 12 + (m - 1) + months) by lia. set (k := y * 12 + (m - 1) + months).
  assert (- 200000000 <= k / 12 <= 200000000) as Hk by (unfold k; clear -B Hmo Hm; split; euclid). pose proof (Z.mod_pos_bound k 12 ltac:(lia)) as Hr.
  fold (month_days k). set (nd := Z.min d (month_days k)). pose proof (days_in_month_bounds (k / 12) (k mod 12 + 1)) as Hdm. fold (month_days k) in Hdm.
  pose proof (days_in_month_bounds y m) as Hdm'. assert (1 <= nd <= month_days k) as Hnd by lia.
  rewrite days_from_civil_ok by (change (2 ^ 50) with 1125899906842624; lia). cbn [rbind].
  pose proof (civ_bounds (k / 12) (k mod 12 + 1) nd ltac:(split; [lia|exact Hnd])) as Cb. rewrite chk_ok by (unfold i64; lia). cbn [rbind]. do 2 f_equal.
  rewrite civ_month by lia. replace (12 * (k / 12) + (k mod 12 + 1 - 1)) with k by (rewrite (Z.div_mod k 12) at 1 by lia; lia). done.
Qed.

Lemma shifted_no_months ts days micros : shifted ts 0 days micros = ts + days * MICROS_PER_DAY + micros.
Proof.
  unfold shifted. pose proof (civ_ymd (ts / MICROS_PER_DAY)) as C. destruct (ymd (ts / MICROS_PER_DAY)) as [[y m] d]. destruct C as [[Hm Hd] E].
  rewrite Z.add_0_r. rewrite civ_month in E by done. unfold month_days. destruct (month_index y m Hm) as [-> ->]. replace (m - 1 + 1) with m by lia.
  rewrite Z.min_l by lia. destruct (micros_split ts) as [S _]. rewrite S at 2. rewrite <- E. lia.
Qed.

(** ** Age *)

(** Instants in calendar order. *)
Lemma calendar_order y m d y' m' d' : valid_ymd y m d -> valid_ymd y' m' d' -> civ y' m' d' <= civ y m d ->
  12 * y' + (m' - 1) <= 12 * y + (m - 1) /\ (12 * y' + (m' - 1) = 12 * y + (m - 1) -> civ y m d - civ y' m' d' = d - d').
Proof.
  intros V V' H. pose proof (within_month _ _ _ V) as W. pose proof (within_month _ _ _ V') as W'. cbv zeta in *. split.
  - destruct (Z.le_gt_cases (12 * y' + (m' - 1)) (12 * y + (m - 1))) as [|L]; [done|].
    pose proof (month_start_mono (12 * y + (m - 1) + 1) (12 * y' + (m' - 1)) ltac:(lia)). lia.
  - intros Ek. destruct V as [Hm _], V' as [Hm' _]. rewrite !civ_month by done. rewrite Ek. lia.
Qed.

Lemma default_i32 c x : -2147483648 <= x < 2147483648 -> default c (checked_i32 x) = x.
Proof. intros H. unfold checked_i32. by rewrite decide_True by (unfold i32; change (2 ^ 31) with 2147483648; lia). Qed.

(** The fields of a time of day, as [decompose_micros] reads them. *)
Lemma decompose_ok ts : i64 ts -> exists y m d h mi s us,
  decompose_micros ts = Ok (y, m, d, h, mi, s, us) /\ ymd (ts / MICROS_PER_DAY) = (y, m, d) /\ valid_ymd y m d /\ civ y m d = ts / MICROS_PER_DAY /\ - 300000 <= y <= 300000 /\
  (0 <= h < 24 /\ 0 <= mi < 60 /\ 0 <= s < 60 /\ 0 <= us < 1000000 /\ ts mod MICROS_PER_DAY = (h * 3600 + mi * 60 + s) * 1000000 + us).
Proof.
  intros H. destruct (instant_civil ts H) as (y & m & d & Hc & V & E & B). unfold decompose_micros. rewrite Hc. cbn [rbind].
  pose proof (Z.mod_pos_bound ts MICROS_PER_DAY ltac:(done)) as T. change MICROS_PER_DAY with 86400000000 in *. change MICROS_PER_SEC with 1000000. set (t := ts mod 86400000000) in *.
  eexists y, m, d, _, _, _, _. split_and!; [done|by rewrite <- E, ymd_civ|done|done|lia|lia|..]; clear -T; euclid.
Qed.

(** What the borrowing computes: whole months, days and time apart, a day borrowed when the
    time of day is earlier and a month, of the length of the start's own, when the day then is. *)
Definition age_of (end_ start : Z) : Z * Z * Z :=
  let '(y1, m1, d1) := ymd (end_ / MICROS_PER_DAY) in
  let '(y2, m2, d2) := ymd (start / MICROS_PER_DAY) in
  let tod := end_ mod MICROS_PER_DAY - start mod MICROS_PER_DAY in
  let months := 12 * y1 + (m1 - 1) - (12 * y2 + (m2 - 1)) in
  let days := if tod <? 0 then d1 - d2 - 1 else d1 - d2 in
  ((if days <? 0 then months - 1 else months), (if days <? 0 then days + days_in_month y2 m2 else days),
   (if tod <? 0 then tod + MICROS_PER_DAY else tod)).

Lemma age_forward_ok end_ start : i64 end_ -> i64 start -> age_forward end_ start = Ok (age_of end_ start).
Proof.
  intros He Hs. destruct (decompose_ok end_ He) as (y1 & m1 & d1 & h1 & mi1 & s1 & us1 & E1 & Y1 & [Hm1 Hd1] & _ & B1 & T1).
  destruct (decompose_ok start Hs) as (y2 & m2 & d2 & h2 & mi2 & s2 & us2 & E2 & Y2 & [Hm2 Hd2] & _ & B2 & T2).
  unfold age_forward, age_of. rewrite E1, E2, Y1, Y2. cbn [rbind]. pose proof (days_in_month_bounds y1 m1). pose proof (days_in_month_bounds y2 m2).
  destruct T1 as (? & ? & ? & ? & ->), T2 as (? & ? & ? & ? & ->). change MICROS_PER_DAY with 86400000000. change MICROS_PER_SEC with 1000000.
  set (t := (h1 * 3600 + mi1 * 60 + s1) * 1000000 + us1 - ((h2 * 3600 + mi2 * 60 + s2) * 1000000 + us2)).
  destruct (Z.ltb_spec (us1 - us2) 0), (Z.ltb_spec t 0); cbv beta iota zeta;
    repeat (match goal with |- context [if ?x <? 0 then _ else _] => destruct (Z.ltb_spec x 0) end; cbv beta iota zeta; try (exfalso; unfold t in *; lia));
    rewrite !default_i32 by lia; unfold t; f_equal; repeat (f_equal; [|lia]); f_equal; lia.
Qed.

(** ** The theorems *)

Lemma calendar_day z : - 2 ^ 50 <= z <= 2 ^ 50 -> exists y m d, civil_from_days z = Ok (y, m, d) /\ valid_ymd y m d /\ civ y m d = z /\ - 2 ^ 50 <= y <= 2 ^ 50.
Proof.
  change (2 ^ 50) with 1125899906842624. intros H. rewrite civil_from_days_ok by (change (2 ^ 62) with 4611686018427387904; lia). pose proof (civ_ymd z) as C.
  destruct (ymd z) as [[y m] d]. destruct C as [V E]. exists y, m, d. pose proof (year_bounds y m d V) as B. rewrite E in B. split_and!; done || lia.
Qed.

Lemma iso_week_ok z : - 2 ^ 40 <= z <= 2 ^ 40 -> exists y m d yi w, civil_from_days z = Ok (y, m, d) /\
  iso_year z = Ok yi /\ iso_week z y = Ok w /\ 1 <= w <= iso_weeks_in_year yi /\ z = first_thursday yi + 7 * (w - 1) + (iso_dow z - 4).
Proof.
  change (2 ^ 40) with 1099511627776. intros H. destruct (calendar_day z) as (y & m & d & Hc & V & E & B); [change (2 ^ 50) with 1125899906842624; lia|].
  pose proof (thursday_of z) as T. set (t := (z + 3) / 7) in *. assert (z - 3 <= 7 * t <= z + 3) as Ht by (unfold t; euclid).
  destruct (calendar_day (7 * t)) as (yi & mi & di & Hci & Vi & Ei & _); [change (2 ^ 50) with 1125899906842624; lia|].
  pose proof (within_year _ _ _ V) as W. rewrite E in W. pose proof (within_year _ _ _ Vi) as Wi. rewrite Ei in Wi.
  exists y, m, d, yi, (t - (jan1 yi - 1) / 7). split; [done|]. split; [unfold iso_year; by rewrite T, Hci|]. split.
  { unfold iso_week. rewrite days_from_civil_ok by (done || lia). cbn [rbind]. f_equal. by apply iso_week_pure. }
  rewrite weeks_thursdays. unfold first_thursday.
  assert ((jan1 yi + 6) / 7 = (jan1 yi - 1) / 7 + 1) as -> by (replace (jan1 yi + 6) with (jan1 yi - 1 + 1 * 7) by lia; rewrite Z.div_add by lia; lia).
  assert ((jan1 yi - 1) / 7 < t <= (jan1 (yi + 1) - 1) / 7) by (clear -Wi; split; euclid). lia.
Qed.

(** C25: The calendar is exact. Every day within three billion years has a valid
    date, which converts back to it, the next day has the date that follows it,
    and every valid date of a 51-bit year is the date of the day it converts to;
    day zero is the first of January 1970. The ISO week of a day is the rank of
    its week's Thursday among the Thursdays of the ISO year, which is the year
    of that Thursday. *)
Theorem calendar_exact z :
  - 2 ^ 40 <= z <= 2 ^ 40 ->
  (exists y m d, civil_from_days z = Ok (y, m, d) /\ is_valid_ymd y m d = true /\ days_from_civil y m d = Ok z /\
    civil_from_days (z + 1) = Ok (next_day y m d) /\
    exists yi w, iso_year z = Ok yi /\ iso_week z y = Ok w /\ 1 <= w <= iso_weeks_in_year yi /\
      z = first_thursday yi + 7 * (w - 1) + (iso_dow z - 4) /\ jan1 yi <= first_thursday yi < jan1 yi + 7 /\ days_from_civil yi 1 1 = Ok (jan1 yi)) /\
  days_from_civil 1970 1 1 = Ok 0 /\
  (forall y m d, - 2 ^ 50 <= y <= 2 ^ 50 -> is_valid_ymd y m d = true -> exists n, days_from_civil y m d = Ok n /\ civil_from_days n = Ok (y, m, d)).
Proof.
  intros H. split_and!; [|done|].
  - destruct (iso_week_ok z H) as (y & m & d & yi & w & Hc & Hy & Hw & Bw & Ez). destruct (calendar_day z) as (y' & m' & d' & Hc' & V & E & B); [change (2 ^ 50) with 1125899906842624; lia|].
    rewrite Hc in Hc'. injection Hc' as <- <- <-. pose proof V as [Hm Hd]. pose proof (days_in_month_bounds y m).
    exists y, m, d. split_and!; [done|by apply valid_spec|rewrite days_from_civil_ok, E; done || lia| |].
    + rewrite civil_from_days_ok by (change (2 ^ 62) with 4611686018427387904; lia). f_equal. pose proof (civ_next y m d V) as N.
      destruct (next_day y m d) as [[y' m'] d']. destruct N as [V' E']. rewrite <- E, <- E'. by apply ymd_civ.
    + exists yi, w. split_and!; try done; try lia; try apply first_thursday_spec.
      apply days_from_civil_ok; [|lia..]. pose proof (first_thursday_spec yi). assert (jan1 0 = -719528) by (by vm_compute). pose proof (iso_dow_spec z).
      assert (1 <= iso_dow z <= 7) by (rewrite iso_dow_spec; pose proof (Z.mod_pos_bound (z + 3) 7); lia).
      assert (iso_weeks_in_year yi <= 53) by (unfold iso_weeks_in_year; case_match; lia).
      change (2 ^ 50) with 1125899906842624. destruct (Z.le_gt_cases 0 yi) as [L|L]; [pose proof (jan1_mono 0 yi L)|pose proof (jan1_mono yi 0 ltac:(lia))]; lia.
  - intros y m d Hy V%valid_spec. pose proof V as [Hm Hd]. pose proof (days_in_month_bounds y m). rewrite days_from_civil_ok by (done || lia). eexists. split; [done|].
    pose proof (civ_bounds y m d V) as Cb. change (2 ^ 50) with 1125899906842624 in Hy. rewrite civil_from_days_ok by (change (2 ^ 62) with 4611686018427387904; lia). by rewrite ymd_civ.
Qed.

Lemma calendar_exact_witness : - 2 ^ 40 <= 19797 <= 2 ^ 40 /\ civil_from_days 19797 = Ok (2024, 3, 15) /\ iso_week 19797 2024 = Ok 11 /\
  exists n, days_from_civil 2000 2 29 = Ok n /\ civil_from_days n = Ok (2000, 2, 29).
Proof.
  assert (- 2 ^ 40 <= 19797 <= 2 ^ 40) as H by lia. destruct (calendar_exact 19797 H) as (_ & _ & P). split; [done|]. split; [by vm_compute|]. split; [by vm_compute|].
  apply P; [lia|by vm_compute].
Defined.

(** C29: Truncation finds the last boundary. For every unit and every 64-bit
    instant [date_trunc] answers with the boundary the instant lies at or after,
    the next one being later: multiples of the unit up to the day, Mondays, and
    the first days of months, quarters, years, decades, centuries and millennia.
    Where that boundary is before the first 64-bit instant it answers nothing for
    the units above the day and panics for the others; an unknown unit gives
    nothing. [date_bin] does the same for bins of a positive width. *)
Theorem date_trunc_exact micros :
  i64 micros ->
  (forall field len, (field, len) ∈ fixed_units -> exists k, boundary (Fixed len 0) k <= micros < boundary (Fixed len 0) (k + 1) /\
     date_trunc_micros field micros = (if decide (i64 (boundary (Fixed len 0) k)) then Ok (Some (boundary (Fixed len 0) k)) else Panic)) /\
  (forall field u, (field, u) ∈ calendar_units -> exists k, boundary u k <= micros < boundary u (k + 1) /\
     date_trunc_micros field micros = Ok (checked_i64 (boundary u k))) /\
  (forall field, field ∉ fixed_units.*1 -> field ∉ calendar_units.*1 -> date_trunc_micros field micros = Ok None) /\
  (forall days us origin, let stride := days * MICROS_PER_DAY + us in
     if stride <=? 0 then date_bin days us micros origin = None
     else exists k, origin + k * stride <= micros < origin + (k + 1) * stride /\ date_bin days us micros origin = checked_i64 (origin + k * stride)).
Proof.
  intros H. split_and!.
  - intros. by apply date_trunc_fixed.
  - intros. by apply date_trunc_calendar.
  - intros. by apply date_trunc_unknown.
  - intros days us origin stride. unfold date_bin. fold stride. destruct (Z.leb_spec stride 0); [done|]. exists ((micros - origin) / stride). split; [|done].
    pose proof (Z.div_mod (micros - origin) stride ltac:(lia)). pose proof (Z.mod_pos_bound (micros - origin) stride ltac:(lia)). nia.
Qed.

Lemma date_trunc_exact_witness : i64 1710500000123456 /\ date_trunc_micros "quarter" 1710500000123456 = Ok (Some 1704067200000000) /\
  exists k, boundary (Months 3 0) k <= 1710500000123456 < boundary (Months 3 0) (k + 1) /\ date_trunc_micros "quarter" 1710500000123456 = Ok (checked_i64 (boundary (Months 3 0) k)).
Proof.
  assert (i64 1710500000123456) as H by (unfold i64; lia). split; [done|]. split; [by vm_compute|]. destruct (date_trunc_exact _ H) as (_ & P & _).
  apply P. unfold calendar_units. set_solver.
Defined.

Lemma age_lands end_ start : i64 end_ -> i64 start -> start <= end_ ->
  let '(months, days, micros) := age_of end_ start in
  0 <= months /\ 0 <= days /\ 0 <= micros < MICROS_PER_DAY /\
  ((ymd (start / MICROS_PER_DAY)).2 * MICROS_PER_DAY + start mod MICROS_PER_DAY <= (ymd (end_ / MICROS_PER_DAY)).2 * MICROS_PER_DAY + end_ mod MICROS_PER_DAY ->
    shifted start months days micros = end_).
Proof.
  intros He Hs L. unfold age_of, shifted. pose proof (civ_ymd (end_ / MICROS_PER_DAY)) as C1. pose proof (civ_ymd (start / MICROS_PER_DAY)) as C2.
  destruct (ymd (end_ / MICROS_PER_DAY)) as [[y1 m1] d1]. destruct (ymd (start / MICROS_PER_DAY)) as [[y2 m2] d2]. destruct C1 as [V1 E1], C2 as [V2 E2].
  destruct (micros_split end_) as [S1 T1]. destruct (micros_split start) as [S2 T2]. cbn [fst snd].
  destruct (calendar_order y1 m1 d1 y2 m2 d2 V1 V2) as [Ok1 Od]; [rewrite E1, E2; by apply Z.div_le_mono|]. rewrite E1, E2 in Od.
  set (t1 := end_ mod MICROS_PER_DAY) in *. set (t2 := start mod MICROS_PER_DAY) in *. set (k1 := 12 * y1 + (m1 - 1)) in *. set (k2 := 12 * y2 + (m2 - 1)) in *.
  change MICROS_PER_DAY with 86400000000 in *. pose proof V1 as [Hm1 Hd1]. pose proof V2 as [Hm2 Hd2].
  set (D := if t1 - t2 <? 0 then d1 - d2 - 1 else d1 - d2).
  assert (D = d1 - d2 - (if t1 - t2 <? 0 then 1 else 0)) as ED by (unfold D; destruct (_ <? 0); lia).
  destruct (Z.ltb_spec (t1 - t2) 0) as [Lt|Lt], (Z.ltb_spec D 0) as [LD|LD]; clearbody D; (split_and!; [|lia..|]).
  all: try (destruct (Z.eq_dec k1 k2) as [Ek|Ek]; [exfalso; specialize (Od ltac:(lia)); lia|lia]). all: try lia.
  all: intros _; replace (k2 + (k1 - k2)) with k1 by lia; rewrite <- E1 in S1; rewrite civ_month in S1 by done; fold k1 in S1;
    assert (month_days k1 = days_in_month y1 m1) as -> by (unfold month_days; unfold k1; destruct (month_index y1 m1 Hm1) as [-> ->]; by replace (m1 - 1 + 1) with m1 by lia);
    rewrite Z.min_l by lia; lia.
Qed.

(** C28: Adding an interval moves by the calendar. The months move the date to the
    same day of the month so many months on, or to that month's last day, then
    the days and the microseconds are added; the sum is returned when it is a
    64-bit instant and refused otherwise, and no step overflows. Without months
    this is plain addition. [age] gives back whole months, days and a time of day
    of the sign of the difference, negates with its arguments, and adding it to
    the start gives the end whenever the end is not earlier in its month than the
    start in its own; otherwise it may not, as from January 30 to March 1. *)
Theorem interval_shift_exact ts other months days micros :
  i64 ts -> i64 other -> i32 months -> i32 days ->
  add_interval_to_micros ts months days micros = Ok (checked_i64 (shifted ts months days micros)) /\
  shifted ts 0 days micros = ts + days * MICROS_PER_DAY + micros /\
  (ts <= other -> exists mo d us, calendar_age other ts = Ok (mo, d, us) /\ 0 <= mo /\ 0 <= d /\ 0 <= us < MICROS_PER_DAY /\
     (ts < other -> calendar_age ts other = Ok (- mo, - d, - us)) /\
     ((ymd (ts / MICROS_PER_DAY)).2 * MICROS_PER_DAY + ts mod MICROS_PER_DAY <= (ymd (other / MICROS_PER_DAY)).2 * MICROS_PER_DAY + other mod MICROS_PER_DAY ->
       shifted ts mo d us = other)) /\
  (let jan30 := 1675036800000000 in let mar1 := 1677628800000000 in
   calendar_age mar1 jan30 = Ok (1, 2, 0) /\ add_interval_to_micros jan30 1 2 0 = Ok (Some (mar1 + MICROS_PER_DAY))).
Proof.
  intros Ht Ho Hm Hd. split_and!; [by apply add_interval_ok|apply shifted_no_months| |by vm_compute].
  intros L. pose proof (age_lands other ts Ho Ht L) as A. pose proof (age_forward_ok other ts Ho Ht) as F. destruct (age_of other ts) as [[mo d] us].
  exists mo, d, us. destruct A as (A1 & A2 & A3 & A4). unfold calendar_age. assert ((other <? ts) = false) as -> by lia.
  split_and!; try done; try lia. intros L'. assert ((ts <? other) = true) as -> by lia. by rewrite F.
Qed.

Lemma interval_shift_exact_witness : i64 1706659200000000 /\ i64 1709251200000000 /\ i32 1 /\ i32 0 /\
  add_interval_to_micros 1706659200000000 1 0 0 = Ok (Some 1709164800000000) /\ shifted 1706659200000000 1 0 0 = 1709164800000000 /\
  add_interval_to_micros 1706659200000000 1 0 0 = Ok (checked_i64 (shifted 1706659200000000 1 0 0)).
Proof.
  assert (i64 1706659200000000) as H by (unfold i64; lia). assert (i64 1709251200000000) as H' by (unfold i64; lia). assert (i32 1) as H1 by (unfold i32; lia). assert (i32 0) as H0 by (unfold i32; lia).
  destruct (interval_shift_exact _ _ 1 0 0 H H' H1 H0) as (P & _). split_and!; try done; by vm_compute.
Defined.

