(* ===== verification/TemporalText.v ===== *)
(** * The text forms of dates, times and timestamps read back *)

From stdpp Require Import base list strings.
From Stdlib Require Import ZArith Lia Strings.Byte.
From S2P Require Import Prelude Order Codec Numeric NumericFacts Interval Temporal TemporalFacts TemporalThm.
Import Temporal.
#[local] Open Scope Z_scope.

Create HintDb temporal_text.

(** ** Trimming a text that starts and ends with a plain byte *)

Definition no_plain_head (ps : list bytes) : bool :=
  forallb (fun p => match p with a :: _ => negb (byte_in 45 57 a) | [] => false end) ps.

Lemma first_stripped_head ps b s : no_plain_head ps = true -> plain_byte b -> first_stripped ps (b :: s) = None.
Proof.
  intros Hps Hb. induction ps as [|p ps IH]; [done|]. cbn in Hps. apply andb_prop in Hps as [Hp Hps].
  destruct p as [|a p]; [done|]. cbn. rewrite decide_False; [by apply IH|]. intros ->. unfold plain_byte in Hb. unfold byte_in in Hp. lia.
Qed.

Lemma trim_by_head ps fuel b s : no_plain_head ps = true -> plain_byte b -> trim_by ps fuel (b :: s) = b :: s.
Proof. intros Hps Hb. destruct fuel; [done|]. cbn [trim_by]. by rewrite first_stripped_head. Qed.

Definition starts (s : bytes) : Prop := exists x t, s = x :: t /\ plain_byte x.
Definition ends (s : bytes) : Prop := exists t y, s = t ++ [ascii_digit y] /\ digit y.

Lemma starts_app a b : starts a -> starts (a ++ b).
Proof. intros (x & t & -> & H). by exists x, (t ++ b). Qed.

Lemma ends_app a b : ends b -> ends (a ++ b).
Proof. intros (t & y & -> & H). exists (a ++ t), y. by rewrite app_assoc. Qed.

Lemma ends_cons a b : ends b -> ends (a :: b).
Proof. apply (ends_app [a]). Qed.

Lemma trim_ends s : starts s -> ends s -> trim s = s.
Proof.
  intros (x & t & Ex & Hx) (t' & y & Ey & Hy).
  assert (forall n, trim_by (whitespace ++ whitespace_wide) n s = s) as F by (intros n; rewrite Ex; apply trim_by_head; [by vm_compute|done]).
  assert (reverse s = ascii_digit y :: reverse t') as Er by (by rewrite Ey, reverse_app).
  assert (forall n, trim_by (reverse <$> (whitespace ++ whitespace_wide)) n (reverse s) = reverse s) as B by (intros n; rewrite Er; apply trim_by_head; [by vm_compute|by apply plain_digit]).
  unfold trim. rewrite F, B. apply reverse_involutive.
Qed.

#[local] Hint Resolve starts_app ends_app ends_cons : temporal_text.

(** ** Padded numbers *)

Record padded (w : nat) (z : Z) (ds : list Z) : Prop := {
  pd_digits : Forall digit ds;
  pd_val : val_from 0 ds = z;
  pd_least : (w <= length ds)%nat;
  pd_some : (1 <= length ds)%nat;
  pd_width : z < 10 ^ Z.of_nat w -> (1 <= w)%nat -> length ds = w }.

Lemma val_zeros k ds : val_from 0 (replicate k 0 ++ ds) = val_from 0 ds.
Proof. rewrite val_from_app. f_equal. induction k as [|k IH]; [done|]. cbn. exact IH. Qed.

Lemma pad_digits w z : 0 <= z -> exists ds, pad w z = ascii_digit <$> ds /\ padded w z ds.
Proof.
  intros Hz. destruct (digits_of_spec z Hz) as [D1 D2 D3 D4]. unfold pad, to_string. rewrite Z.abs_eq by done.
  assert ((z <? 0) = false) as -> by lia. cbn [app length]. rewrite length_fmap, Nat.sub_0_r.
  exists (replicate (w - length (digits_of z)) 0 ++ digits_of z). split.
  { rewrite fmap_app, fmap_replicate. done. }
  split; rewrite ?length_app, ?length_replicate; [|by rewrite val_zeros|lia|lia|].
  - apply Forall_app. split; [apply zeros_digits|done].
  - intros Hw H1. pose proof (digits_length z w ltac:(lia) H1). lia.
Qed.

Lemma is_char_digit c d : digit d -> (c < 48 \/ 57 < c) -> is_char c (ascii_digit d) = false.
Proof. intros Hd Hc. unfold is_char. rewrite ascii_digit_val by done. unfold digit in Hd. lia. Qed.

Lemma is_char_self c : 0 <= c < 256 -> is_char c (z2b c) = true.
Proof. intros H. unfold is_char. rewrite b2z_z2b, Z.mod_small by lia. lia. Qed.

Lemma parse_i64_digits ds : Forall digit ds -> (1 <= length ds)%nat -> parse_i64 (ascii_digit <$> ds) = checked_i64 (val_from 0 ds).
Proof.
  intros Hd Hl. unfold parse_i64, digits_val. rewrite <- fold_digits by done.
  pose proof (forallb_digits ds Hd) as F. assert (exists b r, ascii_digit <$> ds = b :: r /\ is_char 45 b = false /\ is_char 43 b = false) as (b & r & E & E1 & E2).
  { destruct ds as [|d ds]; [cbn in Hl; lia|]. eexists _, _. split; [done|]. pose proof (Forall_inv Hd). by rewrite !is_char_digit by (done || lia). }
  rewrite E in *. rewrite E1, E2. rewrite decide_False by done. by rewrite F.
Qed.

Lemma parse_fixed_digits ds w : Forall digit ds -> length ds = w -> (1 <= w <= 18)%nat -> parse_fixed (ascii_digit <$> ds) w = Some (val_from 0 ds).
Proof.
  intros Hd Hl Hw. unfold parse_fixed. rewrite length_fmap, Hl, Nat.eqb_refl, forallb_digits by done. cbn [negb orb].
  rewrite parse_i64_digits by (done || lia). pose proof (val_from_bound ds Hd) as B. rewrite Hl in B.
  assert (10 ^ Z.of_nat w <= 10 ^ 18) by (apply Z.pow_le_mono_r; lia). change (10 ^ 18) with 1000000000000000000 in *.
  unfold checked_i64. rewrite decide_True; [done|]. unfold i64. lia.
Qed.

Lemma parse_fixed_pad w z : 0 <= z < 10 ^ Z.of_nat w -> (1 <= w <= 18)%nat -> parse_fixed (pad w z) w = Some z.
Proof.
  intros Hz Hw. destruct (pad_digits w z ltac:(lia)) as (ds & -> & [D1 D2 D3 D4 D5]). rewrite <- D2.
  apply parse_fixed_digits; [done| |done]. by apply D5; lia.
Qed.

Lemma digits_starts ds : Forall digit ds -> (1 <= length ds)%nat -> starts (ascii_digit <$> ds).
Proof. intros H Hl. destruct ds as [|d ds]; [cbn in Hl; lia|]. exists (ascii_digit d), (ascii_digit <$> ds). split; [done|]. by apply plain_digit; apply Forall_inv in H. Qed.

Lemma digits_ends ds : Forall digit ds -> (1 <= length ds)%nat -> ends (ascii_digit <$> ds).
Proof.
  intros H Hl. destruct ds as [|d ds _] using rev_ind; [cbn in Hl; lia|]. apply Forall_app in H as [_ H]. exists (ascii_digit <$> ds), d.
  rewrite fmap_app. split; [done|]. by apply Forall_inv in H.
Qed.

Lemma pad_starts w z : 0 <= z -> starts (pad w z).
Proof. intros H. destruct (pad_digits w z H) as (ds & -> & D). apply digits_starts; apply D. Qed.

Lemma pad_ends w z : 0 <= z -> ends (pad w z).
Proof. intros H. destruct (pad_digits w z H) as (ds & -> & D). apply digits_ends; apply D. Qed.
#[local] Hint Resolve pad_starts pad_ends : temporal_text.

(** A wrong width is refused. *)
Lemma parse_fixed_width s w : length s <> w -> parse_fixed s w = None.
Proof. intros H. unfold parse_fixed. by apply Nat.eqb_neq in H as ->. Qed.

(** ** Splitting *)

Lemma split_once_at p l c r : forallb (fun b => negb (p b)) l = true -> p c = true -> split_once p (l ++ c :: r) = Some (l, r).
Proof.
  intros Hl Hc. induction l as [|b l IH]; cbn; [by rewrite Hc|]. cbn in Hl. apply andb_prop in Hl as [Hb Hl].
  apply negb_true_iff in Hb. rewrite Hb, IH by done. done.
Qed.

Lemma split_once_none p s : forallb (fun b => negb (p b)) s = true -> split_once p s = None.
Proof.
  induction s as [|b s IH]; intros H; [done|]. cbn in H. apply andb_prop in H as [Hb H]. apply negb_true_iff in Hb. cbn. rewrite Hb, IH by done. done.
Qed.

Lemma digits_avoid p ds : (forall d, digit d -> p (ascii_digit d) = false) -> Forall digit ds -> forallb (fun b => negb (p b)) (ascii_digit <$> ds) = true.
Proof. intros Hp. induction 1 as [|d ds Hd _ IH]; [done|]. cbn. by rewrite Hp, IH. Qed.

Lemma pad_avoid p w z : (forall d, digit d -> p (ascii_digit d) = false) -> 0 <= z -> forallb (fun b => negb (p b)) (pad w z) = true.
Proof. intros Hp Hz. destruct (pad_digits w z Hz) as (ds & -> & D). apply digits_avoid; [done|apply D]. Qed.

Lemma splitn3_parts c a b r : 0 <= c < 256 ->
  forallb (fun x => negb (is_char c x)) a = true -> forallb (fun x => negb (is_char c x)) b = true ->
  splitn3 c (a ++ z2b c :: b ++ z2b c :: r) = (a, Some (b, Some r)).
Proof. intros Hc Ha Hb. unfold splitn3. rewrite !split_once_at; done || by apply is_char_self. Qed.

(** ** Dates *)

Definition ymd_text (y m d : Z) : bytes := pad 4 y ++ [z2b 45] ++ pad 2 m ++ [z2b 45] ++ pad 2 d.

Lemma parse_ymd_text y m d : valid_ymd y m d -> 0 <= y -> i64 y -> parse_ymd (ymd_text y m d) = Some (y, m, d).
Proof.
  intros V Hy Hi. pose proof V as [Hm Hd]. pose proof (days_in_month_bounds y m). unfold parse_ymd, ymd_text. cbn [app].
  rewrite splitn3_parts; [|lia|apply pad_avoid; [intros; apply is_char_digit; [done|lia]|lia]..].
  destruct (pad_digits 4 y Hy) as (ds & -> & [D1 D2 D3 D4 D5]). rewrite parse_i64_digits, D2 by done.
  unfold checked_i64. rewrite decide_True by done. cbn [mbind option_bind]. rewrite !parse_fixed_pad by lia. cbn [mbind option_bind].
  apply valid_spec in V as ->. assert ((y <? 0) = false) as -> by lia. done.
Qed.

(** ** Times of day *)

Lemma fraction_from_app n micros a b : Forall digit a -> (length a <= n)%nat ->
  fraction_from n micros ((ascii_digit <$> a) ++ b) = fraction_from (n - length a) (val_from micros a) b.
Proof.
  intros Ha. revert n micros. induction Ha as [|d a Hd _ IH]; intros n micros Hl; [cbn; by rewrite Nat.sub_0_r|].
  destruct n as [|n]; [cbn in Hl; lia|]. cbn [fmap list_fmap app fraction_from length Nat.sub].
  change (list_fmap _ _ ascii_digit a) with (ascii_digit <$> a). rewrite IH by (cbn in Hl; lia). rewrite ascii_digit_val by done.
  change (val_from micros (d :: a)) with (val_from (micros * 10 + d) a). by replace (48 + d - 48) with d by lia.
Qed.

Lemma fraction_from_zeros n micros k : (k <= n)%nat -> fraction_from n micros (replicate k (ascii_digit 0)) = fraction_from n micros [].
Proof.
  revert n micros. induction k as [|k IH]; intros n micros H; [done|]. destruct n as [|n]; [lia|]. cbn [replicate fraction_from].
  rewrite IH by lia. rewrite ascii_digit_val by (unfold digit; lia). do 2 f_equal. lia.
Qed.

Lemma drop_zeros_split s : exists k, s = replicate k (ascii_digit 0) ++ drop_zeros s.
Proof.
  induction s as [|b s [k IH]]; [by exists O|]. cbn. destruct (is_char 48 b) eqn:E; [|by exists O].
  exists (S k). cbn. f_equal; [|done]. unfold is_char in E. apply Z.eqb_eq in E. rewrite <- (z2b_b2z b), E. done.
Qed.

Lemma trim_zeros_split s : exists k, s = trim_end_zeros s ++ replicate k (ascii_digit 0).
Proof.
  destruct (drop_zeros_split (reverse s)) as [k E]. exists k. unfold trim_end_zeros. apply (f_equal reverse) in E.
  rewrite reverse_involutive, reverse_app, reverse_replicate in E. done.
Qed.

Lemma digit_zeros l k : Forall digit l -> ascii_digit <$> l = replicate k (ascii_digit 0) -> l = replicate k 0.
Proof.
  intros H. revert k. induction H as [|d l Hd _ IH]; intros [|k] E; try done. cbn in E. injection E as Ed E. cbn. f_equal; [|by apply IH].
  apply (f_equal b2z) in Ed. rewrite !ascii_digit_val in Ed by (done || unfold digit; lia). lia.
Qed.

(** A suffix of zeros dropped is what a missing digit counts as. *)
Lemma fraction_text frac : 0 < frac < 1000000 ->
  let t := trim_end_zeros (pad 6 frac) in parse_fraction t = Some frac /\ exists a d, t = (ascii_digit <$> a ++ [d]) /\ Forall digit (a ++ [d]).
Proof.
  intros Hf t. destruct (pad_digits 6 frac ltac:(lia)) as (ds & E & [D1 D2 D3 D4 D5]). specialize (D5 ltac:(cbn; lia) ltac:(lia)).
  destruct (trim_zeros_split (pad 6 frac)) as [k Ek]. fold t in Ek. rewrite E in Ek.
  assert (t = ascii_digit <$> take (length t) ds) as Et.
  { rewrite fmap_take, Ek. by rewrite take_app_length. }
  set (a := take (length t) ds) in *. assert (Forall digit a) as Ha by (by apply Forall_take).
  assert (length a = length t) as La by (by rewrite Et, length_fmap).
  assert (length t + k = 6)%nat as Lk by (apply (f_equal length) in Ek; rewrite length_fmap, length_app, length_replicate in Ek; lia).
  assert (val_from 0 a * 10 ^ Z.of_nat k = frac) as Hv.
  { rewrite <- D2. rewrite <- (take_drop (length t) ds). fold a. rewrite val_from_app.
    assert (drop (length t) ds = replicate k 0) as ->; [|rewrite (val_from_shift (val_from 0 a)), length_replicate; rewrite <- (app_nil_r (replicate k 0)), val_zeros; cbn; lia].
    apply digit_zeros; [by apply Forall_drop|]. rewrite fmap_drop, Ek. by rewrite drop_app_length. }
  assert (a <> []) as Hne by (intros Ea; rewrite Ea in Hv; cbn in Hv; lia).
  split.
  - unfold parse_fraction. rewrite Et. rewrite decide_False by (by intros ?%fmap_nil_inv). rewrite forallb_digits by done. cbn [negb]. f_equal.
    rewrite <- (app_nil_r (ascii_digit <$> a)), fraction_from_app by (done || lia). rewrite La. replace (6 - length t)%nat with k by lia.
    rewrite <- Hv. generalize (val_from 0 a). clear. induction k as [|k IH]; intros v; [cbn; lia|]. cbn [fraction_from]. rewrite IH. rewrite Nat2Z.inj_succ, Z.pow_succ_r by lia. lia.
  - destruct (exists_last Hne) as (a' & d & Ea). exists a', d. rewrite <- Ea. done.
Qed.

Definition time_text (h m s frac : Z) : bytes := pad 2 h ++ [z2b 58] ++ pad 2 m ++ [z2b 58] ++ pad 2 s ++ subsecond_suffix frac.

Lemma suffix_ends frac : 0 < frac < 1000000 -> ends (subsecond_suffix frac).
Proof.
  intros H. unfold subsecond_suffix. assert ((frac =? 0) = false) as -> by lia. apply ends_cons.
  destruct (fraction_text frac H) as [_ (a & d & -> & Hd)]. apply digits_ends; [done|]. rewrite length_app. cbn. lia.
Qed.

Lemma time_text_ends h m s frac : 0 <= s -> 0 <= frac < 1000000 -> ends (time_text h m s frac).
Proof.
  intros Hs Hf. unfold time_text. do 4 apply ends_app. destruct (decide (frac = 0)) as [->|].
  - cbn. rewrite app_nil_r. by apply pad_ends.
  - apply ends_app, suffix_ends. lia.
Qed.

Lemma parse_seconds s frac : 0 <= s < 60 -> 0 <= frac < 1000000 ->
  ('(sec_str, f) ← match split_once (is_char 46) (pad 2 s ++ subsecond_suffix frac) with
                   | Some (sec, fr) => f ← parse_fraction fr; Some (sec, f)
                   | None => Some (pad 2 s ++ subsecond_suffix frac, 0)
                   end; x ← parse_fixed sec_str 2; Some (x, f)) = Some (s, frac).
Proof.
  intros Hs Hf. assert (forall d, digit d -> is_char 46 (ascii_digit d) = false) as Hdot by (intros; apply is_char_digit; [done|lia]).
  unfold subsecond_suffix. destruct (Z.eqb_spec frac 0) as [->|Hne].
  - rewrite app_nil_r, split_once_none by (apply pad_avoid; [done|lia]). cbn [mbind option_bind]. by rewrite parse_fixed_pad by lia.
  - rewrite split_once_at; [|apply pad_avoid; [done|lia]|by apply is_char_self]. destruct (fraction_text frac ltac:(lia)) as [-> _]. cbn [mbind option_bind].
    by rewrite parse_fixed_pad by lia.
Qed.

Lemma parse_time_text h m s frac : 0 <= h < 24 -> 0 <= m < 60 -> 0 <= s < 60 -> 0 <= frac < 1000000 ->
  parse_time_of_day (time_text h m s frac) = Some ((h * 3600 + m * 60 + s) * MICROS_PER_SEC + frac).
Proof.
  intros Hh Hm Hs Hf. unfold parse_time_of_day, time_text. cbn [app]. assert (forall d, digit d -> is_char 58 (ascii_digit d) = false) as Hc by (intros; apply is_char_digit; [done|lia]).
  rewrite splitn3_parts; [|lia|apply pad_avoid; [done|lia]..]. rewrite !parse_fixed_pad by lia. cbn [mbind option_bind].
  pose proof (parse_seconds s frac Hs Hf) as P. cbn [mbind option_bind] in P. rewrite P. rewrite parse_fixed_pad by lia. cbn [mbind option_bind].
  assert ((23 <? h) || (59 <? m) || (59 <? s) = false) as -> by lia. done.
Qed.

(** The fields of a time of day. *)
Lemma time_fields t : 0 <= t < MICROS_PER_DAY -> exists h m s frac,
  0 <= h < 24 /\ 0 <= m < 60 /\ 0 <= s < 60 /\ 0 <= frac < 1000000 /\ t = (h * 3600 + m * 60 + s) * MICROS_PER_SEC + frac /\ format_time t = time_text h m s frac.
Proof.
  change MICROS_PER_DAY with 86400000000. change MICROS_PER_SEC with 1000000. intros Ht.
  exists (t / 1000000 / 3600), (t / 1000000 mod 3600 / 60), (t / 1000000 mod 60), (t mod 1000000).
  assert (0 <= t / 1000000 < 86400) as Hq by euclid. pose proof (Z.div_mod t 1000000 ltac:(lia)) as Ht'. pose proof (Z.mod_pos_bound t 1000000 ltac:(lia)) as Hf.
  set (q := t / 1000000) in *. set (f := t mod 1000000) in *.
  assert (q = q / 3600 * 3600 + q mod 3600 / 60 * 60 + q mod 60) as Eq by (clear -Hq; euclid).
  split_and!; try (clear -Hq; euclid); [lia..|].
  unfold format_time, time_text. change MICROS_PER_SEC with 1000000.
  assert (Z.quot t 1000000 = q) as -> by (apply Z.quot_div_nonneg; lia). assert (Z.rem t 1000000 = f) as -> by (apply Z.rem_mod_nonneg; lia).
  assert (Z.quot q 3600 = q / 3600 /\ Z.rem q 60 = q mod 60 /\ Z.quot (Z.rem q 3600) 60 = q mod 3600 / 60) as (-> & -> & ->) by (clear -Hq; split_and!; euclid).
  assert (between 0 U32_MAX f = true) as ->; [|done]. unfold between. change U32_MAX with 4294967295. lia.
Qed.

Lemma parse_format_time_of_day t : 0 <= t < MICROS_PER_DAY -> parse_time_of_day (format_time t) = Some t /\ ends (format_time t) /\ starts (format_time t).
Proof.
  intros Ht. destruct (time_fields t Ht) as (h & m & s & frac & Hh & Hm & Hs & Hf & E & ->). split_and!.
  - rewrite parse_time_text by done. by f_equal.
  - apply time_text_ends; lia.
  - unfold time_text. apply starts_app, pad_starts. lia.
Qed.

(** ** Zones *)

Definition sign_byte (off : Z) : byte := z2b (if off <? 0 then 45 else 43).

(** The zone of a whole number of minutes. *)
Lemma zone_minutes off : Z.rem off 60 = 0 -> let a := Z.abs off in
  zone_suffix off = sign_byte off :: pad 2 (a / 3600) ++ (if a mod 3600 / 60 =? 0 then [] else z2b 58 :: pad 2 (a mod 3600 / 60)).
Proof.
  intros H a. unfold zone_suffix. fold a. assert (0 <= a) by lia.
  assert (Z.quot a 3600 = a / 3600 /\ Z.rem a 60 = 0 /\ Z.quot (Z.rem a 3600) 60 = a mod 3600 / 60) as (-> & -> & ->).
  { split_and!; [apply Z.quot_div_nonneg; lia| |rewrite Z.rem_mod_nonneg by lia; apply Z.quot_div_nonneg; pose proof (Z.mod_pos_bound a 3600); lia].
    unfold a. destruct (Z.abs_spec off) as [[_ ->]|[_ ->]]; [done|]. rewrite Z.rem_opp_l by lia. lia. }
  cbn [Z.eqb negb]. unfold sign_byte. destruct (_ =? 0); done.
Qed.

Lemma filter_digits ds : Forall digit ds -> filter (fun b => is_char 58 b = false) (ascii_digit <$> ds) = ascii_digit <$> ds.
Proof.
  induction 1 as [|d ds Hd _ IH]; [done|]. cbn [fmap list_fmap]. rewrite filter_cons_True by (apply is_char_digit; [done|lia]). f_equal. exact IH.
Qed.

Lemma filter_pad w z : 0 <= z -> filter (fun b => is_char 58 b = false) (pad w z) = pad w z.
Proof. intros H. destruct (pad_digits w z H) as (ds & -> & D). apply filter_digits, D. Qed.

Lemma pad_length w z : 0 <= z < 10 ^ Z.of_nat w -> (1 <= w)%nat -> length (pad w z) = w.
Proof. intros H Hw. destruct (pad_digits w z ltac:(lia)) as (ds & -> & D). rewrite length_fmap. apply D; lia. Qed.

Lemma zone_fields off : -86400 < off < 86400 -> Z.rem off 60 = 0 -> let a := Z.abs off in
  0 <= a / 3600 < 24 /\ 0 <= a mod 3600 / 60 < 60 /\ a = a / 3600 * 3600 + a mod 3600 / 60 * 60.
Proof.
  intros H H0 a. assert (0 <= a < 86400) by lia. assert (a mod 60 = 0) as Hm.
  { rewrite <- Z.rem_mod_nonneg by lia. unfold a. destruct (Z.abs_spec off) as [[_ ->]|[_ ->]]; [done|]. rewrite Z.rem_opp_l by lia. lia. }
  clearbody a. split_and!; euclid.
Qed.

Lemma parse_offset_zone off : -86400 < off < 86400 -> Z.rem off 60 = 0 -> parse_offset (zone_suffix off) = Some (off * MICROS_PER_SEC).
Proof.
  intros H H0. rewrite zone_minutes by done. destruct (zone_fields off H H0) as (Hh & Hm & Ea). set (a := Z.abs off) in *. set (h := a / 3600) in *. set (m := a mod 3600 / 60) in *.
  unfold parse_offset, sign_byte.
  assert (match z2b (if off <? 0 then 45 else 43) :: pad 2 h ++ (if m =? 0 then [] else z2b 58 :: pad 2 m) with
          | b :: r => if is_char 43 b then Some (1, r) else if is_char 45 b then Some (-1, r) else None | [] => None end
          = Some (Z.sgn off + (if off =? 0 then 1 else 0), pad 2 h ++ (if m =? 0 then [] else z2b 58 :: pad 2 m))) as ->.
  { destruct (Z.ltb_spec off 0); cbn [is_char]; [|destruct (Z.eqb_spec off 0) as [->|]; [done|]]; rewrite ?Z.sgn_neg, ?Z.sgn_pos by lia.
    - assert ((off =? 0) = false) as -> by lia. done.
    - done. }
  cbn [mbind option_bind].
  destruct (Z.eqb_spec m 0) as [Em|Em].
  - rewrite app_nil_r, filter_pad, pad_length by lia. rewrite parse_fixed_pad by lia. cbn [mbind option_bind].
    assert ((23 <? h) || (59 <? 0) = false) as -> by lia. f_equal. destruct (Z.eqb_spec off 0); lia.
  - rewrite filter_app, filter_cons_False by (by rewrite is_char_self). rewrite !filter_pad by lia. rewrite length_app, !pad_length by lia. cbn [Nat.add].
    rewrite take_app_length', drop_app_length' by (rewrite pad_length; lia). rewrite !parse_fixed_pad by lia. cbn [mbind option_bind].
    assert ((23 <? h) || (59 <? m) = false) as -> by lia. f_equal. destruct (Z.eqb_spec off 0); lia.
Qed.

Lemma rposition_last p a c b : p c = true -> forallb (fun x => negb (p x)) b = true -> rposition p (a ++ c :: b) = Some (length a).
Proof.
  intros Hc Hb. assert (rposition p b = None) as Nb.
  { induction b as [|x b IH]; [done|]. cbn in Hb. apply andb_prop in Hb as [Hx Hb]. apply negb_true_iff in Hx. cbn. by rewrite IH, Hx. }
  induction a as [|x a IH]; cbn; [by rewrite Nb, Hc|by rewrite IH].
Qed.

Lemma strip_z_digit s : ends s -> strip_z s = None.
Proof. intros (t & y & -> & Hy). unfold strip_z. rewrite reverse_app. cbn [reverse app rev_append]. change (reverse [ascii_digit y]) with [ascii_digit y]. cbn [app]. by rewrite is_char_digit by (done || lia). Qed.

Lemma sign_avoid_digit d : digit d -> is_sign (ascii_digit d) = false.
Proof. intros H. unfold is_sign. rewrite !is_char_digit by (done || lia). done. Qed.

Lemma zone_ends off : -86400 < off < 86400 -> Z.rem off 60 = 0 -> ends (zone_suffix off).
Proof.
  intros H H0. rewrite zone_minutes by done. destruct (zone_fields off H H0) as (Hh & Hm & _). apply ends_cons. destruct (_ =? 0).
  - rewrite app_nil_r. apply pad_ends. lia.
  - apply ends_app, ends_cons, pad_ends. lia.
Qed.

Lemma split_zone_text t off : -86400 < off < 86400 -> Z.rem off 60 = 0 -> t <> [] ->
  split_zone (t ++ zone_suffix off) = Some (t, off * MICROS_PER_SEC).
Proof.
  intros H H0 Ht. unfold split_zone. rewrite strip_z_digit by (by apply ends_app, zone_ends). unfold find_offset_sign.
  assert (rposition is_sign (t ++ zone_suffix off) = Some (length t)) as ->.
  { rewrite zone_minutes by done. destruct (zone_fields off H H0) as (Hh & Hm & _). apply rposition_last.
    - unfold sign_byte. by destruct (off <? 0).
    - rewrite forallb_app, pad_avoid by (apply sign_avoid_digit || lia). destruct (_ =? 0); [done|]. cbn [forallb]. by rewrite pad_avoid by (apply sign_avoid_digit || lia). }
  cbn [mbind option_bind]. destruct t as [|b t]; [done|]. cbn [Nat.ltb Nat.leb length].
  change (S (length t)) with (length (b :: t)). rewrite drop_app_length, take_app_length, parse_offset_zone by done. done.
Qed.

(** ** Times with a zone *)

Lemma timetz_unpack local off : 0 <= local < MICROS_PER_DAY -> -86400 < off < 86400 ->
  let p := pack_timetz local off in i64 p /\ timetz_offset_east_secs p = off /\ timetz_local_micros p = local.
Proof.
  change MICROS_PER_DAY with 86400000000. intros Hl Ho p.
  assert (p = (local - off * 1000000) * 262144 + (131072 - off)) as E by (unfold p, pack_timetz; change MICROS_PER_SEC with 1000000; change TIMETZ_ZONE_SPAN with 262144; change TIMETZ_ZONE_BIAS with 131072; lia).
  assert (p mod 262144 = 131072 - off /\ p / 262144 = local - off * 1000000) as [Em Ed] by (rewrite E; clear E p; split; euclid).
  unfold timetz_local_micros, timetz_offset_east_secs. change TIMETZ_ZONE_SPAN with 262144. change TIMETZ_ZONE_BIAS with 131072. change MICROS_PER_SEC with 1000000.
  rewrite Em, Ed. split_and!; [unfold i64|..]; lia.
Qed.

Lemma timetz_text local off : 0 <= local < MICROS_PER_DAY -> -86400 < off < 86400 -> Z.rem off 60 = 0 ->
  parse_timetz (format_timetz (pack_timetz local off)) = Some (pack_timetz local off).
Proof.
  intros Hl Ho H0. destruct (timetz_unpack local off Hl Ho) as (_ & Eo & El). unfold format_timetz. rewrite Eo, El.
  destruct (parse_format_time_of_day local Hl) as (P & _ & S). unfold parse_timetz. rewrite trim_ends; [|by apply starts_app|by apply ends_app, zone_ends].
  rewrite split_zone_text by (try done; destruct S as (x & t & -> & _); done). cbn [mbind option_bind]. rewrite P. cbn [mbind option_bind].
  by rewrite Z.quot_mul by done.
Qed.

(** ** Timestamps *)

Lemma instant_text ts : i64 ts -> 0 <= (ymd (ts / MICROS_PER_DAY)).1.1 -> exists y m d,
  ymd (ts / MICROS_PER_DAY) = (y, m, d) /\ valid_ymd y m d /\ civ y m d = ts / MICROS_PER_DAY /\ 0 <= y <= 300000 /\
  format_timestamp ts = Ok (ymd_text y m d ++ z2b 32 :: format_time (ts mod MICROS_PER_DAY)).
Proof.
  intros H Hy. destruct (instant_civil ts H) as (y & m & d & Hc & V & E & B). pose proof (instant_day ts H) as Hd.
  assert (ymd (ts / MICROS_PER_DAY) = (y, m, d)) as Ey by (by rewrite <- E, ymd_civ). rewrite Ey in Hy. cbn in Hy.
  exists y, m, d. split_and!; try done; try lia. unfold format_timestamp. unfold checked_i32. rewrite decide_True by (unfold i32; lia). cbn [default from_option id].
  unfold format_date. rewrite Hc. done.
Qed.

Lemma ymd_text_starts y m d : 0 <= y -> starts (ymd_text y m d).
Proof. intros. by apply starts_app, pad_starts. Qed.

Lemma separator_avoid y m d : 0 <= y -> 0 <= m -> 0 <= d -> forallb (fun b => negb (is_separator b)) (ymd_text y m d) = true.
Proof.
  intros Hy Hm Hd. assert (forall x, digit x -> is_separator (ascii_digit x) = false) as A by (intros; unfold is_separator; rewrite !is_char_digit by (done || lia); done).
  unfold ymd_text. rewrite !forallb_app, !pad_avoid by done. done.
Qed.

Lemma parse_inner_text y m d t (zone : bytes) off (allow : bool) :
  valid_ymd y m d -> 0 <= y <= 300000 -> 0 <= t < MICROS_PER_DAY ->
  (if allow then split_zone (format_time t ++ zone) else Some (format_time t ++ zone, 0)) = Some (format_time t, off) ->
  i64 (civ y m d * MICROS_PER_DAY + t) -> i64 (civ y m d * MICROS_PER_DAY + t - off) ->
  parse_timestamp_inner (ymd_text y m d ++ z2b 32 :: format_time t ++ zone) allow = Ok (Some (civ y m d * MICROS_PER_DAY + t - off)).
Proof.
  intros V Hy Ht Hz Hi Hi'. unfold parse_timestamp_inner. pose proof V as [Hm Hd]. pose proof (days_in_month_bounds y m) as Hdm.
  rewrite split_once_at by (done || apply separator_avoid; lia). cbn [default from_option id]. rewrite Hz. cbn [obind].
  rewrite parse_ymd_text by (done || unfold i64; lia). cbn [obind]. destruct (parse_format_time_of_day t Ht) as (P & _ & S).
  rewrite decide_False by (destruct S as (x & t' & -> & _); done). rewrite P. cbn [obind].
  rewrite days_from_civil_ok by (change (2 ^ 50) with 1125899906842624; lia). cbn [rbind].
  pose proof (within_year y m d V) as [Yw Yw']. assert (jan1 0 = -719528) as E0 by (by vm_compute). pose proof (jan1_mono 0 y ltac:(lia)) as M1.
  unfold checked_i64. rewrite (decide_True (P := i64 (civ y m d * MICROS_PER_DAY))); [cbn [mbind option_bind]; rewrite decide_True by done; cbn [mbind option_bind]; by rewrite decide_True by done|].
  unfold i64 in *. change MICROS_PER_DAY with 86400000000 in *. lia.
Qed.

Lemma timestamp_text ts : i64 ts -> 0 <= (ymd (ts / MICROS_PER_DAY)).1.1 -> exists s, format_timestamp ts = Ok s /\ parse_timestamp s = Ok (Some ts).
Proof.
  intros H Hy. destruct (instant_text ts H Hy) as (y & m & d & _ & V & E & Hb & F). exists (ymd_text y m d ++ z2b 32 :: format_time (ts mod MICROS_PER_DAY)). split; [done|].
  destruct (micros_split ts) as [S T]. destruct (parse_format_time_of_day _ T) as (_ & En & _). unfold parse_timestamp.
  rewrite trim_ends; [|by apply starts_app, ymd_text_starts; lia|by apply ends_app, ends_cons]. rewrite <- E in S.
  rewrite <- (app_nil_r (format_time _)). rewrite (parse_inner_text y m d _ [] 0 false); rewrite ?app_nil_r, ?Z.sub_0_r, <- ?S; done.
Qed.

Lemma timestamptz_text ts off : i64 ts -> i64 (ts + off * MICROS_PER_SEC) -> -86400 < off < 86400 -> Z.rem off 60 = 0 ->
  0 <= (ymd ((ts + off * MICROS_PER_SEC) / MICROS_PER_DAY)).1.1 -> exists s, format_timestamptz_at ts off = Ok s /\ parse_timestamptz s = Ok (Some ts).
Proof.
  intros H Hl Ho H0 Hy. set (local := ts + off * MICROS_PER_SEC) in *. destruct (instant_text local Hl Hy) as (y & m & d & _ & V & E & Hb & F).
  exists ((ymd_text y m d ++ z2b 32 :: format_time (local mod MICROS_PER_DAY)) ++ zone_suffix off). split.
  { unfold format_timestamptz_at. assert (saturating_i64 (off * MICROS_PER_SEC) = off * MICROS_PER_SEC) as -> by (unfold saturating_i64; change (2 ^ 63) with 9223372036854775808; change MICROS_PER_SEC with 1000000; lia).
    fold local. assert (saturating_i64 local = local) as -> by (unfold saturating_i64, i64 in *; change (2 ^ 63) with 9223372036854775808; lia). rewrite F. done. }
  destruct (micros_split local) as [S T]. destruct (parse_format_time_of_day _ T) as (_ & En & St). unfold parse_timestamptz.
  rewrite trim_ends; [|by apply starts_app, starts_app, ymd_text_starts; lia|by apply ends_app, zone_ends]. rewrite <- E in S. rewrite <- app_assoc. cbn [app].
  rewrite (parse_inner_text y m d _ (zone_suffix off) (off * MICROS_PER_SEC) true); rewrite <- ?S; unfold local in *; try done.
  - do 2 f_equal. lia.
  - rewrite split_zone_text; [done..|]. destruct St as (x & t & -> & _). done.
  - by replace (ts + off * MICROS_PER_SEC - off * MICROS_PER_SEC) with ts by lia.
Qed.

Lemma date_text z : i32 z -> exists s, format_date z = Ok s /\ parse_date s = Ok (if 0 <=? (ymd z).1.1 then Some z else None).
Proof.
  intros H. unfold i32 in H. pose proof (civ_ymd z) as C. unfold format_date. rewrite civil_from_days_ok by (change (2 ^ 62) with 4611686018427387904; lia).
  destruct (ymd z) as [[y m] d]. destruct C as [V E]. pose proof V as [Hm Hd]. pose proof (days_in_month_bounds y m). pose proof (year_bounds y m d V) as Yb. rewrite E in Yb.
  cbn [rbind fst]. eexists. split; [done|]. fold (ymd_text y m d). unfold parse_date. destruct (Z.leb_spec 0 y).
  - rewrite trim_ends; [|by apply ymd_text_starts|by do 4 apply ends_app; apply pad_ends; lia]. rewrite parse_ymd_text by (done || unfold i64; lia). cbn [obind].
    rewrite days_from_civil_ok by (change (2 ^ 50) with 1125899906842624; lia). cbn [rbind]. rewrite E. unfold checked_i32. by rewrite decide_True.
  - assert (exists t, ymd_text y m d = z2b 45 :: t) as [t Et].
    { unfold ymd_text, pad at 1. assert ((y <? 0) = true) as -> by lia. by eexists. }
    rewrite trim_ends; [|exists (z2b 45), t; split; [done|unfold plain_byte; by vm_compute]|by do 4 apply ends_app; apply pad_ends; lia].
    rewrite Et. unfold parse_ymd, splitn3. cbn [split_once]. rewrite is_char_self by lia. destruct (split_once _ t) as [[a b]|]; done.
Qed.


