(* ===== verification/Binary.v ===== *)
(** * Binary values ([binary.rs])

    The binary form of a value, shared by binary result columns and binary
    [COPY], and the reader of a field at its column's type. Text messages of the
    errors are left out. Five printers that [binary.rs] calls and this development
    does not define (JSON display form, array, vector, network address and range
    text) are an argument, [Printers]: what is proved holds whatever they print. *)

From stdpp Require Import base list strings.
From Stdlib Require Import ZArith Lia Strings.Byte.
From S2P Require Import Prelude Order Codec Catalog Numeric Float Interval Inet Values Range Bit Temporal.
#[local] Open Scope Z_scope.

Module Binary.

Record Printers := {
  display_form : bytes -> bytes;
  array_text : list Value -> bytes;
  format_vector : list Z -> bytes;
  format_inet : InetAddr -> bytes;
  format_range : Range.RangeVal -> bytes }.

Section Binary.
Context (P : Printers).

Definition BAD_FORMAT : string := "22P04".
Definition MICROS_PER_DAY : Z := 86400000000.

(** [iN::from_be_bytes]. *)
Definition signed_be (bs : bytes) : Z := Range.signed (reverse bs).

(** The zone of a [TIMETZ] is [i32::try_from(..).unwrap_or_default()]. *)
Definition encode_value (value : Value) : option bytes :=
  match value with
  | Val.Null => None
  | Val.Bool b => Some [z2b (Z.b2z b)]
  | Val.Int i => Some (be_bytes 8 i)
  | Val.Float f => Some (be_bytes 8 f)
  | Val.Numeric d => Some (Numeric.format d)
  | Val.Date d => Some (be_bytes 4 d)
  | Val.Time t | Val.Timestamp t | Val.TimestampTz t => Some (be_bytes 8 t)
  | Val.TimeTz packed =>
      let zone_west := default 0 (checked_i32 (- Temporal.timetz_offset_east_secs packed)) in
      Some (be_bytes 8 (Temporal.timetz_local_micros packed) ++ be_bytes 4 zone_west)
  | Val.Uuid u => Some u
  | Val.Macaddr m => Some m
  | Val.Macaddr8 m => Some m
  | Val.Geometry g => Some (Geometry.format g)
  | Val.Inet a => Some (Inet.encode a)
  | Val.Bit b => Some (Bit.encode b)
  | Val.Range r => Some (range_tag (kind r) :: Range.encode r)
  | Val.Interval iv => Some (be_bytes 4 (months iv) ++ be_bytes 4 (days iv) ++ be_bytes 8 (micros iv))
  | Val.Text s | Val.Tsvector s | Val.Tsquery s | Val.Xml s => Some s
  | Val.Enum _ label => Some label
  | Val.Json s => Some (display_form P s)
  | Val.Array items => Some (array_text P items)
  | Val.Vector v => Some (format_vector P v)
  | Val.Bytes b => Some b
  end.

Definition bad_format {A} : Sql.result A := Err (Sql.Coded BAD_FORMAT).

Definition fixed (n : nat) (bs : bytes) : Sql.result bytes := if (length bs =? n)%nat then Ok bs else bad_format.

(** A panic of the text reader is a panic here. *)
Definition of_arith {A} (r : Temporal.arith A) : Sql.result A :=
  match r with Ok a => Ok a | Err e => match e with end | Panic => Panic | Diverge => Diverge end.

Definition out_of_range {A} : Sql.result A := Err (Sql.Coded "22008").

Definition within_text_range (value : Z) (format : Z -> Temporal.arith bytes) (parse : bytes -> Temporal.arith (option Z)) : Sql.result Z :=
  let? text := of_arith (format value) in
  let? back := of_arith (parse text) in
  if decide (back = Some value) then Ok value else out_of_range.

Definition time_of_day (us : Z) : Sql.result Z := if between 0 MICROS_PER_DAY us then Ok us else out_of_range.

Definition bad_bound (b : option Value) : bool :=
  match b with Some (Val.Numeric d) => MAX_SCALE <? scale d | _ => false end.

Definition decode_value (bs : bytes) (ty : Ty.ColumnType) : Sql.result Value :=
  match Ty.physical ty with
  | Ty.Bool =>
      let? b := fixed 1 bs in
      match b with
      | [b] => if b2z b =? 0 then Ok (Val.Bool false) else if b2z b =? 1 then Ok (Val.Bool true) else bad_format
      | _ => bad_format
      end
  | Ty.Int => let? b := fixed 8 bs in Ok (Val.Int (signed_be b))
  | Ty.Float => let? b := fixed 8 bs in Ok (Val.Float (le_val (reverse b)))
  | Ty.Date =>
      let? b := fixed 4 bs in
      let? d := within_text_range (signed_be b) Temporal.format_date Temporal.parse_date in Ok (Val.Date d)
  | Ty.Time => let? b := fixed 8 bs in let? t := time_of_day (signed_be b) in Ok (Val.Time t)
  | Ty.Timestamp =>
      let? b := fixed 8 bs in
      let? t := within_text_range (signed_be b) Temporal.format_timestamp Temporal.parse_timestamp in Ok (Val.Timestamp t)
  | Ty.TimestampTz =>
      let? b := fixed 8 bs in
      let? t := within_text_range (signed_be b) Temporal.format_timestamptz Temporal.parse_timestamptz in Ok (Val.TimestampTz t)
  | Ty.TimeTz =>
      let? raw := fixed 12 bs in
      let? local := time_of_day (signed_be (take 8 raw)) in
      let zone_west := signed_be (drop 8 raw) in
      if Z.quot MICROS_PER_DAY 1000000 <=? Z.abs zone_west then out_of_range
      else Ok (Val.TimeTz (Temporal.pack_timetz local (- zone_west)))
  | Ty.Interval =>
      let? raw := fixed 16 bs in
      Ok (Val.Interval (MkInterval (signed_be (take 4 raw)) (signed_be (take 4 (drop 4 raw))) (signed_be (drop 8 raw))))
  | Ty.Uuid => let? b := fixed 16 bs in Ok (Val.Uuid b)
  | Ty.Macaddr => let? b := fixed 6 bs in Ok (Val.Macaddr b)
  | Ty.Macaddr8 => let? b := fixed 8 bs in Ok (Val.Macaddr8 b)
  | Ty.Bytes => Ok (Val.Bytes bs)
  | Ty.Inet | Ty.Cidr =>
      match Inet.decode bs with
      | Some a => if (length (Inet.encode a) =? length bs)%nat then Ok (Val.Text (format_inet P a)) else bad_format
      | None => bad_format
      end
  | Ty.Bit _ | Ty.VarBit _ =>
      match Bit.decode bs 0 with
      | Some (bits, end_) => if (end_ =? length bs)%nat then Ok (Val.Bit bits) else bad_format
      | None => bad_format
      end
  | Ty.Range k =>
      match bs with
      | tag :: rest =>
          if decide (tag = range_tag k) then
            match Range.decode rest 0 k with
            | Some (r, end_) =>
                if negb (end_ =? length rest)%nat then bad_format
                else if bad_bound (lower r) || bad_bound (upper r) then bad_format
                else Ok (Val.Text (format_range P r))
            | None => bad_format
            end
          else bad_format
      | [] => bad_format
      end
  | _ => match from_utf8 bs with Some s => Ok (Val.Text s) | None => Err (Sql.Coded "22021") end
  end.

End Binary.
End Binary.
