(* ===== verification/BinaryThm.v ===== *)
(** * Theorems on binary values

    A value whose binary layout is its own comes back from its field; network
    addresses and ranges are handed on as their text; and no bytes a client sends
    make the reader panic. *)

From stdpp Require Import base list sets strings.
From Stdlib Require Import ZArith Lia Strings.Byte.
From S2P Require Import Prelude Order Codec Catalog Numeric NumericFacts Float Interval Inet Values InetFacts InetThm Range RangeFacts RangeCodec Bit BitThm Temporal TemporalFacts TemporalThm TemporalText Binary.
#[local] Open Scope Z_scope.
Import Temporal.

(** ** Integers in network order *)

Lemma signed_be_bytes n z : - 256 ^ Z.of_nat n <= 2 * z < 256 ^ Z.of_nat n -> (0 < n)%nat -> Binary.signed_be (be_bytes n z) = z.
Proof. intros. unfold Binary.signed_be, be_bytes. rewrite reverse_involutive. by apply signed_bytes. Qed.

Lemma signed_be_i64 z : i64 z -> Binary.signed_be (be_bytes 8 z) = z.
Proof. intros H. apply signed_be_bytes; [|lia]. unfold i64 in H. change (256 ^ Z.of_nat 8) with 18446744073709551616. lia. Qed.
Lemma signed_be_i32 z : i32 z -> Binary.signed_be (be_bytes 4 z) = z.
Proof. intros H. apply signed_be_bytes; [|lia]. unfold i32 in H. change (256 ^ Z.of_nat 4) with 4294967296. lia. Qed.

Lemma signed_range bs : (0 < length bs)%nat -> - 256 ^ Z.of_nat (length bs) <= 2 * Binary.signed_be bs < 256 ^ Z.of_nat (length bs).
Proof.
  intros H. unfold Binary.signed_be, Range.signed. pose proof (le_val_range (reverse bs)) as R. rewrite length_reverse in *.
  assert (256 ^ Z.of_nat (length bs) = 2 * (256 ^ Z.of_nat (length bs) / 2)) as E.
  { destruct (length bs) as [|n]; [lia|]. rewrite Nat2Z.inj_succ, Z.pow_succ_r by lia. replace (256 * 256 ^ Z.of_nat n) with (128 * 256 ^ Z.of_nat n * 2) by lia. rewrite Z.div_mul by lia. lia. }
  destruct (Z.ltb_spec (le_val (reverse bs)) (256 ^ Z.of_nat (length bs) / 2)); lia.
Qed.

Lemma signed_wide bs : length bs = 8%nat -> i64 (Binary.signed_be bs).
Proof. intros H. pose proof (signed_range bs ltac:(lia)) as R. rewrite H in R. change (256 ^ Z.of_nat 8) with 18446744073709551616 in R. unfold i64. lia. Qed.
Lemma signed_narrow bs : length bs = 4%nat -> i32 (Binary.signed_be bs).
Proof. intros H. pose proof (signed_range bs ltac:(lia)) as R. rewrite H in R. change (256 ^ Z.of_nat 4) with 4294967296 in R. unfold i32. lia. Qed.

Lemma fixed_ok n bs : length bs = n -> Binary.fixed n bs = Ok bs.
Proof. intros <-. unfold Binary.fixed. by rewrite Nat.eqb_refl. Qed.

Lemma fixed_bad n bs : length bs <> n -> Binary.fixed n bs = Binary.bad_format.
Proof. intros H. unfold Binary.fixed. by rewrite (proj2 (Nat.eqb_neq _ _) H). Qed.

(** ** Instants before year zero *)

Lemma parse_ymd_negative t : parse_ymd (z2b 45 :: t) = None.
Proof. unfold parse_ymd, splitn3. cbn [split_once]. rewrite is_char_self by lia. destruct (split_once _ t) as [[a b]|]; done. Qed.

Lemma parse_inner_negative t allow : parse_timestamp_inner (z2b 45 :: t) allow = Ok None.
Proof.
  unfold parse_timestamp_inner. cbn [split_once]. assert (is_separator (z2b 45) = false) as -> by (by vm_compute).
  assert (forall z dash, obind z (fun '(time_part, offset_micros) => obind (parse_ymd (z2b 45 :: dash)) (fun '(y, m, d) =>
    obind (if decide (time_part = []) then Some 0 else parse_time_of_day time_part) (fun tod => let? n := days_from_civil y m d in
      Ok (a ← checked_i64 (n * MICROS_PER_DAY); b ← checked_i64 (a + tod); checked_i64 (b - offset_micros))))) = Ok None) as A.
  { intros [[time_part off]|] dash; cbn [obind]; [by rewrite parse_ymd_negative|done]. }
  destruct (split_once is_separator t) as [[a b]|]; cbn [default from_option id]; apply A.
Qed.

Lemma before_zero ts : i64 ts -> (ymd (ts / MICROS_PER_DAY)).1.1 < 0 -> exists t, format_timestamp ts = Ok (z2b 45 :: t ++ format_time (ts mod MICROS_PER_DAY)).
Proof.
  intros H Hy. destruct (instant_civil ts H) as (y & m & d & Hc & V & E & B). pose proof (instant_day ts H) as Hd.
  assert (ymd (ts / MICROS_PER_DAY) = (y, m, d)) as Ey by (by rewrite <- E, ymd_civ). rewrite Ey in Hy. cbn in Hy.
  unfold format_timestamp, checked_i32. rewrite decide_True by (unfold i32; lia). cbn [default from_option id].
  unfold format_date. rewrite Hc. cbn [rbind]. assert (exists u, pad 4 y = z2b 45 :: u) as [u ->].
  { unfold pad. assert ((y <? 0) = true) as -> by lia. cbn [app]. by eexists. }
  generalize (format_time (ts mod MICROS_PER_DAY)), (pad 2 m), (pad 2 d). intros ft pm pd.
  exists (u ++ [z2b 45] ++ pm ++ [z2b 45] ++ pd ++ [z2b 32]). f_equal. cbn [app]. f_equal. rewrite <- !app_assoc. cbn [app]. do 2 f_equal. rewrite <- !app_assoc. cbn [app]. by rewrite <- app_assoc.
Qed.

Definition year_of (ts : Z) : Z := (ymd (ts / MICROS_PER_DAY)).1.1.

Lemma dash_starts t : starts (z2b 45 :: t).
Proof. exists (z2b 45), t. split; [done|]. unfold plain_byte. by vm_compute. Qed.

Lemma timestamp_reads ts : i64 ts -> exists s, format_timestamp ts = Ok s /\ parse_timestamp s = Ok (if 0 <=? year_of ts then Some ts else None).
Proof.
  intros H. unfold year_of. destruct (Z.leb_spec 0 (ymd (ts / MICROS_PER_DAY)).1.1) as [Hy|Hy]; [by apply timestamp_text|].
  destruct (before_zero ts H Hy) as [t E]. eexists. split; [done|]. destruct (micros_split ts) as [_ T]. destruct (parse_format_time_of_day _ T) as (_ & En & _).
  unfold parse_timestamp. rewrite trim_ends; [apply parse_inner_negative|apply dash_starts|]. rewrite app_comm_cons. by apply ends_app.
Qed.

Lemma timestamptz_reads ts : i64 ts -> exists s, format_timestamptz ts = Ok s /\ parse_timestamptz s = Ok (if 0 <=? year_of ts then Some ts else None).
Proof.
  intros H. assert (format_timestamptz ts = let? t := format_timestamp ts in Ok (t ++ zone_suffix 0)) as F by (unfold format_timestamptz; by replace (zone_suffix 0) with (z2b 43 :: pad 2 0) by (by vm_compute)).
  unfold year_of. destruct (Z.leb_spec 0 (ymd (ts / MICROS_PER_DAY)).1.1) as [Hy|Hy].
  - destruct (timestamptz_text ts 0) as (s & E & R); rewrite ?Z.mul_0_l, ?Z.add_0_r; try done. exists s. split; [|done]. rewrite F. rewrite <- E. unfold format_timestamptz_at.
    assert (saturating_i64 (ts + saturating_i64 (0 * MICROS_PER_SEC)) = ts) as -> by (unfold saturating_i64, i64 in *; change (2 ^ 63) with 9223372036854775808; lia). done.
  - destruct (before_zero ts H Hy) as [t E]. rewrite F, E. cbn [rbind]. eexists. split; [done|]. unfold parse_timestamptz.
    rewrite trim_ends; [apply parse_inner_negative|apply dash_starts|]. by apply ends_app, zone_ends.
Qed.

(** What the check against the text form comes to. *)
Lemma within_ok v y f p : (exists s, f v = Ok s /\ p s = Ok (if 0 <=? y then Some v else None)) ->
  Binary.within_text_range v f p = if 0 <=? y then Ok v else Binary.out_of_range.
Proof.
  intros (s & Ef & Ep). unfold Binary.within_text_range. rewrite Ef. cbn [Binary.of_arith rbind]. rewrite Ep. cbn [Binary.of_arith rbind].
  destruct (0 <=? y); [by rewrite decide_True|by rewrite decide_False].
Qed.

Definition date_year (d : Z) : Z := (ymd d).1.1.

(** ** Round trip *)

(** A value in the range of its type, in a column whose binary layout is its own. *)
Definition native (v : Value) (ty : Ty.ColumnType) : Prop :=
  match v, Ty.physical ty with
  | Val.Bool _, Ty.Bool | Val.Bytes _, Ty.Bytes => True
  | Val.Int z, Ty.Int => i64 z
  | Val.Float f, Ty.Float => u64 f
  | Val.Date d, Ty.Date => i32 d /\ 0 <= date_year d
  | Val.Time t, Ty.Time => 0 <= t <= MICROS_PER_DAY
  | Val.Timestamp t, Ty.Timestamp | Val.TimestampTz t, Ty.TimestampTz => i64 t /\ 0 <= year_of t
  | Val.TimeTz p, Ty.TimeTz => exists local off, 0 <= local < MICROS_PER_DAY /\ -86400 < off < 86400 /\ p = pack_timetz local off
  | Val.Interval iv, Ty.Interval => i32 (months iv) /\ i32 (days iv) /\ i64 (micros iv)
  | Val.Uuid b, Ty.Uuid => length b = 16%nat
  | Val.Macaddr b, Ty.Macaddr => length b = 6%nat
  | Val.Macaddr8 b, Ty.Macaddr8 => length b = 8%nat
  | Val.Bit bits, (Ty.Bit _ | Ty.VarBit _) => fits_u32 bits
  | Val.Text s, Ty.Text => from_utf8 s = Some s
  | _, _ => False
  end.

Lemma time_of_day_ok t : 0 <= t <= MICROS_PER_DAY -> Binary.time_of_day t = Ok t.
Proof. intros H. unfold Binary.time_of_day, between. change Binary.MICROS_PER_DAY with MICROS_PER_DAY. by rewrite (proj2 (Z.leb_le _ _) (proj1 H)), (proj2 (Z.leb_le _ _) (proj2 H)). Qed.

Section Fields.
Context (P : Binary.Printers).

Lemma timetz_field ty local off : Ty.physical ty = Ty.TimeTz -> 0 <= local < MICROS_PER_DAY -> -86400 < off < 86400 ->
  exists bs, Binary.encode_value P (Val.TimeTz (pack_timetz local off)) = Some bs /\
    Binary.decode_value P bs ty = Ok (Val.TimeTz (pack_timetz local off)).
Proof.
  intros Et Hl Ho. destruct (timetz_unpack local off Hl Ho) as (_ & Eo & El). unfold Binary.encode_value. rewrite Eo, El.
  unfold checked_i32. rewrite decide_True by (unfold i32; lia). cbn [default from_option id]. eexists. split; [done|].
  unfold Binary.decode_value. rewrite Et, fixed_ok by (by rewrite length_app, !be_bytes_length). cbn [rbind].
  rewrite take_app_length', drop_app_length' by (by rewrite be_bytes_length).
  assert (i64 local) by (unfold i64; change MICROS_PER_DAY with 86400000000 in Hl; lia).
  rewrite signed_be_i64, time_of_day_ok by (done || lia). cbn [rbind]. rewrite signed_be_i32 by (unfold i32; lia).
  change (Z.quot Binary.MICROS_PER_DAY 1000000) with 86400. rewrite (proj2 (Z.leb_gt _ _)) by lia. by rewrite Z.opp_involutive.
Qed.

Lemma interval_field ty iv : Ty.physical ty = Ty.Interval -> i32 (months iv) -> i32 (days iv) -> i64 (micros iv) ->
  exists bs, Binary.encode_value P (Val.Interval iv) = Some bs /\ Binary.decode_value P bs ty = Ok (Val.Interval iv).
Proof.
  intros Et Hm Hd Hu. eexists. split; [done|]. unfold Binary.decode_value. rewrite Et, fixed_ok by (by rewrite !length_app, !be_bytes_length). cbn [rbind].
  rewrite take_app_length' by (by rewrite be_bytes_length). rewrite (drop_app_length' _ _ 4) by (by rewrite be_bytes_length). rewrite take_app_length' by (by rewrite be_bytes_length).
  rewrite app_assoc, drop_app_length' by (by rewrite length_app, !be_bytes_length). rewrite !signed_be_i32, signed_be_i64 by done. by destruct iv.
Qed.

Lemma bit_field ty bits : match Ty.physical ty with Ty.Bit _ | Ty.VarBit _ => True | _ => False end -> fits_u32 bits ->
  Binary.decode_value P (Bit.encode bits) ty = Ok (Val.Bit bits).
Proof.
  intros Et H. assert (Bit.decode (Bit.encode bits) 0 = Some (bits, length (Bit.encode bits))) as E by (apply (decode_at bits _ 0 []); [done|]; rewrite app_nil_r; apply cursor_start).
  unfold Binary.decode_value. destruct (Ty.physical ty); try done; by rewrite E, Nat.eqb_refl.
Qed.

End Fields.

(** ** Whatever bytes arrive *)

(** The reader answers with a value or with one of its three SQLSTATEs. *)
Definition answers (r : Sql.result Value) : Prop :=
  match r with
  | Ok _ => True
  | Err (Sql.Coded code) => code ∈ ["22P04"; "22021"; "22008"]
  | _ => False
  end.

Lemma answers_bad : answers Binary.bad_format.
Proof. cbn. set_solver. Qed.
Lemma answers_range : answers Binary.out_of_range.
Proof. cbn. set_solver. Qed.

Lemma answers_fixed n bs (k : bytes -> Sql.result Value) : (length bs = n -> answers (k bs)) -> answers (let? b := Binary.fixed n bs in k b).
Proof. intros H. destruct (decide (length bs = n)) as [E|E]; [rewrite fixed_ok by done; by apply H|rewrite fixed_bad by done; apply answers_bad]. Qed.

Lemma answers_time t (k : Z -> Sql.result Value) : (forall t, answers (k t)) -> answers (let? u := Binary.time_of_day t in k u).
Proof. intros H. unfold Binary.time_of_day. destruct (between _ _ _); [apply H|apply answers_range]. Qed.

Lemma answers_within v y f p (k : Z -> Sql.result Value) : (exists s, f v = Ok s /\ p s = Ok (if 0 <=? y then Some v else None)) ->
  (forall z, answers (k z)) -> answers (let? z := Binary.within_text_range v f p in k z).
Proof. intros E H. rewrite (within_ok v y f p E). destruct (0 <=? y); [apply H|apply answers_range]. Qed.

Ltac answer :=
  repeat first
    [ done
    | apply answers_bad
    | apply answers_range
    | apply answers_time; intros; cbn zeta
    | eapply answers_within; [apply timestamp_reads, signed_wide; eassumption|intros]
    | eapply answers_within; [apply timestamptz_reads, signed_wide; eassumption|intros]
    | eapply answers_within; [apply date_text, signed_narrow; eassumption|intros]
    | apply answers_fixed; intros
    | progress case_match ].

Lemma decode_answers P bs ty : answers (Binary.decode_value P bs ty).
Proof. unfold Binary.decode_value. destruct (Ty.physical ty); try (destruct (from_utf8 bs); [done|cbn; set_solver]); answer. Qed.

(** ** The theorem *)

Lemma native_reads P v ty : native v ty -> exists bs, Binary.encode_value P v = Some bs /\ Binary.decode_value P bs ty = Ok v.
Proof.
  unfold native. intros H. destruct v; destruct (Ty.physical ty) eqn:Et; try done;
    try (destruct H as (local & off & Hl & Ho & ->); by apply timetz_field);
    try (destruct H as (Hm & Hd & Hu); by apply interval_field);
    try (eexists; split; [done|]; apply bit_field; [by rewrite Et|done]);
    eexists; (split; [done|]); unfold Binary.decode_value; rewrite Et; try (by rewrite H); rewrite ?fixed_ok by (done || apply be_bytes_length); cbn [rbind]; try done.
  - by destruct b.
  - by rewrite signed_be_i64.
  - unfold be_bytes. by rewrite reverse_involutive, le_val_bytes_u64.
  - destruct H as [Hd Hy]. rewrite signed_be_i32 by done. rewrite (within_ok _ (date_year v)) by (by apply date_text). by rewrite (proj2 (Z.leb_le _ _) Hy).
  - assert (i64 v) by (unfold i64; change MICROS_PER_DAY with 86400000000 in H; lia). by rewrite signed_be_i64, time_of_day_ok.
  - destruct H as [Hd Hy]. rewrite signed_be_i64 by done. rewrite (within_ok _ (year_of v)) by (by apply timestamp_reads). by rewrite (proj2 (Z.leb_le _ _) Hy).
  - destruct H as [Hd Hy]. rewrite signed_be_i64 by done. rewrite (within_ok _ (year_of v)) by (by apply timestamptz_reads). by rewrite (proj2 (Z.leb_le _ _) Hy).
Qed.

Lemma range_field P ty r : Ty.physical ty = Ty.Range (kind r) -> stored_range (kind r) r ->
  Binary.decode_value P (range_tag (kind r) :: Range.encode r) ty =
  if Binary.bad_bound (lower r) || Binary.bad_bound (upper r) then Binary.bad_format else Ok (Val.Text (Binary.format_range P r)).
Proof.
  intros Et H. assert (Range.decode (Range.encode r) 0 (kind r) = Some (r, length (Range.encode r))) as E by (apply (decode_range_at _ _ _ 0 []); [done|]; rewrite app_nil_r; apply cursor_start).
  unfold Binary.decode_value. rewrite Et, decide_True by done. by rewrite E, Nat.eqb_refl.
Qed.


Definition blank : Binary.Printers :=
  {| Binary.display_form := fun s => s; Binary.array_text := fun _ => []; Binary.format_vector := fun _ => [];
     Binary.format_inet := fun _ => []; Binary.format_range := fun _ => [] |}.

