(* ===== verification/Wire.v ===== *)
(** * The wire protocol: frames, messages, column tags and the framed connection

    [nusadb-wire]'s [frame.rs], [messages.rs], the type tags of [lib.rs] and the
    [Connection] of [server.rs]. A payload is written to a buffer and read from
    one that shrinks ([Bytes]); a message of either direction is a type byte and
    such a payload. The socket is the chunks it will deliver and the bytes it has
    taken; its own failures are not modelled. *)

From stdpp Require Import base list strings.
From Stdlib Require Import ZArith Lia Strings.Byte.
From S2P Require Import Prelude Order Codec Catalog.
#[local] Open Scope Z_scope.

(** ** [error.rs] *)

Module Net.
Inductive WireError : Set :=
| MalformedFrame (len : Z)
| FrameTooLarge (len : Z)
| BadMagic (magic : Z)
| UnknownMessageType (ty : Z)
| TruncatedPayload (ty : Z)
| MalformedPayload (ty : Z)
| InvalidString
| FieldTooLarge.
End Net.
Import Net.

Abbreviation wire A := (res WireError A).
(** Reads consume the payload; a failed read leaves what is left of it. *)
Abbreviation getter A := (M WireError bytes A).

Definition HEADER_LEN : Z := 5.
Definition MAX_FRAME_LEN : Z := 268435456.
Definition PROTOCOL_MAGIC : Z := 1314214721.

(** [from_be_bytes]. *)
Definition be_val (bs : bytes) : Z := le_val (reverse bs).

(** ** [frame.rs] *)

Record Frame := MkFrame { message_type : Z; payload : bytes }.

(** [(len + 5) as u32] wraps. *)
Definition frame_encode (f : Frame) : bytes :=
  [z2b (message_type f)] ++ be_bytes 4 ((Z.of_nat (length (payload f)) + HEADER_LEN) mod 2 ^ 32) ++ payload f.

Definition frame_decode (buf : bytes) : wire (option (Frame * bytes)) :=
  if Z.of_nat (length buf) <? HEADER_LEN then Ok None
  else
    let total := be_val (take 4 (drop 1 buf)) in
    if total <? HEADER_LEN then Err (MalformedFrame total)
    else if MAX_FRAME_LEN <? total then Err (FrameTooLarge total)
    else if Z.of_nat (length buf) <? total then Ok None
    else
      let n := Z.to_nat (total - HEADER_LEN) in
      Ok (Some (MkFrame (be_val (take 1 buf)) (take n (drop 5 buf)), drop n (drop 5 buf))).

(** ** Fields *)

Definition put_u16_count (len : nat) : wire bytes :=
  if Z.of_nat len <=? U16_MAX then Ok (be_bytes 2 (Z.of_nat len)) else Err FieldTooLarge.
Definition put_u32_len (len : nat) : wire bytes :=
  if Z.of_nat len <=? U32_MAX then Ok (be_bytes 4 (Z.of_nat len)) else Err FieldTooLarge.

Definition put_data (s : bytes) : wire bytes := let? l := put_u32_len (length s) in Ok (l ++ s).
Definition put_str (s : bytes) : wire bytes := put_data s.

(** The [for] loop over a list that writes each item in turn. *)
Fixpoint put_each {A} (put : A -> wire bytes) (l : list A) : wire bytes :=
  match l with
  | [] => Ok []
  | a :: l => let? b := put a in let? r := put_each put l in Ok (b ++ r)
  end.

Definition put_field (f : option bytes) : wire bytes :=
  match f with
  | Some b => let? d := put_data b in Ok (be_bytes 1 1 ++ d)
  | None => Ok (be_bytes 1 0)
  end.

Definition put_counted {A} (put : A -> wire bytes) (l : list A) : wire bytes :=
  let? c := put_u16_count (length l) in let? r := put_each put l in Ok (c ++ r).

Definition put_fields (fields : list (option bytes)) : wire bytes := put_counted put_field fields.

(** [remaining() < n] then [split_to(n)]. *)
Definition get_bytes (n : nat) (ty : Z) : getter bytes :=
  fun p => if (length p <? n)%nat then (Err (TruncatedPayload ty), p) else (Ok (take n p), drop n p).

Definition get_uint (n : nat) (ty : Z) : getter Z := let* b := get_bytes n ty in sret (be_val b).
Definition get_u8 : Z -> getter Z := get_uint 1.
Definition get_u16 : Z -> getter Z := get_uint 2.
Definition get_u32 : Z -> getter Z := get_uint 4.

Definition get_data (ty : Z) : getter bytes := let* n := get_u32 ty in get_bytes (Z.to_nat n) ty.

Definition get_str (ty : Z) : getter bytes :=
  let* b := get_data ty in
  match from_utf8 b with Some s => sret s | None => sfail InvalidString end.

Fixpoint get_times {A} (n : nat) (get : getter A) : getter (list A) :=
  match n with
  | O => sret []
  | S n => let* a := get in let* l := get_times n get in sret (a :: l)
  end.

Definition get_counted {A} (get : Z -> getter A) (ty : Z) : getter (list A) :=
  let* n := get_u16 ty in get_times (Z.to_nat n) (get ty).

Definition get_field (ty : Z) : getter (option bytes) :=
  let* tag := get_u8 ty in
  if tag =? 0 then sret None else let* b := get_data ty in sret (Some b).

Definition get_fields (ty : Z) : getter (list (option bytes)) := get_counted get_field ty.

(** [p.to_vec()]: whatever is left. *)
Definition get_rest : getter bytes := fun p => (Ok p, p).

(** ** [messages.rs] *)

Definition T_STARTUP : Z := 83.
Definition T_QUERY : Z := 81.
Definition T_TERMINATE : Z := 88.
Definition T_CANCEL_REQUEST : Z := 75.
Definition T_PARSE : Z := 80.
Definition T_BIND : Z := 66.
Definition T_DESCRIBE : Z := 68.
Definition T_EXECUTE : Z := 69.
Definition T_SYNC : Z := 89.
Definition T_CLOSE : Z := 67.
Definition T_COPY_DATA : Z := 100.
Definition T_COPY_DONE : Z := 99.
Definition T_COPY_FAIL : Z := 102.
Definition T_SASL_INITIAL : Z := 112.
Definition T_SASL_RESPONSE : Z := 114.
Definition T_BACKEND_KEY_DATA : Z := 75.
Definition T_AUTH_OK : Z := 82.
Definition AUTH_OK : Z := 0.
Definition AUTH_SASL : Z := 10.
Definition AUTH_SASL_CONTINUE : Z := 11.
Definition AUTH_SASL_FINAL : Z := 12.
Definition T_READY : Z := 90.
Definition T_PARAMETER_STATUS : Z := 83.
Definition T_COMMAND_COMPLETE : Z := 67.
Definition T_ERROR : Z := 69.
Definition T_ROW_DESCRIPTION : Z := 84.
Definition T_ROW_DESCRIPTION_TYPED : Z := 121.
Definition T_DATA_ROW : Z := 68.
Definition T_PARSE_COMPLETE : Z := 49.
Definition T_BIND_COMPLETE : Z := 50.
Definition T_CLOSE_COMPLETE : Z := 51.
Definition T_PARAMETER_DESCRIPTION : Z := 116.
Definition T_NO_DATA : Z := 110.
Definition T_PORTAL_SUSPENDED : Z := 122.
Definition T_COPY_IN_RESPONSE : Z := 71.
Definition T_COPY_OUT_RESPONSE : Z := 72.
Definition T_COPY_OUT_DATA : Z := 100.
Definition T_COPY_OUT_DONE : Z := 99.
Definition T_NOTIFICATION_RESPONSE : Z := 65.
Definition T_NOTICE_RESPONSE : Z := 78.

Inductive DescribeTarget : Set := Statement | Portal.
Definition target_tag (t : DescribeTarget) : Z := match t with Statement => 83 | Portal => 80 end.
Definition target_from_tag (tag : Z) : option DescribeTarget :=
  if tag =? 83 then Some Statement else if tag =? 80 then Some Portal else None.

Inductive TxnStatus : Set := Idle | InTransaction | Failed.
Definition status_tag (s : TxnStatus) : Z := match s with Idle => 73 | InTransaction => 84 | Failed => 69 end.
Definition status_from_tag (tag : Z) : option TxnStatus :=
  if tag =? 73 then Some Idle else if tag =? 84 then Some InTransaction else if tag =? 69 then Some Failed else None.

Module Front.
Inductive FrontendMessage : Type :=
| Startup (major minor : Z) (user database : bytes)
| Query (sql : bytes)
| Parse (name sql : bytes) (param_types : bytes)
| Bind (portal statement : bytes) (params : list (option bytes)) (result_formats : list Z)
| Describe (target : DescribeTarget) (name : bytes)
| Execute (portal : bytes) (max_rows : Z)
| Sync
| Close (target : DescribeTarget) (name : bytes)
| SaslInitialResponse (mechanism data : bytes)
| SaslResponse (data : bytes)
| CopyData (data : bytes)
| CopyDone
| CopyFail (message : bytes)
| CancelRequest (pid secret : Z)
| Terminate.

(** [encode]: the type byte and the payload of each arm. *)
Definition encode_parts (m : FrontendMessage) : wire (Z * bytes) :=
  match m with
  | Startup major minor user database =>
      let? u := put_str user in let? d := put_str database in
      Ok (T_STARTUP, be_bytes 4 PROTOCOL_MAGIC ++ be_bytes 2 major ++ be_bytes 2 minor ++ u ++ d)
  | Query sql => let? s := put_str sql in Ok (T_QUERY, s)
  | SaslInitialResponse mechanism data =>
      let? m := put_str mechanism in let? d := put_data data in Ok (T_SASL_INITIAL, m ++ d)
  | SaslResponse data => Ok (T_SASL_RESPONSE, data)
  | CopyData data => Ok (T_COPY_DATA, data)
  | CopyDone => Ok (T_COPY_DONE, [])
  | CopyFail message => let? m := put_str message in Ok (T_COPY_FAIL, m)
  | CancelRequest pid secret => Ok (T_CANCEL_REQUEST, be_bytes 4 pid ++ be_bytes 4 secret)
  | Parse name sql param_types =>
      let? n := put_str name in let? s := put_str sql in let? c := put_u16_count (length param_types) in
      Ok (T_PARSE, n ++ s ++ c ++ param_types)
  | Bind portal statement params result_formats =>
      let? p := put_str portal in let? s := put_str statement in let? f := put_fields params in
      let? r := put_counted (fun code => Ok (be_bytes 2 code)) result_formats in
      Ok (T_BIND, p ++ s ++ f ++ r)
  | Describe target name => let? n := put_str name in Ok (T_DESCRIBE, be_bytes 1 (target_tag target) ++ n)
  | Execute portal max_rows => let? p := put_str portal in Ok (T_EXECUTE, p ++ be_bytes 4 max_rows)
  | Sync => Ok (T_SYNC, [])
  | Close target name => let? n := put_str name in Ok (T_CLOSE, be_bytes 1 (target_tag target) ++ n)
  | Terminate => Ok (T_TERMINATE, [])
  end.

Definition encode (m : FrontendMessage) : wire Frame := let? '(ty, p) := encode_parts m in Ok (MkFrame ty p).

Definition get_target (ty : Z) : getter DescribeTarget :=
  let* tag := get_u8 ty in match target_from_tag tag with Some t => sret t | None => sfail (MalformedPayload ty) end.

Definition read (ty : Z) : getter FrontendMessage :=
  if ty =? T_STARTUP then
    let* magic := get_u32 T_STARTUP in
    if negb (magic =? PROTOCOL_MAGIC) then sfail (BadMagic magic)
    else
      let* major := get_u16 T_STARTUP in let* minor := get_u16 T_STARTUP in
      let* user := get_str T_STARTUP in let* database := get_str T_STARTUP in
      sret (Startup major minor user database)
  else if ty =? T_QUERY then let* sql := get_str T_QUERY in sret (Query sql)
  else if ty =? T_PARSE then
    let* name := get_str T_PARSE in let* sql := get_str T_PARSE in
    let* n := get_u16 T_PARSE in let* types := get_bytes (Z.to_nat n) T_PARSE in
    sret (Parse name sql types)
  else if ty =? T_BIND then
    let* portal := get_str T_BIND in let* statement := get_str T_BIND in
    let* params := get_fields T_BIND in let* formats := get_counted get_u16 T_BIND in
    sret (Bind portal statement params formats)
  else if ty =? T_DESCRIBE then
    let* target := get_target T_DESCRIBE in let* name := get_str T_DESCRIBE in sret (Describe target name)
  else if ty =? T_EXECUTE then
    let* portal := get_str T_EXECUTE in let* max_rows := get_u32 T_EXECUTE in sret (Execute portal max_rows)
  else if ty =? T_SYNC then sret Sync
  else if ty =? T_CLOSE then
    let* target := get_target T_CLOSE in let* name := get_str T_CLOSE in sret (Close target name)
  else if ty =? T_SASL_INITIAL then
    let* mechanism := get_str T_SASL_INITIAL in let* data := get_data T_SASL_INITIAL in
    sret (SaslInitialResponse mechanism data)
  else if ty =? T_SASL_RESPONSE then let* data := get_rest in sret (SaslResponse data)
  else if ty =? T_CANCEL_REQUEST then
    let* pid := get_u32 T_CANCEL_REQUEST in let* secret := get_u32 T_CANCEL_REQUEST in sret (CancelRequest pid secret)
  else if ty =? T_COPY_DATA then let* data := get_rest in sret (CopyData data)
  else if ty =? T_COPY_DONE then sret CopyDone
  else if ty =? T_COPY_FAIL then let* message := get_str T_COPY_FAIL in sret (CopyFail message)
  else if ty =? T_TERMINATE then sret Terminate
  else sfail (UnknownMessageType ty).

(** Bytes left over after the last field are ignored. *)
Definition decode (f : Frame) : wire FrontendMessage := fst (read (message_type f) (payload f)).
End Front.

Module Back.
Inductive BackendMessage : Type :=
| AuthOk
| AuthSasl (mechanisms : list bytes)
| AuthSaslContinue (data : bytes)
| AuthSaslFinal (data : bytes)
| ParameterStatus (name value : bytes)
| ReadyForQuery (status : TxnStatus)
| CommandComplete (tag : bytes)
| Error (code message : bytes)
| RowDescription (columns : list bytes)
| RowDescriptionTyped (columns : list (bytes * Z))
| DataRow (values : list (option bytes))
| ParseComplete
| BindComplete
| CloseComplete
| ParameterDescription (count : Z)
| NoData
| PortalSuspended
| CopyInResponse (format columns : Z)
| CopyOutResponse (format columns : Z)
| CopyData (data : bytes)
| CopyDone
| BackendKeyData (pid secret : Z)
| NotificationResponse (pid : Z) (channel text : bytes)
| NoticeResponse (severity code message : bytes).

Definition put_typed (c : bytes * Z) : wire bytes := let? n := put_str c.1 in Ok (n ++ be_bytes 1 c.2).

Definition encode_parts (m : BackendMessage) : wire (Z * bytes) :=
  match m with
  | AuthOk => Ok (T_AUTH_OK, be_bytes 4 AUTH_OK)
  | AuthSasl mechanisms => let? l := put_counted put_str mechanisms in Ok (T_AUTH_OK, be_bytes 4 AUTH_SASL ++ l)
  | AuthSaslContinue data => Ok (T_AUTH_OK, be_bytes 4 AUTH_SASL_CONTINUE ++ data)
  | AuthSaslFinal data => Ok (T_AUTH_OK, be_bytes 4 AUTH_SASL_FINAL ++ data)
  | ParameterStatus name value => let? n := put_str name in let? v := put_str value in Ok (T_PARAMETER_STATUS, n ++ v)
  | ReadyForQuery status => Ok (T_READY, be_bytes 1 (status_tag status))
  | CommandComplete tag => let? t := put_str tag in Ok (T_COMMAND_COMPLETE, t)
  | Error code message => let? c := put_str code in let? m := put_str message in Ok (T_ERROR, c ++ m)
  | RowDescription columns => let? l := put_counted put_str columns in Ok (T_ROW_DESCRIPTION, l)
  | RowDescriptionTyped columns => let? l := put_counted put_typed columns in Ok (T_ROW_DESCRIPTION_TYPED, l)
  | DataRow values => let? l := put_fields values in Ok (T_DATA_ROW, l)
  | ParseComplete => Ok (T_PARSE_COMPLETE, [])
  | BindComplete => Ok (T_BIND_COMPLETE, [])
  | CloseComplete => Ok (T_CLOSE_COMPLETE, [])
  | ParameterDescription count => Ok (T_PARAMETER_DESCRIPTION, be_bytes 2 count)
  | NoData => Ok (T_NO_DATA, [])
  | PortalSuspended => Ok (T_PORTAL_SUSPENDED, [])
  | CopyInResponse format columns => Ok (T_COPY_IN_RESPONSE, be_bytes 1 format ++ be_bytes 2 columns)
  | CopyOutResponse format columns => Ok (T_COPY_OUT_RESPONSE, be_bytes 1 format ++ be_bytes 2 columns)
  | CopyData data => Ok (T_COPY_OUT_DATA, data)
  | CopyDone => Ok (T_COPY_OUT_DONE, [])
  | BackendKeyData pid secret => Ok (T_BACKEND_KEY_DATA, be_bytes 4 pid ++ be_bytes 4 secret)
  | NotificationResponse pid channel text =>
      let? c := put_str channel in let? t := put_str text in Ok (T_NOTIFICATION_RESPONSE, be_bytes 4 pid ++ c ++ t)
  | NoticeResponse severity code message =>
      let? s := put_str severity in let? c := put_str code in let? m := put_str message in Ok (T_NOTICE_RESPONSE, s ++ c ++ m)
  end.

Definition encode (m : BackendMessage) : wire Frame := let? '(ty, p) := encode_parts m in Ok (MkFrame ty p).

Definition get_typed (ty : Z) : getter (bytes * Z) :=
  let* name := get_str ty in let* tag := get_u8 ty in sret (name, tag).

Definition read_auth : getter BackendMessage :=
  let* code := get_u32 T_AUTH_OK in
  if code =? AUTH_OK then sret AuthOk
  else if code =? AUTH_SASL then let* l := get_counted get_str T_AUTH_OK in sret (AuthSasl l)
  else if code =? AUTH_SASL_CONTINUE then let* data := get_rest in sret (AuthSaslContinue data)
  else if code =? AUTH_SASL_FINAL then let* data := get_rest in sret (AuthSaslFinal data)
  else sfail (MalformedPayload T_AUTH_OK).

Definition get_status (ty : Z) : getter TxnStatus :=
  let* tag := get_u8 ty in match status_from_tag tag with Some s => sret s | None => sfail (MalformedPayload ty) end.

Definition read (ty : Z) : getter BackendMessage :=
  if ty =? T_AUTH_OK then read_auth
  else if ty =? T_READY then let* s := get_status T_READY in sret (ReadyForQuery s)
  else if ty =? T_PARAMETER_STATUS then
    let* name := get_str T_PARAMETER_STATUS in let* value := get_str T_PARAMETER_STATUS in sret (ParameterStatus name value)
  else if ty =? T_COMMAND_COMPLETE then let* tag := get_str T_COMMAND_COMPLETE in sret (CommandComplete tag)
  else if ty =? T_ERROR then let* code := get_str T_ERROR in let* message := get_str T_ERROR in sret (Error code message)
  else if ty =? T_ROW_DESCRIPTION then let* l := get_counted get_str T_ROW_DESCRIPTION in sret (RowDescription l)
  else if ty =? T_ROW_DESCRIPTION_TYPED then let* l := get_counted get_typed T_ROW_DESCRIPTION_TYPED in sret (RowDescriptionTyped l)
  else if ty =? T_DATA_ROW then let* l := get_fields T_DATA_ROW in sret (DataRow l)
  else if ty =? T_PARSE_COMPLETE then sret ParseComplete
  else if ty =? T_BIND_COMPLETE then sret BindComplete
  else if ty =? T_CLOSE_COMPLETE then sret CloseComplete
  else if ty =? T_PARAMETER_DESCRIPTION then let* count := get_u16 T_PARAMETER_DESCRIPTION in sret (ParameterDescription count)
  else if ty =? T_NO_DATA then sret NoData
  else if ty =? T_PORTAL_SUSPENDED then sret PortalSuspended
  else if ty =? T_COPY_IN_RESPONSE then
    let* format := get_u8 T_COPY_IN_RESPONSE in let* columns := get_u16 T_COPY_IN_RESPONSE in sret (CopyInResponse format columns)
  else if ty =? T_COPY_OUT_RESPONSE then
    let* format := get_u8 T_COPY_OUT_RESPONSE in let* columns := get_u16 T_COPY_OUT_RESPONSE in sret (CopyOutResponse format columns)
  else if ty =? T_COPY_OUT_DATA then let* data := get_rest in sret (CopyData data)
  else if ty =? T_COPY_OUT_DONE then sret CopyDone
  else if ty =? T_BACKEND_KEY_DATA then
    let* pid := get_u32 T_BACKEND_KEY_DATA in let* secret := get_u32 T_BACKEND_KEY_DATA in sret (BackendKeyData pid secret)
  else if ty =? T_NOTIFICATION_RESPONSE then
    let* pid := get_u32 T_NOTIFICATION_RESPONSE in let* channel := get_str T_NOTIFICATION_RESPONSE in
    let* text := get_str T_NOTIFICATION_RESPONSE in sret (NotificationResponse pid channel text)
  else if ty =? T_NOTICE_RESPONSE then
    let* severity := get_str T_NOTICE_RESPONSE in let* code := get_str T_NOTICE_RESPONSE in
    let* message := get_str T_NOTICE_RESPONSE in sret (NoticeResponse severity code message)
  else sfail (UnknownMessageType ty).

Definition decode (f : Frame) : wire BackendMessage := fst (read (message_type f) (payload f)).
End Back.

(** ** Column tags ([lib.rs]) *)

Definition ARRAY_ELEMENT_TAG_FLAG : Z := 128.

Definition column_type_tag (ty : Ty.ColumnType) : Z :=
  match ty with
  | Ty.Bool => 1
  | Ty.Int | Ty.SmallInt | Ty.BigInt => 2
  | Ty.Float | Ty.Real => 3
  | Ty.Numeric _ _ => 4
  | Ty.Text | Ty.VarChar _ | Ty.Char _ | Ty.Enum => 5
  | Ty.Bytes => 6
  | Ty.Date => 7
  | Ty.Time => 8
  | Ty.TimeTz => 9
  | Ty.Timestamp => 10
  | Ty.TimestampTz => 11
  | Ty.Interval => 12
  | Ty.Uuid => 13
  | Ty.Json | Ty.Jsonb => 14
  | Ty.Array _ => 15
  | Ty.Vector _ => 16
  | Ty.Macaddr => 17
  | Ty.Inet => 18
  | Ty.Cidr => 19
  | Ty.Bit _ => 20
  | Ty.VarBit _ => 21
  | Ty.Range _ => 22
  | Ty.Macaddr8 => 23
  | Ty.Geometry _ => 24
  | Ty.Tsvector => 25
  | Ty.Tsquery => 26
  | Ty.Xml => 27
  end.

Definition column_type_tag_v2 (ty : Ty.ColumnType) : Z :=
  match ty with
  | Ty.Array elem => Z.lor ARRAY_ELEMENT_TAG_FLAG (column_type_tag (column_type elem))
  | other => column_type_tag other
  end.

Definition array_element_tag (tag : Z) : option Z :=
  if negb (Z.land tag ARRAY_ELEMENT_TAG_FLAG =? 0) then Some (Z.land tag (255 - ARRAY_ELEMENT_TAG_FLAG)) else None.

Definition type_names : list string :=
  ["BOOL"; "INT"; "FLOAT"; "NUMERIC"; "TEXT"; "BYTES"; "DATE"; "TIME"; "TIMETZ"; "TIMESTAMP"; "TIMESTAMPTZ"; "INTERVAL"; "UUID"; "JSON"; "ARRAY";
   "VECTOR"; "MACADDR"; "INET"; "CIDR"; "BIT"; "VARBIT"; "RANGE"; "MACADDR8"; "GEOMETRY"; "TSVECTOR"; "TSQUERY"; "XML"]%string.

Definition column_type_name (tag : Z) : string :=
  match array_element_tag tag with
  | Some _ => "ARRAY"
  | None => if between 1 27 tag then default "UNKNOWN"%string (type_names !! Z.to_nat (tag - 1)) else "UNKNOWN"
  end.

(** ** The framed connection ([server.rs]) *)

Definition OUT_FLUSH_THRESHOLD : Z := 65536.

(** [incoming] is what the socket will deliver, a chunk per read; [sent] what it has taken. *)
Record Connection := MkConn { incoming : list bytes; sent : bytes; buf : bytes; out : bytes }.

Definition flush_now (c : Connection) : Connection :=
  match out c with
  | [] => c
  | _ => MkConn (incoming c) (sent c ++ out c) (buf c) []
  end.

Definition write_frame (f : Frame) (c : Connection) : Connection :=
  let c := MkConn (incoming c) (sent c) (buf c) (out c ++ frame_encode f) in
  if OUT_FLUSH_THRESHOLD <=? Z.of_nat (length (out c)) then flush_now c else c.

(** The two errors [read_frame] reports. *)
Inductive ReadError : Set := Frame_error (e : WireError) | UnexpectedEof.

(** A round decodes, and if no frame is complete flushes and reads a chunk. [read_buf] returns
    zero bytes at the end of the stream; an empty chunk is read as that. *)
Fixpoint read_loop (chunks : list bytes) (c : Connection) : res ReadError (option Frame) * Connection :=
  match frame_decode (buf c) with
  | Ok (Some (f, rest)) => (Ok (Some f), MkConn chunks (sent c) rest (out c))
  | Ok None =>
      let c := flush_now c in
      match chunks with
      | [] | [] :: _ => (if decide (buf c = []) then Ok None else Err UnexpectedEof, MkConn (tail chunks) (sent c) (buf c) (out c))
      | chunk :: chunks => read_loop chunks (MkConn chunks (sent c) (buf c ++ chunk) (out c))
      end
  | Err e => (Err (Frame_error e), c)
  | Panic => (Panic, c)
  | Diverge => (Diverge, c)
  end.

Definition read_frame (c : Connection) : res ReadError (option Frame) * Connection := read_loop (incoming c) c.
