(* ===== verification/WireThm.v ===== *)
(** * What the wire protocol promises

    Every field reader undoes its writer wherever the bytes stand, so every
    message reads back from its frame; a connection delivers the frames that were
    written, in order, however the bytes are cut into reads. *)

From stdpp Require Import base list strings.
From Stdlib Require Import ZArith Lia Strings.Byte.
From S2P Require Import Prelude Order Codec Catalog Wire.
Import Net.
#[local] Open Scope Z_scope.

(** ** Fields *)

Class WireCodec {A} (put : A -> wire bytes) (get : Z -> getter A) (wf : A -> Prop) : Prop :=
  wire_reads : forall a b rest ty, wf a -> put a = Ok b -> get ty (b ++ rest) = (Ok a, rest).

(** The last field of a payload. *)
Lemma wire_reads_last `{WireCodec A put get wf} a b ty : wf a -> put a = Ok b -> get ty b = (Ok a, []).
Proof. intros Hw Hp. rewrite <- (app_nil_r b) at 1. by apply wire_reads. Qed.

Lemma be_val_bytes n z : 0 <= z < 256 ^ Z.of_nat n -> be_val (be_bytes n z) = z.
Proof. intros H. unfold be_val, be_bytes. rewrite reverse_involutive. by apply le_val_bytes. Qed.

Lemma get_bytes_app n ty b rest : length b = n -> get_bytes n ty (b ++ rest) = (Ok b, rest).
Proof.
  intros <-. unfold get_bytes. assert ((length (b ++ rest) <? length b)%nat = false) as -> by (apply Nat.ltb_ge; rewrite length_app; lia).
  by rewrite take_app_length, drop_app_length.
Qed.

(** A fixed-width integer is written without a check. *)
Definition put_uint (n : nat) (z : Z) : wire bytes := Ok (be_bytes n z).

#[export] Instance uint_codec n : WireCodec (put_uint n) (get_uint n) (fun z => 0 <= z < 256 ^ Z.of_nat n).
Proof.
  intros z b rest ty Hz [= <-]. unfold get_uint. erewrite sbind_ok by (apply get_bytes_app, be_bytes_length). unfold sret. by rewrite be_val_bytes.
Qed.

Lemma get_uint_app n z rest ty : 0 <= z < 256 ^ Z.of_nat n -> get_uint n ty (be_bytes n z ++ rest) = (Ok z, rest).
Proof. intros H. by apply (uint_codec n z). Qed.

Lemma put_u32_inv n b : put_u32_len n = Ok b -> b = be_bytes 4 (Z.of_nat n) /\ Z.of_nat n < 2 ^ 32.
Proof. unfold put_u32_len. destruct (Z.leb_spec (Z.of_nat n) U32_MAX) as [H|]; [|done]. intros [= <-]. unfold U32_MAX in H. split; [done|lia]. Qed.

Lemma put_u16_inv n b : put_u16_count n = Ok b -> b = be_bytes 2 (Z.of_nat n) /\ Z.of_nat n < 2 ^ 16.
Proof. unfold put_u16_count. destruct (Z.leb_spec (Z.of_nat n) U16_MAX) as [H|]; [|done]. intros [= <-]. unfold U16_MAX in H. split; [done|lia]. Qed.

#[export] Instance data_codec : WireCodec put_data get_data (fun _ => True).
Proof.
  intros s b rest ty _ H. unfold put_data in H. apply rbind_inv in H as (l & Hl & [= <-]). apply put_u32_inv in Hl as [-> Hn]. rewrite <- app_assoc.
  unfold get_data, get_u32. erewrite sbind_ok by (apply get_uint_app; change (256 ^ Z.of_nat 4) with (2 ^ 32); lia). rewrite Nat2Z.id. by apply get_bytes_app.
Qed.

#[export] Instance str_codec : WireCodec put_str get_str (fun s => utf8_valid s = true).
Proof.
  intros s b rest ty Hu H. unfold get_str. erewrite sbind_ok by (by eapply data_codec). unfold from_utf8. by rewrite Hu.
Qed.

#[export] Instance field_codec : WireCodec put_field get_field (fun _ => True).
Proof.
  intros [s|] b rest ty _ H; unfold put_field in H; unfold get_field, get_u8.
  - apply rbind_inv in H as (d & Hd & [= <-]). rewrite <- app_assoc. erewrite sbind_ok by (apply get_uint_app; lia). cbn [Z.eqb].
    by erewrite sbind_ok by (by eapply data_codec).
  - injection H as <-. by erewrite sbind_ok by (apply get_uint_app; lia).
Qed.

Lemma get_times_each `{WireCodec A put get wf} l b rest ty :
  Forall wf l -> put_each put l = Ok b -> get_times (length l) (get ty) (b ++ rest) = (Ok l, rest).
Proof.
  intros Hl. revert b. induction Hl as [|a l Ha _ IH]; intros b Hb; cbn in Hb.
  - by injection Hb as <-.
  - apply rbind_inv in Hb as (x & Hx & Hb). apply rbind_inv in Hb as (r & Hr & [= <-]). rewrite <- app_assoc. cbn [get_times length].
    erewrite sbind_ok by (by eapply wire_reads). by erewrite sbind_ok by (by apply IH).
Qed.

#[export] Instance counted_codec `{WireCodec A put get wf} : WireCodec (put_counted put) (get_counted get) (Forall wf).
Proof.
  intros l b rest ty Hl Hb. unfold put_counted in Hb. apply rbind_inv in Hb as (c & Hc & Hb). apply rbind_inv in Hb as (r & Hr & [= <-]).
  apply put_u16_inv in Hc as [-> Hn]. rewrite <- app_assoc. unfold get_counted, get_u16.
  erewrite sbind_ok by (apply get_uint_app; change (256 ^ Z.of_nat 2) with (2 ^ 16); lia). rewrite Nat2Z.id. by eapply get_times_each.
Qed.

#[export] Instance fields_codec : WireCodec put_fields get_fields (Forall (fun _ => True)) := counted_codec.

#[export] Instance typed_codec : WireCodec Back.put_typed Back.get_typed (fun c => utf8_valid c.1 = true /\ u8 c.2).
Proof.
  intros [s t] b rest ty [Hu Ht] H. unfold Back.put_typed in H. apply rbind_inv in H as (n & Hn & [= <-]). rewrite <- app_assoc. unfold Back.get_typed, get_u8.
  erewrite sbind_ok by (by eapply str_codec). by erewrite sbind_ok by (apply get_uint_app; unfold u8 in Ht; cbn in *; lia).
Qed.

(** ** Messages *)

Definition str (s : bytes) : Prop := utf8_valid s = true.

(** The values the fields' types hold. *)
Definition wf_front (m : Front.FrontendMessage) : Prop :=
  match m with
  | Front.Startup major minor user database => u16 major /\ u16 minor /\ str user /\ str database
  | Front.Query s | Front.CopyFail s => str s
  | Front.Parse name sql _ => str name /\ str sql
  | Front.Bind portal statement _ formats => str portal /\ str statement /\ Forall u16 formats
  | Front.Describe _ name | Front.Close _ name => str name
  | Front.Execute portal max_rows => str portal /\ u32 max_rows
  | Front.SaslInitialResponse mechanism _ => str mechanism
  | Front.CancelRequest pid secret => u32 pid /\ u32 secret
  | _ => True
  end.

Definition wf_back (m : Back.BackendMessage) : Prop :=
  match m with
  | Back.AuthSasl l | Back.RowDescription l => Forall str l
  | Back.ParameterStatus a b | Back.Error a b => str a /\ str b
  | Back.CommandComplete s => str s
  | Back.RowDescriptionTyped l => Forall (fun c => str c.1 /\ u8 c.2) l
  | Back.ParameterDescription n => u16 n
  | Back.CopyInResponse f c | Back.CopyOutResponse f c => u8 f /\ u16 c
  | Back.BackendKeyData a b => u32 a /\ u32 b
  | Back.NotificationResponse pid a b => u32 pid /\ str a /\ str b
  | Back.NoticeResponse a b c => str a /\ str b /\ str c
  | _ => True
  end.

#[export] Instance code_codec : WireCodec (fun code => Ok (be_bytes 2 code)) get_u16 u16.
Proof. intros z b rest ty Hz H. apply (uint_codec 2 z); [exact Hz|done]. Qed.

(** Pick the arm of a type byte. *)
Ltac wire_arm :=
  repeat match goal with
  | |- context [if ?a =? ?b then _ else _] => let v := eval vm_compute in (a =? b) in change (a =? b) with v; cbn iota
  end.

Ltac wire_range := first [assumption | (unfold u8, u16, u32, PROTOCOL_MAGIC, AUTH_OK, AUTH_SASL, AUTH_SASL_CONTINUE, AUTH_SASL_FINAL in *; cbn in *; lia)].
Ltac wire_step :=
  rewrite <- ?app_assoc;
  first [ erewrite sbind_ok by (apply get_uint_app; wire_range)
        | erewrite sbind_ok by (eapply wire_reads; cycle 1; [eassumption|first [exact I | assumption | (by apply Forall_true)]])
        | erewrite sbind_ok by (apply get_bytes_app; rewrite ?Nat2Z.id; reflexivity) ];
  cbn beta; rewrite ?Z.eqb_refl; cbn [negb]; wire_arm.
Ltac wire_invert H :=
  repeat (apply rbind_inv in H as (? & ? & H)); injection H as <- <-;
  repeat match goal with
  | H : put_u16_count _ = Ok _ |- _ => apply put_u16_inv in H as [-> ?]
  end.

Lemma target_codec t rest ty : Front.get_target ty (be_bytes 1 (target_tag t) ++ rest) = (Ok t, rest).
Proof. unfold Front.get_target, get_u8. erewrite sbind_ok by (apply get_uint_app; destruct t; cbn; lia). by destruct t. Qed.

Lemma status_codec s rest ty : Back.get_status ty (be_bytes 1 (status_tag s) ++ rest) = (Ok s, rest).
Proof. unfold Back.get_status, get_u8. erewrite sbind_ok by (apply get_uint_app; destruct s; cbn; lia). by destruct s. Qed.

Lemma front_reads m ty p : wf_front m -> Front.encode_parts m = Ok (ty, p) -> fst (Front.read ty p) = Ok m.
Proof.
  destruct m; cbn [wf_front Front.encode_parts]; intros Hwf H; destruct_and? Hwf; wire_invert H; try reflexivity;
    match goal with |- fst (Front.read _ ?p) = _ => rewrite <- (app_nil_r p) end; unfold Front.read; wire_arm;
    rewrite <- ?app_assoc; try (erewrite sbind_ok by apply target_codec); repeat wire_step; try reflexivity.
Qed.

Lemma back_reads m ty p : wf_back m -> Back.encode_parts m = Ok (ty, p) -> fst (Back.read ty p) = Ok m.
Proof.
  destruct m; cbn [wf_back Back.encode_parts]; intros Hwf H; destruct_and? Hwf; wire_invert H; try reflexivity;
    match goal with |- fst (Back.read _ ?p) = _ => rewrite <- (app_nil_r p) end; unfold Back.read; wire_arm; unfold Back.read_auth;
    rewrite <- ?app_assoc; try (erewrite sbind_ok by apply status_codec); repeat wire_step; try reflexivity.
Qed.

(** ** What can be sent *)

Definition small (s : bytes) : bool := Z.of_nat (length s) <=? U32_MAX.
Definition few {A} (l : list A) : bool := Z.of_nat (length l) <=? U16_MAX.

(** A writer succeeds exactly when the sizes fit their prefixes, and says so otherwise. *)
Definition sends {A} (r : wire A) (fits : bool) : Prop := if fits then exists x, r = Ok x else r = Err FieldTooLarge.

Lemma sends_ret {A} (x : A) : sends (Ok x) true.
Proof. by exists x. Qed.

Lemma sends_bind {A B} (r : wire A) (k : A -> wire B) b c : sends r b -> (forall x, sends (k x) c) -> sends (rbind r k) (b && c).
Proof. intros Hr Hk. destruct b; cbn in *; [destruct Hr as [x ->]; apply Hk|by rewrite Hr]. Qed.

Lemma sends_data s : sends (put_data s) (small s).
Proof. unfold put_data, put_u32_len. unfold small. destruct (_ <=? _); [by eexists|done]. Qed.

Lemma sends_count {A} (l : list A) : sends (put_u16_count (length l)) (few l).
Proof. unfold put_u16_count, few. destruct (_ <=? _); [by eexists|done]. Qed.

Lemma sends_each {A} (put : A -> wire bytes) (fits : A -> bool) l : (forall a, sends (put a) (fits a)) -> sends (put_each put l) (forallb fits l).
Proof.
  intros H. induction l as [|a l IH]; cbn; [apply sends_ret|]. apply sends_bind; [done|]. intros b. rewrite <- (andb_true_r (forallb fits l)).
  apply sends_bind; [done|]. intros r. apply sends_ret.
Qed.

Lemma sends_counted {A} (put : A -> wire bytes) (fits : A -> bool) l : (forall a, sends (put a) (fits a)) -> sends (put_counted put l) (few l && forallb fits l).
Proof.
  intros H. apply sends_bind; [apply sends_count|]. intros c. rewrite <- (andb_true_r (forallb fits l)). apply sends_bind; [by apply sends_each|]. intros. apply sends_ret.
Qed.

Definition small_field (f : option bytes) : bool := match f with Some b => small b | None => true end.
Lemma sends_field f : sends (put_field f) (small_field f).
Proof. destruct f as [b|]; [|apply sends_ret]. cbn. rewrite <- (andb_true_r (small b)). apply sends_bind; [apply sends_data|]. intros. apply sends_ret. Qed.

Lemma sends_typed c : sends (Back.put_typed c) (small c.1).
Proof. rewrite <- (andb_true_r (small c.1)). apply sends_bind; [apply sends_data|]. intros. apply sends_ret. Qed.

Lemma few_codes (l : list Z) : sends (put_counted (fun code => Ok (be_bytes 2 code)) l) (few l).
Proof.
  replace (few l) with (few l && forallb (fun _ => true) l); [apply sends_counted; intros; apply sends_ret|].
  replace (forallb (fun _ => true) l) with true; [apply andb_true_r|]. by induction l.
Qed.

Definition each_fits {A} (fits : A -> bool) (l : list A) : bool := few l && forallb fits l.

Lemma sends_all {A} (put : A -> wire bytes) (fits : A -> bool) l : (forall a, sends (put a) (fits a)) -> sends (put_counted put l) (each_fits fits l).
Proof. apply sends_counted. Qed.

Lemma sends_fields l : sends (put_fields l) (each_fits small_field l).
Proof. apply sends_all, sends_field. Qed.

Definition front_fits (m : Front.FrontendMessage) : bool :=
  match m with
  | Front.Startup _ _ a b | Front.SaslInitialResponse a b => small a && small b
  | Front.Query s | Front.CopyFail s | Front.Describe _ s | Front.Close _ s | Front.Execute s _ => small s
  | Front.Parse a b types => small a && small b && few types
  | Front.Bind a b params formats => small a && small b && each_fits small_field params && few formats
  | _ => true
  end.

Definition back_fits (m : Back.BackendMessage) : bool :=
  match m with
  | Back.AuthSasl l | Back.RowDescription l => each_fits small l
  | Back.ParameterStatus a b | Back.Error a b | Back.NotificationResponse _ a b => small a && small b
  | Back.CommandComplete s => small s
  | Back.RowDescriptionTyped l => each_fits (fun c => small c.1) l
  | Back.DataRow l => each_fits small_field l
  | Back.NoticeResponse a b c => small a && small b && small c
  | _ => true
  end.

Create HintDb wire.
#[export] Hint Resolve sends_data sends_count sends_all sends_fields sends_field sends_typed few_codes sends_ret : wire.

Lemma sends_str s : sends (put_str s) (small s).
Proof. apply sends_data. Qed.
#[export] Hint Resolve sends_str : wire.

Ltac wire_sends := rewrite <- ?andb_assoc; repeat first
  [ apply sends_ret | (apply sends_bind; [solve [auto with wire]|intros ?])
  | match goal with |- sends _ ?b => rewrite <- (andb_true_r b); apply sends_bind; [solve [auto with wire]|intros ?] end ].

Lemma front_sends m : sends (Front.encode_parts m) (front_fits m).
Proof. destruct m; cbn [Front.encode_parts front_fits]; wire_sends. Qed.

Lemma back_sends m : sends (Back.encode_parts m) (back_fits m).
Proof. destruct m; cbn [Back.encode_parts back_fits]; wire_sends. Qed.

(** ** Frames *)

Definition frame_len (f : Frame) : Z := Z.of_nat (length (payload f)) + HEADER_LEN.
Definition wf_frame (f : Frame) : Prop := u8 (message_type f) /\ frame_len f <= MAX_FRAME_LEN.

Lemma frame_bytes f : exists t l, frame_encode f = t :: l ++ payload f /\ b2z t = message_type f mod 256 /\ length l = 4%nat /\ be_val l = frame_len f mod 2 ^ 32.
Proof.
  unfold frame_encode. exists (z2b (message_type f)), (be_bytes 4 (frame_len f mod 2 ^ 32)). split_and!; [done|apply b2z_z2b|apply be_bytes_length|].
  apply be_val_bytes. change (256 ^ Z.of_nat 4) with (2 ^ 32). by apply Z.mod_pos_bound.
Qed.

Lemma be_val_one b : be_val [b] = b2z b.
Proof. unfold be_val. change (reverse [b]) with [b]. Transparent le_val. cbn [le_val]. lia. Opaque le_val. Qed.

(** Decoding a buffer that starts with a header. *)
Lemma frame_decode_header t l body : length l = 4%nat ->
  frame_decode (t :: l ++ body) =
  (let total := be_val l in
   if total <? 5 then Err (MalformedFrame total)
   else if MAX_FRAME_LEN <? total then Err (FrameTooLarge total)
   else if Z.of_nat (length body) + 5 <? total then Ok None
   else let n := Z.to_nat (total - 5) in Ok (Some (MkFrame (b2z t) (take n body), drop n body))).
Proof.
  intros Hl. unfold frame_decode, HEADER_LEN. assert (Z.of_nat (length (t :: l ++ body)) = Z.of_nat (length body) + 5) as -> by (cbn; rewrite length_app, Hl; lia).
  assert ((Z.of_nat (length body) + 5 <? 5) = false) as -> by (apply Z.ltb_ge; pose proof (Nat2Z.is_nonneg (length body)); lia). cbn [drop]. change (drop 0 ?x) with x. rewrite take_app_length' by done.
  replace (drop 4 (l ++ body)) with body by (by rewrite drop_app_length' by done). change (take 1 (t :: l ++ body)) with [t]. rewrite be_val_one. done.
Qed.

(** A buffer that holds the start of a stream of frames decodes the first frame once it is whole, and waits before. *)
Lemma frame_decode_stream f buf more rest : wf_frame f -> buf ++ more = frame_encode f ++ rest ->
  frame_decode buf = if Z.of_nat (length buf) <? frame_len f then Ok None else Ok (Some (f, drop (length (frame_encode f)) buf)).
Proof.
  intros [Ht Hl] E. destruct (frame_bytes f) as (t & l & Ef & Et & Ll & Lv). unfold frame_len, MAX_FRAME_LEN, HEADER_LEN in *.
  rewrite Z.mod_small in Lv by (change (2 ^ 32) with 4294967296; lia). rewrite Z.mod_small in Et by exact Ht.
  destruct (Z.ltb_spec (Z.of_nat (length buf)) 5) as [Hs|Hs].
  { unfold frame_decode, HEADER_LEN. assert ((Z.of_nat (length buf) <? 5) = true) as -> by lia.
    assert ((Z.of_nat (length buf) <? Z.of_nat (length (payload f)) + 5) = true) as -> by lia. done. }
  rewrite Ef in *. cbn in E. destruct buf as [|t' buf]; [cbn [length] in Hs; lia|]. cbn in E. injection E as -> E. rewrite <- app_assoc in E.
  assert (buf = l ++ drop 4 buf) as Eb.
  { rewrite <- (take_drop 4 buf) at 1. f_equal. apply (f_equal (take 4)) in E. rewrite take_app_le in E by (cbn [length] in Hs; lia). by rewrite take_app_length' in E by done. }
  set (body := drop 4 buf) in *. rewrite Eb in E. rewrite <- app_assoc in E. apply app_inv_head in E.
  rewrite Eb, frame_decode_header, Lv by done. cbv zeta. unfold MAX_FRAME_LEN.
  assert ((Z.of_nat (length (payload f)) + 5 <? 5) = false) as -> by lia. assert ((268435456 <? Z.of_nat (length (payload f)) + 5) = false) as -> by lia.
  assert (Z.of_nat (length (t :: l ++ body)) = Z.of_nat (length body) + 5) as -> by (cbn; rewrite length_app, Ll; lia).
  destruct (Z.ltb_spec (Z.of_nat (length body) + 5) (Z.of_nat (length (payload f)) + 5)); [done|].
  replace (Z.to_nat (Z.of_nat (length (payload f)) + 5 - 5)) with (length (payload f)) by lia.
  assert (take (length (payload f)) body = payload f) as Ep.
  { apply (f_equal (take (length (payload f)))) in E. rewrite take_app_le in E by lia. by rewrite take_app_length in E. }
  rewrite Ep, Et. destruct f as [ty pl]. cbn [message_type payload] in *. do 3 f_equal.
  change (length (t :: l ++ pl)) with (S (length (l ++ pl))). cbn [drop]. by rewrite length_app, Ll, <- drop_drop, drop_app_length' by done.
Qed.

(** ** The connection *)

Definition stream (fs : list Frame) : bytes := concat (frame_encode <$> fs).

Lemma stream_cons f fs : stream (f :: fs) = frame_encode f ++ stream fs.
Proof. done. Qed.

Lemma flush_sent c : sent (flush_now c) = sent c ++ out c /\ out (flush_now c) = [] /\ buf (flush_now c) = buf c /\ incoming (flush_now c) = incoming c.
Proof. unfold flush_now. destruct c as [i s b [|x o]]; cbn; rewrite ?app_nil_r; done. Qed.

Lemma write_frame_stream f c : sent (write_frame f c) ++ out (write_frame f c) = (sent c ++ out c) ++ frame_encode f.
Proof.
  unfold write_frame. case_match; cbn; [|by rewrite app_assoc]. match goal with |- sent (flush_now ?x) ++ _ = _ => destruct (flush_sent x) as (-> & -> & _) end.
  cbn. by rewrite app_nil_r, app_assoc.
Qed.

Lemma write_frames_stream fs c : let c' := foldl (fun c f => write_frame f c) c fs in sent c' ++ out c' = (sent c ++ out c) ++ stream fs.
Proof.
  revert c. induction fs as [|f fs IH]; intros c; cbn [foldl]; [unfold stream; cbn; by rewrite app_nil_r|].
  cbv zeta in *. rewrite IH, write_frame_stream. unfold stream. cbn. by rewrite <- !app_assoc.
Qed.

Lemma frame_encode_length f : Z.of_nat (length (frame_encode f)) = frame_len f.
Proof. destruct (frame_bytes f) as (t & l & -> & _ & Hl & _). cbn. rewrite length_app, Hl. unfold frame_len, HEADER_LEN. lia. Qed.

(** One read of a stream of frames: the next frame, or the clean end; whatever was queued is sent before a wait. *)
Lemma read_loop_stream chunks : forall c fs, Forall wf_frame fs -> Forall (fun ch => ch <> []) chunks -> buf c ++ concat chunks = stream fs ->
  exists c', read_loop chunks c = (match fs with [] => Ok None | f :: _ => Ok (Some f) end, c') /\
    Forall (fun ch => ch <> []) (incoming c') /\ buf c' ++ concat (incoming c') = stream (tail fs) /\ sent c' ++ out c' = sent c ++ out c /\
    (out c = [] \/ frame_decode (buf c) = Ok None -> out c' = []).
Proof.
  induction chunks as [|ch chunks IH]; intros c fs Hf Hc E.
  - cbn in E. rewrite app_nil_r in E. cbn [read_loop]. destruct fs as [|f fs].
    + cbn in E. rewrite E. cbn. destruct (flush_sent c) as (Hs & Ho & Hb & _). rewrite Hb, E. rewrite decide_True by done.
      eexists. split; [done|]. cbn. rewrite Hs, Ho, app_nil_r. split_and!; done.
    + apply Forall_cons in Hf as [Hf Hfs]. assert (frame_decode (buf c) = Ok (Some (f, stream fs))) as D.
      { rewrite (frame_decode_stream f (buf c) [] (stream fs)) by (done || by rewrite app_nil_r, E). rewrite E, stream_cons, drop_app_length.
        assert ((Z.of_nat (length (frame_encode f ++ stream fs)) <? frame_len f) = false) as ->; [|done]. apply Z.ltb_ge. rewrite length_app, Nat2Z.inj_add, frame_encode_length. lia. }
      rewrite D. eexists. split; [done|]. cbn. rewrite app_nil_r. split_and!; try done. by intros [?|?].
  - apply Forall_cons in Hc as [Hch Hc]. cbn [concat] in E. cbn [read_loop].
    assert (frame_decode (buf c) = Ok None \/ exists f fs', fs = f :: fs' /\ frame_decode (buf c) = Ok (Some (f, drop (length (frame_encode f)) (buf c))) /\ (length (frame_encode f) <= length (buf c))%nat) as [D|(f & fs' & -> & D & L)].
    { destruct fs as [|f fs]; [left; cbn in E; apply app_nil in E as [-> _]; done|]. apply Forall_cons in Hf as [Hf _].
      rewrite (frame_decode_stream f (buf c) (ch ++ concat chunks) (stream fs)) by done. destruct (Z.ltb_spec (Z.of_nat (length (buf c))) (frame_len f)); [by left|].
      right. exists f, fs. rewrite <- frame_encode_length in *. split_and!; done || lia. }
    + rewrite D. destruct (flush_sent c) as (Hs & Ho & Hb & _). destruct ch as [|x ch]; [done|].
      destruct (IH (MkConn chunks (sent (flush_now c)) (buf (flush_now c) ++ x :: ch) (out (flush_now c))) fs Hf Hc) as (c' & R & I1 & I2 & I3 & I4).
      { cbn [buf]. rewrite Hb, <- app_assoc. exact E. }
      exists c'. split; [exact R|]. cbn [sent out] in I3. rewrite Hs, Ho, app_nil_r in I3. split_and!; try done.
      intros _. apply I4. left. exact Ho.
    + rewrite D. eexists. split; [done|]. cbn. split_and!; try done; [by apply Forall_cons| |by intros [?|?]].
      rewrite <- (take_drop (length (frame_encode f)) (buf c)) in E. rewrite stream_cons, <- app_assoc in E.
      apply app_inj_1 in E as [_ E]; [exact E|]. rewrite length_take. lia.
Qed.

Fixpoint read_frames (n : nat) (c : Connection) : list (res ReadError (option Frame)) :=
  match n with
  | O => []
  | S n => let '(r, c) := read_frame c in r :: read_frames n c
  end.

Lemma read_frames_stream fs : forall c, Forall wf_frame fs -> Forall (fun ch => ch <> []) (incoming c) -> buf c ++ concat (incoming c) = stream fs ->
  read_frames (S (length fs)) c = ((fun f => Ok (Some f)) <$> fs) ++ [Ok None].
Proof.
  induction fs as [|f fs IH]; intros c Hf Hc E; destruct (read_loop_stream (incoming c) c _ Hf Hc E) as (c' & R & I1 & I2 & _).
  - cbn [read_frames length]. unfold read_frame. by rewrite R.
  - cbn [length]. change (read_frames (S (S (length fs))) c) with (let '(r, c) := read_frame c in r :: read_frames (S (length fs)) c). unfold read_frame. rewrite R.
    cbn [fmap list_fmap app]. f_equal. apply IH; [by apply Forall_cons in Hf as [_ ?]|done|exact I2].
Qed.

(** ** The theorems *)

(** C23: Messages survive the wire. A message of either direction encodes exactly
    when its strings and counts fit their prefixes, and is otherwise reported as
    too large; decoding its frame gives it back. *)
Theorem message_roundtrip :
  (forall m, match Front.encode m with
             | Ok f => front_fits m = true /\ u8 (message_type f) /\ (wf_front m -> Front.decode f = Ok m)
             | Err e => front_fits m = false /\ e = FieldTooLarge
             | _ => False
             end) /\
  (forall m, match Back.encode m with
             | Ok f => back_fits m = true /\ u8 (message_type f) /\ (wf_back m -> Back.decode f = Ok m)
             | Err e => back_fits m = false /\ e = FieldTooLarge
             | _ => False
             end).
Proof.
  split; intros m.
  - pose proof (front_sends m) as S. unfold Front.encode. destruct (front_fits m); cbn in S; [destruct S as [[ty p] S]|by rewrite S]. rewrite S. cbn. split_and!; [done| |by intros; apply front_reads].
    destruct m; cbn [Front.encode_parts] in S; wire_invert S; by vm_compute.
  - pose proof (back_sends m) as S. unfold Back.encode. destruct (back_fits m); cbn in S; [destruct S as [[ty p] S]|by rewrite S]. rewrite S. cbn. split_and!; [done| |by intros; apply back_reads].
    destruct m; cbn [Back.encode_parts] in S; wire_invert S; by vm_compute.
Qed.

(** C24: A connection delivers what was written. Frames of at most 256 MiB written
    to a connection and flushed, the queue passing its threshold or not, arrive on
    the other side in order and then a clean end, however the bytes are cut into
    reads; and when a read has to wait, everything queued for the peer has been
    sent. A longer frame is refused by the reader, and one of more than 4 GiB is
    written with a wrapped length and read as another frame. *)
Theorem connection_delivers fs chunks c :
  Forall wf_frame fs -> Forall (fun ch => ch <> []) chunks ->
  let sender := flush_now (foldl (fun c f => write_frame f c) (MkConn [] [] [] []) fs) in
  (concat chunks = sent sender -> read_frames (S (length fs)) (MkConn chunks [] [] []) = ((fun f => Ok (Some f)) <$> fs) ++ [Ok None]) /\
  out sender = [] /\
  (buf c ++ concat (incoming c) = stream fs -> Forall (fun ch => ch <> []) (incoming c) -> frame_decode (buf c) = Ok None ->
     out (snd (read_frame c)) = [] /\ sent (snd (read_frame c)) = sent c ++ out c) /\
  (forall f rest, MAX_FRAME_LEN < frame_len f < 2 ^ 32 -> frame_decode (frame_encode f ++ rest) = Err (FrameTooLarge (frame_len f))) /\
  (forall f rest, frame_len f = 2 ^ 32 + 5 -> frame_decode (frame_encode f ++ rest) = Ok (Some (MkFrame (message_type f mod 256) [], payload f ++ rest))).
Proof.
  intros Hf Hc sender. pose proof (write_frames_stream fs (MkConn [] [] [] [])) as W. cbv zeta in W. cbn [sent out app] in W.
  unfold sender. set (c0 := foldl _ _ _) in *. destruct (flush_sent c0) as (Hs & Ho & _). split_and!; [|done|..].
  - intros E. apply read_frames_stream; [done|done|]. cbn [buf incoming app]. by rewrite E, Hs, W.
  - intros E Hi D. unfold read_frame. destruct (read_loop_stream (incoming c) c fs Hf Hi E) as (c' & R & _ & _ & I3 & I4). rewrite R. cbn.
    rewrite I4 in * by (by right). by rewrite app_nil_r in I3.
  - intros f rest Hl. destruct (frame_bytes f) as (t & l & Ef & _ & Ll & Lv). rewrite Ef. cbn [app]. rewrite <- app_assoc, frame_decode_header, Lv by done. unfold MAX_FRAME_LEN in *.
    rewrite Z.mod_small by lia. cbv zeta. assert ((frame_len f <? 5) = false) as -> by lia. by assert ((268435456 <? frame_len f) = true) as -> by lia.
  - intros f rest Hl. destruct (frame_bytes f) as (t & l & Ef & Et & Ll & Lv). rewrite Ef. cbn [app]. rewrite <- app_assoc, frame_decode_header, Lv by done.
    rewrite Hl. change ((2 ^ 32 + 5) mod 2 ^ 32) with 5. cbv zeta. cbn [Z.ltb Z.compare Pos.compare Pos.compare_cont].
    assert ((MAX_FRAME_LEN <? 5) = false) as -> by done. assert ((Z.of_nat (length (payload f ++ rest)) + 5 <? 5) = false) as -> by (apply Z.ltb_ge; lia).
    cbn. by rewrite Et.
Qed.

Lemma connection_delivers_witness : let f := MkFrame T_SYNC [] in let g := MkFrame T_QUERY (be_bytes 4 0) in
  read_frames 3 (MkConn [[z2b 89]; [z2b 0; z2b 0]; [z2b 0; z2b 5; z2b 81; z2b 0]; [z2b 0; z2b 0; z2b 9; z2b 0; z2b 0; z2b 0; z2b 0]] [] [] []) = [Ok (Some f); Ok (Some g); Ok None].
Proof.
  intros f g. assert (Forall wf_frame [f; g]) as Hf by (repeat constructor; by vm_compute).
  refine (proj1 (connection_delivers [f; g] [[z2b 89]; [z2b 0; z2b 0]; [z2b 0; z2b 5; z2b 81; z2b 0]; [z2b 0; z2b 0; z2b 9; z2b 0; z2b 0; z2b 0; z2b 0]] (MkConn [] [] [] []) Hf _) _).
  - by repeat constructor.
  - by vm_compute.
Defined.

(** The tag of an array column names its element's tag, no other tag does, and every tag sent has a name. *)
Lemma column_tags_exact ty :
  array_element_tag (column_type_tag_v2 ty) = (match ty with Ty.Array e => Some (column_type_tag (column_type e)) | _ => None end) /\
  array_element_tag (column_type_tag ty) = None /\ u8 (column_type_tag_v2 ty) /\ column_type_name (column_type_tag ty) <> "UNKNOWN"%string /\
  column_type_name (column_type_tag_v2 ty) = column_type_name (column_type_tag ty).
Proof. destruct ty; try match goal with e : Elem.ArrayElem |- _ => destruct e end; by vm_compute. Qed.
